(** * Piano fingering planner: pattern recognizer and DP fingering planner

    A shallow embedding of the two analytical layers of the repository:

    - [PatternRecognizer] (layer 1): adaptive windowing, feature
      extraction, the priority-ordered decision tree and the
      post-processing merge;
    - [FingeringPlanner] (layer 2): the rule-based cost model, the
      layered dynamic program, its backtrack, the chunked variant and
      the two-hand merge.

    Numbers.  JavaScript numbers are modelled by exact arithmetic:
    pitches, fingers, indices and measure numbers are integers ([Z]);
    durations, beats, confidences and costs are rationals ([Q]), so
    the division [thumbCrossingPenalty / 3] is exact.  [Infinity] is
    an explicit constructor of [Num].  The program computes in double
    precision; where a statement depends on which totals are equal,
    the costs are taken in double precision as well: see
    [FingeringPlanner64]. *)

From Stdlib Require Import ZArith QArith Qround Qminmax String Ascii DecimalString List Sorted Permutation Bool Lia Lqa.
From Stdlib Require Floats.
Import ListNotations.

Local Open Scope Z_scope.

(** ** Data model (types module) *)

Inductive Hand := RH | LH.

Inductive PatternType :=
| SCALE | ARPEGGIO | REPEATED | LEAP | CHORDAL | MELODIC | UNKNOWN
| ALBERTI | ORNAMENTED | OSTINATO | POLYPHONIC.

Inductive Difficulty := beginner | intermediate | advanced.

Definition Hand_eqb (a b : Hand) : bool :=
  match a, b with RH, RH | LH, LH => true | _, _ => false end.

Definition PatternType_eqb (a b : PatternType) : bool :=
  match a, b with
  | SCALE, SCALE | ARPEGGIO, ARPEGGIO | REPEATED, REPEATED | LEAP, LEAP
  | CHORDAL, CHORDAL | MELODIC, MELODIC | UNKNOWN, UNKNOWN
  | ALBERTI, ALBERTI | ORNAMENTED, ORNAMENTED | OSTINATO, OSTINATO
  | POLYPHONIC, POLYPHONIC => true
  | _, _ => false
  end.

(** The fields of [Note] that the two layers read.  [noteId] stands
    for the object identity of the note ([id] is unique per parsed
    note); it is what [Array.prototype.indexOf] compares. *)
Record Note := mkNote {
  noteId : string;
  pitch : Z;
  duration : Q;
  voice : Z;
  staff : Z;
  hand : Hand;
  measureNumber : Z;
  beat : Q;
  isChord : bool;
  isGrace : bool;
  hasSlur : bool;
  hasTrill : bool;
  hasMordent : bool;
  hasTurn : bool
}.

Inductive Direction := ascending | descending | bidirectional | mixed.
Inductive ScaleType := major | minor | chromatic | pentatonic | modal.
Inductive ChordType :=
  chordMajor | chordMinor | diminished | augmented | dominant7 | major7 | complex.
Inductive RepeatType := single | alternating | pattern.
Inductive OrnamentType := trill | mordent | turn | grace.
Inductive Contour := jagged | arch | valley | linear.
Inductive Style := cantabile | lyrical | expressive | neutral.

Record PatternFeatures := mkFeatures {
  direction : option Direction;
  scaleType : option ScaleType;
  chordType : option ChordType;
  chordRoot : option Z;
  inversion : option Z;
  repeatCount : option Z;
  repeatType : option RepeatType;
  ornamentType : option OrnamentType;
  intervalPattern : option (list Z);
  contour : option Contour;
  style : option Style
}.

Definition noFeatures : PatternFeatures :=
  mkFeatures None None None None None None None None None None None.

Record PatternSegment := mkSegment {
  startIndex : Z;
  endIndex : Z;
  patternType : PatternType;
  confidence : Q;
  features : PatternFeatures
}.

(** A JavaScript number that may be [Infinity]. *)
Inductive Num := Fin (q : Q) | Infinity.

Definition Qlt_bool (x y : Q) : bool := negb (Qle_bool y x).

Definition Num_add (a b : Num) : Num :=
  match a, b with
  | Fin x, Fin y => Fin (x + y)
  | _, _ => Infinity
  end.

(** [q < m] where [m] may be [Infinity]. *)
Definition lt_Num (q : Q) (m : Num) : bool :=
  match m with
  | Infinity => true
  | Fin y => Qlt_bool q y
  end.

Definition Z2Q (z : Z) : Q := inject_Z z.
Coercion Z2Q : Z >-> Q.

(** [arr.slice(a, b)] for [0 <= a]. *)
Definition slice {A} (a b : nat) (l : list A) : list A :=
  firstn (b - a) (skipn a l).

Definition dummyNote : Note :=
  mkNote "" 0 0%Q 0 0 RH 0 0%Q false false false false false false.

(** ** Small array helpers shared by both layers *)

Definition sumQ (l : list Q) : Q := fold_left Qplus l 0%Q.
Definition sumZ (l : list Z) : Z := fold_left Z.add l 0.
Definition lenZ {A} (l : list A) : Z := Z.of_nat (length l).
Definition Qmin2 (a b : Q) : Q := if Qle_bool a b then a else b.
Definition Qmax2 (a b : Q) : Q := if Qle_bool a b then b else a.
Definition Qge_bool (x y : Q) : bool := Qle_bool y x.

(** [Math.max(...l)] and [Math.min(...l)] on a non-empty array. *)
Definition maxList (l : list Z) : Z :=
  match l with [] => 0 | x :: r => fold_left Z.max r x end.
Definition minList (l : list Z) : Z :=
  match l with [] => 0 | x :: r => fold_left Z.min r x end.

(** Insertion-ordered counting [Map]: [m.set(k, (m.get(k) || 0) + 1)]. *)
Fixpoint bump {K} (eqb : K -> K -> bool) (k : K) (m : list (K * Z)) : list (K * Z) :=
  match m with
  | [] => [(k, 1)]
  | (k', c) :: r => if eqb k' k then (k', c + 1) :: r else (k', c) :: bump eqb k r
  end.

Definition countMap {K} (eqb : K -> K -> bool) (keys : list K) : list (K * Z) :=
  fold_left (fun m k => bump eqb k m) keys [].

(** [[...new Set(l)]]: distinct elements in order of first occurrence. *)
Definition distinct {K} (eqb : K -> K -> bool) (l : list K) : list K :=
  map fst (countMap eqb l).

(** [arr.sort((a, b) => a - b)]. *)
Fixpoint insertZ (x : Z) (l : list Z) : list Z :=
  match l with
  | [] => [x]
  | y :: r => if x <? y then x :: y :: r else y :: insertZ x r
  end.
Definition sortZ (l : list Z) : list Z := fold_left (fun acc x => insertZ x acc) l [].

(** [s.includes(needle)]. *)
Fixpoint includes (needle hay : string) : bool :=
  if String.prefix needle hay then true
  else match hay with
       | EmptyString => false
       | String _ rest => includes needle rest
       end.

(** [absIntervals.join(',')] for non-negative integers. *)
Definition showZ (z : Z) : string := NilZero.string_of_uint (N.to_uint (Z.to_N z)).
Definition joinZ (l : list Z) : string := String.concat "," (map showZ l).

(** [notes.indexOf(x)]: object identity is the note's [noteId]. *)
Fixpoint indexOfFrom (k : Z) (notes : list Note) (x : Note) : Z :=
  match notes with
  | [] => -1
  | n :: r => if String.eqb (noteId n) (noteId x) then k else indexOfFrom (k + 1) r x
  end.
Definition indexOf (notes : list Note) (x : Note) : Z := indexOfFrom 0 notes x.

(** ** Layer 1: the pattern recognizer *)

Module PatternRecognizer.

Definition baseWindowSize : nat := 8.

Definition adaptWindowSize (notes : list Note) (startIdx : nat) : nat :=
  let lookAhead := Nat.min 16 (length notes - startIdx) in
  if (lookAhead <? 4)%nat then lookAhead
  else
    let window := slice startIdx (startIdx + lookAhead) notes in
    let totalDuration := fold_left (fun sum n => (sum + duration n)%Q) window 0%Q in
    let avgDuration := (totalDuration / lenZ window)%Q in
    if Qlt_bool avgDuration 0.25 then 16%nat
    else if Qlt_bool avgDuration 0.5 then 12%nat
    else if Qlt_bool 2 avgDuration then 4%nat
    else baseWindowSize.

Fixpoint computeIntervals (pitches : list Z) : list Z :=
  match pitches with
  | a :: ((b :: _) as r) => (b - a) :: computeIntervals r
  | _ => []
  end.

(** [computeEntropy(values) < 0.5].  The entropy itself is a base-2
    logarithm; its only use is this comparison, which is decided
    exactly: with counts [c_1..c_k] of [n] values,
    [H < 1/2  <->  n^(2n) < 2^n * prod c_i^(2 c_i)]. *)
Definition entropyBelowHalf (values : list Z) : bool :=
  let counts := map snd (countMap Z.eqb values) in
  let total := lenZ values in
  total ^ (2 * total) <? 2 ^ total * fold_left (fun acc c => acc * c ^ (2 * c)) counts 1.

Definition computeVariance (values : list Q) : Q :=
  if (length values =? 0)%nat then 0%Q
  else
    let mean := (sumQ values / lenZ values)%Q in
    let squaredDiffs := map (fun v => ((v - mean) * (v - mean))%Q) values in
    (sumQ squaredDiffs / lenZ values)%Q.

Fixpoint countDirectionChanges (intervals : list Z) : Z :=
  match intervals with
  | prev :: ((cur :: _) as r) =>
      (if negb (Z.sgn cur =? Z.sgn prev) && negb (cur =? 0) && negb (prev =? 0)
       then 1 else 0) + countDirectionChanges r
  | _ => 0
  end.

(** [Math.round(x)]: nearest integer, halves upwards.  It is applied
    to the exact product [beat * 100]; the program rounds the double
    product. *)
Definition roundQ (x : Q) : Z := Qfloor (x + (1 # 2)).

Definition beatKey (n : Note) : Q := (roundQ (beat n * 100) / 100)%Q.

Definition computeSimultaneity (notes : list Note) : list Z :=
  map snd (countMap Qeq_bool (map beatKey notes)).

Record ExtractedFeatures := mkExtracted {
  pitches : list Z;
  intervals : list Z;
  pitchRange : Z;
  pitchEntropyBelowHalf : bool;
  ascendingRatio : Q;
  descendingRatio : Q;
  maxInterval : Z;
  avgInterval : Q;
  intervalVariance : Q;
  stepwiseRatio : Q;
  leapRatio : Q;
  directionChanges : Z;
  simultaneity : list Z;
  avgSimultaneity : Q;
  maxSimultaneity : Z;
  durationVariance : Q;
  avgDuration : Q;
  fHasSlur : bool;
  hasOrnament : bool;
  hasGrace : bool;
  fStaff : Z
}.

Definition countIf {A} (f : A -> bool) (l : list A) : Z := lenZ (filter f l).

Definition extractFeatures (notes : list Note) : ExtractedFeatures :=
  let pitches := map pitch notes in
  let intervals := computeIntervals pitches in
  let pitchRange := maxList pitches - minList pitches in
  let ascendingCount := countIf (fun i => 0 <? i) intervals in
  let descendingCount := countIf (fun i => i <? 0) intervals in
  let totalIntervals := if lenZ intervals =? 0 then 1 else lenZ intervals in
  let absIntervals := map Z.abs intervals in
  let nonEmpty := 0 <? lenZ absIntervals in
  let maxInterval := if nonEmpty then maxList absIntervals else 0 in
  let avgInterval :=
    if nonEmpty then (sumZ absIntervals / lenZ absIntervals)%Q else 0%Q in
  let intervalVariance := computeVariance (map Z2Q absIntervals) in
  let stepwiseCount := countIf (fun i => i <=? 2) absIntervals in
  let stepwiseRatio :=
    if nonEmpty then (stepwiseCount / lenZ absIntervals)%Q else 0%Q in
  let leapCount := countIf (fun i => 4 <? i) absIntervals in
  let leapRatio := if nonEmpty then (leapCount / lenZ absIntervals)%Q else 0%Q in
  let directionChanges := countDirectionChanges intervals in
  let simultaneity := computeSimultaneity notes in
  let durations := map duration notes in
  let durationVariance := computeVariance durations in
  let avgDuration := (sumQ durations / lenZ durations)%Q in
  let hasSlur := existsb hasSlur notes in
  let hasOrnament := existsb (fun n => hasTrill n || hasMordent n || hasTurn n) notes in
  let hasGrace := existsb isGrace notes in
  let staff :=
    match notes with
    | n0 :: _ => if staff n0 =? 0 then 1 else staff n0
    | [] => 1
    end in
  mkExtracted pitches intervals pitchRange (entropyBelowHalf pitches)
    (ascendingCount / totalIntervals)%Q (descendingCount / totalIntervals)%Q
    maxInterval avgInterval intervalVariance stepwiseRatio leapRatio
    directionChanges simultaneity
    (sumZ simultaneity / (if lenZ simultaneity =? 0 then 1 else lenZ simultaneity))%Q
    (if 0 <? lenZ simultaneity then maxList simultaneity else 1)
    durationVariance avgDuration hasSlur hasOrnament hasGrace staff.

Record ClassificationResult := mkResult {
  crType : PatternType;
  crConfidence : Q;
  crFeatures : PatternFeatures
}.

Definition withOrnament (o : OrnamentType) : PatternFeatures :=
  mkFeatures None None None None None None None (Some o) None None None.

Fixpoint isAlternatingLoop (intervals : list Z) : bool :=
  match intervals with
  | a :: ((b :: _) as r) =>
      if (2 <? Z.abs a) || negb (a =? - b) then false else isAlternatingLoop r
  | _ => true
  end.

Definition isAlternatingPattern (intervals : list Z) : bool :=
  if (length intervals <? 3)%nat then false else isAlternatingLoop intervals.

Definition detectOrnamented (notes : list Note) (f : ExtractedFeatures)
  : option ClassificationResult :=
  if hasOrnament f || hasGrace f then
    let ornamentType :=
      if existsb hasTrill notes then trill
      else if existsb hasMordent notes then mordent
      else if existsb hasTurn notes then turn
      else grace in
    Some (mkResult ORNAMENTED 1 (withOrnament ornamentType))
  else if Qlt_bool (avgDuration f) 0.125 && (maxInterval f <=? 2) then
    if isAlternatingPattern (intervals f)
    then Some (mkResult ORNAMENTED 0.75 (withOrnament trill))
    else None
  else None.

(** The loop over consecutive groups of four notes. *)
Fixpoint albertiMatches (p : list Z) : Z :=
  match p with
  | p0 :: p1 :: p2 :: p3 :: r =>
      (if (p0 <? p2) && (p2 <? p1) && (Z.abs (p1 - p3) <=? 1) then 1 else 0)
      + albertiMatches r
  | _ => 0
  end.

Definition withRepeatCount (c : Z) : PatternFeatures :=
  mkFeatures None None None None None (Some c) None None None None None.

Definition detectAlberti (notes : list Note) (f : ExtractedFeatures)
  : option ClassificationResult :=
  if negb (fStaff f =? 2) && (60 <=? nth 0 (pitches f) 0) then None
  else if (length notes <? 4)%nat then None
  else
    let groupSize := 4 in
    let matchCount := albertiMatches (map pitch notes) in
    let totalGroups := lenZ notes / groupSize in
    let matchRatio := if 0 <? totalGroups then (matchCount / totalGroups)%Q else 0%Q in
    if Qge_bool matchRatio 0.6
    then Some (mkResult ALBERTI (Qmin2 0.95 (0.6 + matchRatio * 0.35))
                        (withRepeatCount matchCount))
    else None.

Definition arraysEqual (a b : list Z) : bool :=
  if negb (length a =? length b)%nat then false
  else forallb (fun ab => fst ab =? snd ab) (combine a b).

(** The inner loop of [detectOstinato], starting at index [i]. *)
Fixpoint ostinatoRepeats (fuel : nat) (ps : list Z) (patternLen i : nat) : Z :=
  match fuel with
  | O => 0
  | S fuel' =>
      if (i + patternLen <=? length ps)%nat then
        if arraysEqual (firstn patternLen ps) (slice i (i + patternLen) ps)
        then 1 + ostinatoRepeats fuel' ps (patternLen) (i + patternLen)
        else 0
      else 0
  end.

Definition ostinatoFeatures (c : Z) (ip : list Z) : PatternFeatures :=
  mkFeatures None None None None None (Some c) None None (Some ip) None None.

Fixpoint ostinatoLoop (ps : list Z) (lens : list nat) : option ClassificationResult :=
  match lens with
  | [] => None
  | patternLen :: rest =>
      let pat := firstn patternLen ps in
      let repeatCount := ostinatoRepeats (length ps) ps patternLen patternLen in
      if 2 <=? repeatCount
      then Some (mkResult OSTINATO (Qmin2 0.95 (0.7 + repeatCount * 0.05))
                          (ostinatoFeatures (repeatCount + 1) (computeIntervals pat)))
      else ostinatoLoop ps rest
  end.

Definition detectOstinato (notes : list Note) (f : ExtractedFeatures)
  : option ClassificationResult :=
  let hi := Nat.min 8 (length notes / 3) in
  ostinatoLoop (map pitch notes) (seq 2 (hi - 1)).

Definition detectPolyphonic (notes : list Note) (f : ExtractedFeatures)
  : option ClassificationResult :=
  let voices := distinct Z.eqb (map voice notes) in
  if (length voices <? 2)%nat then None
  else
    let voiceArrays :=
      map (fun v => filter (fun n => voice n =? v) notes) voices in
    let beats1 := distinct Qeq_bool (map beat (nth 0 voiceArrays [])) in
    let beats2 := distinct Qeq_bool (map beat (nth 1 voiceArrays [])) in
    let overlap := countIf (fun b => existsb (Qeq_bool b) beats2) beats1 in
    let correlation := (overlap / Z.max (lenZ beats1) (lenZ beats2))%Q in
    if Qlt_bool correlation 0.4
    then Some (mkResult POLYPHONIC 0.8 noFeatures)
    else None.

(** The run-length loop of [detectRepeated]; returns [maxRepeat]. *)
Fixpoint maxRepeatLoop (ps : list Z) (currentRepeat maxRepeat : Z) : Z :=
  match ps with
  | a :: ((b :: _) as r) =>
      if b =? a
      then maxRepeatLoop r (currentRepeat + 1) (Z.max maxRepeat (currentRepeat + 1))
      else maxRepeatLoop r 1 maxRepeat
  | _ => maxRepeat
  end.

Definition repeatFeatures (t : RepeatType) (c : Z) : PatternFeatures :=
  mkFeatures None None None None None (Some c) (Some t) None None None None.

Definition everyIndexed {A} (f : A -> nat -> bool) (l : list A) : bool :=
  forallb (fun xi => f (snd xi) (fst xi)) (combine (seq 0 (length l)) l).

Definition detectRepeated (notes : list Note) (f : ExtractedFeatures)
  : option ClassificationResult :=
  let ps := pitches f in
  let maxRepeat := maxRepeatLoop ps 1 1 in
  if 3 <=? maxRepeat
  then Some (mkResult REPEATED (Qmin2 0.95 (0.7 + maxRepeat * 0.05))
                      (repeatFeatures single maxRepeat))
  else if (4 <=? length ps)%nat then
    let isAlternating :=
      everyIndexed (fun p i => if Nat.even i then p =? nth 0 ps 0 else p =? nth 1 ps 0) ps in
    if isAlternating && negb (nth 0 ps 0 =? nth 1 ps 0)
    then Some (mkResult REPEATED 0.85 (repeatFeatures alternating (lenZ ps / 2)))
    else None
  else None.

Definition pitchClassesOf (ps : list Z) : list Z :=
  sortZ (distinct Z.eqb (map (fun p => Z.rem p 12) ps)).

Definition analyzeChord (ps : list Z) : ChordType * Z * Z :=
  let pitchClasses := pitchClassesOf ps in
  if (length pitchClasses <? 3)%nat then (complex, nth 0 pitchClasses 0, 0)
  else
    let i1 := Z.rem (nth 1 pitchClasses 0 - nth 0 pitchClasses 0 + 12) 12 in
    let i2 := Z.rem (nth 2 pitchClasses 0 - nth 1 pitchClasses 0 + 12) 12 in
    let type :=
      if (i1 =? 4) && (i2 =? 3) then chordMajor
      else if (i1 =? 3) && (i2 =? 4) then chordMinor
      else if (i1 =? 3) && (i2 =? 3) then diminished
      else if (i1 =? 4) && (i2 =? 4) then augmented
      else complex in
    (type, nth 0 pitchClasses 0, 0).

Definition chordFeatures (d : option Direction) (a : ChordType * Z * Z) : PatternFeatures :=
  let '(t, root, inv) := a in
  mkFeatures d None (Some t) (Some root) (Some inv) None None None None None None.

Definition classifyChordal (notes : list Note) (f : ExtractedFeatures)
  : ClassificationResult :=
  mkResult CHORDAL 0.9 (chordFeatures None (analyzeChord (pitches f))).

Definition identifyScaleType (intervals : list Z) : ScaleType :=
  let absIntervals := map Z.abs intervals in
  if forallb (fun i => i =? 1) absIntervals then chromatic
  else
    let pat := joinZ absIntervals in
    if includes "2,2,1,2,2,2,1" pat || includes "2,2,1,2,2,2" pat then major
    else if includes "2,1,2,2,1,2,2" pat || includes "2,1,2,2,2,1" pat then minor
    else if forallb (fun i => (i =? 2) || (i =? 3)) absIntervals then pentatonic
    else modal.

Definition scaleFeatures (d : Direction) (s : ScaleType) : PatternFeatures :=
  mkFeatures (Some d) (Some s) None None None None None None None None None.

Definition classifyScale (notes : list Note) (f : ExtractedFeatures) (d : Direction)
  : ClassificationResult :=
  mkResult SCALE 0.92 (scaleFeatures d (identifyScaleType (intervals f))).

Definition determineDirection (f : ExtractedFeatures) : Direction :=
  if Qlt_bool 0.75 (ascendingRatio f) then ascending
  else if Qlt_bool 0.75 (descendingRatio f) then descending
  else if Qlt_bool 0.5 (ascendingRatio f) && Qlt_bool 0.3 (descendingRatio f)
  then bidirectional
  else mixed.

Definition determineArpeggioDirection (f : ExtractedFeatures) : Direction :=
  let half := (length (intervals f) / 2)%nat in
  let firstHalf := firstn half (intervals f) in
  let secondHalf := skipn half (intervals f) in
  let firstDir := fold_left (fun a b => a + Z.sgn b) firstHalf 0 in
  let secondDir := fold_left (fun a b => a + Z.sgn b) secondHalf 0 in
  if (0 <? firstDir) && (secondDir <? 0) then bidirectional
  else if 0 <? firstDir then ascending
  else if firstDir <? 0 then descending
  else mixed.

Definition belongsToChord (ps : list Z) : bool :=
  let pitchClasses := pitchClassesOf ps in
  if (length pitchClasses <? 3)%nat || (4 <? length pitchClasses)%nat then false
  else
    let pc k := nth k pitchClasses 0 in
    let triad :=
      if (length pitchClasses =? 3)%nat then
        let i1 := Z.rem (pc 1%nat - pc 0%nat + 12) 12 in
        let i2 := Z.rem (pc 2%nat - pc 1%nat + 12) 12 in
        ((i1 =? 4) && (i2 =? 3)) || ((i1 =? 3) && (i2 =? 4))
        || ((i1 =? 3) && (i2 =? 3)) || ((i1 =? 4) && (i2 =? 4))
      else false in
    if triad then true
    else if (length pitchClasses =? 4)%nat then
      let i0 := Z.rem (pc 1%nat - pc 0%nat + 12) 12 in
      let i1 := Z.rem (pc 2%nat - pc 1%nat + 12) 12 in
      (3 <=? i0) && (i0 <=? 4) && (3 <=? i1) && (i1 <=? 4)
    else false.

Definition classifyArpeggio (notes : list Note) (f : ExtractedFeatures)
  : ClassificationResult :=
  let chordAnalysis := analyzeChord (pitches f) in
  let d := determineArpeggioDirection f in
  mkResult ARPEGGIO 0.88 (chordFeatures (Some d) chordAnalysis).

Definition analyzeContour (f : ExtractedFeatures) : Contour :=
  if Qlt_bool (lenZ (intervals f) * 0.5) (directionChanges f) then jagged
  else
    let midpoint := (length (intervals f) / 2)%nat in
    let firstTrend := sumZ (firstn midpoint (intervals f)) in
    let secondTrend := sumZ (skipn midpoint (intervals f)) in
    if (0 <? firstTrend) && (secondTrend <? 0) then arch
    else if (firstTrend <? 0) && (0 <? secondTrend) then valley
    else linear.

Definition leapFeatures (c : Contour) (d : Direction) : PatternFeatures :=
  mkFeatures (Some d) None None None None None None None None (Some c) None.

Definition classifyLeap (notes : list Note) (f : ExtractedFeatures)
  : ClassificationResult :=
  mkResult LEAP 0.8
    (leapFeatures (analyzeContour f)
       (if Qlt_bool 0.6 (ascendingRatio f) then ascending
        else if Qlt_bool 0.6 (descendingRatio f) then descending
        else mixed)).

Definition styleFeatures (s : Style) : PatternFeatures :=
  mkFeatures None None None None None None None None None None (Some s).

Definition classifyMelodic (notes : list Note) (f : ExtractedFeatures)
  : ClassificationResult :=
  let s :=
    if fHasSlur f && Qlt_bool 1 (avgDuration f) then cantabile
    else if Qlt_bool 0.4 (durationVariance f) then expressive
    else if fHasSlur f then lyrical
    else neutral in
  mkResult MELODIC 0.7 (styleFeatures s).

(** The LEAP test of [classifyPattern]. *)
Definition leapTest (notes : list Note) (f : ExtractedFeatures) : bool :=
  (4 <? maxInterval f) && Qlt_bool (lenZ notes * 0.4) (directionChanges f).

(** The tail of the decision tree, from the LEAP test on. *)
Definition classifyFromLeap (notes : list Note) (f : ExtractedFeatures)
  : ClassificationResult :=
  if leapTest notes f then classifyLeap notes f
  else if fHasSlur f || Qlt_bool 0.3 (durationVariance f) then classifyMelodic notes f
  else mkResult UNKNOWN 0.5 noFeatures.

(** The tests that precede the LEAP test; [None] when all of them fail. *)
Definition classifyBeforeLeap (notes : list Note) (f : ExtractedFeatures)
  : option ClassificationResult :=
  match detectOrnamented notes f with
  | Some r => Some r
  | None =>
  match detectAlberti notes f with
  | Some r => Some r
  | None =>
  match detectOstinato notes f with
  | Some r => Some r
  | None =>
  match detectPolyphonic notes f with
  | Some r => Some r
  | None =>
    if Qge_bool (avgSimultaneity f) 2 || (3 <=? maxSimultaneity f)
    then Some (classifyChordal notes f)
    else
      let scale :=
        if Qge_bool (stepwiseRatio f) 0.8 then
          match determineDirection f with
          | mixed => None
          | d => Some (classifyScale notes f d)
          end
        else None in
      match scale with
      | Some r => Some r
      | None =>
        if Qge_bool (leapRatio f) 0.5 && belongsToChord (pitches f)
        then Some (classifyArpeggio notes f)
        else if pitchEntropyBelowHalf f then detectRepeated notes f
        else None
      end
  end end end end.

Definition classifyPattern (notes : list Note) (f : ExtractedFeatures)
  : ClassificationResult :=
  match classifyBeforeLeap notes f with
  | Some r => r
  | None => classifyFromLeap notes f
  end.

(** Post-processing: the left-to-right merge walk. *)
Definition mergeInto (current next : PatternSegment) : PatternSegment :=
  mkSegment (startIndex current) (endIndex next) (patternType current)
            (Qmax2 (confidence current) (confidence next)) (features current).

Definition shouldMerge (current next : PatternSegment) : bool :=
  let currentLength := endIndex current - startIndex current in
  PatternType_eqb (patternType current) (patternType next) || (currentLength <? 3).

Fixpoint postProcessLoop (current : PatternSegment) (rest merged : list PatternSegment)
  : list PatternSegment :=
  match rest with
  | [] => merged ++ [current]
  | next :: rest' =>
      if shouldMerge current next
      then postProcessLoop (mergeInto current next) rest' merged
      else postProcessLoop next rest' (merged ++ [current])
  end.

Definition postProcess (segments : list PatternSegment) (notes : list Note)
  : list PatternSegment :=
  match segments with
  | [] => segments
  | s0 :: rest => postProcessLoop s0 rest []
  end.

(** The windowing loop; [i] grows by at least one per iteration, so
    [length notes] iterations of fuel are enough. *)
Fixpoint windowLoop (fuel : nat) (notes : list Note) (i : nat)
  (segments : list PatternSegment) : list PatternSegment :=
  match fuel with
  | O => segments
  | S fuel' =>
      if (i <? length notes)%nat then
        let windowSize := adaptWindowSize notes i in
        let windowEnd := Nat.min (i + windowSize) (length notes) in
        let window := slice i windowEnd notes in
        if (length window <? 2)%nat then windowLoop fuel' notes (S i) segments
        else
          let f := extractFeatures window in
          let result := classifyPattern window f in
          let seg :=
            mkSegment (indexOf notes (nth 0 window dummyNote))
                      (indexOf notes (nth (length window - 1) window dummyNote))
                      (crType result) (crConfidence result) (crFeatures result) in
          let step := Nat.max 1 (windowSize / 2) in
          windowLoop fuel' notes (i + step) (segments ++ [seg])
      else segments
  end.

Definition rawSegments (notes : list Note) : list PatternSegment :=
  windowLoop (length notes) notes 0 [].

Definition recognizeHandPatterns (notes : list Note) (h : Hand) : list PatternSegment :=
  if (length notes =? 0)%nat then []
  else postProcess (rawSegments notes) notes.

(** Stable sort by [startIndex], as [Array.prototype.sort]. *)
Fixpoint insertSegment (s : PatternSegment) (l : list PatternSegment) : list PatternSegment :=
  match l with
  | [] => [s]
  | t :: r =>
      if startIndex s <? startIndex t then s :: t :: r else t :: insertSegment s r
  end.

Definition sortSegments (l : list PatternSegment) : list PatternSegment :=
  fold_left (fun acc s => insertSegment s acc) l [].

Definition recognizePatterns (notes : list Note) : list PatternSegment :=
  if (length notes =? 0)%nat then []
  else
    let rhNotes := filter (fun n => Hand_eqb (hand n) RH) notes in
    let lhNotes := filter (fun n => Hand_eqb (hand n) LH) notes in
    let rhPatterns := recognizeHandPatterns rhNotes RH in
    let lhPatterns := recognizeHandPatterns lhNotes LH in
    sortSegments (rhPatterns ++ lhPatterns).

End PatternRecognizer.

(** ** Layer 2: the fingering planner *)

Module FingeringPlanner.

Definition Finger := Z.

Record Config := mkConfig {
  thumbCrossingPenalty : Z;
  positionChangePenalty : Z;
  finger4Penalty : Z;
  finger5Penalty : Z;
  stretchPenalty : Z;
  maxComfortableSpan : Z;
  preferSimplePatterns : bool;
  allowThumbOnBlack : bool
}.

Definition getDifficultyConfig (difficultyLevel : Difficulty) : Config :=
  match difficultyLevel with
  | beginner => mkConfig 80 60 15 10 25 5 true false
  | advanced => mkConfig 10 15 0 0 5 9 false true
  | intermediate => mkConfig 30 30 5 5 12 7 false false
  end.

(** The table [naturalSpans], keyed by ["lo-hi"]. *)
Definition naturalSpans (lo hi : Z) : option Z :=
  match lo, hi with
  | 1, 2 => Some 2 | 2, 3 => Some 2 | 3, 4 => Some 1 | 4, 5 => Some 2
  | 1, 3 => Some 4 | 2, 4 => Some 3 | 3, 5 => Some 3
  | 1, 4 => Some 5 | 2, 5 => Some 5
  | 1, 5 => Some 8
  | _, _ => None
  end.

Definition getNaturalSpan (finger1 finger2 : Finger) : Z :=
  match naturalSpans (Z.min finger1 finger2) (Z.max finger1 finger2) with
  | Some v => v
  | None => 0
  end.

Definition isBlackKey (p : Z) : bool :=
  let pitchClass := Z.rem p 12 in
  existsb (Z.eqb pitchClass) [1; 3; 6; 8; 10].

Record CostResult := mkCost { cost : Q; reasons : list string }.

Definition addCost (q : Q) (r : CostResult) : CostResult :=
  mkCost (cost r + q) (reasons r).

Definition pushReason (s : string) (r : CostResult) : CostResult :=
  mkCost (cost r) (reasons r ++ [s]).

Definition pushReasons (ss : list string) (r : CostResult) : CostResult :=
  mkCost (cost r) (reasons r ++ ss).

Record HandPosition := mkPos { anchorPitch : Z; inPosition : bool }.

Definition getExpectedFinger (offset : Z) (h : Hand) : Finger :=
  match h with
  | RH =>
      if offset <=? 0 then 1
      else if offset <=? 2 then 2
      else if offset <=? 4 then 3
      else if offset <=? 6 then 4
      else 5
  | LH =>
      if offset >=? 0 then 1
      else if offset >=? -2 then 2
      else if offset >=? -4 then 3
      else if offset >=? -6 then 4
      else 5
  end.

Definition isNaturalProgression
  (prevFinger currFinger : Finger) (asc : bool) (h : Hand) : bool :=
  let fingerDiff := currFinger - prevFinger in
  match h with
  | RH =>
      if asc && (0 <? fingerDiff) then true
      else if negb asc && (fingerDiff <? 0) then true
      else false
  | LH =>
      if asc && (fingerDiff <? 0) then true
      else if negb asc && (0 <? fingerDiff) then true
      else false
  end.

Definition isThumbCrossing (prevFinger currFinger : Finger) : bool :=
  ((prevFinger =? 1) && (1 <? currFinger))
  || ((1 <? prevFinger) && (currFinger =? 1)).

Definition isFingerCrossing (prevFinger currFinger : Finger) : bool :=
  if (prevFinger =? 1) || (currFinger =? 1) then false else false.

Definition isGoodTransition (table : list (Z * Z)) (prevFinger currFinger : Finger) : bool :=
  existsb (fun ft => (fst ft =? prevFinger) && (snd ft =? currFinger)) table.

Definition computeScaleCost
  (prevFinger currFinger : Finger) (asc : bool) (h : Hand) (config : Config)
  : CostResult :=
  let r := mkCost 0 [] in
  let rhAscending := Hand_eqb h RH && asc in
  let rhDescending := Hand_eqb h RH && negb asc in
  let lhAscending := Hand_eqb h LH && asc in
  let lhDescending := Hand_eqb h LH && negb asc in
  let r :=
    if rhAscending || lhDescending then
      let goodTransitions := [(1, 2); (2, 3); (3, 1); (3, 4); (4, 5); (4, 1)] in
      if isGoodTransition goodTransitions prevFinger currFinger
      then pushReason "Standard scale" (addCost (-25) r) else r
    else r in
  let r :=
    if rhDescending || lhAscending then
      let goodTransitions :=
        [(5, 4); (4, 3); (3, 2); (2, 1); (1, 3); (1, 2); (1, 4)] in
      if isGoodTransition goodTransitions prevFinger currFinger
      then pushReason "Standard scale" (addCost (-25) r) else r
    else r in
  let r :=
    if currFinger =? prevFinger
    then pushReason "Same finger in scale" (addCost 50 r) else r in
  let r :=
    if preferSimplePatterns config then
      if isThumbCrossing prevFinger currFinger then addCost 20 r else r
    else r in
  r.

Definition isGoodArpeggioFingering
  (prevFinger currFinger : Finger) (asc : bool) (h : Hand) : bool :=
  match h with
  | RH =>
      if asc then (prevFinger <? currFinger) || ((3 <=? prevFinger) && (currFinger =? 1))
      else (currFinger <? prevFinger) || ((prevFinger =? 1) && (3 <=? currFinger))
  | LH =>
      if asc then (currFinger <? prevFinger) || ((prevFinger =? 1) && (3 <=? currFinger))
      else (prevFinger <? currFinger) || ((3 <=? prevFinger) && (currFinger =? 1))
  end.

(** First segment satisfying the test, as the [for ... of] loops with
    an early [return]. *)
Definition findSegment (test : PatternSegment -> bool) (patterns : list PatternSegment)
  : option PatternType :=
  option_map patternType (find test patterns).

Definition getPatternContext
  (notes : list Note) (index : nat) (patterns : list PatternSegment) : PatternType :=
  let note := nth index notes dummyNote in
  match findSegment (fun p => (measureNumber note >=? startIndex p)
                              && (measureNumber note <=? endIndex p)) patterns with
  | Some t => t
  | None =>
      match findSegment (fun p => (Z.of_nat index >=? startIndex p)
                                  && (Z.of_nat index <=? endIndex p)) patterns with
      | Some t => t
      | None => UNKNOWN
      end
  end.

Section WithDifficulty.

Variable difficultyLevel : Difficulty.

Definition isBeginner : bool :=
  match difficultyLevel with beginner => true | _ => false end.
Definition isAdvanced : bool :=
  match difficultyLevel with advanced => true | _ => false end.

Definition computeInitialCost
  (finger : Finger) (note : Note) (h : Hand) (pos : HandPosition) (config : Config)
  : CostResult :=
  let r := mkCost 0 [] in
  let offset := pitch note - anchorPitch pos in
  let expectedFinger := getExpectedFinger offset h in
  let r :=
    if finger =? expectedFinger
    then pushReason "Matches position" (addCost (-25) r)
    else let diff := Z.abs (finger - expectedFinger) in addCost (diff * 12) r in
  let r :=
    if isBeginner then
      let r := if finger =? 4 then addCost (finger4Penalty config) r else r in
      let r := if finger =? 5 then addCost (finger5Penalty config) r else r in
      if (finger =? 1) || (finger =? 2) || (finger =? 3) then addCost (-5) r else r
    else r in
  let r :=
    if isBlackKey (pitch note) then
      if (finger =? 1) || (finger =? 5)
      then pushReason "Short finger on black key"
             (addCost (if allowThumbOnBlack config then 10 else 25) r)
      else pushReason "Long finger on black key" (addCost (-8) r)
    else r in
  r.

(** The nine rule blocks of [computeTransitionCost], each a transformer
    of the running [{cost, reasons}] pair. *)
Section Rules.

Variables (prevNote : Note) (prevFinger : Finger) (currNote : Note) (currFinger : Finger).
Variables (patternContext : PatternType) (h : Hand) (pos : HandPosition).
Variables (config : Config) (inScale : bool).

Let interval := pitch currNote - pitch prevNote.
Let absInterval := Z.abs interval.
Let asc := 0 <? interval.
Let fingerDiff := currFinger - prevFinger.

Definition rule1 (r : CostResult) : CostResult :=
  if (currFinger =? prevFinger) && negb (interval =? 0)
  then pushReason "Same finger leap" (addCost (40 + absInterval * 5) r)
  else r.

Definition rule2 (r : CostResult) : CostResult :=
  if interval =? 0 then
    if currFinger =? prevFinger
    then pushReason "Same finger on repeat" (addCost 25 r)
    else pushReason "Good finger change" (addCost (-10) r)
  else r.

Definition rule3 (r : CostResult) : CostResult :=
  if negb (interval =? 0) then
    let naturalProgression := isNaturalProgression prevFinger currFinger asc h in
    if naturalProgression then pushReason "Natural progression" (addCost (-20) r)
    else if isThumbCrossing prevFinger currFinger then
      if inScale || PatternType_eqb patternContext SCALE
      then pushReason "Scale thumb crossing"
             (addCost (thumbCrossingPenalty config / 3)%Q r)
      else pushReason "Thumb crossing" (addCost (thumbCrossingPenalty config) r)
    else if isFingerCrossing prevFinger currFinger
    then pushReason "Finger crossing" (addCost 80 r)
    else r
  else r.

Definition rule4 (r : CostResult) : CostResult :=
  let naturalSpan := getNaturalSpan prevFinger currFinger in
  let overStretch := absInterval - naturalSpan in
  if 0 <? overStretch then
    if maxComfortableSpan config - naturalSpan <? overStretch
    then pushReason "Impossible stretch" (addCost 200 r)
    else
      let r := addCost (overStretch * stretchPenalty config) r in
      if 2 <? overStretch then pushReason "Stretch" r else r
  else r.

Definition rule5 (r : CostResult) : CostResult :=
  if inPosition pos && negb inScale then
    let expectedFinger := getExpectedFinger (pitch currNote - anchorPitch pos) h in
    if currFinger =? expectedFinger then addCost (-15) r
    else let diff := Z.abs (currFinger - expectedFinger) in addCost (diff * 8) r
  else r.

Definition rule6 (r : CostResult) : CostResult :=
  if inScale || PatternType_eqb patternContext SCALE then
    let scaleCost := computeScaleCost prevFinger currFinger asc h config in
    let r := addCost (cost scaleCost) r in
    if (0 <? Z.of_nat (List.length (reasons scaleCost)))
    then pushReasons (reasons scaleCost) r else r
  else r.

Definition rule7 (r : CostResult) : CostResult :=
  if isBlackKey (pitch currNote) then
    if currFinger =? 1
    then pushReason "Thumb on black"
           (addCost (if allowThumbOnBlack config then 15 else 35) r)
    else if currFinger =? 5 then pushReason "Pinky on black" (addCost 20 r)
    else addCost (-5) r
  else r.

Definition rule8 (r : CostResult) : CostResult :=
  if isBeginner then
    let r := if currFinger =? 4 then addCost (finger4Penalty config) r else r in
    let r := if (currFinger =? 5) && negb (isBlackKey (pitch currNote))
             then addCost (finger5Penalty config) r else r in
    if (Z.abs fingerDiff <=? 1) && (absInterval <=? 2)
    then pushReason "Simple transition" (addCost (-10) r) else r
  else if isAdvanced then
    if (5 <? absInterval) && isThumbCrossing prevFinger currFinger
    then addCost (-10) r else r
  else r.

Definition rule9 (r : CostResult) : CostResult :=
  if PatternType_eqb patternContext ARPEGGIO then
    let arpeggioGood := isGoodArpeggioFingering prevFinger currFinger asc h in
    if arpeggioGood then pushReason "Good arpeggio fingering" (addCost (-15) r) else r
  else r.

Definition computeTransitionCost : CostResult :=
  rule9 (rule8 (rule7 (rule6 (rule5 (rule4 (rule3 (rule2 (rule1 (mkCost 0 []))))))))).

End Rules.

(** [detectScaleSegments]: one iteration of the scan over [i >= 1]. *)
Record ScaleSegment := mkScaleSeg { sStart : nat; sEnd : nat; sAscending : bool }.

Record DetectState := mkDetect {
  dSegStart : nat;
  dDirection : Z;
  dStepCount : Z;
  dSegments : list ScaleSegment
}.

Definition detectStep (notes : list Note) (st : DetectState) (i : nat) : DetectState :=
  let interval := pitch (nth i notes dummyNote) - pitch (nth (i - 1) notes dummyNote) in
  let absInterval := Z.abs interval in
  let isStep := (absInterval =? 1) || (absInterval =? 2) in
  let currDir := Z.sgn interval in
  if isStep && ((currDir =? dDirection st) || (dDirection st =? 0)) then
    mkDetect (dSegStart st)
             (if dDirection st =? 0 then currDir else dDirection st)
             (dStepCount st + 1)
             (dSegments st)
  else
    let segs :=
      if 4 <=? dStepCount st
      then dSegments st ++ [mkScaleSeg (dSegStart st) (i - 1) (0 <? dDirection st)]
      else dSegments st in
    mkDetect i (if isStep then currDir else 0) (if isStep then 1 else 0) segs.

Definition detectScaleSegments (notes : list Note) : list ScaleSegment :=
  if (length notes <? 5)%nat then []
  else
    let st := fold_left (detectStep notes) (seq 1 (length notes - 1))
                        (mkDetect 0 0 0 []) in
    if 4 <=? dStepCount st
    then dSegments st ++ [mkScaleSeg (dSegStart st) (length notes - 1) (0 <? dDirection st)]
    else dSegments st.

(** [analyzeHandPositions].  The writes [positions[j] = ...] for
    [segmentStart <= j < i] always start at the current length of
    [positions], so they append. *)
Record PosState := mkPosState {
  pSegmentStart : nat;
  pMinPitch : Z;
  pMaxPitch : Z;
  pPositions : list HandPosition
}.

Definition anchorOf (h : Hand) (minPitch maxPitch : Z) : Z :=
  match h with RH => minPitch | LH => maxPitch end.

Definition positionStep (notes : list Note) (h : Hand) (st : PosState) (i : nat) : PosState :=
  let p := pitch (nth i notes dummyNote) in
  let newMin := Z.min (pMinPitch st) p in
  let newMax := Z.max (pMaxPitch st) p in
  if 8 <? newMax - newMin then
    let anchor := anchorOf h (pMinPitch st) (pMaxPitch st) in
    mkPosState i p p
      (pPositions st ++ repeat (mkPos anchor true) (i - pSegmentStart st))
  else mkPosState (pSegmentStart st) newMin newMax (pPositions st).

Definition analyzeHandPositions (notes : list Note) (h : Hand) : list HandPosition :=
  match notes with
  | [] => []
  | n0 :: _ =>
      let st := fold_left (positionStep notes h) (seq 0 (length notes))
                          (mkPosState 0 (pitch n0) (pitch n0) []) in
      let anchor := anchorOf h (pMinPitch st) (pMaxPitch st) in
      pPositions st ++ repeat (mkPos anchor true) (length notes - pSegmentStart st)
  end.

Definition defaultPos : HandPosition := mkPos 0 true.

(** ** The layered dynamic program *)

Definition fingers : list Finger := [1; 2; 3; 4; 5].

(** One DP cell; [stParent] is the string ["(i-1)-finger"] of the source. *)
Record DPState := mkState {
  stCost : Q;
  stParent : option (nat * Finger);
  stReasons : list string
}.

(** A layer is a [Map] from finger to cell, kept in insertion order. *)
Definition Layer := list (Finger * DPState).

Definition layerGet (f : Finger) (l : Layer) : option DPState :=
  option_map snd (find (fun e => fst e =? f) l).

Record Best := mkBest {
  minCost : Num;
  bestParent : option (nat * Finger);
  bestReasons : list string
}.

(** Body of the inner [for (const fromFinger of fingers)] loop. *)
Definition scanStep (i : nat) (prevLayer : Layer)
  (transitionCost : Finger -> CostResult) (acc : Best) (fromFinger : Finger) : Best :=
  match layerGet fromFinger prevLayer with
  | None => acc
  | Some prevState =>
      let tc := transitionCost fromFinger in
      if Qlt_bool 500 (cost tc) then acc
      else
        let totalCost := (stCost prevState + cost tc)%Q in
        if lt_Num totalCost (minCost acc)
        then mkBest (Fin totalCost) (Some ((i - 1)%nat, fromFinger)) (reasons tc)
        else acc
  end.

Definition inScaleAt (scaleSegments : list ScaleSegment) (i : nat) : bool :=
  existsb (fun seg => (sStart seg <=? i)%nat && (i <=? sEnd seg)%nat) scaleSegments.

Section Forward.

Variables (notes : list Note) (patterns : list PatternSegment) (h : Hand).
Variables (handPositions : list HandPosition) (scaleSegments : list ScaleSegment).
Variable config : Config.

Definition transitionAt (i : nat) (toFinger fromFinger : Finger) : CostResult :=
  computeTransitionCost
    (nth (i - 1) notes dummyNote) fromFinger
    (nth i notes dummyNote) toFinger
    (getPatternContext notes i patterns) h (nth i handPositions defaultPos)
    config (inScaleAt scaleSegments i).

Definition bestFor (i : nat) (prevLayer : Layer) (toFinger : Finger) : Best :=
  fold_left (scanStep i prevLayer (transitionAt i toFinger)) fingers
            (mkBest Infinity None []).

(** Body of the [for (const toFinger of fingers)] loop. *)
Definition layerStep (i : nat) (prevLayer : Layer) (layer : Layer) (toFinger : Finger)
  : Layer :=
  let best := bestFor i prevLayer toFinger in
  match minCost best with
  | Fin c => layer ++ [(toFinger, mkState c (bestParent best) (bestReasons best))]
  | Infinity => layer
  end.

Definition buildLayer (i : nat) (prevLayer : Layer) : Layer :=
  fold_left (layerStep i prevLayer) fingers [].

Definition initialLayer : Layer :=
  map (fun finger =>
         let c := computeInitialCost finger (nth 0 notes dummyNote) h
                    (nth 0 handPositions defaultPos) config in
         (finger, mkState (cost c) None (reasons c)))
      fingers.

Definition forwardStep (dp : list Layer) (i : nat) : list Layer :=
  dp ++ [buildLayer i (nth (i - 1) dp [])].

Definition forwardPass : list Layer :=
  fold_left forwardStep (seq 1 (length notes - 1)) [initialLayer].

End Forward.

Record FingeringState := mkFState {
  noteIndex : nat;
  finger : Finger;
  fsHand : Hand;
  handPosition : Z;
  fsCost : Q;
  fsReasons : list string
}.

Record FingeringSolution := mkSolution {
  fingering : list Finger;
  totalCost : Num;
  path : list FingeringState;
  explanations : list string
}.

Definition emptySolution : FingeringSolution := mkSolution [] (Fin 0) [] [].

(** [reasons.join('; ')]. *)
Definition joinReasons (rs : list string) : string := String.concat "; " rs.

Definition finalStep (acc : Num * Finger) (e : Finger * DPState) : Num * Finger :=
  if lt_Num (stCost (snd e)) (fst acc) then (Fin (stCost (snd e)), fst e) else acc.

Definition bestFinal (lastLayer : Layer) : Num * Finger :=
  fold_left finalStep lastLayer (Infinity, 3).

(** The backward loop, [k] iterations left: the current index is [k - 1]. *)
Fixpoint backtrackLoop (dp : list Layer) (notes : list Note) (h : Hand)
  (k : nat) (currentFinger : Finger)
  (acc : list Finger * list string * list FingeringState)
  : list Finger * list string * list FingeringState :=
  match k with
  | O => acc
  | S i =>
      let '(fing, expl, pth) := acc in
      let state := layerGet currentFinger (nth i dp []) in
      let rs := match state with Some st => stReasons st | None => [] end in
      let c := match state with Some st => stCost st | None => 0%Q end in
      let entry := mkFState i currentFinger h (pitch (nth i notes dummyNote)) c rs in
      let next :=
        match state with
        | Some st => match stParent st with
                     | Some (_, prevFinger) => prevFinger
                     | None => currentFinger
                     end
        | None => currentFinger
        end in
      backtrackLoop dp notes h i next
        (currentFinger :: fing, joinReasons rs :: expl, entry :: pth)
  end.

Definition backtrack (dp : list Layer) (notes : list Note) (h : Hand) : FingeringSolution :=
  let n := length notes in
  let '(minFinalCost, bestFinalFinger) := bestFinal (nth (n - 1) dp []) in
  let '(fing, expl, pth) := backtrackLoop dp notes h n bestFinalFinger ([], [], []) in
  mkSolution fing minFinalCost pth expl.

Definition dpTable (notes : list Note) (patterns : list PatternSegment) (h : Hand)
  : list Layer :=
  forwardPass notes patterns h (analyzeHandPositions notes h)
              (detectScaleSegments notes) (getDifficultyConfig difficultyLevel).

Definition dpOptimization (notes : list Note) (patterns : list PatternSegment) (h : Hand)
  : FingeringSolution :=
  backtrack (dpTable notes patterns h) notes h.

(** ** Chunked optimization *)

Definition chunkSize : nat := 32.
Definition overlapSize : nat := 4.

(** The chunking [for] loop; every iteration advances [i] by 28, so
    [length notes] iterations of fuel are enough. *)
Fixpoint chunkLoop (fuel i : nat) (notes : list Note) : list (list Note) :=
  match fuel with
  | O => []
  | S fuel' =>
      if (i <? length notes)%nat then
        let e := Nat.min (i + chunkSize) (length notes) in
        slice i e notes :: chunkLoop fuel' (i + (chunkSize - overlapSize)) notes
      else []
  end.

Definition makeChunks (notes : list Note) : list (list Note) :=
  chunkLoop (length notes) 0 notes.

Definition collectStep
  (acc : list Finger * list string * Num) (isol : nat * FingeringSolution)
  : list Finger * list string * Num :=
  let '(fing, expl, total) := acc in
  let '(i, sol) := isol in
  if (i =? 0)%nat
  then (fing ++ fingering sol, expl ++ explanations sol, Num_add total (totalCost sol))
  else (fing ++ skipn overlapSize (fingering sol),
        expl ++ skipn overlapSize (explanations sol),
        Num_add total (totalCost sol)).

Definition chunkedOptimization
  (notes : list Note) (patterns : list PatternSegment) (h : Hand) : FingeringSolution :=
  let chunks := makeChunks notes in
  let chunkSolutions := map (fun chunk => dpOptimization chunk patterns h) chunks in
  let '(fing, expl, total) :=
    fold_left collectStep (combine (seq 0 (length chunkSolutions)) chunkSolutions)
              ([], [], Fin 0) in
  mkSolution fing total [] expl.

Definition planHandFingering
  (notes : list Note) (patterns : list PatternSegment) (h : Hand) : FingeringSolution :=
  if (length notes =? 0)%nat then emptySolution
  else if (64 <? length notes)%nat then chunkedOptimization notes patterns h
  else dpOptimization notes patterns h.

(** ** Merging the two hands *)

Definition isRH (n : Note) : bool := Hand_eqb (hand n) RH.
Definition isLH (n : Note) : bool := Hand_eqb (hand n) LH.

(** [arr[idx] || 3] *)
Definition fingerOr3 (l : list Finger) (idx : nat) : Finger :=
  match nth_error l idx with
  | Some f => if f =? 0 then 3 else f
  | None => 3
  end.

(** [arr[idx] || ''] *)
Definition stringOrEmpty (l : list string) (idx : nat) : string :=
  match nth_error l idx with
  | Some s => s
  | None => ""
  end.

Record MergeState := mkMerge {
  mFingering : list Finger;
  mExplanations : list string;
  rhIdx : nat;
  lhIdx : nat
}.

Definition mergeStep (rhSolution lhSolution : FingeringSolution)
  (st : MergeState) (note : Note) : MergeState :=
  if isRH note then
    mkMerge (mFingering st ++ [fingerOr3 (fingering rhSolution) (rhIdx st)])
            (mExplanations st ++ [stringOrEmpty (explanations rhSolution) (rhIdx st)])
            (S (rhIdx st)) (lhIdx st)
  else
    mkMerge (mFingering st ++ [fingerOr3 (fingering lhSolution) (lhIdx st)])
            (mExplanations st ++ [stringOrEmpty (explanations lhSolution) (lhIdx st)])
            (rhIdx st) (S (lhIdx st)).

Definition planFingering (notes : list Note) (patterns : list PatternSegment)
  : FingeringSolution :=
  if (length notes =? 0)%nat then emptySolution
  else
    let rhNotes := filter isRH notes in
    let lhNotes := filter isLH notes in
    let rhSolution := planHandFingering rhNotes patterns RH in
    let lhSolution := planHandFingering lhNotes patterns LH in
    let st := fold_left (mergeStep rhSolution lhSolution) notes (mkMerge [] [] 0 0) in
    mkSolution (mFingering st)
               (Num_add (totalCost rhSolution) (totalCost lhSolution))
               (path rhSolution ++ path lhSolution)
               (mExplanations st).

End WithDifficulty.

End FingeringPlanner.


(** ** Specification-level definitions used by the theorems *)

(** A left-to-right scan keeping the first strict minimum: the shape
    shared by the predecessor loop of the forward pass and the
    final-finger loop of the backtrack. *)
Section ArgStep.

Variables (A B : Type).
Variable value : A -> option Q.
Variable pack : A -> Q -> B.
Variable minOf : B -> Num.

Definition argStep (acc : B) (x : A) : B :=
  match value x with
  | None => acc
  | Some c => if lt_Num c (minOf acc) then pack x c else acc
  end.

(** What a scan over [l] returns: nothing was eligible, or the first
    of the eligible elements of least value. *)
Definition scanned (l : list A) (init best : B) : Prop :=
  (best = init /\ forall x, In x l -> value x = None)
  \/ exists l1 x l2 c,
       l = l1 ++ x :: l2 /\ value x = Some c /\ best = pack x c
       /\ (forall y d, In y l1 -> value y = Some d -> (c < d)%Q)
       /\ (forall y d, In y l2 -> value y = Some d -> (c <= d)%Q).

End ArgStep.

Module DP.

Import FingeringPlanner.

Section Table.

Variable level : Difficulty.
Variables (notes : list Note) (patterns : list PatternSegment) (h : Hand).

(** The transition cost the forward pass of [dpOptimization] computes
    at index [i] for the pair (from [g], to [f]). *)
Definition stepCost (i : nat) (f g : Finger) : CostResult :=
  transitionAt level notes patterns h (analyzeHandPositions notes h)
    (detectScaleSegments notes) (getDifficultyConfig level) i f g.

(** The candidate total offered by predecessor [g]: absent when the
    predecessor cell is missing or the step is pruned. *)
Definition candidate (prevLayer : Layer) (i : nat) (f g : Finger) : option Q :=
  match layerGet g prevLayer with
  | None => None
  | Some prevState =>
      if Qlt_bool 500 (cost (stepCost i f g)) then None
      else Some (stCost prevState + cost (stepCost i f g))%Q
  end.

(** Layer [i] of the table, by recursion on [i]. *)
Fixpoint layerAt (i : nat) : Layer :=
  match i with
  | O => initialLayer level notes h (analyzeHandPositions notes h)
           (getDifficultyConfig level)
  | S j => buildLayer level notes patterns h (analyzeHandPositions notes h)
             (detectScaleSegments notes) (getDifficultyConfig level) (S j) (layerAt j)
  end.

End Table.

(** A layer that holds a cell for each of the five fingers, in order. *)
Definition complete (l : Layer) : Prop := map fst l = fingers.

End DP.

(** ** Concrete streams used in examples *)

(** A right-hand note on staff 1, voice 1, lasting one beat, with no
    chord, grace, slur or ornament flag. *)
Definition plainNote (i : string) (p : Z) (m : Z) (b : Q) : Note :=
  mkNote i p 1%Q 1 1 RH m b false false false false false false.

(** The ascending C-major octave, one note per beat. *)
Definition cMajorScale : list Note :=
  [plainNote "note-0" 60 1 0; plainNote "note-1" 62 1 1;
   plainNote "note-2" 64 1 2; plainNote "note-3" 65 1 3;
   plainNote "note-4" 67 1 4; plainNote "note-5" 69 1 5;
   plainNote "note-6" 71 1 6; plainNote "note-7" 72 1 7]%Q.

Module Chunks.

Import FingeringPlanner.

(** Chunk [k] starts at note [28 * k]; there is one chunk for every
    start below the length of the stream. *)
Definition chunkStarts (n : nat) : list nat :=
  map (fun k => (28 * k)%nat) (seq 0 ((n + 27) / 28)).

(** The chunk starting at [s]: at most 32 notes from [s] on. *)
Definition chunkAt (notes : list Note) (s : nat) : list Note :=
  firstn 32 (skipn s notes).

End Chunks.

(** The notes of one hand, in input order, and the position of note
    [i] within its hand's stream. *)
Definition handStream (notes : list Note) (hd : Hand) : list Note :=
  filter (fun n => Hand_eqb (hand n) hd) notes.

Definition handLocalIndex (notes : list Note) (i : nat) : nat :=
  length (handStream (firstn i notes) (hand (nth i notes dummyNote))).

(** A rising chromatic run of [n] right-hand notes from pitch [start],
    one note per beat, each with its own identity. *)
Definition chromaticRun (start : Z) (n : nat) : list Note :=
  map (fun k => plainNote ("note-" ++ showZ (Z.of_nat k)) (start + Z.of_nat k) 1
                          (inject_Z (Z.of_nat k)))
      (seq 0 n).

(** The finger the merge writes at global index [i]: the entry of the
    note's hand solution at the number of earlier notes of that hand. *)
Definition pickFinger (rs ls : FingeringPlanner.FingeringSolution)
  (l : list Note) (i : nat) : FingeringPlanner.Finger :=
  if FingeringPlanner.isRH (nth i l dummyNote)
  then FingeringPlanner.fingerOr3 (FingeringPlanner.fingering rs)
         (length (filter FingeringPlanner.isRH (firstn i l)))
  else FingeringPlanner.fingerOr3 (FingeringPlanner.fingering ls)
         (length (filter (fun n => negb (FingeringPlanner.isRH n)) (firstn i l))).

(** ** Forced pattern contexts and stepwise runs *)

(** A note carrying only a pitch, and the single covering segment that
    forces the pattern context of a stream of [n] notes to [t]. *)
Definition pitchOnly (p : Z) : Note := plainNote "" p 0 0.

Definition forcedContext (t : PatternType) (n : nat) : list PatternSegment :=
  [mkSegment 0 (Z.of_nat n - 1) t 0.5 noFeatures].

(** Strictly ascending by steps of one or two semitones. *)
Definition ascendingSteps (ps : list Z) : Prop :=
  forall i, (S i < length ps)%nat -> 1 <= nth (S i) ps 0 - nth i ps 0 <= 2.

Definition Num_leb (a b : Num) : bool :=
  match a, b with
  | Fin x, Fin y => Qle_bool x y
  | _, Infinity => true
  | Infinity, Fin _ => false
  end.

(** The comparison of the two forced runs on the four-note stream that
    starts at [a] and rises by [d1], [d2], [d3]. *)
Definition scaleNotWorse (level : Difficulty) (a d1 d2 d3 : Z) : bool :=
  Num_leb
    (FingeringPlanner.totalCost
       (FingeringPlanner.dpOptimization level
          (map pitchOnly [a; a + d1; a + d1 + d2; a + d1 + d2 + d3])
          (forcedContext SCALE 4) RH))
    (FingeringPlanner.totalCost
       (FingeringPlanner.dpOptimization level
          (map pitchOnly [a; a + d1; a + d1 + d2; a + d1 + d2 + d3])
          (forcedContext UNKNOWN 4) RH)).

(** ** Segments and windows in examples *)

(** Number of notes of a segment (its bounds are inclusive). *)
Definition noteCount (s : PatternSegment) : Z := endIndex s - startIndex s + 1.

(** Twelve right-hand eighth notes in 4/4 (one division per eighth):
    the C-major octave filling measure 1, then four octave leaps in
    measure 2. *)
Definition eighth (i : string) (p : Z) (m : Z) (b : Q) : Note :=
  mkNote i p 1%Q 1 1 RH m b false false false false false false.

Definition scaleThenLeaps : list Note :=
  [eighth "note-0" 60 1 0; eighth "note-1" 62 1 0.5;
   eighth "note-2" 64 1 1; eighth "note-3" 65 1 1.5;
   eighth "note-4" 67 1 2; eighth "note-5" 69 1 2.5;
   eighth "note-6" 71 1 3; eighth "note-7" 72 1 3.5;
   eighth "note-8" 60 2 0; eighth "note-9" 72 2 0.5;
   eighth "note-10" 60 2 1; eighth "note-11" 72 2 1.5]%Q.

(** The same notes with every measure number replaced by [m]. *)
Definition withMeasure (m : Z) (n : Note) : Note :=
  mkNote (noteId n) (pitch n) (duration n) (voice n) (staff n) (hand n) m (beat n)
         (isChord n) (isGrace n) (hasSlur n) (hasTrill n) (hasMordent n) (hasTurn n).

(** The lookup the planner is specified to do: the type of the first
    segment whose bounds contain the note index. *)
Definition contextByIndex (index : nat) (patterns : list PatternSegment) : PatternType :=
  match find (fun p => (Z.of_nat index >=? startIndex p)
                       && (Z.of_nat index <=? endIndex p)) patterns with
  | Some p => patternType p
  | None => UNKNOWN
  end.

(** A window of eight one-beat notes with three direction changes. *)
Definition zigzagWindow : list Note :=
  [plainNote "note-0" 60 1 0; plainNote "note-1" 67 1 1;
   plainNote "note-2" 62 1 2; plainNote "note-3" 69 1 3;
   plainNote "note-4" 64 1 4; plainNote "note-5" 62 1 5;
   plainNote "note-6" 61 1 6; plainNote "note-7" 59 1 7]%Q.

(** The direction changes of an interval list as the specification
    words them: the number of indices [i >= 1] whose interval and
    predecessor are both nonzero and differ in sign. *)
Definition changeAt (I : list Z) (i : nat) : bool :=
  negb (Z.sgn (nth i I 0) =? Z.sgn (nth (i - 1) I 0))
  && negb (nth i I 0 =? 0) && negb (nth (i - 1) I 0 =? 0).

Definition directionChangesSpec (I : list Z) : Z :=
  Z.of_nat (length (filter (changeAt I) (seq 1 (length I - 1)))).

(** ** Segment lists *)

(** Consecutive segments of a list: starts strictly increase, and a
    segment starts no later than one past the end of its predecessor
    (it may start before that end: the two then overlap). *)
Fixpoint linked (l : list PatternSegment) : Prop :=
  match l with
  | a :: ((b :: _) as r) =>
      startIndex a < startIndex b <= endIndex a + 1 /\ linked r
  | _ => True
  end.

(** Some segment of the list contains the index [x]. *)
Definition covers (l : list PatternSegment) (x : Z) : Prop :=
  exists s, In s l /\ startIndex s <= x <= endIndex s.

(** Two segments share an index. *)
Definition overlap (a b : PatternSegment) : Prop :=
  exists x, startIndex a <= x <= endIndex a /\ startIndex b <= x <= endIndex b.

(** Bounds of a segment within [lo, hi]. *)
Definition within (lo hi : Z) (s : PatternSegment) : Prop :=
  lo <= startIndex s /\ startIndex s <= endIndex s /\ endIndex s <= hi.

Definition dummySegment : PatternSegment := mkSegment 0 0 UNKNOWN 0 noFeatures.

Module Walk.

Import PatternRecognizer.

(** The segments the windowing loop appends from cursor [i] on. *)
Fixpoint windowsFrom (fuel : nat) (notes : list Note) (i : nat) : list PatternSegment :=
  match fuel with
  | O => []
  | S fuel' =>
      if (i <? length notes)%nat then
        let windowSize := adaptWindowSize notes i in
        let windowEnd := Nat.min (i + windowSize) (length notes) in
        let window := slice i windowEnd notes in
        if (length window <? 2)%nat then windowsFrom fuel' notes (S i)
        else
          let f := extractFeatures window in
          let result := classifyPattern window f in
          mkSegment (indexOf notes (nth 0 window dummyNote))
                    (indexOf notes (nth (length window - 1) window dummyNote))
                    (crType result) (crConfidence result) (crFeatures result)
          :: windowsFrom fuel' notes (i + Nat.max 1 (windowSize / 2))
      else []
  end.

(** What the merge walk emits from the running segment [current] on. *)
Fixpoint walk (current : PatternSegment) (rest : list PatternSegment)
  : list PatternSegment :=
  match rest with
  | [] => [current]
  | next :: rest' =>
      if shouldMerge current next
      then walk (mergeInto current next) rest'
      else current :: walk next rest'
  end.

End Walk.

(** A stream of a single note. *)
Definition singleNote : list Note := [plainNote "note-0" 60 1 0].

(** ** Streams the recognizer cannot tell apart *)

(** Two notes with the same pitch, duration, staff and flags: they may
    differ in identity, voice, beat and measure number. *)
Definition sameContent (a b : Note) : Prop :=
  pitch a = pitch b /\ duration a = duration b /\ staff a = staff b
  /\ isGrace a = isGrace b /\ hasSlur a = hasSlur b /\ hasTrill a = hasTrill b
  /\ hasMordent a = hasMordent b /\ hasTurn a = hasTurn b.

(** No two notes share a beat position once rounded to two decimals. *)
Definition beatCents (n : Note) : Z := PatternRecognizer.roundQ (beat n * 100).

Definition distinctBeats (w : list Note) : Prop := NoDup (map beatCents w).

(** All notes carry the same voice tag. *)
Definition singleVoice (w : list Note) : Prop :=
  exists v, Forall (fun n => voice n = v) w.

(** The same eight pitches as quarter notes over two 4/4 measures: the
    beat positions 0..3 occur twice. *)
Definition cMajorTwoMeasures : list Note :=
  [plainNote "note-0" 60 1 0; plainNote "note-1" 62 1 1;
   plainNote "note-2" 64 1 2; plainNote "note-3" 65 1 3;
   plainNote "note-4" 67 2 0; plainNote "note-5" 69 2 1;
   plainNote "note-6" 71 2 2; plainNote "note-7" 72 2 3]%Q.

(** ** The scale example *)

Definition cMajorPitches : list Z := [60; 62; 64; 65; 67; 69; 71; 72].

(** A right-hand note on staff 1, one beat long, without grace, slur or
    ornament flag. *)
Definition plainFlags (n : Note) : Prop :=
  hand n = RH /\ staff n = 1 /\ duration n = 1%Q
  /\ isChord n = false /\ isGrace n = false /\ hasSlur n = false
  /\ hasTrill n = false /\ hasMordent n = false /\ hasTurn n = false.

(** The streams of the scale example: the eight pitches of the
    ascending C major octave, plain notes, one voice. *)
Definition scaleExample (notes : list Note) : Prop :=
  map pitch notes = cMajorPitches /\ Forall plainFlags notes /\ singleVoice notes.

(** The segment the example is expected to yield. *)
Definition cMajorSegment : PatternSegment :=
  mkSegment 0 7 SCALE 0.92
            (PatternRecognizer.scaleFeatures ascending major).

(** ** Layer 3: the fingering renderer *)

(** A [Note] with the further fields the renderer and the store read:
    [fingering?], [isRest], [stem?] and [hasAccent].  The field names
    carry the prefix [n], those of a placement the prefix [p], since
    [fingering], [finger], [hand] and [noteIndex] name fields of other
    records as well. *)
Record ScoreNote := mkScoreNote {
  core : Note;
  nFingering : option Z;
  nIsRest : bool;
  nStem : option string;
  nHasAccent : bool
}.

Module FingeringRenderer.

Definition Finger := Z.

Inductive VerticalPlacement := above | below.

Record PlacementStyle := mkStyle {
  fontSize : string;
  fontWeight : string;
  color : option string
}.

Record FingeringPlacement := mkPlacement {
  pNoteIndex : nat;
  pFinger : option Finger;
  pX : Z;
  pY : Z;
  pPlacement : VerticalPlacement;
  pHand : Hand;
  pStyle : PlacementStyle
}.

(** The table [fingerColors]; a key outside 1..5 reads [undefined]. *)
Definition fingerColors (f : Finger) : option string :=
  match f with
  | 1 => Some "#D32F2F"%string
  | 2 => Some "#F57C00"%string
  | 3 => Some "#1976D2"%string
  | 4 => Some "#388E3C"%string
  | 5 => Some "#7B1FA2"%string
  | _ => None
  end.

Definition determineVerticalPlacement (note : ScoreNote) : VerticalPlacement :=
  if staff (core note) =? 1 then above
  else if staff (core note) =? 2 then below
  else
    match nStem note with
    | Some s =>
        if String.eqb s "up" then above
        else if String.eqb s "down" then below
        else if Hand_eqb (hand (core note)) RH then above else below
    | None => if Hand_eqb (hand (core note)) RH then above else below
    end.

Definition calculateXPosition (note : ScoreNote) (index : nat) : Z :=
  Z.of_nat index * 30 + 50.

Definition calculateYPosition (note : ScoreNote) (placement : VerticalPlacement) : Z :=
  let baseY := 200 - (pitch (core note) - 60) * 5 in
  let offset := match placement with above => -20 | below => 20 end in
  baseY + offset.

(** [note.fingering && ...]: a present, non-zero finger. *)
Definition hasFingering (note : ScoreNote) : bool :=
  match nFingering note with
  | Some f => negb (f =? 0)
  | None => false
  end.

Section WithColorMode.

Variable colorMode : bool.

Definition determineStyle (note : ScoreNote) : PlacementStyle :=
  mkStyle (if isGrace (core note) then "9pt" else "11pt")
          (if nHasAccent note then "600" else "400")
          (if colorMode
           then match nFingering note with Some f => fingerColors f | None => None end
           else Some "#000000"%string).

Definition calculateSinglePlacement (note : ScoreNote) (index : nat) : FingeringPlacement :=
  let placement := determineVerticalPlacement note in
  mkPlacement index (nFingering note)
              (calculateXPosition note index) (calculateYPosition note placement)
              placement (hand (core note)) (determineStyle note).

(** The loop body of [resolveCollisions]: the current placement, moved
    away when it collides with the previous one. *)
Definition resolveStep (prev curr : FingeringPlacement) : FingeringPlacement :=
  let minHorizontalGap := 15 in
  let minVerticalGap := 12 in
  let horizontalDist := Z.abs (pX curr - pX prev) in
  let verticalDist := Z.abs (pY curr - pY prev) in
  if (horizontalDist <? minHorizontalGap) && (verticalDist <? minVerticalGap) then
    let y := match pPlacement curr with
             | above => pY curr - (minVerticalGap - verticalDist)
             | below => pY curr + (minVerticalGap - verticalDist)
             end in
    mkPlacement (pNoteIndex curr) (pFinger curr) (pX curr) y
                (pPlacement curr) (pHand curr) (pStyle curr)
  else curr.

(** The loop over [i >= 1]; [prev] is the entry before, as the loop
    has left it. *)
Fixpoint resolveFrom (prev : FingeringPlacement) (rest : list FingeringPlacement)
  : list FingeringPlacement :=
  match rest with
  | [] => []
  | curr :: rest' =>
      let curr' := resolveStep prev curr in
      curr' :: resolveFrom curr' rest'
  end.

Definition resolveCollisions (placements : list FingeringPlacement)
  : list FingeringPlacement :=
  match placements with
  | [] => []
  | p0 :: rest => p0 :: resolveFrom p0 rest
  end.

(** The [forEach] of [calculatePlacements], from index [index] on. *)
Fixpoint collectPlacements (index : nat) (notes : list ScoreNote)
  : list FingeringPlacement :=
  match notes with
  | [] => []
  | note :: rest =>
      if hasFingering note && negb (nIsRest note)
      then calculateSinglePlacement note index :: collectPlacements (S index) rest
      else collectPlacements (S index) rest
  end.

Definition calculatePlacements (notes : list ScoreNote) : list FingeringPlacement :=
  resolveCollisions (collectPlacements 0 notes).

Definition getFingerColor (finger : Finger) : option string :=
  if colorMode then fingerColors finger else Some "#000000"%string.

End WithColorMode.

Definition getFingerName (finger : Finger) : option string :=
  match finger with
  | 1 => Some "Thumb"%string
  | 2 => Some "Index"%string
  | 3 => Some "Middle"%string
  | 4 => Some "Ring"%string
  | 5 => Some "Pinky"%string
  | _ => None
  end.

End FingeringRenderer.

(** ** The parser's pitch arithmetic *)

Module MusicXMLParser.

(** The table [stepMap]; any other step reads [undefined]. *)
Definition stepMap (step : string) : option Z :=
  if String.eqb step "C" then Some 0
  else if String.eqb step "D" then Some 2
  else if String.eqb step "E" then Some 4
  else if String.eqb step "F" then Some 5
  else if String.eqb step "G" then Some 7
  else if String.eqb step "A" then Some 9
  else if String.eqb step "B" then Some 11
  else None.

(** [(octave + 1) * 12 + stepMap[step] + alter]; [None] when the step
    is not in the table and the sum is not a number. *)
Definition stepToMidi (step : string) (octave alter : Z) : option Z :=
  match stepMap step with
  | Some s => Some ((octave + 1) * 12 + s + alter)
  | None => None
  end.

End MusicXMLParser.

(** ** The application store *)

Module AppStore.

Import FingeringRenderer.

(** The part of the store the fingering pipeline reads and writes; of
    the parsed score only its notes. *)
Record AppState := mkApp {
  parsedScore : option (list ScoreNote);
  patterns : list PatternSegment;
  fingeringSolution : option FingeringPlanner.FingeringSolution;
  placements : list FingeringPlacement;
  colorMode : bool;
  difficultyLevel : Difficulty
}.

(** [notes.forEach((note, i) => { note.fingering = solution.fingering[i] })],
    from index [i] on. *)
Fixpoint applyFingering (i : nat) (fing : list Z) (notes : list ScoreNote)
  : list ScoreNote :=
  match notes with
  | [] => []
  | note :: rest =>
      mkScoreNote (core note) (nth_error fing i) (nIsRest note) (nStem note)
                  (nHasAccent note)
      :: applyFingering (S i) fing rest
  end.

(** [generateFingering], without its toasts and progress flags. *)
Definition generateFingering (st : AppState) : AppState :=
  match parsedScore st with
  | None => st
  | Some notes =>
      let recognizedPatterns := PatternRecognizer.recognizePatterns (map core notes) in
      let solution :=
        FingeringPlanner.planFingering (difficultyLevel st) (map core notes)
                                       recognizedPatterns in
      let notes' := applyFingering 0 (FingeringPlanner.fingering solution) notes in
      mkApp (Some notes') recognizedPatterns (Some solution)
            (calculatePlacements (colorMode st) notes')
            (colorMode st) (difficultyLevel st)
  end.

Definition toggleColorMode (st : AppState) : AppState :=
  let colorMode' := negb (colorMode st) in
  mkApp (parsedScore st) (patterns st) (fingeringSolution st)
        (match parsedScore st with
         | Some notes => calculatePlacements colorMode' notes
         | None => placements st
         end)
        colorMode' (difficultyLevel st).

Definition setDifficultyLevel (level : Difficulty) (st : AppState) : AppState :=
  mkApp (parsedScore st) (patterns st) (fingeringSolution st) (placements st)
        (colorMode st) level.

Definition reset (st : AppState) : AppState :=
  mkApp None [] None [] (colorMode st) (difficultyLevel st).

(** [patternSummary]: the number of segments of each pattern type, the
    keys in order of first occurrence. *)
Definition patternSummary (st : AppState) : list (PatternType * Z) :=
  countMap PatternType_eqb (map patternType (patterns st)).

(** [summary[t]] *)
Definition summaryGet (t : PatternType) (summary : list (PatternType * Z)) : option Z :=
  option_map snd (find (fun e => PatternType_eqb (fst e) t) summary).

Definition noteCount (st : AppState) : nat :=
  match parsedScore st with Some notes => length notes | None => 0%nat end.

Definition hasFingering (st : AppState) : bool :=
  match fingeringSolution st with Some _ => true | None => false end.

End AppStore.

(** ** The cost of a finger sequence *)

Module Path.

Import FingeringPlanner.

Section Cost.

Variable level : Difficulty.
Variables (notes : list Note) (patterns : list PatternSegment) (h : Hand).

(** The cost [dpOptimization] charges for playing the first note with
    finger [f]. *)
Definition initialCost (f : Finger) : Q :=
  cost (computeInitialCost level f (nth 0 notes dummyNote) h
          (nth 0 (analyzeHandPositions notes h) defaultPos)
          (getDifficultyConfig level)).

(** The cost of the fingers [fs] up to index [i]: the initial cost of
    the first finger plus the transition costs of the steps 1..i. *)
Fixpoint costUpTo (fs : list Finger) (i : nat) : Q :=
  match i with
  | O => initialCost (nth 0 fs 0)
  | S j =>
      let step :=
        DP.stepCost level notes patterns h (S j) (nth (S j) fs 0) (nth j fs 0) in
      (costUpTo fs j + cost step)%Q
  end.

Definition pathCost (fs : list Finger) : Q := costUpTo fs (length fs - 1).

(** The rules that fired on the choice made for note [i] of [fs]: those
    of the initial cost for the first note, those of the step from the
    finger before otherwise. *)
Definition stepReasons (fs : list Finger) (i : nat) : list string :=
  match i with
  | O => reasons (computeInitialCost level (nth 0 fs 0) (nth 0 notes dummyNote) h
                    (nth 0 (analyzeHandPositions notes h) defaultPos)
                    (getDifficultyConfig level))
  | S j => reasons (DP.stepCost level notes patterns h (S j) (nth (S j) fs 0) (nth j fs 0))
  end.

(** The state the backtrack records for note [i] of [fs]. *)
Definition stateAt (fs : list Finger) (i : nat) : FingeringState :=
  mkFState i (nth i fs 0) h (pitch (nth i notes dummyNote)) (costUpTo fs i)
           (stepReasons fs i).

(** No step of [fs] is pruned: none costs more than 500. *)
Definition admissible (fs : list Finger) : bool :=
  forallb (fun i => negb (Qlt_bool 500
                            (cost (DP.stepCost level notes patterns h i
                                     (nth i fs 0) (nth (i - 1) fs 0)))))
          (seq 1 (length fs - 1)).

End Cost.

End Path.

(** Two notes the planner cannot tell apart: same pitch, hand and
    measure number. *)
Definition samePlanned (a b : Note) : Prop :=
  pitch a = pitch b /\ hand a = hand b /\ measureNumber a = measureNumber b.

(** ** Hand positions and scale runs *)

(** A pitch within the five-finger span of an anchor: up to 8
    semitones above it for the right hand, below it for the left. *)
Definition anchored (h : Hand) (anchor p : Z) : Prop :=
  match h with
  | RH => 0 <= p - anchor <= 8
  | LH => -8 <= p - anchor <= 0
  end.

(** The move into note [j] is a step of one or two semitones, upwards
    when [asc] and downwards otherwise. *)
Definition stepAt (notes : list Note) (asc : bool) (j : nat) : Prop :=
  let d := pitch (nth j notes dummyNote) - pitch (nth (j - 1) notes dummyNote) in
  if asc then 1 <= d <= 2 else -2 <= d <= -1.

(** A run of at least four notes moving by steps in one direction. *)
Definition scaleRun (notes : list Note) (seg : FingeringPlanner.ScaleSegment) : Prop :=
  (FingeringPlanner.sStart seg + 3 <= FingeringPlanner.sEnd seg < length notes)%nat
  /\ forall j, (FingeringPlanner.sStart seg < j <= FingeringPlanner.sEnd seg)%nat ->
               stepAt notes (FingeringPlanner.sAscending seg) j.

Definition before (a b : FingeringPlanner.ScaleSegment) : Prop :=
  (FingeringPlanner.sEnd a < FingeringPlanner.sStart b)%nat.

(** What holds after the iterations [0..k-1] of the scan of
    [analyzeHandPositions]: the open segment starts at [pSegmentStart],
    its pitches lie between the running minimum and maximum, which are
    at most 8 apart, and every earlier note has its position. *)
Definition positionsInv (notes : list Note) (h : Hand) (k : nat)
  (st : FingeringPlanner.PosState) : Prop :=
  let p j := pitch (nth j notes dummyNote) in
  (FingeringPlanner.pSegmentStart st <= k)%nat
  /\ length (FingeringPlanner.pPositions st) = FingeringPlanner.pSegmentStart st
  /\ FingeringPlanner.pMinPitch st <= FingeringPlanner.pMaxPitch st
     <= FingeringPlanner.pMinPitch st + 8
  /\ (forall j, (FingeringPlanner.pSegmentStart st <= j < k)%nat ->
         FingeringPlanner.pMinPitch st <= p j <= FingeringPlanner.pMaxPitch st)
  /\ (forall j, (j < FingeringPlanner.pSegmentStart st)%nat ->
         let pos := nth j (FingeringPlanner.pPositions st) FingeringPlanner.defaultPos in
         FingeringPlanner.inPosition pos = true
         /\ anchored h (FingeringPlanner.anchorPitch pos) (p j)).

(** What holds after the iterations [1..k-1] of the scan of
    [detectScaleSegments]: the last [dStepCount] moves are steps in the
    direction [dDirection], the open run starts at [dSegStart], and the
    segments pushed so far are scale runs that end before it. *)
Definition scaleScanInv (notes : list Note) (k : nat)
  (st : FingeringPlanner.DetectState) : Prop :=
  let d j := pitch (nth j notes dummyNote) - pitch (nth (j - 1) notes dummyNote) in
  0 <= FingeringPlanner.dStepCount st
  /\ (Z.of_nat k - 1 - FingeringPlanner.dStepCount st
      <= Z.of_nat (FingeringPlanner.dSegStart st)
      <= Z.of_nat k - FingeringPlanner.dStepCount st)
  /\ (FingeringPlanner.dSegStart st < k)%nat
  /\ (FingeringPlanner.dStepCount st = 0 -> FingeringPlanner.dDirection st = 0)
  /\ (0 < FingeringPlanner.dStepCount st ->
      FingeringPlanner.dDirection st = 1 \/ FingeringPlanner.dDirection st = -1)
  /\ (forall j, (FingeringPlanner.dSegStart st < j < k)%nat ->
                1 <= Z.abs (d j) <= 2 /\ Z.sgn (d j) = FingeringPlanner.dDirection st)
  /\ Forall (scaleRun notes) (FingeringPlanner.dSegments st)
  /\ Forall (fun s => (FingeringPlanner.sEnd s < FingeringPlanner.dSegStart st)%nat)
            (FingeringPlanner.dSegments st)
  /\ StronglySorted before (FingeringPlanner.dSegments st).

(** ** Classification results and merged segments *)

(** A classification is either UNKNOWN with confidence one half, or of
    a known type with a confidence between 0.7 and 1. *)
Definition graded (r : PatternRecognizer.ClassificationResult) : Prop :=
  (PatternRecognizer.crType r = UNKNOWN /\ PatternRecognizer.crConfidence r == 0.5)%Q
  \/ (PatternRecognizer.crType r <> UNKNOWN
      /\ 0.7 <= PatternRecognizer.crConfidence r <= 1)%Q.

(** Consecutive segments differ in type, and every segment but the
    last has its end at least three indices past its start. *)
Fixpoint settled (l : list PatternSegment) : Prop :=
  match l with
  | a :: ((b :: _) as r) =>
      patternType a <> patternType b /\ 3 <= endIndex a - startIndex a /\ settled r
  | _ => True
  end.

(** The ornament the recognizer reports for a window: the first kind
    present, in the order trill, mordent, turn, grace. *)
Definition firstOrnament (w : list Note) : OrnamentType :=
  if existsb hasTrill w then trill
  else if existsb hasMordent w then mordent
  else if existsb hasTurn w then turn
  else grace.

(** ** What the recognizer reads of a note *)

(** Two notes the recognizer cannot tell apart: they agree on pitch,
    duration, staff, flags, voice, beat and hand, and may differ in
    identity, measure number and chord flag. *)
Definition sameHeard (a b : Note) : Prop :=
  sameContent a b /\ voice a = voice b /\ beat a = beat b /\ hand a = hand b.

Definition sortedByStart (l : list PatternSegment) : Prop :=
  StronglySorted (fun a b => startIndex a <= startIndex b) l.

(** The segments of [l] that start at index [k], in order. *)
Definition startingAt (k : Z) (l : list PatternSegment) : list PatternSegment :=
  filter (fun s => startIndex s =? k) l.

(** ** Placements *)

Definition dummyScoreNote : ScoreNote := mkScoreNote dummyNote None false None false.

(** A note the renderer draws a finger for. *)
Definition shown (note : ScoreNote) : bool :=
  FingeringRenderer.hasFingering note && negb (nIsRest note).

(** Two placements that differ at most in their height. *)
Definition sameButY (a b : FingeringRenderer.FingeringPlacement) : Prop :=
  FingeringRenderer.pNoteIndex a = FingeringRenderer.pNoteIndex b
  /\ FingeringRenderer.pFinger a = FingeringRenderer.pFinger b
  /\ FingeringRenderer.pX a = FingeringRenderer.pX b
  /\ FingeringRenderer.pPlacement a = FingeringRenderer.pPlacement b
  /\ FingeringRenderer.pHand a = FingeringRenderer.pHand b
  /\ FingeringRenderer.pStyle a = FingeringRenderer.pStyle b.

(** The previous and the current placement collide. *)
Definition colliding (prev curr : FingeringRenderer.FingeringPlacement) : Prop :=
  Z.abs (FingeringRenderer.pX curr - FingeringRenderer.pX prev) < 15
  /\ Z.abs (FingeringRenderer.pY curr - FingeringRenderer.pY prev) < 12.

(** A placement without its colour. *)
Definition uncoloured (p : FingeringRenderer.FingeringPlacement)
  : FingeringRenderer.FingeringPlacement :=
  FingeringRenderer.mkPlacement
    (FingeringRenderer.pNoteIndex p) (FingeringRenderer.pFinger p)
    (FingeringRenderer.pX p) (FingeringRenderer.pY p)
    (FingeringRenderer.pPlacement p) (FingeringRenderer.pHand p)
    (FingeringRenderer.mkStyle
       (FingeringRenderer.fontSize (FingeringRenderer.pStyle p))
       (FingeringRenderer.fontWeight (FingeringRenderer.pStyle p)) None).

(** A score as the parser delivers it: no rests, no finger yet. *)
Definition unfingered (n : Note) : ScoreNote := mkScoreNote n None false None false.

(** ** Store states *)

(** The placements of the state are those of its score under its
    colour mode. *)
Definition rendered (st : AppStore.AppState) : Prop :=
  forall notes, AppStore.parsedScore st = Some notes ->
                AppStore.placements st
                = FingeringRenderer.calculatePlacements (AppStore.colorMode st) notes.

(** The number of segments of type [t]. *)
Definition segmentsOfType (t : PatternType) (l : list PatternSegment) : Z :=
  lenZ (filter (fun s => PatternType_eqb (patternType s) t) l).

(** A note with the finger [f] written on it. *)
Definition withFinger (f : Z) (n : Note) : ScoreNote :=
  mkScoreNote n (Some f) false None false.

(** ** Pattern contexts the cost model tells apart *)

(** The cost rules test a pattern context for SCALE and for ARPEGGIO
    only. *)
Definition contextClass (t : PatternType) : bool * bool :=
  (PatternType_eqb t SCALE, PatternType_eqb t ARPEGGIO).

(** The entries the backward loop writes for note [i] under finger [f]. *)
Definition cellReasons (dp : list FingeringPlanner.Layer) (i : nat)
  (f : FingeringPlanner.Finger) : list string :=
  match FingeringPlanner.layerGet f (nth i dp []) with
  | Some st => FingeringPlanner.stReasons st
  | None => []
  end.

Definition cellCost (dp : list FingeringPlanner.Layer) (i : nat)
  (f : FingeringPlanner.Finger) : Q :=
  match FingeringPlanner.layerGet f (nth i dp []) with
  | Some st => FingeringPlanner.stCost st
  | None => 0%Q
  end.

(** ** Alberti figures *)

(** Pitches whose complete groups of four have the shape low, high,
    middle, high: the third lies strictly between the first and the
    second, and the fourth is within a semitone of the second.  Notes
    left over after the last complete group are free. *)
Fixpoint albertiShaped (ps : list Z) : Prop :=
  match ps with
  | p0 :: p1 :: p2 :: p3 :: r =>
      p0 < p2 < p1 /\ Z.abs (p1 - p3) <= 1 /\ albertiShaped r
  | _ => True
  end.

Definition unornamented (n : Note) : Prop :=
  hasTrill n = false /\ hasMordent n = false /\ hasTurn n = false
  /\ isGrace n = false.

(** Four notes of an Alberti bass in the left hand: C3, G3, E3, G3. *)
Definition albertiNote (i : string) (p : Z) (b : Q) : Note :=
  mkNote i p (1 # 2) 1 2 LH 1 b false false false false false false.

Definition albertiExample : list Note :=
  [albertiNote "note-0" 48 0; albertiNote "note-1" 55 (1 # 2);
   albertiNote "note-2" 52 1; albertiNote "note-3" 55 (3 # 2)].

(** * The planner's costs in double precision

    JavaScript numbers are IEEE 754 binary64 values, and the cost
    [thumbCrossingPenalty / 3] of rule 3 is no integer at the levels
    beginner (80 / 3) and advanced (10 / 3): the sums the dynamic
    program compares are rounded, and two totals that are equal as
    rationals can differ as doubles.  Where a statement depends on
    which totals are equal, the cost functions and the dynamic program
    are therefore taken with the machine's arithmetic: [float] is
    binary64 with rounding to nearest even, [+], [-], [/] and [<] are
    its operations, and a comparison with a NaN is false.  Everything
    that computes no cost (hand positions, scale segments, pattern
    context, the finger predicates) is shared with [FingeringPlanner]. *)

Module FingeringPlanner64.

Import FingeringPlanner.
Import PrimFloat.PrimFloatNotations.

Definition float := PrimFloat.float.

(** The double nearest to an integer; the integer itself below 2^53. *)
Definition ofZ (z : Z) : float :=
  FloatOps.SF2Prim (SpecFloat.binary_normalize FloatOps.prec FloatOps.emax z 0 false).

Record CostResult := mkCost { cost : float; reasons : list string }.

(** [cost += q] and [cost -= q]. *)
Definition addCost (q : Z) (r : CostResult) : CostResult :=
  mkCost (cost r + ofZ q)%float (reasons r).

Definition subCost (q : Z) (r : CostResult) : CostResult :=
  mkCost (cost r - ofZ q)%float (reasons r).

Definition addFloat (q : float) (r : CostResult) : CostResult :=
  mkCost (cost r + q)%float (reasons r).

Definition pushReason (s : string) (r : CostResult) : CostResult :=
  mkCost (cost r) (reasons r ++ [s]).

Definition pushReasons (ss : list string) (r : CostResult) : CostResult :=
  mkCost (cost r) (reasons r ++ ss).

Definition noCost : CostResult := mkCost (ofZ 0) [].

Definition computeScaleCost
  (prevFinger currFinger : Finger) (asc : bool) (h : Hand) (config : Config)
  : CostResult :=
  let r := noCost in
  let rhAscending := Hand_eqb h RH && asc in
  let rhDescending := Hand_eqb h RH && negb asc in
  let lhAscending := Hand_eqb h LH && asc in
  let lhDescending := Hand_eqb h LH && negb asc in
  let r :=
    if rhAscending || lhDescending then
      let goodTransitions := [(1, 2); (2, 3); (3, 1); (3, 4); (4, 5); (4, 1)] in
      if isGoodTransition goodTransitions prevFinger currFinger
      then pushReason "Standard scale" (subCost 25 r) else r
    else r in
  let r :=
    if rhDescending || lhAscending then
      let goodTransitions :=
        [(5, 4); (4, 3); (3, 2); (2, 1); (1, 3); (1, 2); (1, 4)] in
      if isGoodTransition goodTransitions prevFinger currFinger
      then pushReason "Standard scale" (subCost 25 r) else r
    else r in
  let r :=
    if currFinger =? prevFinger
    then pushReason "Same finger in scale" (addCost 50 r) else r in
  let r :=
    if preferSimplePatterns config then
      if isThumbCrossing prevFinger currFinger then addCost 20 r else r
    else r in
  r.

Section WithDifficulty.

Variable difficultyLevel : Difficulty.

Definition computeInitialCost
  (finger : Finger) (note : Note) (h : Hand) (pos : HandPosition) (config : Config)
  : CostResult :=
  let r := noCost in
  let offset := pitch note - anchorPitch pos in
  let expectedFinger := getExpectedFinger offset h in
  let r :=
    if finger =? expectedFinger
    then pushReason "Matches position" (subCost 25 r)
    else let diff := Z.abs (finger - expectedFinger) in addCost (diff * 12) r in
  let r :=
    if isBeginner difficultyLevel then
      let r := if finger =? 4 then addCost (finger4Penalty config) r else r in
      let r := if finger =? 5 then addCost (finger5Penalty config) r else r in
      if (finger =? 1) || (finger =? 2) || (finger =? 3) then subCost 5 r else r
    else r in
  let r :=
    if isBlackKey (pitch note) then
      if (finger =? 1) || (finger =? 5)
      then pushReason "Short finger on black key"
             (addCost (if allowThumbOnBlack config then 10 else 25) r)
      else pushReason "Long finger on black key" (subCost 8 r)
    else r in
  r.

(** The nine rule blocks of [computeTransitionCost]. *)
Section Rules.

Variables (prevNote : Note) (prevFinger : Finger) (currNote : Note) (currFinger : Finger).
Variables (patternContext : PatternType) (h : Hand) (pos : HandPosition).
Variables (config : Config) (inScale : bool).

Let interval := pitch currNote - pitch prevNote.
Let absInterval := Z.abs interval.
Let asc := 0 <? interval.
Let fingerDiff := currFinger - prevFinger.

Definition rule1 (r : CostResult) : CostResult :=
  if (currFinger =? prevFinger) && negb (interval =? 0)
  then pushReason "Same finger leap" (addCost (40 + absInterval * 5) r)
  else r.

Definition rule2 (r : CostResult) : CostResult :=
  if interval =? 0 then
    if currFinger =? prevFinger
    then pushReason "Same finger on repeat" (addCost 25 r)
    else pushReason "Good finger change" (subCost 10 r)
  else r.

Definition rule3 (r : CostResult) : CostResult :=
  if negb (interval =? 0) then
    let naturalProgression := isNaturalProgression prevFinger currFinger asc h in
    if naturalProgression then pushReason "Natural progression" (subCost 20 r)
    else if isThumbCrossing prevFinger currFinger then
      if inScale || PatternType_eqb patternContext SCALE
      then pushReason "Scale thumb crossing"
             (addFloat (ofZ (thumbCrossingPenalty config) / ofZ 3)%float r)
      else pushReason "Thumb crossing" (addCost (thumbCrossingPenalty config) r)
    else if isFingerCrossing prevFinger currFinger
    then pushReason "Finger crossing" (addCost 80 r)
    else r
  else r.

Definition rule4 (r : CostResult) : CostResult :=
  let naturalSpan := getNaturalSpan prevFinger currFinger in
  let overStretch := absInterval - naturalSpan in
  if 0 <? overStretch then
    if maxComfortableSpan config - naturalSpan <? overStretch
    then pushReason "Impossible stretch" (addCost 200 r)
    else
      let r := addCost (overStretch * stretchPenalty config) r in
      if 2 <? overStretch then pushReason "Stretch" r else r
  else r.

Definition rule5 (r : CostResult) : CostResult :=
  if inPosition pos && negb inScale then
    let expectedFinger := getExpectedFinger (pitch currNote - anchorPitch pos) h in
    if currFinger =? expectedFinger then subCost 15 r
    else let diff := Z.abs (currFinger - expectedFinger) in addCost (diff * 8) r
  else r.

Definition rule6 (r : CostResult) : CostResult :=
  if inScale || PatternType_eqb patternContext SCALE then
    let scaleCost := computeScaleCost prevFinger currFinger asc h config in
    let r := addFloat (cost scaleCost) r in
    if (0 <? Z.of_nat (List.length (reasons scaleCost)))
    then pushReasons (reasons scaleCost) r else r
  else r.

Definition rule7 (r : CostResult) : CostResult :=
  if isBlackKey (pitch currNote) then
    if currFinger =? 1
    then pushReason "Thumb on black"
           (addCost (if allowThumbOnBlack config then 15 else 35) r)
    else if currFinger =? 5 then pushReason "Pinky on black" (addCost 20 r)
    else subCost 5 r
  else r.

Definition rule8 (r : CostResult) : CostResult :=
  if isBeginner difficultyLevel then
    let r := if currFinger =? 4 then addCost (finger4Penalty config) r else r in
    let r := if (currFinger =? 5) && negb (isBlackKey (pitch currNote))
             then addCost (finger5Penalty config) r else r in
    if (Z.abs fingerDiff <=? 1) && (absInterval <=? 2)
    then pushReason "Simple transition" (subCost 10 r) else r
  else if isAdvanced difficultyLevel then
    if (5 <? absInterval) && isThumbCrossing prevFinger currFinger
    then subCost 10 r else r
  else r.

Definition rule9 (r : CostResult) : CostResult :=
  if PatternType_eqb patternContext ARPEGGIO then
    let arpeggioGood := isGoodArpeggioFingering prevFinger currFinger asc h in
    if arpeggioGood then pushReason "Good arpeggio fingering" (subCost 15 r) else r
  else r.

Definition computeTransitionCost : CostResult :=
  rule9 (rule8 (rule7 (rule6 (rule5 (rule4 (rule3 (rule2 (rule1 noCost)))))))).

End Rules.

(** ** The layered dynamic program *)

(** One DP cell; [stParent] is the string ["(i-1)-finger"] of the source. *)
Record DPState := mkState {
  stCost : float;
  stParent : option (nat * Finger);
  stReasons : list string
}.

(** A layer is a [Map] from finger to cell, kept in insertion order. *)
Definition Layer := list (Finger * DPState).

Definition layerGet (f : Finger) (l : Layer) : option DPState :=
  option_map snd (find (fun e => fst e =? f) l).

Record Best := mkBest {
  minCost : float;
  bestParent : option (nat * Finger);
  bestReasons : list string
}.

(** Body of the inner [for (const fromFinger of fingers)] loop. *)
Definition scanStep (i : nat) (prevLayer : Layer)
  (transitionCost : Finger -> CostResult) (acc : Best) (fromFinger : Finger) : Best :=
  match layerGet fromFinger prevLayer with
  | None => acc
  | Some prevState =>
      let tc := transitionCost fromFinger in
      if (ofZ 500 <? cost tc)%float then acc
      else
        let totalCost := (stCost prevState + cost tc)%float in
        if (totalCost <? minCost acc)%float
        then mkBest totalCost (Some ((i - 1)%nat, fromFinger)) (reasons tc)
        else acc
  end.

Section Forward.

Variables (notes : list Note) (patterns : list PatternSegment) (h : Hand).
Variables (handPositions : list HandPosition) (scaleSegments : list ScaleSegment).
Variable config : Config.

Definition transitionAt (i : nat) (toFinger fromFinger : Finger) : CostResult :=
  computeTransitionCost
    (nth (i - 1) notes dummyNote) fromFinger
    (nth i notes dummyNote) toFinger
    (getPatternContext notes i patterns) h (nth i handPositions defaultPos)
    config (inScaleAt scaleSegments i).

Definition bestFor (i : nat) (prevLayer : Layer) (toFinger : Finger) : Best :=
  fold_left (scanStep i prevLayer (transitionAt i toFinger)) fingers
            (mkBest PrimFloat.infinity None []).

(** Body of the [for (const toFinger of fingers)] loop. *)
Definition layerStep (i : nat) (prevLayer : Layer) (layer : Layer) (toFinger : Finger)
  : Layer :=
  let best := bestFor i prevLayer toFinger in
  if (minCost best <? PrimFloat.infinity)%float
  then layer ++ [(toFinger, mkState (minCost best) (bestParent best) (bestReasons best))]
  else layer.

Definition buildLayer (i : nat) (prevLayer : Layer) : Layer :=
  fold_left (layerStep i prevLayer) fingers [].

Definition initialLayer : Layer :=
  map (fun finger =>
         let c := computeInitialCost finger (nth 0 notes dummyNote) h
                    (nth 0 handPositions defaultPos) config in
         (finger, mkState (cost c) None (reasons c)))
      fingers.

Definition forwardStep (dp : list Layer) (i : nat) : list Layer :=
  dp ++ [buildLayer i (nth (i - 1) dp [])].

Definition forwardPass : list Layer :=
  fold_left forwardStep (seq 1 (length notes - 1)) [initialLayer].

End Forward.

Record FingeringState := mkFState {
  noteIndex : nat;
  finger : Finger;
  fsHand : Hand;
  handPosition : Z;
  fsCost : float;
  fsReasons : list string
}.

Record FingeringSolution := mkSolution {
  fingering : list Finger;
  totalCost : float;
  path : list FingeringState;
  explanations : list string
}.

Definition finalStep (acc : float * Finger) (e : Finger * DPState) : float * Finger :=
  if (stCost (snd e) <? fst acc)%float then (stCost (snd e), fst e) else acc.

Definition bestFinal (lastLayer : Layer) : float * Finger :=
  fold_left finalStep lastLayer (PrimFloat.infinity, 3).

(** [state?.cost || 0]: a missing cell, a zero and a NaN give 0. *)
Definition costOr0 (state : option DPState) : float :=
  match state with
  | Some st =>
      if PrimFloat.is_nan (stCost st) || PrimFloat.is_zero (stCost st)
      then ofZ 0 else stCost st
  | None => ofZ 0
  end.

(** The backward loop, [k] iterations left: the current index is [k - 1]. *)
Fixpoint backtrackLoop (dp : list Layer) (notes : list Note) (h : Hand)
  (k : nat) (currentFinger : Finger)
  (acc : list Finger * list string * list FingeringState)
  : list Finger * list string * list FingeringState :=
  match k with
  | O => acc
  | S i =>
      let '(fing, expl, pth) := acc in
      let state := layerGet currentFinger (nth i dp []) in
      let rs := match state with Some st => stReasons st | None => [] end in
      let entry :=
        mkFState i currentFinger h (pitch (nth i notes dummyNote)) (costOr0 state) rs in
      let next :=
        match state with
        | Some st => match stParent st with
                     | Some (_, prevFinger) => prevFinger
                     | None => currentFinger
                     end
        | None => currentFinger
        end in
      backtrackLoop dp notes h i next
        (currentFinger :: fing, joinReasons rs :: expl, entry :: pth)
  end.

Definition backtrack (dp : list Layer) (notes : list Note) (h : Hand) : FingeringSolution :=
  let n := length notes in
  let '(minFinalCost, bestFinalFinger) := bestFinal (nth (n - 1) dp []) in
  let '(fing, expl, pth) := backtrackLoop dp notes h n bestFinalFinger ([], [], []) in
  mkSolution fing minFinalCost pth expl.

Definition dpTable (notes : list Note) (patterns : list PatternSegment) (h : Hand)
  : list Layer :=
  forwardPass notes patterns h (analyzeHandPositions notes h)
              (detectScaleSegments notes) (getDifficultyConfig difficultyLevel).

Definition dpOptimization (notes : list Note) (patterns : list PatternSegment) (h : Hand)
  : FingeringSolution :=
  backtrack (dpTable notes patterns h) notes h.

(** The candidate total offered by predecessor [g] for the state
    [(i, f)]: absent when the predecessor cell is missing or the step
    is pruned. *)
Definition candidate (notes : list Note) (patterns : list PatternSegment) (h : Hand)
  (prevLayer : Layer) (i : nat) (f g : Finger) : option float :=
  match layerGet g prevLayer with
  | None => None
  | Some prevState =>
      let tc := transitionAt notes patterns h (analyzeHandPositions notes h)
                  (detectScaleSegments notes) (getDifficultyConfig difficultyLevel)
                  i f g in
      if (ofZ 500 <? cost tc)%float then None
      else Some (stCost prevState + cost tc)%float
  end.

End WithDifficulty.

End FingeringPlanner64.

(** Six rising notes whose two cheapest last-layer totals at the
    level advanced are equal as rationals (-620/3) and differ in
    double precision. *)
Definition roundedTie : list Note :=
  [plainNote "note-0" 70 1 0; plainNote "note-1" 71 1 1;
   plainNote "note-2" 72 1 2; plainNote "note-3" 73 1 3;
   plainNote "note-4" 75 1 4; plainNote "note-5" 77 1 5]%Q.

(** ** The order of doubles *)

(** A double that is a number: not a NaN. *)
Definition number (x : PrimFloat.float) : Prop := PrimFloat.is_nan x = false.

(** The rank of a double other than NaN: [<] on such doubles is the
    lexicographic order of their ranks. *)
Definition sfKey (a : SpecFloat.spec_float) : Z * Z * Z :=
  match a with
  | SpecFloat.S754_infinity true => (-2, 0, 0)
  | SpecFloat.S754_finite true m e => (-1, - e, - Zpos m)
  | SpecFloat.S754_zero _ => (0, 0, 0)
  | SpecFloat.S754_nan => (0, 0, 0)
  | SpecFloat.S754_finite false m e => (1, e, Zpos m)
  | SpecFloat.S754_infinity false => (2, 0, 0)
  end.

Definition lexLt (p q : Z * Z * Z) : Prop :=
  let '(a, b, c) := p in
  let '(a', b', c') := q in
  a < a' \/ (a = a' /\ (b < b' \/ (b = b' /\ c < c'))).

(** A left-to-right scan keeping the first strict minimum below
    [Infinity], with the comparison of doubles: the shape shared by the
    predecessor loop of the forward pass and the final-finger loop of
    the backtrack. *)
Section ArgStep64.

Variables (A B : Type).
Variable value : A -> option PrimFloat.float.
Variable pack : A -> PrimFloat.float -> B.
Variable minOf : B -> PrimFloat.float.

Definition argStep64 (acc : B) (x : A) : B :=
  match value x with
  | None => acc
  | Some c => if PrimFloat.ltb c (minOf acc) then pack x c else acc
  end.

(** What a scan over [l] returns: no value was below [Infinity]; or
    the first element of least value: no value is strictly below its
    value, and every earlier value that is a number is strictly above. *)
Definition scanned64 (l : list A) (init best : B) : Prop :=
  (best = init
   /\ forall x c, In x l -> value x = Some c -> PrimFloat.ltb c PrimFloat.infinity = false)
  \/ exists l1 x l2 c,
       l = l1 ++ x :: l2 /\ value x = Some c /\ best = pack x c
       /\ PrimFloat.ltb c PrimFloat.infinity = true
       /\ (forall y d, In y l1 -> value y = Some d -> number d ->
                       PrimFloat.ltb c d = true)
       /\ (forall y d, In y l -> value y = Some d -> PrimFloat.ltb d c = false).

End ArgStep64.

Module DP64.

Import FingeringPlanner.
Import FingeringPlanner64.

Section Table.

Variable level : Difficulty.
Variables (notes : list Note) (patterns : list PatternSegment) (h : Hand).

(** The transition cost the forward pass computes at index [i] for the
    pair (from [g], to [f]). *)
Definition stepCost (i : nat) (f g : Finger) : CostResult :=
  transitionAt level notes patterns h (analyzeHandPositions notes h)
    (detectScaleSegments notes) (getDifficultyConfig level) i f g.

(** Layer [i] of the table, by recursion on [i]. *)
Fixpoint layerAt (i : nat) : Layer :=
  match i with
  | O => initialLayer level notes h (analyzeHandPositions notes h)
           (getDifficultyConfig level)
  | S j => buildLayer level notes patterns h (analyzeHandPositions notes h)
             (detectScaleSegments notes) (getDifficultyConfig level) (S j) (layerAt j)
  end.

(** The cell the forward pass computes for the state [(i, f)]. *)
Definition cellOf (prevLayer : Layer) (i : nat) (f : Finger) : DPState :=
  let best := bestFor level notes patterns h (analyzeHandPositions notes h)
                (detectScaleSegments notes) (getDifficultyConfig level) i prevLayer f in
  mkState (minCost best) (bestParent best) (bestReasons best).

End Table.

End DP64.

(** Three right-hand quarter notes: C4, B flat 4, C5. *)
Definition threeNotes : list Note :=
  [plainNote "note-0" 60 1 0; plainNote "note-1" 70 1 1; plainNote "note-2" 72 1 2]%Q.

(** * Verification *)

Import FingeringPlanner.

(** ** Rational comparisons *)

Lemma Qlt_bool_iff (x y : Q) : Qlt_bool x y = true <-> (x < y)%Q.
Proof.
  unfold Qlt_bool. rewrite negb_true_iff.
  split; intro H.
  - apply Qnot_le_lt. intro Hle. apply Qle_bool_iff in Hle. congruence.
  - destruct (Qle_bool y x) eqn:E; [|reflexivity].
    apply Qle_bool_iff in E. exfalso. apply (Qlt_not_le _ _ H E).
Qed.

Lemma Qlt_bool_false_iff (x y : Q) : Qlt_bool x y = false <-> (y <= x)%Q.
Proof.
  unfold Qlt_bool. rewrite negb_false_iff. apply Qle_bool_iff.
Qed.

Lemma Z2Q_le (a b : Z) : a <= b -> (Z2Q a <= Z2Q b)%Q.
Proof. intro. unfold Z2Q. now rewrite <- Zle_Qle. Qed.

Lemma Z2Q_lt (a b : Z) : a < b -> (Z2Q a < Z2Q b)%Q.
Proof. intro. unfold Z2Q. now rewrite <- Zlt_Qlt. Qed.

(** ** Fingers *)

Lemma In_fingers (f : Finger) : In f fingers <-> 1 <= f <= 5.
Proof.
  unfold fingers. simpl. split.
  - intros [H|[H|[H|[H|[H|[]]]]]]; subst; lia.
  - intros H.
    assert (f = 1 \/ f = 2 \/ f = 3 \/ f = 4 \/ f = 5) as C by lia.
    intuition auto.
Qed.

Lemma getNaturalSpan_nonneg (g f : Finger) :
  In g fingers -> In f fingers -> 0 <= getNaturalSpan g f.
Proof.
  intros Hg Hf. simpl in Hg, Hf.
  destruct Hg as [<-|[<-|[<-|[<-|[<-|[]]]]]];
    destruct Hf as [<-|[<-|[<-|[<-|[<-|[]]]]]]; vm_compute; congruence.
Qed.

Lemma getExpectedFinger_range (offset : Z) (h : Hand) :
  1 <= getExpectedFinger offset h <= 5.
Proof.
  unfold getExpectedFinger.
  destruct h;
    repeat match goal with |- context [if ?c then _ else _] => destruct c end; lia.
Qed.

(** ** Bounds on the nine rules

    Every rule adds at most a fixed amount to the running cost when the
    two fingers differ. *)

Section RuleBounds.

Variable level : Difficulty.
Variables (prevNote currNote : Note) (g f : Finger).
Variables (ctx : PatternType) (h : Hand) (pos : HandPosition) (inScale : bool).
Hypothesis Hg : In g fingers.
Hypothesis Hf : In f fingers.

Let config := getDifficultyConfig level.

Ltac split_ifs :=
  repeat match goal with
         | |- context [if ?c then _ else _] => destruct c eqn:?
         end.

Ltac cost_simpl :=
  cbn [cost addCost pushReason pushReasons reasons].

Lemma rule1_bound (r : CostResult) :
  f <> g -> (cost (rule1 prevNote g currNote f r) == cost r)%Q.
Proof.
  intro Hne. unfold rule1.
  destruct (f =? g) eqn:E; [apply Z.eqb_eq in E; contradiction|].
  reflexivity.
Qed.

Lemma rule2_bound (r : CostResult) :
  f <> g -> (cost (rule2 prevNote g currNote f r) <= cost r)%Q.
Proof.
  intro Hne. unfold rule2.
  destruct (f =? g) eqn:E; [apply Z.eqb_eq in E; contradiction|].
  split_ifs; cost_simpl; lra.
Qed.

Lemma rule3_bound (r : CostResult) :
  (cost (rule3 prevNote g currNote f ctx h config inScale r) <= cost r + 80)%Q.
Proof.
  unfold rule3, isFingerCrossing, config.
  split_ifs; cost_simpl; try lra;
    destruct level; cbv [getDifficultyConfig thumbCrossingPenalty Z2Q inject_Z Qdiv Qinv];
    cbn; lra.
Qed.

Lemma rule4_bound (r : CostResult) :
  (cost (rule4 prevNote g currNote f config r) <= cost r + 200)%Q.
Proof.
  unfold rule4.
  pose proof (getNaturalSpan_nonneg g f Hg Hf) as Hspan.
  set (span := getNaturalSpan g f) in *.
  set (over := Z.abs (pitch currNote - pitch prevNote) - span).
  destruct (0 <? over) eqn:E0; [|lra].
  destruct (maxComfortableSpan config - span <? over) eqn:E1.
  - cost_simpl. lra.
  - apply Z.ltb_lt in E0. apply Z.ltb_ge in E1.
    assert (over * stretchPenalty config <= 200) as Hz.
    { unfold config in E1 |- *.
      destruct level;
        cbv [getDifficultyConfig maxComfortableSpan stretchPenalty] in E1 |- *; nia. }
    apply Z2Q_le in Hz. unfold Z2Q in Hz. rewrite inject_Z_mult in Hz.
    fold (Z2Q over) in Hz. fold (Z2Q (stretchPenalty config)) in Hz.
    change (inject_Z 200) with 200%Q in Hz.
    destruct (2 <? over); cost_simpl; lra.
Qed.

Lemma rule5_bound (r : CostResult) :
  (cost (rule5 currNote f h pos inScale r) <= cost r + 32)%Q.
Proof.
  unfold rule5.
  destruct (inPosition pos && negb inScale); [|lra].
  pose proof (getExpectedFinger_range (pitch currNote - anchorPitch pos) h) as He.
  set (e := getExpectedFinger _ _) in *.
  destruct (f =? e); cost_simpl; [lra|].
  apply In_fingers in Hf.
  assert (Z.abs (f - e) <= 4) as Hz by lia.
  apply Z2Q_le in Hz. change (Z2Q 4) with 4%Q in Hz. lra.
Qed.

Lemma computeScaleCost_bound (asc : bool) :
  f <> g -> (cost (computeScaleCost g f asc h config) <= 20)%Q.
Proof.
  intro Hne. unfold computeScaleCost.
  destruct (f =? g) eqn:E; [apply Z.eqb_eq in E; contradiction|].
  split_ifs; cost_simpl; lra.
Qed.

Lemma rule6_bound (r : CostResult) :
  f <> g -> (cost (rule6 prevNote g currNote f ctx h config inScale r) <= cost r + 20)%Q.
Proof.
  intro Hne. unfold rule6.
  destruct (inScale || PatternType_eqb ctx SCALE); [|lra].
  pose proof (computeScaleCost_bound (0 <? pitch currNote - pitch prevNote) Hne) as Hs.
  destruct (0 <? Z.of_nat _); cost_simpl; lra.
Qed.

Lemma rule7_bound (r : CostResult) :
  (cost (rule7 currNote f config r) <= cost r + 35)%Q.
Proof.
  unfold rule7. split_ifs; cost_simpl; lra.
Qed.

Lemma rule8_bound (r : CostResult) :
  (cost (rule8 level prevNote g currNote f config r) <= cost r + 15)%Q.
Proof.
  unfold rule8, config, isBeginner, isAdvanced.
  destruct level; cbv [getDifficultyConfig finger4Penalty finger5Penalty];
    try (split_ifs; cost_simpl; lra).
  destruct (f =? 4) eqn:E4; destruct (f =? 5) eqn:E5;
    try (apply Z.eqb_eq in E4; apply Z.eqb_eq in E5; lia);
    cbn [andb]; split_ifs; cost_simpl; cbv [Z2Q inject_Z]; lra.
Qed.

Lemma rule9_bound (r : CostResult) :
  (cost (rule9 prevNote g currNote f ctx h r) <= cost r)%Q.
Proof.
  unfold rule9. split_ifs; cost_simpl; lra.
Qed.

(** A transition between two different fingers costs at most 382,
    whatever the notes, the context and the difficulty. *)
Lemma transition_cost_bound :
  f <> g ->
  (cost (computeTransitionCost level prevNote g currNote f ctx h pos config inScale)
   <= 382)%Q.
Proof.
  intro Hne. unfold computeTransitionCost.
  set (r0 := mkCost 0 []).
  pose proof (rule1_bound r0 Hne) as H1.
  set (r1 := rule1 _ _ _ _ r0) in *.
  pose proof (rule2_bound r1 Hne) as H2.
  set (r2 := rule2 _ _ _ _ r1) in *.
  pose proof (rule3_bound r2) as H3.
  set (r3 := rule3 _ _ _ _ _ _ _ _ r2) in *.
  pose proof (rule4_bound r3) as H4.
  set (r4 := rule4 _ _ _ _ _ r3) in *.
  pose proof (rule5_bound r4) as H5.
  set (r5 := rule5 _ _ _ _ _ r4) in *.
  pose proof (rule6_bound r5 Hne) as H6.
  set (r6 := rule6 _ _ _ _ _ _ _ _ r5) in *.
  pose proof (rule7_bound r6) as H7.
  set (r7 := rule7 _ _ _ r6) in *.
  pose proof (rule8_bound r7) as H8.
  set (r8 := rule8 _ _ _ _ _ _ r7) in *.
  pose proof (rule9_bound r8) as H9.
  set (r9 := rule9 _ _ _ _ _ _ r8) in *.
  change (cost r0) with 0%Q in *.
  lra.
Qed.

End RuleBounds.

(** ** The first-argmin scan *)

Section FirstArgmin.

Variables (A B : Type).
Variable value : A -> option Q.
Variable pack : A -> Q -> B.
Variable minOf : B -> Num.
Hypothesis minOf_pack : forall x c, minOf (pack x c) = Fin c.

Lemma argmin_scan (l : list A) (init : B) :
  minOf init = Infinity ->
  scanned A B value pack l init (fold_left (argStep A B value pack minOf) l init).
Proof.
  intro Hinit. induction l as [|x l IH] using rev_ind.
  - left. split; [reflexivity|]. intros x [].
  - rewrite fold_left_app. cbn [fold_left].
    set (b := fold_left _ l init) in *.
    unfold argStep at 1. destruct (value x) as [c'|] eqn:Ex.
    + destruct IH as [[Hb Hnone]|(l1 & x0 & l2 & c & Hl & Hx0 & Hb & Hlt & Hle)].
      * rewrite Hb, Hinit. cbn [lt_Num].
        right. exists l, x, [], c'. repeat split; auto.
        -- intros y d Hy Hv. rewrite (Hnone y Hy) in Hv. discriminate.
        -- intros y d [].
      * rewrite Hb, minOf_pack. cbn [lt_Num].
        destruct (Qlt_bool c' c) eqn:E.
        -- apply Qlt_bool_iff in E.
           right. exists l, x, [], c'. repeat split; auto.
           ++ intros y d Hy Hv. subst l.
              apply in_app_or in Hy. destruct Hy as [Hy|[Hy|Hy]].
              ** specialize (Hlt y d Hy Hv). lra.
              ** subst y. rewrite Hx0 in Hv. injection Hv as <-. exact E.
              ** specialize (Hle y d Hy Hv). lra.
           ++ intros y d [].
        -- apply Qlt_bool_false_iff in E.
           right. exists l1, x0, (l2 ++ [x]), c. repeat split; auto.
           ++ subst l. rewrite <- app_assoc. reflexivity.
           ++ intros y d Hy Hv. apply in_app_or in Hy. destruct Hy as [Hy|[Hy|[]]].
              ** exact (Hle y d Hy Hv).
              ** subst y. rewrite Ex in Hv. injection Hv as <-. exact E.
    + destruct IH as [[Hb Hnone]|(l1 & x0 & l2 & c & Hl & Hx0 & Hb & Hlt & Hle)].
      * left. split; [exact Hb|].
        intros y Hy. apply in_app_or in Hy. destruct Hy as [Hy|[Hy|[]]]; [auto|subst y; exact Ex].
      * right. exists l1, x0, (l2 ++ [x]), c. repeat split; auto.
        -- subst l. rewrite <- app_assoc. reflexivity.
        -- intros y d Hy Hv. apply in_app_or in Hy. destruct Hy as [Hy|[Hy|[]]].
           ++ exact (Hle y d Hy Hv).
           ++ subst y. rewrite Ex in Hv. discriminate.
Qed.

End FirstArgmin.

(** ** The DP table, layer by layer *)

Lemma fold_left_ext_in {A B} (f g : A -> B -> A) (l : list B) (a : A) :
  (forall acc x, In x l -> f acc x = g acc x) ->
  fold_left f l a = fold_left g l a.
Proof.
  revert a. induction l as [|x l IH]; intros a H; cbn; [reflexivity|].
  rewrite H by (left; reflexivity). apply IH. intros; apply H; right; assumption.
Qed.

Section TableFacts.

Variable level : Difficulty.
Variables (notes : list Note) (patterns : list PatternSegment) (h : Hand).

Let hp := analyzeHandPositions notes h.
Let ss := detectScaleSegments notes.
Let config := getDifficultyConfig level.
Let layer := DP.layerAt level notes patterns h.
Let T := DP.stepCost level notes patterns h.
Let cand := DP.candidate level notes patterns h.

Lemma forwardPass_layers (k : nat) :
  fold_left (forwardStep level notes patterns h hp ss config) (seq 1 k) [layer 0%nat]
  = map layer (seq 0 (S k)).
Proof.
  induction k as [|k IH]; [reflexivity|].
  rewrite seq_S, fold_left_app, IH. cbn [fold_left].
  unfold forwardStep at 1.
  rewrite (seq_S (S k) 0), map_app. cbn [map]. f_equal. f_equal.
  change (1 + k)%nat with (S k). cbn [Nat.add].
  replace (S k - 1)%nat with k by lia.
  assert (nth k (map layer (seq 0 (S k))) [] = layer k) as ->.
  { rewrite nth_indep with (d' := layer 0%nat) by (rewrite length_map, length_seq; lia).
    rewrite map_nth, seq_nth by lia. reflexivity. }
  reflexivity.
Qed.

Lemma dpTable_layers :
  dpTable level notes patterns h = map layer (seq 0 (S (length notes - 1))).
Proof.
  unfold dpTable, forwardPass. apply forwardPass_layers.
Qed.

Lemma dpTable_length :
  length (dpTable level notes patterns h) = S (length notes - 1).
Proof.
  rewrite dpTable_layers, length_map, length_seq. reflexivity.
Qed.

Lemma dpTable_nth (i : nat) :
  (i <= length notes - 1)%nat ->
  nth i (dpTable level notes patterns h) [] = layer i.
Proof.
  intro Hi. rewrite dpTable_layers.
  rewrite nth_indep with (d' := layer 0%nat) by (rewrite length_map, length_seq; lia).
  rewrite map_nth, seq_nth by lia. reflexivity.
Qed.

(** The predecessor scan is a first-argmin scan over the candidates. *)
Lemma bestFor_argStep (i : nat) (prevLayer : Layer) (f : Finger) :
  bestFor level notes patterns h hp ss config i prevLayer f
  = fold_left
      (argStep Finger Best (cand prevLayer i f)
         (fun g c => mkBest (Fin c) (Some ((i - 1)%nat, g)) (reasons (T i f g)))
         minCost)
      fingers (mkBest Infinity None []).
Proof.
  unfold bestFor. apply fold_left_ext_in. intros acc g _.
  unfold scanStep, argStep, cand, DP.candidate, T, DP.stepCost.
  fold hp ss config.
  destruct (layerGet g prevLayer) as [ps|]; [|reflexivity].
  destruct (Qlt_bool 500 _); reflexivity.
Qed.

End TableFacts.

(** ** Every layer is complete *)

Lemma layerGet_complete (l : Layer) (f : Finger) :
  DP.complete l -> In f fingers -> exists st, layerGet f l = Some st.
Proof.
  unfold DP.complete, fingers. intros Hl Hf.
  destruct l as [|[k1 s1] [|[k2 s2] [|[k3 s3] [|[k4 s4] [|[k5 s5] [|? ?]]]]]];
    try discriminate.
  cbn in Hl. injection Hl as -> -> -> -> ->.
  cbn in Hf. destruct Hf as [<-|[<-|[<-|[<-|[<-|[]]]]]]; eexists; reflexivity.
Qed.

Lemma layerGet_In (l : Layer) (f : Finger) (st : DPState) :
  layerGet f l = Some st -> In (f, st) l.
Proof.
  unfold layerGet. destruct (find (fun e => fst e =? f) l) as [[k s]|] eqn:E; [|discriminate].
  cbn. intros [= <-]. apply find_some in E. destruct E as [Hin Hk].
  cbn in Hk. apply Z.eqb_eq in Hk. subst k. exact Hin.
Qed.

Lemma layerGet_fingers (l : Layer) (f : Finger) (st : DPState) :
  DP.complete l -> layerGet f l = Some st -> In f fingers.
Proof.
  intros Hl Hg. apply layerGet_In in Hg. rewrite <- Hl.
  change f with (fst (f, st)). apply in_map. exact Hg.
Qed.

Section Completeness.

Variable level : Difficulty.
Variables (notes : list Note) (patterns : list PatternSegment) (h : Hand).

Let hp := analyzeHandPositions notes h.
Let ss := detectScaleSegments notes.
Let config := getDifficultyConfig level.
Let layer := DP.layerAt level notes patterns h.
Let T := DP.stepCost level notes patterns h.
Let cand := DP.candidate level notes patterns h.

Lemma stepCost_bound (i : nat) (f g : Finger) :
  In f fingers -> In g fingers -> f <> g -> (cost (T i f g) <= 382)%Q.
Proof.
  intros Hf Hg Hne. unfold T, DP.stepCost, transitionAt.
  apply transition_cost_bound; assumption.
Qed.

(** Some other finger is always an admissible predecessor. *)
Lemma other_finger (f : Finger) :
  In f fingers -> exists g, In g fingers /\ f <> g.
Proof.
  intro Hf. apply In_fingers in Hf.
  destruct (Z.eq_dec f 1) as [->|Hne].
  - exists 2. split; [apply In_fingers; lia|lia].
  - exists 1. split; [apply In_fingers; lia|exact Hne].
Qed.

Lemma candidate_defined (prevLayer : Layer) (i : nat) (f g : Finger) :
  DP.complete prevLayer -> In f fingers -> In g fingers -> f <> g ->
  exists c, cand prevLayer i f g = Some c.
Proof.
  intros Hl Hf Hg Hne. unfold cand, DP.candidate.
  destruct (layerGet_complete prevLayer g Hl Hg) as [ps ->].
  pose proof (stepCost_bound i f g Hf Hg Hne) as Hb. fold T.
  destruct (Qlt_bool 500 (cost (T i f g))) eqn:E.
  - apply Qlt_bool_iff in E. lra.
  - eexists; reflexivity.
Qed.

(** What the predecessor scan leaves for a complete previous layer. *)
Lemma bestFor_spec (prevLayer : Layer) (i : nat) (f : Finger) :
  DP.complete prevLayer -> In f fingers ->
  exists l1 g l2 c,
    fingers = l1 ++ g :: l2 /\ cand prevLayer i f g = Some c
    /\ bestFor level notes patterns h hp ss config i prevLayer f
       = mkBest (Fin c) (Some ((i - 1)%nat, g)) (reasons (T i f g))
    /\ (forall y d, In y l1 -> cand prevLayer i f y = Some d -> (c < d)%Q)
    /\ (forall y d, In y l2 -> cand prevLayer i f y = Some d -> (c <= d)%Q).
Proof.
  intros Hl Hf.
  unfold hp, ss, config. rewrite bestFor_argStep. fold T cand.
  match goal with |- context [fold_left ?step fingers ?init] =>
    destruct (argmin_scan Finger Best (cand prevLayer i f)
                (fun g c => mkBest (Fin c) (Some ((i - 1)%nat, g)) (reasons (T i f g)))
                minCost (fun _ _ => eq_refl) fingers init eq_refl)
      as [[_ Hnone]|(l1 & g & l2 & c & H1 & H2 & H3 & H4 & H5)]
  end.
  - exfalso. destruct (other_finger f Hf) as (g & Hg & Hne).
    destruct (candidate_defined prevLayer i f g Hl Hf Hg Hne) as [c Hc].
    rewrite (Hnone g Hg) in Hc. discriminate.
  - exists l1, g, l2, c. repeat split; assumption.
Qed.

Lemma buildLayer_complete (prevLayer : Layer) (i : nat) :
  DP.complete prevLayer ->
  DP.complete (buildLayer level notes patterns h hp ss config i prevLayer).
Proof.
  intro Hl. unfold buildLayer, fingers. cbn [fold_left].
  unfold layerStep.
  repeat match goal with
  | |- context [bestFor level notes patterns h hp ss config i prevLayer ?f] =>
      let c := fresh "c" in let E := fresh "E" in
      destruct (bestFor_spec prevLayer i f Hl ltac:(apply In_fingers; lia))
        as (? & ? & ? & c & _ & _ & E & _ & _);
      rewrite E; clear E; cbn [minCost bestParent bestReasons]
  end.
  reflexivity.
Qed.

Lemma initialLayer_complete : DP.complete (layer 0%nat).
Proof.
  unfold layer, DP.complete. cbn [DP.layerAt]. unfold initialLayer.
  rewrite map_map. reflexivity.
Qed.

Lemma layerAt_complete (i : nat) : DP.complete (layer i).
Proof.
  induction i as [|i IH]; [apply initialLayer_complete|].
  unfold layer in *. cbn [DP.layerAt]. apply buildLayer_complete. exact IH.
Qed.

(** The cell of a state [(i, f)], [i >= 1]: its parent is the first
    argmin among the admissible predecessors. *)
Lemma layerAt_cell (i : nat) (f : Finger) (st : DPState) :
  layerGet f (layer (S i)) = Some st ->
  exists l1 g l2 c,
    fingers = l1 ++ g :: l2 /\ cand (layer i) (S i) f g = Some c
    /\ st = mkState c (Some (i, g)) (reasons (T (S i) f g))
    /\ (forall y d, In y l1 -> cand (layer i) (S i) f y = Some d -> (c < d)%Q)
    /\ (forall y d, In y l2 -> cand (layer i) (S i) f y = Some d -> (c <= d)%Q).
Proof.
  intro Hget.
  assert (In f fingers) as Hf
    by (eapply layerGet_fingers; [apply (layerAt_complete (S i))|exact Hget]).
  destruct (bestFor_spec (layer i) (S i) f (layerAt_complete i) Hf)
    as (l1 & g & l2 & c & H1 & H2 & H3 & H4 & H5).
  exists l1, g, l2, c. repeat split; try assumption.
  unfold layer in Hget. cbn [DP.layerAt] in Hget. fold layer hp ss config in Hget.
  assert (forall f', In f' fingers ->
            exists c', minCost (bestFor level notes patterns h hp ss config (S i) (layer i) f')
                       = Fin c') as Hall.
  { intros f' Hf'.
    destruct (bestFor_spec (layer i) (S i) f' (layerAt_complete i) Hf')
      as (? & ? & ? & c' & _ & _ & E & _ & _).
    rewrite E. eexists; reflexivity. }
  unfold buildLayer, fingers in Hget. cbn [fold_left] in Hget.
  unfold layerStep in Hget.
  destruct (Hall 1 ltac:(apply In_fingers; lia)) as [c1 E1].
  destruct (Hall 2 ltac:(apply In_fingers; lia)) as [c2 E2].
  destruct (Hall 3 ltac:(apply In_fingers; lia)) as [c3 E3].
  destruct (Hall 4 ltac:(apply In_fingers; lia)) as [c4 E4].
  destruct (Hall 5 ltac:(apply In_fingers; lia)) as [c5 E5].
  rewrite E1, E2, E3, E4, E5 in Hget. cbn [app] in Hget.
  replace (S i - 1)%nat with i in H3 by lia.
  cbn in Hf. unfold layerGet in Hget.
  remember (bestFor level notes patterns h hp ss config (S i) (layer i) 1) as b1.
  remember (bestFor level notes patterns h hp ss config (S i) (layer i) 2) as b2.
  remember (bestFor level notes patterns h hp ss config (S i) (layer i) 3) as b3.
  remember (bestFor level notes patterns h hp ss config (S i) (layer i) 4) as b4.
  remember (bestFor level notes patterns h hp ss config (S i) (layer i) 5) as b5.
  destruct Hf as [<-|[<-|[<-|[<-|[<-|[]]]]]]; cbn in Hget;
    injection Hget as <-.
  - rewrite <- Heqb1 in H3. rewrite H3 in E1 |- *. cbn in E1 |- *.
    injection E1 as <-. reflexivity.
  - rewrite <- Heqb2 in H3. rewrite H3 in E2 |- *. cbn in E2 |- *.
    injection E2 as <-. reflexivity.
  - rewrite <- Heqb3 in H3. rewrite H3 in E3 |- *. cbn in E3 |- *.
    injection E3 as <-. reflexivity.
  - rewrite <- Heqb4 in H3. rewrite H3 in E4 |- *. cbn in E4 |- *.
    injection E4 as <-. reflexivity.
  - rewrite <- Heqb5 in H3. rewrite H3 in E5 |- *. cbn in E5 |- *.
    injection E5 as <-. reflexivity.
Qed.

End Completeness.

(** ** The backtrack *)

Lemma finalStep_argStep (l : Layer) (init : Num * Finger) :
  fold_left finalStep l init
  = fold_left (argStep (Finger * DPState) (Num * Finger)
                 (fun e => Some (stCost (snd e)))
                 (fun e c => (Fin c, fst e)) fst) l init.
Proof. reflexivity. Qed.

Lemma bestFinal_spec (l : Layer) :
  l <> [] ->
  exists l1 e l2,
    l = l1 ++ e :: l2 /\ bestFinal l = (Fin (stCost (snd e)), fst e)
    /\ (forall y, In y l1 -> (stCost (snd e) < stCost (snd y))%Q)
    /\ (forall y, In y l2 -> (stCost (snd e) <= stCost (snd y))%Q).
Proof.
  intro Hne. unfold bestFinal. rewrite finalStep_argStep.
  destruct (argmin_scan (Finger * DPState) (Num * Finger)
              (fun e => Some (stCost (snd e)))
              (fun e c => (Fin c, fst e)) fst (fun _ _ => eq_refl)
              l (Infinity, 3) eq_refl)
    as [[_ Hnone]|(l1 & e & l2 & c & H1 & H2 & H3 & H4 & H5)].
  - destruct l as [|e l]; [contradiction|].
    specialize (Hnone e (or_introl eq_refl)). discriminate.
  - injection H2 as <-. exists l1, e, l2. repeat split; auto.
    + intros y Hy. exact (H4 y _ Hy eq_refl).
    + intros y Hy. exact (H5 y _ Hy eq_refl).
Qed.

Lemma backtrackLoop_fingering
  (dp : list Layer) (notes : list Note) (h : Hand) (k : nat) (f : Finger)
  (fing : list Finger) (expl : list string) (pth : list FingeringState) :
  exists pre,
    fst (fst (backtrackLoop dp notes h k f (fing, expl, pth))) = pre ++ fing
    /\ length pre = k
    /\ (forall a, last pre a = match k with O => a | S _ => f end).
Proof.
  revert f fing expl pth. induction k as [|k IH]; intros f fing expl pth.
  - exists []. repeat split; reflexivity.
  - cbn [backtrackLoop].
    match goal with |- context [backtrackLoop dp notes h k ?nx (?a, ?b, ?c)] =>
      destruct (IH nx a b c) as (pre & Hpre & Hlen & Hlast)
    end.
    exists (pre ++ [f]). rewrite Hpre, <- app_assoc. repeat split.
    + rewrite length_app. cbn. lia.
    + intro a. apply last_last.
Qed.

Lemma backtrackLoop_in_fingers
  (dp : list Layer) (notes : list Note) (h : Hand) (k : nat) (f : Finger)
  (acc : list Finger * list string * list FingeringState) :
  (forall i g st j p, (i < k)%nat -> layerGet g (nth i dp []) = Some st ->
                      stParent st = Some (j, p) -> In p fingers) ->
  In f fingers ->
  Forall (fun x => In x fingers) (fst (fst acc)) ->
  Forall (fun x => In x fingers) (fst (fst (backtrackLoop dp notes h k f acc))).
Proof.
  revert f acc. induction k as [|k IH]; intros f [[fing expl] pth] Hpar Hf Hacc.
  - exact Hacc.
  - cbn [backtrackLoop]. apply IH.
    + intros i g st j p Hi. apply Hpar. lia.
    + destruct (layerGet f (nth k dp [])) as [st|] eqn:E; [|exact Hf].
      destruct (stParent st) as [[j p]|] eqn:Ep; [|exact Hf].
      apply (Hpar k f st j p); auto.
    + cbn. constructor; assumption.
Qed.

Lemma sorted_before (l1 l2 : list Z) (x y : Z) :
  StronglySorted Z.lt (l1 ++ x :: l2) ->
  In y (l1 ++ x :: l2) -> y < x -> In y l1.
Proof.
  induction l1 as [|a l1 IH]; cbn; intros Hs Hy Hlt.
  - inversion Hs as [|? ? _ Hall]; subst.
    destruct Hy as [->|Hy]; [lia|].
    rewrite Forall_forall in Hall. specialize (Hall y Hy). lia.
  - inversion Hs as [|? ? Hs' _]; subst.
    destruct Hy as [->|Hy]; [left; reflexivity|right; auto].
Qed.

Lemma fingers_sorted : StronglySorted Z.lt fingers.
Proof.
  unfold fingers. repeat constructor; lia.
Qed.

Lemma complete_In_unique (l : Layer) (k : Finger) (a b : DPState) :
  DP.complete l -> In (k, a) l -> In (k, b) l -> a = b.
Proof.
  intros Hc Ha Hb.
  assert (NoDup (map fst l)) as Hnd.
  { rewrite Hc. unfold fingers. repeat constructor; cbn; intuition discriminate. }
  clear Hc. induction l as [|[k' v] l IH]; [contradiction|].
  cbn in Hnd. inversion Hnd as [|? ? Hnot Hnd']; subst.
  destruct Ha as [Ea|Ha]; destruct Hb as [Eb|Hb].
  - congruence.
  - injection Ea as -> ->. exfalso. apply Hnot.
    change k with (fst (k, b)). apply in_map. exact Hb.
  - injection Eb as -> ->. exfalso. apply Hnot.
    change k with (fst (k, a)). apply in_map. exact Ha.
  - auto.
Qed.

Section Solution.

Variable level : Difficulty.
Variables (notes : list Note) (patterns : list PatternSegment) (h : Hand).

Let dp := dpTable level notes patterns h.
Let layer := DP.layerAt level notes patterns h.
Let sol := dpOptimization level notes patterns h.

Lemma dp_nth_complete (i : nat) :
  (i <= length notes - 1)%nat -> DP.complete (nth i dp []).
Proof.
  intro Hi. unfold dp. rewrite dpTable_nth by exact Hi. apply layerAt_complete.
Qed.

Lemma dp_parent_in_fingers (i : nat) (g : Finger) (st : DPState) (j : nat) (p : Finger) :
  (i < length notes)%nat ->
  layerGet g (nth i dp []) = Some st -> stParent st = Some (j, p) -> In p fingers.
Proof.
  intros Hi Hget Hp. unfold dp in Hget. rewrite dpTable_nth in Hget by lia.
  destruct i as [|i].
  - cbn [DP.layerAt] in Hget. apply layerGet_In in Hget.
    unfold initialLayer in Hget. apply in_map_iff in Hget.
    destruct Hget as (x & Hx & _). injection Hx as _ <-. discriminate.
  - apply layerAt_cell in Hget.
    destruct Hget as (l1 & q & l2 & c & H1 & _ & -> & _).
    cbn in Hp. injection Hp as _ <-. rewrite H1. apply in_elt.
Qed.

Lemma last_layer_nonempty : nth (length notes - 1) dp [] <> [].
Proof.
  pose proof (dp_nth_complete (length notes - 1) (Nat.le_refl _)) as Hc.
  intro E. rewrite E in Hc. discriminate.
Qed.

(** The solution's cost is the least cost of the last layer, and its
    fingers are real fingers, one per note. *)
Lemma dpOptimization_spec :
  exists l1 e l2 fing,
    nth (length notes - 1) dp [] = l1 ++ e :: l2
    /\ totalCost sol = Fin (stCost (snd e))
    /\ fingering sol = fing
    /\ length fing = length notes
    /\ Forall (fun x => In x fingers) fing
    /\ (notes <> [] -> last fing 0 = fst e)
    /\ (forall y, In y l1 -> (stCost (snd e) < stCost (snd y))%Q)
    /\ (forall y, In y l2 -> (stCost (snd e) <= stCost (snd y))%Q).
Proof.
  destruct (bestFinal_spec _ last_layer_nonempty) as (l1 & e & l2 & Hl & Hb & H1 & H2).
  unfold sol, dpOptimization, backtrack. fold dp. rewrite Hb.
  destruct (backtrackLoop_fingering dp notes h (length notes) (fst e) [] [] [])
    as (pre & Hpre & Hlen & Hlast).
  assert (In (fst e) fingers) as He.
  { rewrite <- (dp_nth_complete (length notes - 1) (Nat.le_refl _)), Hl.
    apply in_map, in_elt. }
  pose proof (backtrackLoop_in_fingers dp notes h (length notes) (fst e) ([], [], [])
                (fun i g st j p Hi => dp_parent_in_fingers i g st j p Hi) He
                (Forall_nil _)) as Hall.
  destruct (backtrackLoop dp notes h (length notes) (fst e) ([], [], []))
    as [[fing expl] pth] eqn:E.
  cbn [fst] in Hpre, Hall. rewrite app_nil_r in Hpre. subst fing.
  exists l1, e, l2, pre. cbn [totalCost fingering].
  repeat split; auto.
  intro Hne. rewrite Hlast. destruct (length notes) eqn:En; [|reflexivity].
  destruct notes; [contradiction|discriminate].
Qed.

End Solution.

(** ** Claims about the dynamic program *)

(** C5.  Every DP layer is complete.  For every stream, difficulty,
    index [i >= 1] and target finger [f] there is a predecessor finger
    whose single-step cost is at most 500 (any other finger: such a
    step costs at most 382), so pruning never removes all predecessors;
    every state [(j, f')] of the table exists; the final cost is finite
    and every finger the backtrack returns is the key of an existing
    state, so the default finger 3 is never what is returned for lack
    of a state. *)
Theorem C5_every_state_reachable
  (level : Difficulty) (notes : list Note) (patterns : list PatternSegment)
  (h : Hand) (i : nat) (f : Finger) :
  (1 <= i < length notes)%nat -> In f fingers ->
  let dp := dpTable level notes patterns h in
  let sol := dpOptimization level notes patterns h in
  (exists g, In g fingers
             /\ (cost (DP.stepCost level notes patterns h i f g) <= 500)%Q
             /\ exists c, DP.candidate level notes patterns h (nth (i - 1) dp []) i f g
                          = Some c)
  /\ (forall j f', (j < length notes)%nat -> In f' fingers ->
                   exists st, layerGet f' (nth j dp []) = Some st)
  /\ (exists c, totalCost sol = Fin c)
  /\ (forall j, (j < length notes)%nat ->
                exists st, layerGet (nth j (fingering sol) 0) (nth j dp []) = Some st).
Proof.
  intros Hi Hf dp sol.
  assert (forall j f', (j < length notes)%nat -> In f' fingers ->
                       exists st, layerGet f' (nth j dp []) = Some st) as Hall.
  { intros j f' Hj Hf'. apply layerGet_complete; [|exact Hf'].
    apply dp_nth_complete. lia. }
  repeat split.
  - destruct (other_finger f Hf) as (g & Hg & Hne).
    exists g. split; [exact Hg|]. split.
    + pose proof (stepCost_bound level notes patterns h i f g Hf Hg Hne). lra.
    + apply candidate_defined; auto. apply dp_nth_complete. lia.
  - exact Hall.
  - destruct (dpOptimization_spec level notes patterns h)
      as (l1 & e & l2 & fing & _ & Hc & _).
    eexists. exact Hc.
  - intros j Hj.
    destruct (dpOptimization_spec level notes patterns h)
      as (l1 & e & l2 & fing & _ & _ & Hfing & Hlen & Hin & _).
    apply Hall; [exact Hj|]. fold sol in Hfing. rewrite Hfing.
    rewrite Forall_forall in Hin. apply Hin, nth_In. lia.
Qed.

Lemma C5_every_state_reachable_witness :
  (1 <= 3 < length cMajorScale)%nat /\ In 2 fingers
  /\ exists c, totalCost (dpOptimization beginner cMajorScale [] RH) = Fin c.
Proof.
  assert (1 <= 3 < length cMajorScale)%nat as H1 by (cbn; lia).
  assert (In 2 fingers) as H2 by (cbn; auto).
  split; [exact H1|]. split; [exact H2|].
  exact (proj1 (proj2 (proj2
    (C5_every_state_reachable beginner cMajorScale [] RH 3%nat 2 H1 H2)))).
Defined.


(** ** Chunked optimization *)

Lemma slice_length {A} (a b : nat) (l : list A) :
  length (slice a b l) = Nat.min (b - a) (length l - a).
Proof.
  unfold slice. rewrite length_firstn, length_skipn. reflexivity.
Qed.

Lemma firstn_min_length {A} (k : nat) (l : list A) :
  firstn (Nat.min k (length l)) l = firstn k l.
Proof.
  destruct (Nat.le_ge_cases k (length l)) as [H|H].
  - rewrite Nat.min_l by exact H. reflexivity.
  - rewrite Nat.min_r by exact H. rewrite firstn_all, firstn_all2 by exact H. reflexivity.
Qed.

(** The slice the loop takes is the chunk of at most 32 notes. *)
Lemma slice_chunk (notes : list Note) (s : nat) :
  slice s (Nat.min (s + chunkSize) (length notes)) notes = Chunks.chunkAt notes s.
Proof.
  unfold slice, Chunks.chunkAt, chunkSize.
  rewrite <- (firstn_min_length 32 (skipn s notes)), length_skipn.
  f_equal. lia.
Qed.

Lemma chunk_count (n k : nat) : (28 * k < n <-> k < (n + 27) / 28)%nat.
Proof.
  pose proof (Nat.div_mod_eq (n + 27) 28).
  pose proof (Nat.mod_upper_bound (n + 27) 28 ltac:(lia)).
  lia.
Qed.

Lemma chunkLoop_spec (notes : list Note) (fuel k : nat) :
  (length notes - 28 * k <= fuel)%nat ->
  chunkLoop fuel (28 * k) notes
  = map (Chunks.chunkAt notes)
        (map (fun j => (28 * j)%nat) (seq k ((length notes + 27) / 28 - k))).
Proof.
  revert k. induction fuel as [|fuel IH]; intros k Hfuel;
    pose proof (chunk_count (length notes) k) as Hk;
    pose proof (chunk_count (length notes) (S k)) as HSk.
  - assert ((length notes + 27) / 28 - k = 0)%nat as -> by lia. reflexivity.
  - cbn [chunkLoop]. destruct (28 * k <? length notes)%nat eqn:E.
    + apply Nat.ltb_lt in E.
      assert ((length notes + 27) / 28 - k = S ((length notes + 27) / 28 - S k))%nat
        as -> by lia.
      cbn [seq map]. f_equal; [apply slice_chunk|].
      replace (28 * k + (chunkSize - overlapSize))%nat with (28 * S k)%nat
        by (unfold chunkSize, overlapSize; lia).
      apply IH. lia.
    + apply Nat.ltb_ge in E.
      assert ((length notes + 27) / 28 - k = 0)%nat as -> by lia. reflexivity.
Qed.

Lemma makeChunks_spec (notes : list Note) :
  makeChunks notes = map (Chunks.chunkAt notes) (Chunks.chunkStarts (length notes)).
Proof.
  unfold makeChunks, Chunks.chunkStarts.
  change 0%nat with (28 * 0)%nat at 1.
  rewrite (chunkLoop_spec notes (length notes) 0) by lia.
  rewrite Nat.sub_0_r. reflexivity.
Qed.

Lemma collect_rest (rest : list FingeringSolution) (k : nat)
  (fing : list Finger) (expl : list string) (total : Num) :
  fold_left collectStep (combine (seq (S k) (length rest)) rest) (fing, expl, total)
  = (fing ++ flat_map (fun s => skipn overlapSize (fingering s)) rest,
     expl ++ flat_map (fun s => skipn overlapSize (explanations s)) rest,
     fold_left Num_add (map totalCost rest) total).
Proof.
  revert k fing expl total. induction rest as [|s rest IH]; intros k fing expl total.
  - cbn. rewrite !app_nil_r. reflexivity.
  - cbn [length seq combine fold_left map flat_map].
    unfold collectStep at 2. cbn [Nat.eqb].
    rewrite IH, <- !app_assoc. reflexivity.
Qed.

Lemma collect_spec (s0 : FingeringSolution) (rest : list FingeringSolution) :
  fold_left collectStep (combine (seq 0 (length (s0 :: rest))) (s0 :: rest))
            ([], [], Fin 0)
  = (fingering s0 ++ flat_map (fun s => skipn overlapSize (fingering s)) rest,
     explanations s0 ++ flat_map (fun s => skipn overlapSize (explanations s)) rest,
     fold_left Num_add (map totalCost (s0 :: rest)) (Fin 0)).
Proof.
  cbn [length seq combine fold_left map].
  unfold collectStep at 2. cbn [Nat.eqb app].
  apply collect_rest.
Qed.

Lemma chunkAt_length (notes : list Note) (s : nat) :
  length (Chunks.chunkAt notes s) = Nat.min 32 (length notes - s).
Proof.
  unfold Chunks.chunkAt. rewrite length_firstn, length_skipn. reflexivity.
Qed.

Section Chunked.

Variable level : Difficulty.
Variables (notes : list Note) (patterns : list PatternSegment) (h : Hand).

Let solve (c : list Note) : FingeringSolution := dpOptimization level c patterns h.
Let sols : list FingeringSolution :=
  map solve (map (Chunks.chunkAt notes) (Chunks.chunkStarts (length notes))).

Lemma chunkedOptimization_spec :
  fingering (chunkedOptimization level notes patterns h)
  = fingering (hd emptySolution sols)
    ++ flat_map (fun s => skipn overlapSize (fingering s)) (tl sols)
  /\ explanations (chunkedOptimization level notes patterns h)
     = explanations (hd emptySolution sols)
       ++ flat_map (fun s => skipn overlapSize (explanations s)) (tl sols)
  /\ totalCost (chunkedOptimization level notes patterns h)
     = fold_left Num_add (map totalCost sols) (Fin 0).
Proof.
  unfold chunkedOptimization. rewrite makeChunks_spec. fold solve. fold sols.
  destruct sols as [|s0 rest].
  - cbn. auto.
  - rewrite collect_spec. cbn [hd tl fingering explanations totalCost]. auto.
Qed.

Lemma solve_length (c : list Note) : length (fingering (solve c)) = length c.
Proof.
  unfold solve.
  destruct (dpOptimization_spec level c patterns h)
    as (_ & _ & _ & fing & _ & _ & -> & Hlen & _).
  exact Hlen.
Qed.

Lemma solve_fingers (c : list Note) :
  Forall (fun x => In x fingers) (fingering (solve c)).
Proof.
  unfold solve.
  destruct (dpOptimization_spec level c patterns h)
    as (_ & _ & _ & fing & _ & _ & -> & _ & Hin & _).
  exact Hin.
Qed.

Lemma overlap_tail_length (d k : nat) :
  (k + d = (length notes + 27) / 28)%nat ->
  length (flat_map (fun s => skipn overlapSize (fingering s))
            (map solve (map (Chunks.chunkAt notes)
                          (map (fun j => (28 * j)%nat) (seq k d)))))
  = (length notes - (28 * k + 4))%nat.
Proof.
  revert k. induction d as [|d IH]; intros k Hk;
    pose proof (chunk_count (length notes) k) as Hc.
  - cbn. lia.
  - cbn [seq map flat_map]. rewrite length_app, length_skipn, solve_length.
    rewrite chunkAt_length, (IH (S k)) by lia.
    unfold overlapSize. lia.
Qed.

Lemma chunkedOptimization_length :
  length (fingering (chunkedOptimization level notes patterns h)) = length notes.
Proof.
  destruct chunkedOptimization_spec as [-> _].
  unfold sols, Chunks.chunkStarts.
  pose proof (chunk_count (length notes) 0) as Hc.
  destruct ((length notes + 27) / 28)%nat as [|m] eqn:Em.
  - cbn. lia.
  - cbn [seq map hd tl]. rewrite length_app, solve_length, chunkAt_length.
    rewrite (overlap_tail_length m 1) by lia. lia.
Qed.

Lemma chunkedOptimization_fingers :
  Forall (fun x => In x fingers) (fingering (chunkedOptimization level notes patterns h)).
Proof.
  destruct chunkedOptimization_spec as [-> _].
  apply Forall_app. split.
  - destruct sols as [|s0 rest] eqn:E; [constructor|].
    cbn [hd]. unfold sols in E.
    destruct (map (Chunks.chunkAt notes) _) as [|c cs]; [discriminate|].
    injection E as <- _. apply solve_fingers.
  - apply Forall_flat_map. apply Forall_forall. intros s Hs.
    assert (In s sols) as Hs' by (destruct sols; [contradiction|right; exact Hs]).
    unfold sols in Hs'. apply in_map_iff in Hs'. destruct Hs' as (c & <- & _).
    pose proof (solve_fingers c) as Hall.
    rewrite Forall_forall in Hall |- *. intros x Hx. apply Hall.
    rewrite <- (firstn_skipn overlapSize (fingering (solve c))).
    apply in_or_app. right. exact Hx.
Qed.

Lemma planHandFingering_length :
  length (fingering (planHandFingering level notes patterns h)) = length notes.
Proof.
  unfold planHandFingering.
  destruct (length notes =? 0)%nat eqn:E0.
  - apply Nat.eqb_eq in E0. rewrite E0. reflexivity.
  - destruct (64 <? length notes)%nat.
    + apply chunkedOptimization_length.
    + apply solve_length.
Qed.

Lemma planHandFingering_fingers :
  Forall (fun x => In x fingers) (fingering (planHandFingering level notes patterns h)).
Proof.
  unfold planHandFingering.
  destruct (length notes =? 0)%nat; [constructor|].
  destruct (64 <? length notes)%nat.
  - apply chunkedOptimization_fingers.
  - apply solve_fingers.
Qed.

End Chunked.

(** C10.  For a hand-local stream of more than 64 notes the planner
    takes the chunked path: chunk [k] holds the (at most) 32 notes from
    note [28 * k] on, one chunk for every start below the length; the
    returned fingering is the whole solution of the first chunk
    followed by the solution of every later chunk without its first 4
    entries; the returned total is the sum of the chunk totals.  The
    last 4 notes of a chunk are the first 4 of the next, so the
    transitions between them are counted in both totals. *)
Theorem C10_chunked_solution
  (level : Difficulty) (notes : list Note) (patterns : list PatternSegment) (h : Hand) :
  (64 < length notes)%nat ->
  let chunks := map (Chunks.chunkAt notes) (Chunks.chunkStarts (length notes)) in
  let sols := map (fun c => dpOptimization level c patterns h) chunks in
  let res := planHandFingering level notes patterns h in
  fingering res
  = fingering (hd emptySolution sols)
    ++ flat_map (fun s => skipn 4 (fingering s)) (tl sols)
  /\ totalCost res = fold_left Num_add (map totalCost sols) (Fin 0)
  /\ (forall k, (28 * k < length notes)%nat ->
                nth k chunks [] = firstn 32 (skipn (28 * k) notes))
  /\ (forall k, (28 * S k < length notes)%nat ->
                skipn 28 (nth k chunks []) = firstn 4 (nth (S k) chunks [])).
Proof.
  intros Hlen chunks sols res.
  assert (forall k, (28 * k < length notes)%nat ->
                    nth k chunks [] = Chunks.chunkAt notes (28 * k)) as Hnth.
  { intros k Hk. unfold chunks, Chunks.chunkStarts.
    apply chunk_count in Hk.
    rewrite nth_indep with (d' := Chunks.chunkAt notes 0)
      by (rewrite !length_map, length_seq; exact Hk).
    rewrite map_nth.
    rewrite nth_indep with (d' := (28 * 0)%nat)
      by (rewrite length_map, length_seq; exact Hk).
    rewrite (map_nth (fun j => (28 * j)%nat)), seq_nth by exact Hk.
    reflexivity. }
  assert (res = chunkedOptimization level notes patterns h) as Hres.
  { unfold res, planHandFingering.
    destruct (length notes =? 0)%nat eqn:E0; [apply Nat.eqb_eq in E0; lia|].
    destruct (64 <? length notes)%nat eqn:E; [reflexivity|].
    apply Nat.ltb_ge in E. lia. }
  destruct (chunkedOptimization_spec level notes patterns h) as (Hf & _ & Hc).
  repeat split.
  - rewrite Hres. exact Hf.
  - rewrite Hres. exact Hc.
  - intros k Hk. rewrite (Hnth k Hk). reflexivity.
  - intros k Hk. rewrite (Hnth (S k) Hk), (Hnth k) by lia.
    unfold Chunks.chunkAt.
    rewrite skipn_firstn_comm, skipn_skipn, firstn_firstn.
    replace (28 + 28 * k)%nat with (28 * S k)%nat by lia. reflexivity.
Qed.

Lemma C10_chunked_solution_witness :
  (64 < length (chromaticRun 40 70))%nat
  /\ skipn 28 (nth 1 (map (Chunks.chunkAt (chromaticRun 40 70))
                          (Chunks.chunkStarts (length (chromaticRun 40 70)))) [])
     = firstn 4 (nth 2 (map (Chunks.chunkAt (chromaticRun 40 70))
                            (Chunks.chunkStarts (length (chromaticRun 40 70)))) []).
Proof.
  assert (64 < length (chromaticRun 40 70))%nat as H
    by (unfold chromaticRun; rewrite length_map, length_seq; lia).
  split; [exact H|].
  refine (proj2 (proj2 (proj2
    (C10_chunked_solution advanced (chromaticRun 40 70) [] RH H))) 1%nat _).
  unfold chromaticRun. rewrite length_map, length_seq. lia.
Defined.

(** ** Merging the two hands *)

Section Merge.

Variables (rs ls : FingeringSolution).

Lemma merge_spec (l : list Note) :
  exists ex,
    fold_left (mergeStep rs ls) l (mkMerge [] [] 0 0)
    = mkMerge (map (pickFinger rs ls l) (seq 0 (length l))) ex
              (length (filter isRH l))
              (length (filter (fun n => negb (isRH n)) l)).
Proof.
  induction l as [|x l IH] using rev_ind.
  - exists []. reflexivity.
  - destruct IH as [ex IH]. rewrite fold_left_app, IH. cbn [fold_left].
    assert (map (pickFinger rs ls (l ++ [x])) (seq 0 (length l))
            = map (pickFinger rs ls l) (seq 0 (length l))) as Hpre.
    { apply map_ext_in. intros i Hi. apply in_seq in Hi. unfold pickFinger.
      rewrite app_nth1 by lia. rewrite firstn_app.
      replace (i - length l)%nat with 0%nat by lia.
      cbn [firstn]. rewrite app_nil_r. reflexivity. }
    assert (nth (length l) (l ++ [x]) dummyNote = x) as Hx
      by (rewrite app_nth2, Nat.sub_diag by lia; reflexivity).
    assert (firstn (length l) (l ++ [x]) = l) as Hfn
      by (rewrite firstn_app, Nat.sub_diag, firstn_all; cbn; apply app_nil_r).
    unfold mergeStep. cbn [mFingering mExplanations rhIdx lhIdx].
    rewrite length_app, Nat.add_1_r, seq_S, map_app, Hpre. cbn [map Nat.add].
    rewrite !filter_app, !length_app. cbn [filter].
    unfold pickFinger at 2 4. rewrite Hx, Hfn.
    destruct (isRH x); cbn [negb length]; rewrite ?Nat.add_0_r, ?Nat.add_1_r;
      eexists; reflexivity.
Qed.

End Merge.

Lemma filter_before_lt {A} (p : A -> bool) (l : list A) (i : nat) (d : A) :
  (i < length l)%nat -> p (nth i l d) = true ->
  (length (filter p (firstn i l)) < length (filter p l))%nat.
Proof.
  intros Hi Hp.
  rewrite <- (firstn_skipn i l) at 2. rewrite filter_app, length_app.
  assert (skipn i l = nth i l d :: skipn (S i) l) as ->.
  { clear Hp. revert i Hi. induction l as [|a l IH]; intros i Hi; [cbn in Hi; lia|].
    destruct i as [|i]; [reflexivity|]. cbn. apply IH. cbn in Hi. lia. }
  cbn [filter]. rewrite Hp. cbn [length]. lia.
Qed.

Lemma not_RH_is_LH (n : Note) : negb (isRH n) = Hand_eqb (hand n) LH.
Proof. unfold isRH. destruct (hand n); reflexivity. Qed.

(** C2.  For every stream, pattern list and difficulty, [planFingering]
    returns one finger per input note, each in 1..5, and the finger at
    global index [i] is the entry of the note's hand solution at the
    note's position within its hand's stream, so input order is kept.
    The hand solution has one entry per hand-local note whatever the
    length of the hand's stream, the chunked path (more than 64 notes)
    included. *)
Theorem C2_output_shape
  (level : Difficulty) (notes : list Note) (patterns : list PatternSegment) :
  let sol := planFingering level notes patterns in
  let handSolution (hd : Hand) :=
    planHandFingering level (handStream notes hd) patterns hd in
  length (fingering sol) = length notes
  /\ Forall (fun f => 1 <= f <= 5) (fingering sol)
  /\ (forall i, (i < length notes)%nat ->
        exists f,
          nth_error (fingering sol) i = Some f
          /\ nth_error (fingering (handSolution (hand (nth i notes dummyNote))))
                       (handLocalIndex notes i) = Some f)
  /\ (forall hd, length (fingering (handSolution hd)) = length (handStream notes hd)).
Proof.
  intros sol handSolution.
  assert (forall hd, length (fingering (handSolution hd)) = length (handStream notes hd))
    as Hlen by (intro hd; apply planHandFingering_length).
  assert (forall hd, Forall (fun x => In x fingers) (fingering (handSolution hd)))
    as Hfing by (intro hd; apply planHandFingering_fingers).
  assert (forall i, (i < length notes)%nat ->
            exists f, nth_error (fingering (handSolution (hand (nth i notes dummyNote))))
                                (handLocalIndex notes i) = Some f
                      /\ In f fingers
                      /\ pickFinger (handSolution RH) (handSolution LH) notes i = f)
    as Hpick.
  { intros i Hi. unfold handLocalIndex, pickFinger, isRH.
    set (n := nth i notes dummyNote).
    assert (length (handStream (firstn i notes) (hand n))
            < length (fingering (handSolution (hand n))))%nat as Hlt.
    { rewrite Hlen. unfold handStream.
      apply (filter_before_lt _ notes i dummyNote Hi). fold n.
      destruct (hand n); reflexivity. }
    destruct (nth_error (fingering (handSolution (hand n))) _) as [f|] eqn:E;
      [|apply nth_error_None in E; lia].
    exists f. split; [reflexivity|].
    assert (In f fingers) as Hf.
    { pose proof (Hfing (hand n)) as Hall. rewrite Forall_forall in Hall.
      apply Hall. eapply nth_error_In. exact E. }
    split; [exact Hf|].
    apply In_fingers in Hf.
    destruct (hand n) eqn:Eh; cbn [Hand_eqb]; unfold fingerOr3.
    - unfold handStream in E. rewrite E.
      destruct (f =? 0) eqn:E0; [apply Z.eqb_eq in E0; lia|reflexivity].
    - rewrite (filter_ext _ (fun n0 => Hand_eqb (hand n0) LH))
        by (intro a; destruct (hand a); reflexivity).
      unfold handStream in E. rewrite E.
      destruct (f =? 0) eqn:E0; [apply Z.eqb_eq in E0; lia|reflexivity]. }
  assert (fingering sol
          = map (pickFinger (handSolution RH) (handSolution LH) notes)
                (seq 0 (length notes))) as Hsol.
  { unfold sol, planFingering.
    destruct (length notes =? 0)%nat eqn:E0.
    - apply Nat.eqb_eq in E0. rewrite E0. reflexivity.
    - destruct (merge_spec (handSolution RH) (handSolution LH) notes) as [ex Hm].
      unfold handSolution, handStream in Hm. unfold isRH, isLH. unfold isRH in Hm.
      rewrite Hm. reflexivity. }
  split; [rewrite Hsol, length_map, length_seq; reflexivity|].
  split.
  - rewrite Hsol. apply Forall_forall. intros f Hf.
    apply in_map_iff in Hf. destruct Hf as (i & <- & Hi). apply in_seq in Hi.
    destruct (Hpick i ltac:(lia)) as (f & _ & Hf & ->). apply In_fingers. exact Hf.
  - split; [|exact Hlen].
    intros i Hi. destruct (Hpick i Hi) as (f & He & _ & Hp).
    exists f. split; [|exact He].
    rewrite Hsol.
    rewrite (nth_error_nth' _ 0) by (rewrite length_map, length_seq; exact Hi).
    rewrite nth_indep with (d' := pickFinger (handSolution RH) (handSolution LH) notes 0)
      by (rewrite length_map, length_seq; exact Hi).
    rewrite map_nth, seq_nth by exact Hi. cbn [Nat.add]. rewrite Hp. reflexivity.
Qed.

(** ** The planner reads notes through their pitches *)

Lemma pitch_nth (notes : list Note) (i : nat) :
  pitch (nth i notes dummyNote) = nth i (map pitch notes) 0.
Proof.
  change 0 with (pitch dummyNote). symmetry. apply map_nth.
Qed.

Lemma same_length (notes notes' : list Note) :
  map pitch notes = map pitch notes' -> length notes = length notes'.
Proof.
  intro Hp. rewrite <- (length_map pitch notes), Hp. apply length_map.
Qed.

Lemma same_pitch (notes notes' : list Note) :
  map pitch notes = map pitch notes' ->
  forall i, pitch (nth i notes dummyNote) = pitch (nth i notes' dummyNote).
Proof.
  intros Hp i. rewrite !pitch_nth, Hp. reflexivity.
Qed.

Lemma detectScaleSegments_same (notes notes' : list Note) :
  map pitch notes = map pitch notes' ->
  detectScaleSegments notes = detectScaleSegments notes'.
Proof.
  intro Hp. unfold detectScaleSegments. rewrite (same_length _ _ Hp).
  assert (forall l st, fold_left (detectStep notes) l st
                       = fold_left (detectStep notes') l st) as ->.
  { intros l st. apply fold_left_ext_in. intros acc i _.
    unfold detectStep. rewrite !(same_pitch _ _ Hp). reflexivity. }
  reflexivity.
Qed.

Lemma analyzeHandPositions_same (notes notes' : list Note) (h : Hand) :
  map pitch notes = map pitch notes' ->
  analyzeHandPositions notes h = analyzeHandPositions notes' h.
Proof.
  intro Hp. unfold analyzeHandPositions.
  pose proof (same_length _ _ Hp) as Hl. pose proof (same_pitch _ _ Hp) as Hs.
  destruct notes as [|n0 r], notes' as [|n0' r']; try discriminate; [reflexivity|].
  pose proof (Hs 0%nat) as H0. cbn [nth] in H0. rewrite H0, Hl.
  assert (forall l st, fold_left (positionStep (n0 :: r) h) l st
                       = fold_left (positionStep (n0' :: r') h) l st) as ->.
  { intros l st. apply fold_left_ext_in. intros acc i _.
    unfold positionStep. rewrite Hs. reflexivity. }
  reflexivity.
Qed.

Lemma computeTransitionCost_pitch
  (level : Difficulty) (p p' : Note) (g : Finger) (c c' : Note) (f : Finger)
  (ctx : PatternType) (h : Hand) (pos : HandPosition) (cfg : Config) (sc : bool) :
  pitch p = pitch p' -> pitch c = pitch c' ->
  computeTransitionCost level p g c f ctx h pos cfg sc
  = computeTransitionCost level p' g c' f ctx h pos cfg sc.
Proof.
  intros H1 H2. unfold computeTransitionCost.
  assert (forall r, rule1 p g c f r = rule1 p' g c' f r) as E1
    by (intro r; unfold rule1; rewrite H1, H2; reflexivity).
  assert (forall r, rule2 p g c f r = rule2 p' g c' f r) as E2
    by (intro r; unfold rule2; rewrite H1, H2; reflexivity).
  assert (forall r, rule3 p g c f ctx h cfg sc r = rule3 p' g c' f ctx h cfg sc r) as E3
    by (intro r; unfold rule3; rewrite H1, H2; reflexivity).
  assert (forall r, rule4 p g c f cfg r = rule4 p' g c' f cfg r) as E4
    by (intro r; unfold rule4; rewrite H1, H2; reflexivity).
  assert (forall r, rule5 c f h pos sc r = rule5 c' f h pos sc r) as E5
    by (intro r; unfold rule5; rewrite H2; reflexivity).
  assert (forall r, rule6 p g c f ctx h cfg sc r = rule6 p' g c' f ctx h cfg sc r) as E6
    by (intro r; unfold rule6; rewrite H1, H2; reflexivity).
  assert (forall r, rule7 c f cfg r = rule7 c' f cfg r) as E7
    by (intro r; unfold rule7; rewrite H2; reflexivity).
  assert (forall r, rule8 level p g c f cfg r = rule8 level p' g c' f cfg r) as E8
    by (intro r; unfold rule8; rewrite H1, H2; reflexivity).
  assert (forall r, rule9 p g c f ctx h r = rule9 p' g c' f ctx h r) as E9
    by (intro r; unfold rule9; rewrite H1, H2; reflexivity).
  rewrite E1, E2, E3, E4, E5, E6, E7, E8, E9. reflexivity.
Qed.

(** Two runs of the forward pass whose initial layers and step costs
    agree build the same layers. *)
Section TwoTables.

Variable level : Difficulty.
Variables (notes notes' : list Note) (patterns patterns' : list PatternSegment).
Variable h : Hand.

Let layer := DP.layerAt level notes patterns h.
Let layer' := DP.layerAt level notes' patterns' h.

Hypothesis Hinit : layer 0%nat = layer' 0%nat.
Hypothesis Hstep :
  forall i f g, (1 <= i < length notes)%nat ->
    DP.stepCost level notes patterns h i f g = DP.stepCost level notes' patterns' h i f g.

Lemma buildLayer_agree (i : nat) (prev : Layer) :
  (1 <= i < length notes)%nat ->
  buildLayer level notes patterns h (analyzeHandPositions notes h)
    (detectScaleSegments notes) (getDifficultyConfig level) i prev
  = buildLayer level notes' patterns' h (analyzeHandPositions notes' h)
      (detectScaleSegments notes') (getDifficultyConfig level) i prev.
Proof.
  intro Hi. unfold buildLayer. apply fold_left_ext_in. intros acc f _.
  unfold layerStep, bestFor.
  assert (forall l b,
    fold_left (scanStep i prev
                 (transitionAt level notes patterns h (analyzeHandPositions notes h)
                    (detectScaleSegments notes) (getDifficultyConfig level) i f)) l b
    = fold_left (scanStep i prev
                   (transitionAt level notes' patterns' h (analyzeHandPositions notes' h)
                      (detectScaleSegments notes') (getDifficultyConfig level) i f)) l b)
    as ->.
  { intros l b. apply fold_left_ext_in. intros a g _.
    unfold scanStep. pose proof (Hstep i f g Hi) as E. unfold DP.stepCost in E.
    rewrite E. reflexivity. }
  reflexivity.
Qed.

Lemma layerAt_agree (i : nat) : (i < length notes)%nat -> layer i = layer' i.
Proof.
  induction i as [|i IH]; intro Hi; [exact Hinit|].
  unfold layer, layer' in *. cbn [DP.layerAt]. rewrite IH by lia.
  apply buildLayer_agree. lia.
Qed.

Hypothesis Hlen : length notes = length notes'.

Lemma dpTable_agree :
  dpTable level notes patterns h = dpTable level notes' patterns' h.
Proof.
  rewrite !dpTable_layers, <- Hlen. fold layer layer'.
  apply map_ext_in. intros i Hi. apply in_seq in Hi.
  destruct i as [|i]; [exact Hinit|]. apply layerAt_agree. lia.
Qed.

End TwoTables.

Lemma backtrackLoop_same (dp : list Layer) (notes notes' : list Note) (h : Hand)
  (k : nat) (f : Finger) (acc : list Finger * list string * list FingeringState) :
  map pitch notes = map pitch notes' ->
  backtrackLoop dp notes h k f acc = backtrackLoop dp notes' h k f acc.
Proof.
  intro Hp. revert f acc. induction k as [|k IH]; intros f [[fing expl] pth];
    [reflexivity|].
  cbn [backtrackLoop]. rewrite (same_pitch notes notes' Hp k). apply IH.
Qed.

(** The solution depends on the notes only through their pitches and
    the pattern context seen at each index. *)
Lemma dpOptimization_same
  (level : Difficulty) (notes notes' : list Note)
  (patterns patterns' : list PatternSegment) (h : Hand) :
  map pitch notes = map pitch notes' ->
  (forall i, (1 <= i < length notes)%nat ->
             getPatternContext notes i patterns = getPatternContext notes' i patterns') ->
  dpOptimization level notes patterns h = dpOptimization level notes' patterns' h.
Proof.
  intros Hp Hctx.
  pose proof (same_length notes notes' Hp) as Hlen.
  unfold dpOptimization.
  rewrite (dpTable_agree level notes notes' patterns patterns' h).
  - unfold backtrack. rewrite <- Hlen.
    destruct (bestFinal _) as [c f].
    rewrite (backtrackLoop_same _ notes notes' h _ _ _ Hp). reflexivity.
  - cbn [DP.layerAt]. unfold initialLayer.
    rewrite (analyzeHandPositions_same notes notes' h Hp).
    apply map_ext. intro f. unfold computeInitialCost.
    rewrite (same_pitch notes notes' Hp 0). reflexivity.
  - intros i f g Hi. unfold DP.stepCost, transitionAt.
    rewrite (analyzeHandPositions_same notes notes' h Hp),
      (detectScaleSegments_same notes notes' Hp), (Hctx i Hi).
    apply computeTransitionCost_pitch; apply same_pitch; exact Hp.
  - exact Hlen.
Qed.

(** ** Scale runs and the forced pattern context *)

Lemma detect_fold_ascending (notes : list Note) (k : nat) :
  ascendingSteps (map pitch notes) -> (k < length notes)%nat ->
  fold_left (detectStep notes) (seq 1 k) (mkDetect 0 0 0 [])
  = mkDetect 0 (if (k =? 0)%nat then 0 else 1) (Z.of_nat k) [].
Proof.
  intros Hasc. induction k as [|k IH]; intro Hk; [reflexivity|].
  rewrite seq_S, fold_left_app, IH by lia. cbn [fold_left Nat.add].
  unfold detectStep. cbn [dSegStart dDirection dStepCount dSegments].
  replace (S k - 1)%nat with k by lia.
  pose proof (Hasc k) as Hstep. rewrite length_map in Hstep.
  specialize (Hstep Hk). rewrite <- !pitch_nth in Hstep.
  set (d := pitch (nth (S k) notes dummyNote) - pitch (nth k notes dummyNote)) in *.
  assert (d = 1 \/ d = 2) as [-> | ->] by lia;
    destruct k as [|k]; cbn [Z.abs Z.eqb Z.sgn orb andb Nat.eqb Pos.eqb];
    f_equal; lia.
Qed.

Lemma detectScaleSegments_ascending (notes : list Note) :
  ascendingSteps (map pitch notes) -> (5 <= length notes)%nat ->
  detectScaleSegments notes = [mkScaleSeg 0 (length notes - 1) true].
Proof.
  intros Hasc Hlen. unfold detectScaleSegments.
  destruct (length notes <? 5)%nat eqn:E; [apply Nat.ltb_lt in E; lia|].
  rewrite detect_fold_ascending by (auto; lia).
  cbn [dStepCount dSegments dSegStart dDirection].
  destruct (length notes - 1 =? 0)%nat eqn:E0; [apply Nat.eqb_eq in E0; lia|].
  destruct (4 <=? Z.of_nat (length notes - 1)) eqn:E4; [reflexivity|].
  apply Z.leb_gt in E4. lia.
Qed.

(** Inside a scale run the context SCALE and the context UNKNOWN give
    the same transition cost. *)
Lemma computeTransitionCost_inScale
  (level : Difficulty) (p : Note) (g : Finger) (c : Note) (f : Finger)
  (h : Hand) (pos : HandPosition) (cfg : Config) :
  computeTransitionCost level p g c f SCALE h pos cfg true
  = computeTransitionCost level p g c f UNKNOWN h pos cfg true.
Proof.
  unfold computeTransitionCost.
  assert (forall r, rule3 p g c f SCALE h cfg true r = rule3 p g c f UNKNOWN h cfg true r)
    as E3 by reflexivity.
  assert (forall r, rule6 p g c f SCALE h cfg true r = rule6 p g c f UNKNOWN h cfg true r)
    as E6 by reflexivity.
  assert (forall r, rule9 p g c f SCALE h r = rule9 p g c f UNKNOWN h r)
    as E9 by reflexivity.
  rewrite E3, E6, E9. reflexivity.
Qed.

Lemma long_run_same_solution
  (level : Difficulty) (notes : list Note) (pS pU : list PatternSegment) (h : Hand) :
  (5 <= length notes)%nat ->
  ascendingSteps (map pitch notes) ->
  (forall i, (1 <= i < length notes)%nat -> getPatternContext notes i pS = SCALE) ->
  (forall i, (1 <= i < length notes)%nat -> getPatternContext notes i pU = UNKNOWN) ->
  dpOptimization level notes pS h = dpOptimization level notes pU h.
Proof.
  intros Hlen Hasc HS HU. unfold dpOptimization.
  rewrite (dpTable_agree level notes notes pS pU h);
    [reflexivity|reflexivity| |reflexivity].
  intros i f g Hi. unfold DP.stepCost, transitionAt.
  rewrite (HS i Hi), (HU i Hi), (detectScaleSegments_ascending notes Hasc Hlen).
  assert (inScaleAt [mkScaleSeg 0 (length notes - 1) true] i = true) as ->.
  { unfold inScaleAt. cbn [existsb sStart sEnd]. 
    destruct (i <=? length notes - 1)%nat eqn:E; [reflexivity|].
    apply Nat.leb_gt in E. lia. }
  apply computeTransitionCost_inScale.
Qed.

(** ** Four-note runs, by enumeration *)

Lemma scaleNotWorse_all (level : Difficulty) :
  forallb (fun a =>
    forallb (fun d1 =>
      forallb (fun d2 =>
        forallb (fun d3 => scaleNotWorse level a d1 d2 d3) [1; 2]) [1; 2]) [1; 2])
    (map Z.of_nat (seq 0 128)) = true.
Proof.
  destruct level; vm_compute; reflexivity.
Qed.

Lemma forcedContext_lookup (t : PatternType) (ps : list Z) (n i : nat) :
  length ps = n -> (i < n)%nat ->
  getPatternContext (map pitchOnly ps) i (forcedContext t n) = t.
Proof.
  intros Hn Hi. unfold getPatternContext, forcedContext, findSegment.
  cbn [find startIndex endIndex].
  assert (measureNumber (nth i (map pitchOnly ps) dummyNote) = 0) as ->.
  { rewrite nth_indep with (d' := pitchOnly 0) by (rewrite length_map; lia).
    rewrite map_nth. reflexivity. }
  destruct (0 <=? Z.of_nat n - 1) eqn:E; [reflexivity|].
  apply Z.leb_gt in E. lia.
Qed.

Lemma Num_leb_le (a b : Num) :
  Num_leb a b = true -> forall x, a = Fin x ->
  forall y, b = Fin y -> (x <= y)%Q.
Proof.
  intros H x -> y ->. cbn in H. apply Qle_bool_iff. exact H.
Qed.

(** The boolean check, spelt out. *)
Lemma scaleNotWorse_eq (level : Difficulty) (a d1 d2 d3 : Z) :
  Num_leb
    (totalCost (dpOptimization level
                  (map pitchOnly [a; a + d1; a + d1 + d2; a + d1 + d2 + d3])
                  (forcedContext SCALE 4) RH))
    (totalCost (dpOptimization level
                  (map pitchOnly [a; a + d1; a + d1 + d2; a + d1 + d2 + d3])
                  (forcedContext UNKNOWN 4) RH))
  = scaleNotWorse level a d1 d2 d3.
Proof. exact eq_refl. Qed.

Lemma scaleNotWorse_in (level : Difficulty) (a d1 d2 d3 : Z) :
  0 <= a <= 127 -> 1 <= d1 <= 2 -> 1 <= d2 <= 2 -> 1 <= d3 <= 2 ->
  scaleNotWorse level a d1 d2 d3 = true.
Proof.
  intros Ha H1 H2 H3.
  pose proof (scaleNotWorse_all level) as Hall.
  assert (In a (map Z.of_nat (seq 0 128))) as Hin.
  { apply in_map_iff. exists (Z.to_nat a). split; [lia|]. apply in_seq. lia. }
  assert (forall d, 1 <= d <= 2 -> In d [1; 2]) as Hd
    by (intros d Hd; cbn; lia).
  pose proof (proj1 (forallb_forall _ _) Hall a Hin) as Ha'. cbv beta in Ha'.
  pose proof (proj1 (forallb_forall _ _) Ha' d1 (Hd d1 H1)) as H1'. cbv beta in H1'.
  pose proof (proj1 (forallb_forall _ _) H1' d2 (Hd d2 H2)) as H2'. cbv beta in H2'.
  exact (proj1 (forallb_forall _ _) H2' d3 (Hd d3 H3)).
Qed.

Lemma four_note_run
  (level : Difficulty) (notes : list Note) (pS pU : list PatternSegment) :
  length notes = 4%nat ->
  Forall (fun n => 0 <= pitch n <= 127) notes ->
  ascendingSteps (map pitch notes) ->
  (forall i, (1 <= i < length notes)%nat -> getPatternContext notes i pS = SCALE) ->
  (forall i, (1 <= i < length notes)%nat -> getPatternContext notes i pU = UNKNOWN) ->
  Num_leb (totalCost (dpOptimization level notes pS RH))
          (totalCost (dpOptimization level notes pU RH)) = true.
Proof.
  intros Hlen Hrange Hasc HS HU.
  destruct notes as [|n0 [|n1 [|n2 [|n3 [|? ?]]]]]; try discriminate.
  remember (pitch n0) as a eqn:Ea.
  remember (pitch n1 - pitch n0) as d1 eqn:E1.
  remember (pitch n2 - pitch n1) as d2 eqn:E2.
  remember (pitch n3 - pitch n2) as d3 eqn:E3.
  assert (1 <= d1 <= 2) as H1 by (subst d1; apply (Hasc 0%nat); cbn; lia).
  assert (1 <= d2 <= 2) as H2 by (subst d2; apply (Hasc 1%nat); cbn; lia).
  assert (1 <= d3 <= 2) as H3 by (subst d3; apply (Hasc 2%nat); cbn; lia).
  assert (0 <= a <= 127) as Ha by (subst a; inversion Hrange; assumption).
  assert (map pitch [n0; n1; n2; n3]
          = map pitch (map pitchOnly [a; a + d1; a + d1 + d2; a + d1 + d2 + d3])) as Hp.
  { cbn [map pitch pitchOnly plainNote]. repeat f_equal; lia. }
  rewrite (dpOptimization_same level [n0; n1; n2; n3] _ pS (forcedContext SCALE 4) RH Hp).
  2:{ intros i Hi. rewrite (HS i Hi). symmetry.
      apply forcedContext_lookup; [reflexivity|]. cbn [length] in Hi. lia. }
  rewrite (dpOptimization_same level [n0; n1; n2; n3] _ pU (forcedContext UNKNOWN 4) RH Hp).
  2:{ intros i Hi. rewrite (HU i Hi). symmetry.
      apply forcedContext_lookup; [reflexivity|]. cbn [length] in Hi. lia. }
  rewrite scaleNotWorse_eq.
  apply scaleNotWorse_in; assumption.
Qed.

(** C9.  Take a right-hand stream of at least four notes, with MIDI
    pitches, that rises by steps of one or two semitones, and two
    pattern lists: one under which every index of the stream sees the
    context SCALE, one under which every index sees UNKNOWN.  Both runs
    of the DP end with a finite total cost, and the cost under SCALE is
    not greater than the cost under UNKNOWN.  (From five notes on the
    whole stream is inside a detected scale run and the two runs
    coincide; for four notes the inequality holds by enumeration of the
    128 x 8 pitch sequences.) *)
Theorem C9_scale_context_not_worse
  (level : Difficulty) (notes : list Note) (pS pU : list PatternSegment) :
  (4 <= length notes)%nat ->
  Forall (fun n => 0 <= pitch n <= 127) notes ->
  ascendingSteps (map pitch notes) ->
  (forall i, (1 <= i < length notes)%nat -> getPatternContext notes i pS = SCALE) ->
  (forall i, (1 <= i < length notes)%nat -> getPatternContext notes i pU = UNKNOWN) ->
  exists cS cU,
    totalCost (dpOptimization level notes pS RH) = Fin cS
    /\ totalCost (dpOptimization level notes pU RH) = Fin cU
    /\ (cS <= cU)%Q.
Proof.
  intros Hlen Hrange Hasc HS HU.
  destruct (dpOptimization_spec level notes pS RH) as (_ & eS & _ & _ & _ & HcS & _).
  destruct (dpOptimization_spec level notes pU RH) as (_ & eU & _ & _ & _ & HcU & _).
  exists (stCost (snd eS)), (stCost (snd eU)).
  split; [exact HcS|]. split; [exact HcU|].
  destruct (Nat.eq_dec (length notes) 4) as [H4|H4].
  - apply (Num_leb_le _ _ (four_note_run level notes pS pU H4 Hrange Hasc HS HU));
      assumption.
  - assert (dpOptimization level notes pS RH = dpOptimization level notes pU RH) as E
      by (apply long_run_same_solution; auto; lia).
    rewrite E in HcS. rewrite HcS in HcU. injection HcU as ->. lra.
Qed.

Lemma C9_scale_context_not_worse_witness :
  exists cS cU,
    totalCost (dpOptimization intermediate (firstn 4 cMajorScale)
                 (forcedContext SCALE 4) RH) = Fin cS
    /\ totalCost (dpOptimization intermediate (firstn 4 cMajorScale)
                    (forcedContext UNKNOWN 4) RH) = Fin cU
    /\ (cS <= cU)%Q.
Proof.
  apply C9_scale_context_not_worse.
  - cbn. lia.
  - repeat constructor; cbn; lia.
  - intros i Hi. cbn in Hi.
    destruct i as [|[|[|i]]]; cbn; lia.
  - intros i Hi. cbn in Hi.
    destruct i as [|[|[|[|i]]]]; try lia; reflexivity.
  - intros i Hi. cbn in Hi.
    destruct i as [|[|[|[|i]]]]; try lia; reflexivity.
Defined.

(** ** Claims about the decision tree and the post-processing walk *)

Import PatternRecognizer.

Lemma PatternType_eqb_eq (a b : PatternType) : PatternType_eqb a b = true <-> a = b.
Proof.
  split.
  - destruct a, b; cbn; intro H; try reflexivity; discriminate.
  - intros ->. destruct b; reflexivity.
Qed.

Lemma Qmax2_spec (a b : Q) :
  (a <= Qmax2 a b)%Q /\ (b <= Qmax2 a b)%Q /\ (Qmax2 a b = a \/ Qmax2 a b = b).
Proof.
  unfold Qmax2. destruct (Qle_bool a b) eqn:E.
  - apply Qle_bool_iff in E. repeat split; auto; lra.
  - assert (~ (a <= b)%Q) as Hn by (intro H; apply Qle_bool_iff in H; congruence).
    repeat split; auto; lra.
Qed.

(** What the walk of [postProcess] does with the running segment and
    the next one: it merges them exactly when both have the same
    patternType or [endIndex - startIndex] of the running segment is
    below 3, that is, when it holds fewer than 4 notes.  The merged
    segment keeps the running segment's startIndex, type and features,
    takes the next segment's endIndex, and its confidence is the
    larger of the two; otherwise the running segment is emitted and the
    next one becomes the running segment. *)
Lemma postProcess_merge_rule
  (current next : PatternSegment) (rest merged : list PatternSegment) :
  (shouldMerge current next = true
   <-> patternType current = patternType next \/ noteCount current < 4)
  /\ postProcessLoop current (next :: rest) merged
     = (if shouldMerge current next
        then postProcessLoop (mergeInto current next) rest merged
        else postProcessLoop next rest (merged ++ [current]))
  /\ startIndex (mergeInto current next) = startIndex current
  /\ endIndex (mergeInto current next) = endIndex next
  /\ patternType (mergeInto current next) = patternType current
  /\ features (mergeInto current next) = features current
  /\ (confidence current <= confidence (mergeInto current next))%Q
  /\ (confidence next <= confidence (mergeInto current next))%Q
  /\ (confidence (mergeInto current next) = confidence current
      \/ confidence (mergeInto current next) = confidence next).
Proof.
  split.
  - unfold shouldMerge, noteCount. rewrite orb_true_iff, PatternType_eqb_eq, Z.ltb_lt.
    intuition lia.
  - split; [reflexivity|].
    destruct (Qmax2_spec (confidence current) (confidence next)) as (H1 & H2 & H3).
    cbn [mergeInto startIndex endIndex patternType confidence features].
    repeat split; assumption.
Qed.

(** C7, at the failing input.  Three right-hand quarter notes C4, B
    flat 4, C5: the windows give a running segment over the three notes
    0..2 (UNKNOWN) and a next segment 1..2 (SCALE).  The running
    segment does not hold fewer than 3 notes and the types differ, yet
    [postProcess] merges the two, because its [currentLength] is
    [endIndex - startIndex = 2]; the stream gets the single segment
    0..2 UNKNOWN, with the larger confidence of the two. *)
Theorem C7_three_note_segment_merged :
  exists current next merged,
    rawSegments threeNotes = [current; next]
    /\ (startIndex current, endIndex current, patternType current) = (0, 2, UNKNOWN)
    /\ (startIndex next, endIndex next, patternType next) = (1, 2, SCALE)
    /\ noteCount current = 3
    /\ patternType current <> patternType next
    /\ shouldMerge current next = true
    /\ recognizeHandPatterns threeNotes RH = [merged]
    /\ recognizePatterns threeNotes = [merged]
    /\ (startIndex merged, endIndex merged, patternType merged) = (0, 2, UNKNOWN)
    /\ confidence merged = confidence next.
Proof.
  eexists. eexists. eexists.
  split; [vm_compute; reflexivity|].
  split; [reflexivity|]. split; [reflexivity|]. split; [reflexivity|].
  split; [discriminate|]. split; [reflexivity|].
  split; [vm_compute; reflexivity|]. split; [vm_compute; reflexivity|].
  split; reflexivity.
Qed.

(** *** Direction changes *)

Lemma changeAt_shift (a : Z) (L : list Z) (i : nat) :
  (1 <= i)%nat -> changeAt (a :: L) (S i) = changeAt L i.
Proof.
  intro Hi. unfold changeAt.
  replace (S i - 1)%nat with (S (i - 1)) by lia. reflexivity.
Qed.

(** The loop of [countDirectionChanges] counts what the specification
    describes. *)
Lemma countDirectionChanges_spec (I : list Z) :
  countDirectionChanges I = directionChangesSpec I.
Proof.
  induction I as [|a r IH]; [reflexivity|].
  destruct r as [|b r']; [reflexivity|].
  change (countDirectionChanges (a :: b :: r'))
    with ((if negb (Z.sgn b =? Z.sgn a) && negb (b =? 0) && negb (a =? 0)
           then 1 else 0) + countDirectionChanges (b :: r')).
  rewrite IH. unfold directionChangesSpec.
  replace (length (a :: b :: r') - 1)%nat with (S (length r')) by (cbn; lia).
  replace (length (b :: r') - 1)%nat with (length r') by (cbn; lia).
  cbn [seq filter].
  change (changeAt (a :: b :: r') 1)
    with (negb (Z.sgn b =? Z.sgn a) && negb (b =? 0) && negb (a =? 0)).
  assert (length (filter (changeAt (a :: b :: r')) (seq 2 (length r')))
          = length (filter (changeAt (b :: r')) (seq 1 (length r')))) as Hshift.
  { rewrite <- (seq_shift (length r') 1), filter_map_swap, length_map.
    f_equal. apply filter_ext_in. intros i Hi. apply in_seq in Hi.
    apply changeAt_shift. lia. }
  destruct (negb (Z.sgn b =? Z.sgn a) && negb (b =? 0) && negb (a =? 0));
    cbn [length]; rewrite Hshift; lia.
Qed.

Lemma maxInterval_spec (w : list Note) :
  maxInterval (extractFeatures w)
  = maxList (map Z.abs (computeIntervals (map pitch w))).
Proof.
  unfold extractFeatures. cbn [maxInterval].
  destruct (computeIntervals (map pitch w)) as [|d r]; reflexivity.
Qed.

Lemma leapTest_spec (w : list Note) :
  leapTest w (extractFeatures w) = true
  <-> 4 < maxList (map Z.abs (computeIntervals (map pitch w)))
      /\ (inject_Z (Z.of_nat (length w)) * 0.4
          < inject_Z (directionChangesSpec (computeIntervals (map pitch w))))%Q.
Proof.
  unfold leapTest. rewrite andb_true_iff, Z.ltb_lt, Qlt_bool_iff, maxInterval_spec.
  unfold extractFeatures. cbn [directionChanges].
  rewrite countDirectionChanges_spec. reflexivity.
Qed.

(** C6, as the specification states it, fails: the window of eight
    notes 60 67 62 69 64 62 61 59 reaches the LEAP test, its largest
    interval is 7 > 4 and it has 3 direction changes, more than
    0.4 x 7 intervals = 2.8; the classifier does not label it LEAP. *)
Lemma C6_counterexample :
  let f := extractFeatures zigzagWindow in
  let I := computeIntervals (map pitch zigzagWindow) in
  classifyBeforeLeap zigzagWindow f = None
  /\ length I = (length zigzagWindow - 1)%nat
  /\ 4 < maxList (map Z.abs I)
  /\ (0.4 * inject_Z (Z.of_nat (length I)) < inject_Z (directionChangesSpec I))%Q
  /\ crType (classifyPattern zigzagWindow f) <> LEAP.
Proof.
  cbv zeta. split; [vm_compute; reflexivity|]. split; [reflexivity|].
  split; [vm_compute; reflexivity|]. split; [vm_compute; reflexivity|].
  vm_compute. discriminate.
Qed.

(** C6, amended.  A window for which every test before the LEAP test
    fails is labelled LEAP exactly when its largest absolute interval
    exceeds 4 and its number of direction changes exceeds 0.4 times
    the number of NOTES of the window (not the number of intervals). *)
Theorem C6_leap_test (w : list Note) :
  classifyBeforeLeap w (extractFeatures w) = None ->
  (crType (classifyPattern w (extractFeatures w)) = LEAP
   <-> 4 < maxList (map Z.abs (computeIntervals (map pitch w)))
       /\ (inject_Z (Z.of_nat (length w)) * 0.4
           < inject_Z (directionChangesSpec (computeIntervals (map pitch w))))%Q).
Proof.
  intro Hnone. rewrite <- leapTest_spec.
  unfold classifyPattern. rewrite Hnone. unfold classifyFromLeap.
  destruct (leapTest w (extractFeatures w)).
  - split; reflexivity.
  - destruct (fHasSlur (extractFeatures w) || Qlt_bool 0.3 (durationVariance (extractFeatures w)));
      split; intro H; discriminate.
Qed.

Lemma C6_leap_test_witness :
  classifyBeforeLeap (skipn 8 scaleThenLeaps) (extractFeatures (skipn 8 scaleThenLeaps))
  = None
  /\ crType (classifyPattern (skipn 8 scaleThenLeaps)
                (extractFeatures (skipn 8 scaleThenLeaps))) = LEAP.
Proof.
  assert (classifyBeforeLeap (skipn 8 scaleThenLeaps)
            (extractFeatures (skipn 8 scaleThenLeaps)) = None) as H
    by (vm_compute; reflexivity).
  split; [exact H|].
  apply (proj2 (C6_leap_test (skipn 8 scaleThenLeaps) H)).
  split; [vm_compute; reflexivity|vm_compute; reflexivity].
Defined.

(** ** Claims about concrete streams *)

(** C4: what the code does at a stream it can receive.  For twelve
    eighth notes in 4/4 (a C-major octave in measure 1, octave leaps in
    measure 2) the recognizer returns the segments 0..7 SCALE and
    4..11 LEAP.  The only segment containing note index 8 is the LEAP
    segment, yet the lookup answers SCALE, because the note's measure
    number 2 lies within the bounds 0..7 of the SCALE segment.  With
    measure numbers that lie in no segment's bounds the same notes get
    LEAP at index 8, and the planner returns another fingering. *)
Theorem C4_lookup_reads_measure_number :
  let patterns := recognizePatterns scaleThenLeaps in
  let renumbered := map (withMeasure 100) scaleThenLeaps in
  map (fun s => (startIndex s, endIndex s, patternType s)) patterns
  = [(0, 7, SCALE); (4, 11, LEAP)]
  /\ measureNumber (nth 8 scaleThenLeaps dummyNote) = 2
  /\ getPatternContext scaleThenLeaps 8 patterns = SCALE
  /\ contextByIndex 8 patterns = LEAP
  /\ getPatternContext renumbered 8 patterns = LEAP
  /\ fingering (planFingering beginner scaleThenLeaps patterns)
     = [1; 2; 3; 4; 2; 3; 2; 3; 2; 3; 2; 3]
  /\ fingering (planFingering beginner renumbered patterns)
     = [1; 2; 3; 4; 5; 2; 3; 4; 1; 2; 1; 2].
Proof.
  cbv zeta. repeat split; vm_compute; reflexivity.
Qed.

(** ** Segments of the recognizer *)

Lemma windowLoop_app (fuel : nat) (notes : list Note) (i : nat)
  (segments : list PatternSegment) :
  windowLoop fuel notes i segments = segments ++ Walk.windowsFrom fuel notes i.
Proof.
  revert i segments. induction fuel as [|fuel IH]; intros i segments;
    cbn [windowLoop Walk.windowsFrom].
  - rewrite app_nil_r. reflexivity.
  - destruct (i <? length notes)%nat; [|rewrite app_nil_r; reflexivity].
    destruct (length (slice i _ notes) <? 2)%nat; [apply IH|].
    rewrite IH, <- app_assoc. reflexivity.
Qed.

Lemma postProcessLoop_walk (current : PatternSegment)
  (rest merged : list PatternSegment) :
  postProcessLoop current rest merged = merged ++ Walk.walk current rest.
Proof.
  revert current merged. induction rest as [|next rest IH]; intros current merged;
    cbn [postProcessLoop Walk.walk].
  - reflexivity.
  - destruct (shouldMerge current next); rewrite IH; [reflexivity|].
    rewrite <- app_assoc. reflexivity.
Qed.

(** *** [indexOf] on notes with distinct identities *)

Lemma indexOfFrom_nth (notes : list Note) (k : Z) (i : nat) :
  NoDup (map noteId notes) -> (i < length notes)%nat ->
  indexOfFrom k notes (nth i notes dummyNote) = k + Z.of_nat i.
Proof.
  revert k i. induction notes as [|n r IH]; intros k i Hnd Hi; [cbn in Hi; lia|].
  cbn [map] in Hnd. inversion Hnd as [|? ? Hnot Hnd']; subst.
  destruct i as [|i]; cbn [nth indexOfFrom].
  - rewrite String.eqb_refl. lia.
  - destruct (String.eqb (noteId n) (noteId (nth i r dummyNote))) eqn:E.
    + apply String.eqb_eq in E. exfalso. apply Hnot. rewrite E.
      apply in_map, nth_In. cbn in Hi. lia.
    + rewrite IH by (auto; cbn in Hi; lia). lia.
Qed.

Lemma indexOf_nth (notes : list Note) (i : nat) :
  NoDup (map noteId notes) -> (i < length notes)%nat ->
  indexOf notes (nth i notes dummyNote) = Z.of_nat i.
Proof.
  intros Hnd Hi. unfold indexOf. rewrite indexOfFrom_nth by assumption. lia.
Qed.

Lemma slice_nth {A} (a b j : nat) (l : list A) (d : A) :
  (j < b - a)%nat -> nth j (slice a b l) d = nth (a + j) l d.
Proof.
  intro Hj. unfold slice. rewrite nth_firstn.
  destruct (j <? b - a)%nat eqn:E; [|apply Nat.ltb_ge in E; lia].
  apply nth_skipn.
Qed.

(** *** The adaptive window *)

Lemma adaptWindowSize_cases (notes : list Note) (i : nat) :
  let w := adaptWindowSize notes i in
  (w = Nat.min 16 (length notes - i) /\ (Nat.min 16 (length notes - i) < 4)%nat)
  \/ ((4 <= length notes - i)%nat /\ (w = 16 \/ w = 12 \/ w = 4 \/ w = 8)%nat).
Proof.
  unfold adaptWindowSize.
  destruct (Nat.min 16 (length notes - i) <? 4)%nat eqn:E.
  - left. apply Nat.ltb_lt in E. auto.
  - right. apply Nat.ltb_ge in E. split; [lia|].
    unfold baseWindowSize.
    repeat match goal with |- context [if ?c then _ else _] => destruct c end; auto.
Qed.

(** The arithmetic of one iteration at cursor [i]: the window has a
    single note only at the last index; otherwise it holds at least two
    notes, ends inside the stream, and reaches the next cursor or the
    end of the stream. *)
Lemma window_step (notes : list Note) (i : nat) :
  (i < length notes)%nat ->
  let w := adaptWindowSize notes i in
  let e := Nat.min (i + w) (length notes) in
  let s := Nat.max 1 (w / 2) in
  length (slice i e notes) = (e - i)%nat
  /\ (e <= length notes)%nat
  /\ (1 <= s)%nat
  /\ ((e - i < 2)%nat -> S i = length notes)
  /\ ((2 <= e - i)%nat -> (Nat.min (i + s) (length notes - 1) <= e - 1)%nat).
Proof.
  intros Hi w e s.
  assert (length (slice i e notes) = (e - i)%nat) as Hlen
    by (rewrite slice_length; subst e; lia).
  split; [exact Hlen|]. split; [subst e; lia|]. split; [subst s; lia|].
  destruct (adaptWindowSize_cases notes i) as [[Hw Hsmall]|[Hbig Hw]]; fold w in Hw.
  - split; [subst e; lia|]. intro H2. subst e. lia.
  - split; [subst e; lia|]. intro H2. subst s e.
    destruct Hw as [-> | [-> | [-> | ->]]];
      [change (16 / 2)%nat with 8%nat | change (12 / 2)%nat with 6%nat
      | change (4 / 2)%nat with 2%nat | change (8 / 2)%nat with 4%nat]; lia.
Qed.

Lemma last_cons_indep {A} (a : A) (r : list A) (d1 d2 : A) :
  last (a :: r) d1 = last (a :: r) d2.
Proof.
  revert a. induction r as [|b r IH]; intro a; [reflexivity|].
  change (last (a :: b :: r) d1) with (last (b :: r) d1).
  change (last (a :: b :: r) d2) with (last (b :: r) d2).
  apply IH.
Qed.

Lemma within_weaken (lo lo' hi : Z) (l : list PatternSegment) :
  lo' <= lo -> Forall (within lo hi) l -> Forall (within lo' hi) l.
Proof.
  intros Hlo Hall. eapply Forall_impl; [|exact Hall].
  intros s (H1 & H2 & H3). unfold within. lia.
Qed.

(** *** The raw windows *)

Section RawWindows.

Variable notes : list Note.
Hypothesis Hids : NoDup (map noteId notes).

Let n := length notes.

Lemma windowsFrom_spec (fuel i : nat) :
  (n - i <= fuel)%nat ->
  let l := Walk.windowsFrom fuel notes i in
  linked l
  /\ Forall (within (Z.of_nat i) (Z.of_nat n - 1)) l
  /\ ((i + 2 <= n)%nat ->
      exists a r, l = a :: r /\ startIndex a = Z.of_nat i
                  /\ endIndex (last l a) = Z.of_nat n - 1)
  /\ ((n < i + 2)%nat -> l = []).
Proof.
  revert i. induction fuel as [|fuel IH]; intros i Hfuel.
  - cbn. repeat split; auto. intro. lia.
  - cbn [Walk.windowsFrom]. fold n.
    destruct (i <? n)%nat eqn:Ei.
    2:{ apply Nat.ltb_ge in Ei. cbn. repeat split; auto. intro. lia. }
    apply Nat.ltb_lt in Ei.
    destruct (window_step notes i Ei) as (Hlen & He & Hs & Hone & Hreach).
    fold n in Hlen, He, Hone, Hreach |- *.
    set (w := adaptWindowSize notes i) in *.
    set (e := Nat.min (i + w) n) in *.
    set (s := Nat.max 1 (w / 2)) in *.
    rewrite Hlen.
    destruct (e - i <? 2)%nat eqn:E2.
    + apply Nat.ltb_lt in E2. specialize (Hone E2).
      destruct (IH (S i) ltac:(lia)) as (_ & _ & _ & Hnil).
      rewrite (Hnil ltac:(lia)). cbn. repeat split; auto. intro. lia.
    + apply Nat.ltb_ge in E2. specialize (Hreach E2).
      rewrite !slice_nth by lia.
      rewrite !indexOf_nth by (auto; fold n; lia).
      replace (i + 0)%nat with i by lia.
      replace (i + (e - i - 1))%nat with (e - 1)%nat by lia.
      set (c := classifyPattern _ _).
      set (seg := mkSegment (Z.of_nat i) (Z.of_nat (e - 1)) (crType c)
                            (crConfidence c) (crFeatures c)).
      destruct (IH (i + s)%nat ltac:(lia)) as (Hl & Hw & Hhead & Hnil).
      set (rest := Walk.windowsFrom fuel notes (i + s)) in *.
      assert (within (Z.of_nat i) (Z.of_nat n - 1) seg) as Hseg
        by (unfold within, seg; cbn; lia).
      destruct (Nat.le_gt_cases (i + s + 2) n) as [Hmore|Hdone].
      * destruct (Hhead Hmore) as (a & r & Hrest & Ha & Hlast).
        rewrite Hrest in *. repeat split.
        -- cbn [seg startIndex endIndex]. lia.
        -- cbn [seg startIndex endIndex]. lia.
        -- exact Hl.
        -- constructor; [exact Hseg|].
           apply (within_weaken (Z.of_nat (i + s))); [lia|exact Hw].
        -- intros _. exists seg, (a :: r). repeat split.
           change (last (seg :: a :: r) seg) with (last (a :: r) seg).
           rewrite (last_cons_indep a r seg a). exact Hlast.
        -- intro. lia.
      * rewrite (Hnil Hdone). repeat split; auto.
        -- intros _. exists seg, []. repeat split. cbn. lia.
        -- intro. lia.
Qed.

End RawWindows.

(** *** The merge walk keeps the chain *)

Lemma walk_spec (lo hi : Z) (rest : list PatternSegment) (current : PatternSegment) :
  linked (current :: rest) -> Forall (within lo hi) (current :: rest) ->
  let R := Walk.walk current rest in
  linked R
  /\ Forall (within lo hi) R
  /\ (exists a r, R = a :: r /\ startIndex a = startIndex current)
  /\ endIndex (last R current) = endIndex (last (current :: rest) current).
Proof.
  revert current. induction rest as [|next rest IH]; intros current Hl Hw.
  - cbn. repeat split; auto. exists current, []. auto.
  - cbn [Walk.walk].
    destruct Hl as [[Hlt Hle] Hl'].
    inversion Hw as [|? ? Hc Hw']; subst.
    inversion Hw' as [|? ? Hn Hw'']; subst.
    destruct Hc as (Hc1 & Hc2 & Hc3). destruct Hn as (Hn1 & Hn2 & Hn3).
    destruct (shouldMerge current next).
    + set (m := mergeInto current next).
      assert (linked (m :: rest)) as Hlm.
      { destruct rest as [|b rest']; [exact I|].
        destruct Hl' as [[Hb1 Hb2] Hl''].
        split; [|exact Hl'']. unfold m. cbn [mergeInto startIndex endIndex]. lia. }
      assert (Forall (within lo hi) (m :: rest)) as Hwm.
      { constructor; [|exact Hw''].
        unfold within, m. cbn [mergeInto startIndex endIndex]. lia. }
      destruct (IH m Hlm Hwm) as (H1 & H2 & (a & r & Hr & Ha) & H4).
      repeat split; auto.
      * exists a, r. split; [exact Hr|]. rewrite Ha. reflexivity.
      * rewrite Hr in H4 |- *.
        rewrite (last_cons_indep a r current m), H4.
        change (last (current :: next :: rest) current) with (last (next :: rest) current).
        destruct rest as [|b rest']; [reflexivity|].
        change (last (m :: b :: rest') m) with (last (b :: rest') m).
        change (last (next :: b :: rest') current) with (last (b :: rest') current).
        apply f_equal, last_cons_indep.
    + destruct (IH next Hl' Hw') as (H1 & H2 & (a & r & Hr & Ha) & H4).
      rewrite Hr in *. repeat split.
      * lia.
      * lia.
      * exact H1.
      * constructor; [unfold within; lia|exact H2].
      * exists current, (a :: r). auto.
      * change (last (current :: a :: r) current) with (last (a :: r) current).
        rewrite (last_cons_indep a r current next), H4.
        change (last (current :: next :: rest) current) with (last (next :: rest) current).
        apply f_equal, last_cons_indep.
Qed.

Lemma linked_covers (l : list PatternSegment) (a : PatternSegment) (x : Z) :
  linked (a :: l) ->
  startIndex a <= x <= endIndex (last (a :: l) a) -> covers (a :: l) x.
Proof.
  revert a. induction l as [|b l IH]; intros a Hl Hx.
  - exists a. split; [left; reflexivity|exact Hx].
  - destruct Hl as [[H1 H2] Hl'].
    destruct (Z_le_gt_dec x (endIndex a)) as [Hle|Hgt].
    + exists a. split; [left; reflexivity|lia].
    + change (last (a :: b :: l) a) with (last (b :: l) a) in Hx.
      rewrite (last_cons_indep b l a b) in Hx.
      destruct (IH b Hl' ltac:(lia)) as (s & Hs & Hsx).
      exists s. split; [right; exact Hs|exact Hsx].
Qed.

Lemma linked_sorted (l : list PatternSegment) :
  linked l -> StronglySorted Z.lt (map startIndex l).
Proof.
  induction l as [|a l IH]; intro Hl; [constructor|].
  destruct l as [|b l']; [repeat constructor|].
  destruct Hl as [[H1 H2] Hl'].
  specialize (IH Hl'). cbn [map] in IH |- *.
  constructor; [exact IH|].
  inversion IH as [|? ? _ Hall]; subst.
  constructor; [exact H1|].
  eapply Forall_impl; [|exact Hall]. cbn. intros; lia.
Qed.

(** C3, as the specification states it, fails twice: a stream of one
    note gets no segment, so its index 0 is not covered; and the
    stream of twelve notes below gets the two segments 0..7 and 4..11,
    which share the indices 4..7. *)
Lemma C3_counterexample :
  ~ covers (recognizeHandPatterns singleNote RH) 0
  /\ exists a b,
       recognizeHandPatterns scaleThenLeaps RH = [a; b]
       /\ (startIndex a, endIndex a) = (0, 7)
       /\ (startIndex b, endIndex b) = (4, 11)
       /\ overlap a b.
Proof.
  split.
  - intros (s & Hs & _). vm_compute in Hs. exact Hs.
  - eexists. eexists. split; [vm_compute; reflexivity|].
    split; [reflexivity|]. split; [reflexivity|].
    exists 5. cbn. lia.
Qed.

(** C3, amended.  For a hand-local stream of n >= 2 notes with
    distinct identities, the segment list returned after
    post-processing has strictly increasing (so non-decreasing)
    startIndex values; every segment lies within [0, n); every index of
    [0, n) is contained in some segment; and each segment starts no
    later than one past the end of the segment before it.  Consecutive
    segments may overlap.  A stream of a single note gets no segment. *)
Theorem C3_segments_cover (notes : list Note) (h : Hand) :
  NoDup (map noteId notes) ->
  let segs := recognizeHandPatterns notes h in
  (length notes = 1%nat -> segs = [])
  /\ ((2 <= length notes)%nat ->
      StronglySorted Z.lt (map startIndex segs)
      /\ Forall (within 0 (Z.of_nat (length notes) - 1)) segs
      /\ (forall x, 0 <= x < Z.of_nat (length notes) -> covers segs x)
      /\ linked segs).
Proof.
  intros Hids segs. split.
  { intro H1. unfold segs. destruct notes as [|n [|n' r]]; try discriminate.
    reflexivity. }
  intro Hn.
  destruct (windowsFrom_spec notes Hids (length notes) 0 ltac:(lia))
    as (Hl & Hw & Hhead & _).
  destruct (Hhead ltac:(lia)) as (a & r & Hraw & Ha & Hlast).
  assert (segs = Walk.walk a r) as Hsegs.
  { unfold segs, recognizeHandPatterns.
    destruct (length notes =? 0)%nat eqn:E0; [apply Nat.eqb_eq in E0; lia|].
    unfold rawSegments. rewrite windowLoop_app. cbn [app]. rewrite Hraw.
    unfold postProcess. apply postProcessLoop_walk. }
  rewrite Hraw in Hl, Hw, Hlast.
  destruct (walk_spec 0 (Z.of_nat (length notes) - 1) r a Hl Hw)
    as (H1 & H2 & (b & r' & Hr & Hb) & H4).
  rewrite <- Hsegs in *.
  split; [apply linked_sorted; exact H1|]. split; [exact H2|]. split; [|exact H1].
  intros x Hx. rewrite Hr in H1, H4 |- *.
  apply linked_covers; [exact H1|].
  rewrite (last_cons_indep b r' b a), H4, Hlast, Hb. cbn in Ha. lia.
Qed.

Lemma C3_segments_cover_witness :
  recognizeHandPatterns singleNote RH = []
  /\ (2 <= length scaleThenLeaps)%nat
  /\ forall x, 0 <= x < Z.of_nat (length scaleThenLeaps) ->
               covers (recognizeHandPatterns scaleThenLeaps RH) x.
Proof.
  assert (NoDup (map noteId singleNote)) as Hid1
    by (repeat (constructor; [cbn; intuition discriminate|]); constructor).
  assert (2 <= length scaleThenLeaps)%nat as Hn by (cbn; lia).
  assert (NoDup (map noteId scaleThenLeaps)) as Hids
    by (repeat (constructor; [cbn; intuition discriminate|]); constructor).
  split; [exact (proj1 (C3_segments_cover singleNote RH Hid1) eq_refl)|].
  split; [exact Hn|].
  exact (proj1 (proj2 (proj2 (proj2 (C3_segments_cover scaleThenLeaps RH Hids) Hn)))).
Defined.
(** ** Streams the recognizer cannot tell apart *)

Lemma Forall2_map_eq {A B} (R : A -> A -> Prop) (f : A -> B) :
  (forall a b, R a b -> f a = f b) ->
  forall l l', Forall2 R l l' -> map f l = map f l'.
Proof.
  intros Hf l l' H. induction H as [|a b l l' Hab _ IH]; [reflexivity|].
  cbn. rewrite (Hf a b Hab), IH. reflexivity.
Qed.

Lemma Forall2_existsb {A} (R : A -> A -> Prop) (f : A -> bool) :
  (forall a b, R a b -> f a = f b) ->
  forall l l', Forall2 R l l' -> existsb f l = existsb f l'.
Proof.
  intros Hf l l' H. induction H as [|a b l l' Hab _ IH]; [reflexivity|].
  cbn. rewrite (Hf a b Hab), IH. reflexivity.
Qed.

Lemma Forall2_slice {A} (R : A -> A -> Prop) (a b : nat) (l l' : list A) :
  Forall2 R l l' -> Forall2 R (slice a b l) (slice a b l').
Proof.
  intro H. unfold slice.
  assert (Forall2 R (skipn a l) (skipn a l')) as Hs.
  { clear b. revert a. induction H as [|x y l l' Hxy H IH]; intros [|a]; cbn; auto. }
  clear H. revert Hs. generalize (skipn a l) (skipn a l'). generalize (b - a)%nat.
  intros k u u' H. revert k.
  induction H as [|x y u u' Hxy H IH]; intros [|k]; cbn; auto.
Qed.

Lemma slice_split {A} (a b : nat) (l : list A) :
  exists u v, l = u ++ slice a b l ++ v.
Proof.
  exists (firstn a l), (skipn (b - a) (skipn a l)). unfold slice.
  rewrite firstn_skipn, firstn_skipn. reflexivity.
Qed.

Lemma slice_map {A B} (f : A -> B) (a b : nat) (l : list A) :
  map f (slice a b l) = slice a b (map f l).
Proof. unfold slice. rewrite skipn_map, firstn_map. reflexivity. Qed.

Lemma distinctBeats_slice (a b : nat) (w : list Note) :
  distinctBeats w -> distinctBeats (slice a b w).
Proof.
  unfold distinctBeats. intro H.
  destruct (slice_split a b (map beatCents w)) as (u & v & E).
  rewrite slice_map. rewrite E in H.
  apply NoDup_app_remove_l in H. apply NoDup_app_remove_r in H. exact H.
Qed.

Lemma singleVoice_slice (a b : nat) (w : list Note) :
  singleVoice w -> singleVoice (slice a b w).
Proof.
  intros [v H]. exists v.
  destruct (slice_split a b w) as (u & t & E). rewrite E in H.
  apply Forall_app in H. destruct H as [_ H].
  apply Forall_app in H. tauto.
Qed.

(** *** Counting maps on distinct keys and on one repeated key *)

Lemma bump_fresh {K} (eqb : K -> K -> bool) (k : K) (m : list (K * Z)) :
  Forall (fun e => eqb (fst e) k = false) m -> bump eqb k m = m ++ [(k, 1)].
Proof.
  induction m as [|[k' c] m IH]; intro H; [reflexivity|].
  inversion H as [|? ? Hk Hm]; subst. cbn in Hk |- *. rewrite Hk, IH by exact Hm.
  reflexivity.
Qed.

Lemma countMap_fresh {K} (eqb : K -> K -> bool) (keys : list K) (m : list (K * Z)) :
  ForallOrdPairs (fun a b => eqb a b = false) (map fst m ++ keys) ->
  fold_left (fun m k => bump eqb k m) keys m = m ++ map (fun k => (k, 1)) keys.
Proof.
  revert m. induction keys as [|k keys IH]; intros m H; cbn [fold_left map].
  - rewrite app_nil_r. reflexivity.
  - assert (Forall (fun e => eqb (fst e) k = false) m) as Hm.
    { clear IH. induction m as [|e m IHm]; [constructor|].
      cbn in H. inversion H as [|? ? Hhd Htl]; subst.
      constructor; [|apply IHm; exact Htl].
      rewrite Forall_forall in Hhd. apply Hhd. apply in_or_app. right. left. reflexivity. }
    rewrite bump_fresh by exact Hm. rewrite IH.
    + rewrite <- app_assoc. reflexivity.
    + rewrite map_app. cbn [map fst]. rewrite <- app_assoc. exact H.
Qed.

Lemma countMap_distinct {K} (eqb : K -> K -> bool) (keys : list K) :
  ForallOrdPairs (fun a b => eqb a b = false) keys ->
  map snd (countMap eqb keys) = repeat 1 (length keys).
Proof.
  intro H. unfold countMap. rewrite countMap_fresh by exact H. cbn [app].
  rewrite map_map. cbn [snd]. clear H.
  induction keys as [|k keys IH]; cbn; [reflexivity|]. rewrite IH. reflexivity.
Qed.

Lemma countMap_single (v : Z) (keys : list Z) :
  Forall (fun k => k = v) keys -> (length (countMap Z.eqb keys) <= 1)%nat.
Proof.
  unfold countMap. intro H.
  assert (forall m, m = [] \/ (exists c, m = [(v, c)]) ->
          (length (fold_left (fun m k => bump Z.eqb k m) keys m) <= 1)%nat) as Hgen.
  { induction H as [|k keys Hk _ IH]; intros m Hm; cbn [fold_left].
    - destruct Hm as [-> | [c ->]]; cbn; lia.
    - subst k. apply IH. right.
      destruct Hm as [-> | [c ->]]; cbn [bump]; [eauto|].
      rewrite Z.eqb_refl. eauto. }
  apply Hgen. left. reflexivity.
Qed.

Lemma beatKey_distinct (a b : Note) :
  beatCents a <> beatCents b -> Qeq_bool (beatKey a) (beatKey b) = false.
Proof.
  intro Hne. destruct (Qeq_bool (beatKey a) (beatKey b)) eqn:E; [|reflexivity].
  exfalso. apply Hne. apply Qeq_bool_eq in E. unfold beatKey in E.
  fold (beatCents a) in E. fold (beatCents b) in E.
  revert E. generalize (beatCents a) (beatCents b). intros x y E.
  unfold Z2Q, Qeq, Qdiv, Qinv, Qmult, inject_Z in E. cbn in E. lia.
Qed.

Lemma computeSimultaneity_distinct (w : list Note) :
  distinctBeats w -> computeSimultaneity w = repeat 1 (length w).
Proof.
  intro H. unfold computeSimultaneity.
  rewrite countMap_distinct; [rewrite length_map; reflexivity|].
  unfold distinctBeats in H.
  induction w as [|a w IH]; cbn [map]; [constructor|].
  cbn [map] in H. inversion H as [|? ? Hnot Hnd]; subst.
  constructor; [|apply IH; exact Hnd].
  rewrite Forall_forall. intros k Hk. apply in_map_iff in Hk.
  destruct Hk as (b & <- & Hb). apply beatKey_distinct.
  intro E. apply Hnot. rewrite E. apply in_map. exact Hb.
Qed.

Lemma detectPolyphonic_single (w : list Note) (f : ExtractedFeatures) :
  singleVoice w -> detectPolyphonic w f = None.
Proof.
  intros [v H]. unfold detectPolyphonic, distinct. rewrite length_map.
  assert (length (countMap Z.eqb (map voice w)) <= 1)%nat as Hle.
  { apply (countMap_single v). rewrite Forall_map. exact H. }
  destruct (length (countMap Z.eqb (map voice w)) <? 2)%nat eqn:E; [reflexivity|].
  apply Nat.ltb_ge in E. lia.
Qed.

(** *** Windows with the same content classify alike *)

Section SameContent.

Variables w w' : list Note.
Hypothesis Hsame : Forall2 sameContent w w'.
Hypothesis Hbeats : distinctBeats w.
Hypothesis Hbeats' : distinctBeats w'.
Hypothesis Hvoice : singleVoice w.
Hypothesis Hvoice' : singleVoice w'.

Lemma same_length_content : length w = length w'.
Proof. eapply Forall2_length; eassumption. Qed.

Lemma same_pitches : map pitch w = map pitch w'.
Proof. apply (Forall2_map_eq sameContent); [|assumption]. unfold sameContent. tauto. Qed.

Lemma same_durations : map duration w = map duration w'.
Proof. apply (Forall2_map_eq sameContent); [|assumption]. unfold sameContent. tauto. Qed.

Lemma same_flag (f : Note -> bool) :
  (forall a b, sameContent a b -> f a = f b) -> existsb f w = existsb f w'.
Proof. intro Hf. apply (Forall2_existsb sameContent); assumption. Qed.

Lemma extractFeatures_same : extractFeatures w = extractFeatures w'.
Proof.
  unfold extractFeatures.
  rewrite !computeSimultaneity_distinct by assumption.
  rewrite same_pitches, same_durations, same_length_content.
  rewrite (same_flag hasSlur) by (unfold sameContent; tauto).
  rewrite (same_flag isGrace) by (unfold sameContent; tauto).
  rewrite (same_flag (fun n => hasTrill n || hasMordent n || hasTurn n))
    by (unfold sameContent; intros a b (_ & _ & _ & _ & _ & -> & -> & ->); reflexivity).
  assert (match w with n0 :: _ => if staff n0 =? 0 then 1 else staff n0 | [] => 1 end
          = match w' with n0 :: _ => if staff n0 =? 0 then 1 else staff n0 | [] => 1 end)
    as ->.
  { inversion Hsame as [|a b ? ? (_ & _ & Hst & _) _]; [reflexivity|].
    rewrite Hst. reflexivity. }
  reflexivity.
Qed.

Lemma classifyPattern_same (f : ExtractedFeatures) :
  classifyPattern w f = classifyPattern w' f.
Proof.
  unfold classifyPattern, classifyBeforeLeap, classifyFromLeap, leapTest.
  rewrite !detectPolyphonic_single by assumption.
  unfold detectOrnamented, detectAlberti, detectOstinato, lenZ.
  rewrite same_pitches, same_length_content.
  rewrite (same_flag hasTrill) by (unfold sameContent; tauto).
  rewrite (same_flag hasMordent) by (unfold sameContent; tauto).
  rewrite (same_flag hasTurn) by (unfold sameContent; tauto).
  reflexivity.
Qed.

End SameContent.

Lemma fold_durations (w : list Note) (q : Q) :
  fold_left (fun sum n => (sum + duration n)%Q) w q = fold_left Qplus (map duration w) q.
Proof. revert q. induction w as [|a w IH]; intro q; [reflexivity|]. cbn. apply IH. Qed.

Lemma adaptWindowSize_same (w w' : list Note) (i : nat) :
  Forall2 sameContent w w' -> adaptWindowSize w i = adaptWindowSize w' i.
Proof.
  intro H. unfold adaptWindowSize. rewrite !fold_durations.
  pose proof (Forall2_slice sameContent i (i + Nat.min 16 (length w - i)) _ _ H) as Hs.
  rewrite (same_length_content w w' H) in Hs |- *.
  rewrite (same_durations _ _ Hs). unfold lenZ.
  rewrite (same_length_content _ _ Hs). reflexivity.
Qed.

Lemma windowsFrom_same (w w' : list Note) :
  Forall2 sameContent w w' ->
  NoDup (map noteId w) -> NoDup (map noteId w') ->
  distinctBeats w -> distinctBeats w' -> singleVoice w -> singleVoice w' ->
  forall fuel i, Walk.windowsFrom fuel w i = Walk.windowsFrom fuel w' i.
Proof.
  intros Hsame Hid Hid' Hb Hb' Hv Hv' fuel.
  pose proof (same_length_content _ _ Hsame) as Hlen.
  induction fuel as [|fuel IH]; intro i; [reflexivity|].
  cbn [Walk.windowsFrom]. rewrite <- Hlen, <- (adaptWindowSize_same w w' i Hsame).
  destruct (i <? length w)%nat eqn:Ei; [|reflexivity].
  apply Nat.ltb_lt in Ei.
  destruct (window_step w i Ei) as (Hl & He & _ & _ & _).
  assert (length (slice i (Nat.min (i + adaptWindowSize w i) (length w)) w')
          = (Nat.min (i + adaptWindowSize w i) (length w) - i)%nat) as Hl'
    by (rewrite slice_length; lia).
  set (e := Nat.min (i + adaptWindowSize w i) (length w)) in *.
  pose proof (Forall2_slice sameContent i e _ _ Hsame) as Hs.
  rewrite Hl, Hl'.
  destruct (e - i <? 2)%nat eqn:E2; [apply IH|].
  apply Nat.ltb_ge in E2.
  rewrite IH. f_equal.
  rewrite !slice_nth by lia.
  rewrite !indexOf_nth by (assumption || lia).
  rewrite (extractFeatures_same _ _ Hs)
    by (first [apply distinctBeats_slice | apply singleVoice_slice]; assumption).
  rewrite (classifyPattern_same _ _ Hs) by (apply singleVoice_slice; assumption).
  reflexivity.
Qed.

(** Two single-voice streams with the same content and no repeated
    beat position are segmented alike. *)
Lemma recognizeHandPatterns_same (w w' : list Note) (h : Hand) :
  Forall2 sameContent w w' ->
  NoDup (map noteId w) -> NoDup (map noteId w') ->
  distinctBeats w -> distinctBeats w' -> singleVoice w -> singleVoice w' ->
  recognizeHandPatterns w h = recognizeHandPatterns w' h.
Proof.
  intros Hsame Hid Hid' Hb Hb' Hv Hv'.
  unfold recognizeHandPatterns, rawSegments, postProcess.
  rewrite !windowLoop_app. cbn [app].
  rewrite <- (same_length_content _ _ Hsame).
  rewrite (windowsFrom_same w w') by assumption.
  reflexivity.
Qed.
(** ** The scale example *)

Lemma filter_all {A} (p : A -> bool) (l : list A) :
  Forall (fun x => p x = true) l -> filter p l = l.
Proof.
  induction 1 as [|x l Hx _ IH]; [reflexivity|]. cbn. rewrite Hx, IH. reflexivity.
Qed.

Lemma filter_none {A} (p : A -> bool) (l : list A) :
  Forall (fun x => p x = false) l -> filter p l = [].
Proof.
  induction 1 as [|x l Hx _ IH]; [reflexivity|]. cbn. rewrite Hx, IH. reflexivity.
Qed.

Lemma right_hand_streams (notes : list Note) :
  Forall (fun n => hand n = RH) notes ->
  filter isRH notes = notes /\ filter isLH notes = [].
Proof.
  intro H. split; [apply filter_all | apply filter_none];
    (eapply Forall_impl; [|exact H]); intros n Hn; unfold isRH, isLH;
    rewrite Hn; reflexivity.
Qed.

(** A stream of right-hand notes only: the merge copies the right-hand
    solution. *)
Lemma planFingering_right_hand
  (level : Difficulty) (notes : list Note) (patterns : list PatternSegment) :
  notes <> [] -> Forall (fun n => hand n = RH) notes ->
  let rs := planHandFingering level notes patterns RH in
  fingering (planFingering level notes patterns)
  = map (fingerOr3 (fingering rs)) (seq 0 (length notes))
  /\ totalCost (planFingering level notes patterns) = Num_add (totalCost rs) (Fin 0).
Proof.
  intros Hne Hrh rs. unfold planFingering.
  destruct (right_hand_streams notes Hrh) as [Er El].
  destruct (length notes =? 0)%nat eqn:E0.
  { apply Nat.eqb_eq in E0. destruct notes; [congruence | discriminate]. }
  rewrite Er, El. fold rs. cbn [fingering totalCost].
  destruct (merge_spec rs (planHandFingering level [] patterns LH) notes) as [ex ->].
  cbn [mFingering]. split; [|reflexivity].
  apply map_ext_in. intros i Hi. apply in_seq in Hi. unfold pickFinger.
  assert (isRH (nth i notes dummyNote) = true) as ->.
  { rewrite Forall_forall in Hrh. unfold isRH.
    rewrite (Hrh (nth i notes dummyNote)) by (apply nth_In; lia). reflexivity. }
  rewrite <- (firstn_skipn i notes) in Hrh. apply Forall_app in Hrh.
  destruct Hrh as [Hrh _]. destruct (right_hand_streams _ Hrh) as [-> _].
  rewrite length_firstn. f_equal. lia.
Qed.

Lemma getPatternContext_single (notes : list Note) (i : nat) (s : PatternSegment) :
  startIndex s <= Z.of_nat i <= endIndex s ->
  getPatternContext notes i [s] = patternType s.
Proof.
  intro H. unfold getPatternContext, findSegment. cbn [find].
  destruct ((measureNumber (nth i notes dummyNote) >=? startIndex s)
            && (measureNumber (nth i notes dummyNote) <=? endIndex s));
    [reflexivity|].
  assert ((Z.of_nat i >=? startIndex s) && (Z.of_nat i <=? endIndex s) = true) as ->
    by (apply andb_true_iff; split; [apply Z.geb_le | apply Z.leb_le]; lia).
  reflexivity.
Qed.

Lemma plain_same (notes notes' : list Note) :
  map pitch notes = map pitch notes' ->
  Forall plainFlags notes -> Forall plainFlags notes' ->
  Forall2 sameContent notes notes'.
Proof.
  revert notes'. induction notes as [|a l IH]; intros [|b l'] Hp Ha Hb;
    try discriminate; [constructor|].
  cbn [map] in Hp. injection Hp as Hab Hp.
  inversion Ha as [|? ? Pa Ha']; inversion Hb as [|? ? Pb Hb']; subst.
  constructor; [|apply IH; assumption].
  unfold plainFlags in Pa, Pb. unfold sameContent.
  repeat split; try assumption; intuition congruence.
Qed.

Lemma cMajorScale_example : scaleExample cMajorScale.
Proof.
  split; [reflexivity|]. split; [|exists 1; repeat constructor].
  repeat constructor.
Qed.

Lemma cMajorScale_distinct :
  distinctBeats cMajorScale /\ NoDup (map noteId cMajorScale).
Proof.
  split.
  - unfold distinctBeats.
    let l := eval vm_compute in (map beatCents cMajorScale) in
    change (map beatCents cMajorScale) with l.
    repeat (constructor; [cbn; intuition discriminate|]). constructor.
  - cbn. repeat (constructor; [cbn; intuition discriminate|]). constructor.
Qed.

Lemma cMajorTwoMeasures_example : scaleExample cMajorTwoMeasures.
Proof.
  split; [reflexivity|]. split; [|exists 1; repeat constructor].
  repeat constructor.
Qed.

(** The recognizer on the streams of the example with distinct notes on
    distinct beat positions. *)
Lemma scaleExample_recognized (notes : list Note) :
  scaleExample notes -> distinctBeats notes -> NoDup (map noteId notes) ->
  recognizePatterns notes = [cMajorSegment].
Proof.
  intros (Hp & Hflags & Hv) Hb Hid.
  destruct cMajorScale_example as (Hp0 & Hflags0 & Hv0).
  destruct cMajorScale_distinct as [Hb0 Hid0].
  assert (Forall (fun n => hand n = RH) notes) as Hrh
    by (eapply Forall_impl; [|exact Hflags]; unfold plainFlags; tauto).
  assert (length notes = 8%nat) as Hlen
    by (rewrite <- (length_map pitch), Hp; reflexivity).
  unfold recognizePatterns. rewrite Hlen. cbn [Nat.eqb].
  destruct (right_hand_streams notes Hrh) as [Er El].
  unfold isRH in Er. unfold isLH in El. rewrite Er, El.
  rewrite (recognizeHandPatterns_same notes cMajorScale RH); try assumption.
  - vm_compute. reflexivity.
  - apply plain_same; [congruence | assumption | assumption].
Qed.

(** The planner on the same streams under the recognized segment. *)
Lemma scaleExample_planned (notes : list Note) :
  scaleExample notes ->
  planHandFingering intermediate notes [cMajorSegment] RH
  = dpOptimization intermediate cMajorScale [cMajorSegment] RH.
Proof.
  intros (Hp & Hflags & Hv).
  assert (length notes = 8%nat) as Hlen
    by (rewrite <- (length_map pitch), Hp; reflexivity).
  unfold planHandFingering. rewrite Hlen. cbn [Nat.eqb Nat.ltb Nat.leb].
  apply dpOptimization_same; [exact Hp|].
  intros i Hi. rewrite !getPatternContext_single; [reflexivity| |]; cbn; lia.
Qed.

(** C1, as the specification states it, fails twice.  On the stream
    with the eight notes on the beat positions 0..7 the segment is as
    stated, but the fingers are not 1 2 3 1 2 3 4 5.  On the stream
    with the same notes as quarter notes over two 4/4 measures, whose
    beat positions 0..3 repeat, the first segment is CHORDAL. *)
Lemma C1_counterexample :
  (scaleExample cMajorScale
   /\ recognizePatterns cMajorScale = [cMajorSegment]
   /\ fingering (planFingering intermediate cMajorScale (recognizePatterns cMajorScale))
      <> [1; 2; 3; 1; 2; 3; 4; 5])
  /\ (scaleExample cMajorTwoMeasures
      /\ map (fun s => (startIndex s, endIndex s, patternType s))
             (recognizePatterns cMajorTwoMeasures)
         = [(0, 7, CHORDAL); (4, 7, SCALE)])
  /\ ~ (forall notes, scaleExample notes ->
          recognizePatterns notes = [cMajorSegment]
          /\ fingering (planFingering intermediate notes (recognizePatterns notes))
             = [1; 2; 3; 1; 2; 3; 4; 5]).
Proof.
  split; [|split].
  - split; [exact cMajorScale_example|]. split; [vm_compute; reflexivity|].
    vm_compute. discriminate.
  - split; [exact cMajorTwoMeasures_example|]. vm_compute. reflexivity.
  - intro H. destruct (H cMajorScale cMajorScale_example) as [_ Hf].
    vm_compute in Hf. discriminate.
Qed.

(** C1, amended.  For every right-hand stream of eight distinct notes
    with the pitches 60 62 64 65 67 69 71 72 (staff 1, one voice, one
    beat each, no flags) whose beat positions, rounded to two decimals,
    are pairwise distinct, and difficulty intermediate, the recognizer
    returns the single segment 0..7 of type SCALE with direction
    ascending and scaleType major, and the planner returns the fingers
    1 2 3 4 1 2 3 4, of total cost -310. *)
Theorem C1_c_major_scale (notes : list Note) :
  scaleExample notes -> distinctBeats notes -> NoDup (map noteId notes) ->
  recognizePatterns notes = [cMajorSegment]
  /\ fingering (planFingering intermediate notes (recognizePatterns notes))
     = [1; 2; 3; 4; 1; 2; 3; 4]
  /\ exists c, totalCost (planFingering intermediate notes (recognizePatterns notes))
               = Fin c
               /\ (c == -310)%Q.
Proof.
  intros Hex Hb Hid.
  rewrite (scaleExample_recognized notes Hex Hb Hid). split; [reflexivity|].
  destruct Hex as (Hp & Hflags & Hv).
  assert (length notes = 8%nat) as Hlen
    by (rewrite <- (length_map pitch), Hp; reflexivity).
  assert (notes <> []) as Hne by (intros ->; discriminate).
  assert (Forall (fun n => hand n = RH) notes) as Hrh
    by (eapply Forall_impl; [|exact Hflags]; unfold plainFlags; tauto).
  destruct (planFingering_right_hand intermediate notes [cMajorSegment] Hne Hrh)
    as [-> ->].
  rewrite (scaleExample_planned notes (conj Hp (conj Hflags Hv))), Hlen.
  split; [vm_compute; reflexivity|].
  eexists. split; [vm_compute; reflexivity|]. reflexivity.
Qed.

Lemma C1_c_major_scale_witness :
  recognizePatterns cMajorScale = [cMajorSegment]
  /\ fingering (planFingering intermediate cMajorScale (recognizePatterns cMajorScale))
     = [1; 2; 3; 4; 1; 2; 3; 4]
  /\ exists c, totalCost (planFingering intermediate cMajorScale
                            (recognizePatterns cMajorScale)) = Fin c
               /\ (c == -310)%Q.
Proof.
  exact (C1_c_major_scale cMajorScale cMajorScale_example
           (proj1 cMajorScale_distinct) (proj2 cMajorScale_distinct)).
Defined.
(** ** The dynamic program is exact *)

Lemma complete_layerGet (l : Layer) (f : Finger) (st : DPState) :
  DP.complete l -> In (f, st) l -> layerGet f l = Some st.
Proof.
  intros Hc Hin.
  assert (In f fingers) as Hf
    by (rewrite <- Hc; change f with (fst (f, st)); apply in_map; exact Hin).
  destruct (layerGet_complete l f Hc Hf) as [st' Hget]. rewrite Hget. f_equal.
  apply (complete_In_unique l f st' st Hc); [|exact Hin].
  apply layerGet_In. exact Hget.
Qed.

(** The backward loop follows the parent pointers. *)
Lemma backtrackLoop_chain
  (dp : list Layer) (notes : list Note) (h : Hand) (k : nat) (f : Finger)
  (acc : list Finger * list string * list FingeringState) :
  exists pre,
    fst (fst (backtrackLoop dp notes h k f acc)) = pre ++ fst (fst acc)
    /\ length pre = k
    /\ ((0 < k)%nat -> nth (k - 1) pre 0 = f)
    /\ (forall i st j p, (S i < k)%nat ->
          layerGet (nth (S i) pre 0) (nth (S i) dp []) = Some st ->
          stParent st = Some (j, p) -> nth i pre 0 = p).
Proof.
  revert f acc. induction k as [|k IH]; intros f [[fing expl] pth].
  - exists []. cbn. repeat split; try reflexivity; intros; lia.
  - cbn [backtrackLoop].
    match goal with |- context [backtrackLoop dp notes h k ?nx ?a] =>
      destruct (IH nx a) as (pre & Hpre & Hlen & Hlast & Hchain);
      remember nx as next eqn:Hnext
    end.
    exists (pre ++ [f]). cbn [fst] in Hpre |- *. rewrite Hpre, <- app_assoc.
    split; [reflexivity|]. split; [rewrite length_app; cbn; lia|].
    split.
    + intros _. replace (S k - 1)%nat with (length pre) by lia.
      rewrite app_nth2, Nat.sub_diag by lia. reflexivity.
    + intros i st j p Hi Hget Hp.
      destruct (Nat.eq_dec (S i) k) as [E|E].
      * rewrite app_nth2 in Hget by lia.
        replace (S i - length pre)%nat with 0%nat in Hget by lia.
        cbn [nth] in Hget. rewrite E in Hget.
        rewrite Hget, Hp in Hnext. rewrite app_nth1 by lia.
        replace i with (k - 1)%nat by lia. rewrite Hlast by lia. exact Hnext.
      * rewrite app_nth1 in Hget by lia. rewrite app_nth1 by lia.
        apply (Hchain i st j p); [lia|exact Hget|exact Hp].
Qed.

Section Exact.

Variable level : Difficulty.
Variables (notes : list Note) (patterns : list PatternSegment) (h : Hand).

Let dp := dpTable level notes patterns h.
Let layer := DP.layerAt level notes patterns h.
Let T := DP.stepCost level notes patterns h.
Let sol := dpOptimization level notes patterns h.
Let upTo := Path.costUpTo level notes patterns h.

Lemma initial_cell (f : Finger) (st : DPState) :
  layerGet f (layer 0%nat) = Some st ->
  stCost st = Path.initialCost level notes h f.
Proof.
  intro Hget. apply layerGet_In in Hget. unfold layer in Hget.
  cbn [DP.layerAt] in Hget. unfold initialLayer in Hget.
  apply in_map_iff in Hget. destruct Hget as (x & Hx & _).
  injection Hx as -> <-. reflexivity.
Qed.

(** The cell of [(S i, f)] is at most what any unpruned predecessor
    offers. *)
Lemma cell_le_candidate (i : nat) (f g : Finger) (st stg : DPState) :
  layerGet f (layer (S i)) = Some st -> layerGet g (layer i) = Some stg ->
  Qlt_bool 500 (cost (T (S i) f g)) = false ->
  (stCost st <= stCost stg + cost (T (S i) f g))%Q.
Proof.
  intros Hget Hg Hok.
  assert (In g fingers) as Hgf
    by (eapply layerGet_fingers; [apply layerAt_complete|exact Hg]).
  destruct (layerAt_cell level notes patterns h i f st Hget)
    as (l1 & g0 & l2 & c & H1 & H2 & -> & H4 & H5).
  cbn [stCost].
  assert (DP.candidate level notes patterns h (layer i) (S i) f g
          = Some (stCost stg + cost (T (S i) f g))%Q) as Hc.
  { unfold DP.candidate. fold layer. rewrite Hg. fold T. rewrite Hok. reflexivity. }
  rewrite H1 in Hgf. apply in_app_or in Hgf. destruct Hgf as [Hy|[<-|Hy]].
  - specialize (H4 g _ Hy Hc). lra.
  - unfold layer in Hc. rewrite H2 in Hc. injection Hc as <-. lra.
  - exact (H5 g _ Hy Hc).
Qed.

Lemma admissible_step (fs : list Finger) (k : nat) :
  Path.admissible level notes patterns h fs = true ->
  (1 <= k < length fs)%nat ->
  Qlt_bool 500 (cost (T k (nth k fs 0) (nth (k - 1) fs 0))) = false.
Proof.
  intros Ha Hk. unfold Path.admissible in Ha. rewrite forallb_forall in Ha.
  specialize (Ha k). rewrite in_seq in Ha. apply negb_true_iff. apply Ha. lia.
Qed.

(** No admissible sequence reaches a cell more cheaply than the cell's
    cost. *)
Lemma cell_lower_bound (fs : list Finger) (i : nat) (st : DPState) :
  Forall (fun f => In f fingers) fs ->
  Path.admissible level notes patterns h fs = true ->
  (i < length fs)%nat ->
  layerGet (nth i fs 0) (layer i) = Some st -> (stCost st <= upTo fs i)%Q.
Proof.
  intros Hf Ha. revert st. induction i as [|i IH]; intros st Hi Hget.
  - rewrite (initial_cell _ _ Hget). unfold upTo. cbn. lra.
  - assert (In (nth i fs 0) fingers) as Hg
      by (rewrite Forall_forall in Hf; apply Hf, nth_In; lia).
    destruct (layerGet_complete (layer i) (nth i fs 0) (layerAt_complete _ _ _ _ i) Hg)
      as [stg Hstg].
    pose proof (admissible_step fs (S i) Ha ltac:(lia)) as Hok.
    replace (S i - 1)%nat with i in Hok by lia.
    pose proof (cell_le_candidate i _ _ st stg Hget Hstg Hok) as Hle.
    specialize (IH stg ltac:(lia) Hstg).
    unfold upTo in *. cbn [Path.costUpTo]. fold T. lra.
Qed.

(** The solution: the cheapest cell of the last layer and the chain of
    parents behind it. *)
Lemma dpOptimization_chain :
  notes <> [] ->
  exists e,
    In e (layer (length notes - 1))
    /\ totalCost sol = Fin (stCost (snd e))
    /\ length (fingering sol) = length notes
    /\ nth (length notes - 1) (fingering sol) 0 = fst e
    /\ (forall y, In y (layer (length notes - 1)) -> (stCost (snd e) <= stCost (snd y))%Q)
    /\ (forall i st j p, (S i < length notes)%nat ->
          layerGet (nth (S i) (fingering sol) 0) (layer (S i)) = Some st ->
          stParent st = Some (j, p) -> nth i (fingering sol) 0 = p).
Proof.
  intro Hne.
  assert (0 < length notes)%nat as Hpos by (destruct notes; [contradiction|cbn; lia]).
  destruct (bestFinal_spec _ (last_layer_nonempty level notes patterns h))
    as (l1 & e & l2 & Hl & Hb & H1 & H2).
  rewrite dpTable_nth in Hl by lia. fold layer in Hl.
  unfold sol, dpOptimization, backtrack. rewrite Hb.
  destruct (backtrackLoop_chain (dpTable level notes patterns h) notes h
              (length notes) (fst e) ([], [], []))
    as (pre & Hpre & Hlen & Hlast & Hchain).
  destruct (backtrackLoop _ notes h (length notes) (fst e) ([], [], []))
    as [[fing expl] pth].
  cbn [fst] in Hpre. rewrite app_nil_r in Hpre. subst fing.
  exists e. cbn [totalCost fingering].
  split; [rewrite Hl; apply in_elt|]. split; [reflexivity|].
  split; [exact Hlen|]. split; [apply Hlast; exact Hpos|]. split.
  - intros y Hy. rewrite Hl in Hy. apply in_app_or in Hy.
    destruct Hy as [Hy|[<-|Hy]].
    + specialize (H1 y Hy). lra.
    + lra.
    + exact (H2 y Hy).
  - intros i st j p Hi Hget Hp. apply (Hchain i st j p Hi); [|exact Hp].
    rewrite dpTable_nth by lia. exact Hget.
Qed.

(** Along the returned fingers every cell costs what the sequence
    costs up to it, and no step is pruned. *)
Lemma chain_cost (i : nat) :
  notes <> [] -> Forall (fun f => In f fingers) (fingering sol) ->
  (i < length notes)%nat ->
  (exists st, layerGet (nth i (fingering sol) 0) (layer i) = Some st
              /\ stCost st = upTo (fingering sol) i)
  /\ ((1 <= i)%nat ->
      Qlt_bool 500 (cost (T i (nth i (fingering sol) 0) (nth (i - 1) (fingering sol) 0)))
      = false).
Proof.
  intros Hne Hfs.
  destruct (dpOptimization_chain Hne) as (e & _ & _ & Hlen & _ & _ & Hchain).
  induction i as [|i IH]; intro Hi.
  - split; [|intro; lia].
    assert (In (nth 0 (fingering sol) 0) fingers) as Hf
      by (rewrite Forall_forall in Hfs; apply Hfs, nth_In; lia).
    destruct (layerGet_complete (layer 0%nat) _ (layerAt_complete _ _ _ _ 0%nat) Hf)
      as [st Hst].
    exists st. split; [exact Hst|]. rewrite (initial_cell _ _ Hst). reflexivity.
  - destruct (IH ltac:(lia)) as [(stg & Hstg & Hcost) _].
    assert (In (nth (S i) (fingering sol) 0) fingers) as Hf
      by (rewrite Forall_forall in Hfs; apply Hfs, nth_In; lia).
    destruct (layerGet_complete (layer (S i)) _ (layerAt_complete _ _ _ _ (S i)) Hf)
      as [st Hst].
    destruct (layerAt_cell level notes patterns h i _ st Hst)
      as (l1 & g & l2 & c & _ & Hc & Est & _ & _).
    assert (nth i (fingering sol) 0 = g) as Hg
      by (apply (Hchain i st i g Hi Hst); rewrite Est; reflexivity).
    unfold DP.candidate in Hc. fold layer in Hc. rewrite <- Hg, Hstg in Hc. fold T in Hc.
    replace (S i - 1)%nat with i by lia.
    destruct (Qlt_bool 500 (cost (T (S i) (nth (S i) (fingering sol) 0)
                                    (nth i (fingering sol) 0)))) eqn:Eok;
      [discriminate|].
    injection Hc as <-. split; [|reflexivity].
    exists st. split; [exact Hst|]. rewrite Est. cbn [stCost].
    rewrite Hcost. reflexivity.
Qed.

End Exact.

(** X1.  The cost [dpOptimization] reports is the cost of the fingers
    it returns: the initial cost of the first finger plus the transition
    costs of the successive pairs, none of which is pruned. *)
Theorem X1_total_is_path_cost
  (level : Difficulty) (notes : list Note) (patterns : list PatternSegment) (h : Hand) :
  notes <> [] ->
  let sol := dpOptimization level notes patterns h in
  length (fingering sol) = length notes
  /\ Path.admissible level notes patterns h (fingering sol) = true
  /\ totalCost sol = Fin (Path.pathCost level notes patterns h (fingering sol)).
Proof.
  intros Hne sol.
  assert (0 < length notes)%nat as Hpos by (destruct notes; [contradiction|cbn; lia]).
  assert (Forall (fun f => In f fingers) (fingering sol)) as Hfs.
  { destruct (dpOptimization_spec level notes patterns h)
      as (? & ? & ? & fing & _ & _ & Hfing & _ & Hin & _).
    unfold sol. rewrite Hfing. exact Hin. }
  destruct (dpOptimization_chain level notes patterns h Hne)
    as (e & He & Hc & Hlen & Hlast & _ & _).
  split; [exact Hlen|]. split.
  - unfold Path.admissible. apply forallb_forall. intros k Hk. apply in_seq in Hk.
    apply negb_true_iff.
    apply (chain_cost level notes patterns h k Hne Hfs); unfold sol in *; lia.
  - unfold sol. rewrite Hc. f_equal.
    destruct (chain_cost level notes patterns h (length notes - 1) Hne Hfs ltac:(lia))
      as [(st & Hst & Hcost) _].
    rewrite Hlast in Hst.
    rewrite (complete_layerGet _ (fst e) (snd e)) in Hst.
    + injection Hst as <-. unfold Path.pathCost. rewrite Hlen. exact Hcost.
    + apply layerAt_complete.
    + destruct e; exact He.
Qed.

Lemma X1_total_is_path_cost_witness :
  totalCost (dpOptimization intermediate cMajorScale [cMajorSegment] RH)
  = Fin (Path.pathCost intermediate cMajorScale [cMajorSegment] RH
           (fingering (dpOptimization intermediate cMajorScale [cMajorSegment] RH))).
Proof.
  assert (cMajorScale <> []) as H by discriminate.
  exact (proj2 (proj2 (X1_total_is_path_cost intermediate cMajorScale [cMajorSegment] RH H))).
Defined.

(** X2.  [dpOptimization] is optimal: no sequence of fingers 1..5, one
    per note, whose steps all cost at most 500 has a smaller cost than
    the total the planner reports. *)
Theorem X2_no_cheaper_fingering
  (level : Difficulty) (notes : list Note) (patterns : list PatternSegment) (h : Hand)
  (fs : list Finger) :
  notes <> [] -> length fs = length notes ->
  Forall (fun f => In f fingers) fs ->
  Path.admissible level notes patterns h fs = true ->
  exists c, totalCost (dpOptimization level notes patterns h) = Fin c
            /\ (c <= Path.pathCost level notes patterns h fs)%Q.
Proof.
  intros Hne Hlen Hfs Ha.
  assert (0 < length notes)%nat as Hpos by (destruct notes; [contradiction|cbn; lia]).
  destruct (dpOptimization_chain level notes patterns h Hne)
    as (e & _ & Hc & _ & _ & Hmin & _).
  exists (stCost (snd e)). split; [exact Hc|].
  assert (In (nth (length notes - 1) fs 0) fingers) as Hf
    by (rewrite Forall_forall in Hfs; apply Hfs, nth_In; lia).
  destruct (layerGet_complete _ _ (layerAt_complete level notes patterns h
                                     (length notes - 1)) Hf) as [st Hst].
  pose proof (cell_lower_bound level notes patterns h fs (length notes - 1) st
                Hfs Ha ltac:(lia) Hst) as Hlow.
  specialize (Hmin _ (layerGet_In _ _ _ Hst)). cbn [snd] in Hmin.
  unfold Path.pathCost. rewrite Hlen. lra.
Qed.

Lemma X2_no_cheaper_fingering_witness :
  exists c, totalCost (dpOptimization intermediate cMajorScale [cMajorSegment] RH) = Fin c
            /\ Qle c (Path.pathCost intermediate cMajorScale [cMajorSegment] RH
                                     [1; 2; 3; 1; 2; 3; 4; 5]).
Proof.
  assert (cMajorScale <> []) as H by discriminate.
  assert (Forall (fun f => In f fingers) [1; 2; 3; 1; 2; 3; 4; 5]) as Hf
    by (repeat (constructor; [apply In_fingers; lia|]); constructor).
  assert (Path.admissible intermediate cMajorScale [cMajorSegment] RH
            [1; 2; 3; 1; 2; 3; 4; 5] = true) as Ha by (vm_compute; reflexivity).
  exact (X2_no_cheaper_fingering intermediate cMajorScale [cMajorSegment] RH
           [1; 2; 3; 1; 2; 3; 4; 5] H eq_refl Hf Ha).
Defined.
(** ** The range of the transition cost *)

Section RuleLowerBounds.

Variable level : Difficulty.
Variables (prevNote currNote : Note) (g f : Finger).
Variables (ctx : PatternType) (h : Hand) (pos : HandPosition) (inScale : bool).

Let config := getDifficultyConfig level.

Ltac split_ifs :=
  repeat match goal with
         | |- context [if ?c then _ else _] => destruct c eqn:?
         end.

Ltac cost_simpl :=
  cbn [cost addCost pushReason pushReasons reasons].

Lemma rule1_lower (r : CostResult) :
  (cost r <= cost (rule1 prevNote g currNote f r))%Q.
Proof.
  unfold rule1. split_ifs; cost_simpl; [|lra].
  assert (0 <= Z.abs (pitch currNote - pitch prevNote) * 5) as Hz by lia.
  apply Z2Q_le in Hz. unfold Z2Q in Hz. rewrite inject_Z_mult in Hz.
  fold (Z2Q (Z.abs (pitch currNote - pitch prevNote))) in Hz.
  change (inject_Z 0) with 0%Q in Hz. change (inject_Z 5) with 5%Q in Hz. lra.
Qed.

(** Rules 2 and 3 exclude each other: one is for repeated pitches, the
    other for moving ones. *)
Lemma rule23_lower (r : CostResult) :
  (cost r - 20
   <= cost (rule3 prevNote g currNote f ctx h config inScale
              (rule2 prevNote g currNote f r)))%Q.
Proof.
  unfold rule3, rule2, isFingerCrossing, config.
  destruct (pitch currNote - pitch prevNote =? 0); cbn [negb].
  - split_ifs; cost_simpl; lra.
  - split_ifs; cost_simpl; try lra;
      destruct level; cbv [getDifficultyConfig thumbCrossingPenalty Z2Q inject_Z Qdiv Qinv];
      cbn; lra.
Qed.

Lemma rule4_lower (r : CostResult) :
  (cost r <= cost (rule4 prevNote g currNote f config r))%Q.
Proof.
  unfold rule4.
  set (over := Z.abs (pitch currNote - pitch prevNote) - getNaturalSpan g f).
  destruct (0 <? over) eqn:E0; [|lra].
  destruct (maxComfortableSpan config - getNaturalSpan g f <? over).
  - cost_simpl. lra.
  - apply Z.ltb_lt in E0.
    assert (0 <= over * stretchPenalty config) as Hz
      by (unfold config; destruct level; cbv [getDifficultyConfig stretchPenalty]; lia).
    apply Z2Q_le in Hz. unfold Z2Q in Hz. rewrite inject_Z_mult in Hz.
    fold (Z2Q over) in Hz. fold (Z2Q (stretchPenalty config)) in Hz.
    change (inject_Z 0) with 0%Q in Hz.
    destruct (2 <? over); cost_simpl; lra.
Qed.

Lemma rule5_lower (r : CostResult) :
  (cost r - 15 <= cost (rule5 currNote f h pos inScale r))%Q.
Proof.
  unfold rule5.
  destruct (inPosition pos && negb inScale); [|lra].
  set (e := getExpectedFinger _ _).
  destruct (f =? e); cost_simpl; [lra|].
  assert (0 <= Z.abs (f - e) * 8) as Hz by lia.
  apply Z2Q_le in Hz. unfold Z2Q in Hz. rewrite inject_Z_mult in Hz.
  fold (Z2Q (Z.abs (f - e))) in Hz.
  change (inject_Z 0) with 0%Q in Hz. change (inject_Z 8) with 8%Q in Hz. lra.
Qed.

Lemma computeScaleCost_lower (asc : bool) :
  (-25 <= cost (computeScaleCost g f asc h config))%Q.
Proof.
  unfold computeScaleCost.
  destruct h, asc; cbn [Hand_eqb andb orb negb]; split_ifs; cost_simpl; lra.
Qed.

Lemma rule6_lower (r : CostResult) :
  (cost r - 25 <= cost (rule6 prevNote g currNote f ctx h config inScale r))%Q.
Proof.
  unfold rule6.
  destruct (inScale || PatternType_eqb ctx SCALE); [|lra].
  pose proof (computeScaleCost_lower (0 <? pitch currNote - pitch prevNote)) as Hs.
  destruct (0 <? Z.of_nat _); cost_simpl; lra.
Qed.

Lemma rule7_lower (r : CostResult) :
  (cost r - 5 <= cost (rule7 currNote f config r))%Q.
Proof.
  unfold rule7. split_ifs; cost_simpl; lra.
Qed.

Lemma rule8_lower (r : CostResult) :
  (cost r - 10 <= cost (rule8 level prevNote g currNote f config r))%Q.
Proof.
  unfold rule8, config, isBeginner, isAdvanced.
  destruct level; cbv [getDifficultyConfig finger4Penalty finger5Penalty];
    split_ifs; cost_simpl; cbv [Z2Q inject_Z]; lra.
Qed.

Lemma rule9_lower (r : CostResult) :
  (cost r - 15 <= cost (rule9 prevNote g currNote f ctx h r))%Q.
Proof.
  unfold rule9. split_ifs; cost_simpl; lra.
Qed.

Lemma transition_cost_lower :
  (-90 <= cost (computeTransitionCost level prevNote g currNote f ctx h pos config inScale))%Q.
Proof.
  unfold computeTransitionCost.
  set (r0 := mkCost 0 []).
  pose proof (rule1_lower r0) as H1.
  set (r1 := rule1 _ _ _ _ r0) in *.
  pose proof (rule23_lower r1) as H3.
  set (r3 := rule3 _ _ _ _ _ _ _ _ _) in *.
  pose proof (rule4_lower r3) as H4.
  set (r4 := rule4 _ _ _ _ _ r3) in *.
  pose proof (rule5_lower r4) as H5.
  set (r5 := rule5 _ _ _ _ _ r4) in *.
  pose proof (rule6_lower r5) as H6.
  set (r6 := rule6 _ _ _ _ _ _ _ _ r5) in *.
  pose proof (rule7_lower r6) as H7.
  set (r7 := rule7 _ _ _ r6) in *.
  pose proof (rule8_lower r7) as H8.
  set (r8 := rule8 _ _ _ _ _ _ r7) in *.
  pose proof (rule9_lower r8) as H9.
  set (r9 := rule9 _ _ _ _ _ _ r8) in *.
  change (cost r0) with 0%Q in *.
  lra.
Qed.

End RuleLowerBounds.

(** X3.  The cost of a transition between two different fingers lies
    between -90 and 382, whatever the two notes, the pattern context,
    the hand, the hand position, the scale mask and the difficulty; so
    the prune bound of 500 can only remove steps that keep the finger. *)
Theorem X3_transition_cost_range
  (level : Difficulty) (prevNote currNote : Note) (g f : Finger)
  (ctx : PatternType) (h : Hand) (pos : HandPosition) (inScale : bool) :
  In g fingers -> In f fingers -> f <> g ->
  let c := cost (computeTransitionCost level prevNote g currNote f ctx h pos
                   (getDifficultyConfig level) inScale) in
  (-90 <= c)%Q /\ (c <= 382)%Q /\ Qlt_bool 500 c = false.
Proof.
  intros Hg Hf Hne c.
  pose proof (transition_cost_lower level prevNote currNote g f ctx h pos inScale) as Hlo.
  pose proof (transition_cost_bound level prevNote currNote g f ctx h pos inScale
                Hg Hf Hne) as Hhi.
  fold c in Hlo, Hhi. repeat split; [exact Hlo|exact Hhi|].
  apply Qlt_bool_false_iff. lra.
Qed.

Lemma X3_transition_cost_range_witness :
  let c := cost (computeTransitionCost beginner (pitchOnly 60) 1 (pitchOnly 72) 2
                   UNKNOWN RH (mkPos 60 true) (getDifficultyConfig beginner) false) in
  (-90 <= c)%Q /\ (c <= 382)%Q /\ Qlt_bool 500 c = false.
Proof.
  assert (In 1 fingers) as H1 by (apply In_fingers; lia).
  assert (In 2 fingers) as H2 by (apply In_fingers; lia).
  assert (2 <> 1) as Hne by lia.
  exact (X3_transition_cost_range beginner (pitchOnly 60) (pitchOnly 72) 1 2
           UNKNOWN RH (mkPos 60 true) false H1 H2 Hne).
Defined.

(** ** What the planner reads of a note *)

Lemma samePlanned_pitch (l l' : list Note) :
  Forall2 samePlanned l l' -> map pitch l = map pitch l'.
Proof.
  apply (Forall2_map_eq samePlanned). unfold samePlanned. tauto.
Qed.

Lemma samePlanned_measure (l l' : list Note) (i : nat) :
  Forall2 samePlanned l l' ->
  measureNumber (nth i l dummyNote) = measureNumber (nth i l' dummyNote).
Proof.
  intro H.
  assert (map measureNumber l = map measureNumber l') as E
    by (revert H; apply (Forall2_map_eq samePlanned); unfold samePlanned; tauto).
  rewrite <- !(map_nth measureNumber). rewrite E. reflexivity.
Qed.

Lemma samePlanned_filter (p : Note -> bool) (l l' : list Note) :
  (forall a b, samePlanned a b -> p a = p b) ->
  Forall2 samePlanned l l' -> Forall2 samePlanned (filter p l) (filter p l').
Proof.
  intros Hp H. induction H as [|a b l l' Hab _ IH]; [constructor|].
  cbn. rewrite (Hp a b Hab). destruct (p b); [constructor|]; assumption.
Qed.

Lemma samePlanned_chunk (l l' : list Note) (s : nat) :
  Forall2 samePlanned l l' ->
  Forall2 samePlanned (Chunks.chunkAt l s) (Chunks.chunkAt l' s).
Proof.
  intro H. unfold Chunks.chunkAt.
  replace (firstn 32 (skipn s l)) with (slice s (s + 32) l)
    by (unfold slice; f_equal; lia).
  replace (firstn 32 (skipn s l')) with (slice s (s + 32) l')
    by (unfold slice; f_equal; lia).
  apply Forall2_slice. exact H.
Qed.

Lemma dpOptimization_samePlanned
  (level : Difficulty) (l l' : list Note) (patterns : list PatternSegment) (h : Hand) :
  Forall2 samePlanned l l' ->
  dpOptimization level l patterns h = dpOptimization level l' patterns h.
Proof.
  intro H. apply dpOptimization_same; [apply samePlanned_pitch; exact H|].
  intros i _. unfold getPatternContext.
  rewrite (samePlanned_measure l l' i H). reflexivity.
Qed.

Lemma planHandFingering_samePlanned
  (level : Difficulty) (l l' : list Note) (patterns : list PatternSegment) (h : Hand) :
  Forall2 samePlanned l l' ->
  planHandFingering level l patterns h = planHandFingering level l' patterns h.
Proof.
  intro H. unfold planHandFingering. rewrite <- (Forall2_length H).
  destruct (length l =? 0)%nat; [reflexivity|].
  destruct (64 <? length l)%nat; [|apply dpOptimization_samePlanned; exact H].
  unfold chunkedOptimization. rewrite !makeChunks_spec, !map_map.
  rewrite <- (Forall2_length H).
  rewrite (map_ext (fun s => dpOptimization level (Chunks.chunkAt l s) patterns h)
                   (fun s => dpOptimization level (Chunks.chunkAt l' s) patterns h));
    [reflexivity|].
  intro s. apply dpOptimization_samePlanned, samePlanned_chunk, H.
Qed.

(** X4.  The planner reads nothing of a note but its pitch, its hand
    and its measure number: two streams that agree on these three get
    the same solution, fingers, cost, path and explanations alike. *)
Theorem X4_planner_reads_pitch_hand_measure
  (level : Difficulty) (notes notes' : list Note) (patterns : list PatternSegment) :
  Forall2 samePlanned notes notes' ->
  planFingering level notes patterns = planFingering level notes' patterns.
Proof.
  intro H. unfold planFingering. rewrite <- (Forall2_length H).
  destruct (length notes =? 0)%nat; [reflexivity|].
  assert (forall a b, samePlanned a b -> isRH a = isRH b) as Hr
    by (intros a b (_ & Hh & _); unfold isRH; rewrite Hh; reflexivity).
  assert (forall a b, samePlanned a b -> isLH a = isLH b) as Hl
    by (intros a b (_ & Hh & _); unfold isLH; rewrite Hh; reflexivity).
  rewrite (planHandFingering_samePlanned level _ _ patterns RH
             (samePlanned_filter isRH _ _ Hr H)).
  rewrite (planHandFingering_samePlanned level _ _ patterns LH
             (samePlanned_filter isLH _ _ Hl H)).
  set (rs := planHandFingering level (filter isRH notes') patterns RH).
  set (ls := planHandFingering level (filter isLH notes') patterns LH).
  clearbody rs ls.
  assert (forall st, fold_left (mergeStep rs ls) notes st
                     = fold_left (mergeStep rs ls) notes' st) as ->; [|reflexivity].
  induction H as [|a b l l' Hab _ IH]; intro st; [reflexivity|].
  cbn [fold_left]. unfold mergeStep at 2 4. rewrite (Hr a b Hab). apply IH.
Qed.

Lemma X4_planner_reads_pitch_hand_measure_witness :
  planFingering intermediate cMajorScale [cMajorSegment]
  = planFingering intermediate (map (withMeasure 1) cMajorTwoMeasures)
      [cMajorSegment].
Proof.
  assert (Forall2 samePlanned cMajorScale
            (map (withMeasure 1) cMajorTwoMeasures)) as H
    by (repeat constructor).
  exact (X4_planner_reads_pitch_hand_measure intermediate _ _ [cMajorSegment] H).
Defined.
(** ** Hand positions *)

Lemma anchorOf_anchored (h : Hand) (lo hi x : Z) :
  lo <= hi <= lo + 8 -> lo <= x <= hi -> anchored h (anchorOf h lo hi) x.
Proof. unfold anchored, anchorOf. destruct h; lia. Qed.

Lemma nth_app_repeat (l : list HandPosition) (x : HandPosition) (m j : nat) :
  (length l <= j < length l + m)%nat -> nth j (l ++ repeat x m) defaultPos = x.
Proof.
  intro H. rewrite app_nth2 by lia. apply nth_repeat_lt. lia.
Qed.

Lemma positionStep_inv (notes : list Note) (h : Hand) (k : nat) (st : PosState) :
  positionsInv notes h k st -> positionsInv notes h (S k) (positionStep notes h st k).
Proof.
  unfold positionsInv. cbv zeta.
  intros (Hs & Hlen & Hr & Hin & Hdone). unfold positionStep.
  set (pk := pitch (nth k notes dummyNote)).
  destruct (8 <? Z.max (pMaxPitch st) pk - Z.min (pMinPitch st) pk) eqn:E.
  - cbn [pSegmentStart pPositions pMinPitch pMaxPitch].
    split; [lia|]. split; [rewrite length_app, repeat_length; lia|].
    split; [lia|]. split; [intros j Hj; replace j with k by lia; fold pk; lia|].
    intros j Hj. destruct (Nat.lt_ge_cases j (pSegmentStart st)) as [Hlt|Hge].
    + rewrite app_nth1 by lia. apply Hdone. exact Hlt.
    + rewrite nth_app_repeat by lia. cbn [inPosition anchorPitch].
      split; [reflexivity|]. apply anchorOf_anchored; [exact Hr|]. apply Hin. lia.
  - apply Z.ltb_ge in E. cbn [pSegmentStart pPositions pMinPitch pMaxPitch].
    split; [lia|]. split; [exact Hlen|]. split; [lia|]. split; [|exact Hdone].
    intros j Hj. destruct (Nat.eq_dec j k) as [->|Hne]; [fold pk; lia|].
    specialize (Hin j ltac:(lia)). lia.
Qed.

Lemma positionScan_inv (notes : list Note) (h : Hand) (k : nat) (st : PosState) :
  positionsInv notes h 0 st ->
  positionsInv notes h k (fold_left (positionStep notes h) (seq 0 k) st).
Proof.
  intro H0. induction k as [|k IH]; [exact H0|].
  rewrite seq_S, fold_left_app. cbn [fold_left Nat.add]. apply positionStep_inv, IH.
Qed.

(** X5.  [analyzeHandPositions] returns one position per note, every
    one flagged in position, and every note lies within the span of its
    anchor: at most 8 semitones above it in the right hand, at most 8
    below it in the left. *)
Theorem X5_notes_within_anchor_span (notes : list Note) (h : Hand) (i : nat) :
  (i < length notes)%nat ->
  let positions := analyzeHandPositions notes h in
  length positions = length notes
  /\ inPosition (nth i positions defaultPos) = true
  /\ anchored h (anchorPitch (nth i positions defaultPos))
              (pitch (nth i notes dummyNote)).
Proof.
  intros Hi positions. subst positions. unfold analyzeHandPositions.
  destruct notes as [|n0 r] eqn:En; [cbn in Hi; lia|]. rewrite <- En in *.
  assert (positionsInv notes h 0 (mkPosState 0 (pitch n0) (pitch n0) [])) as H0.
  { unfold positionsInv. cbn. repeat split; try lia; intros; lia. }
  pose proof (positionScan_inv notes h (length notes) _ H0) as Hinv.
  unfold positionsInv in Hinv. cbv zeta in Hinv |- *.
  destruct Hinv as (Hs & Hlen & Hr & Hin & Hdone).
  set (st := fold_left _ _ _) in *.
  split; [rewrite length_app, repeat_length; lia|].
  destruct (Nat.lt_ge_cases i (pSegmentStart st)) as [Hlt|Hge].
  - rewrite app_nth1 by lia. apply Hdone. exact Hlt.
  - rewrite nth_app_repeat by lia. cbn [inPosition anchorPitch].
    split; [reflexivity|]. apply anchorOf_anchored; [exact Hr|]. apply Hin. lia.
Qed.

Lemma X5_notes_within_anchor_span_witness :
  let positions := analyzeHandPositions scaleThenLeaps LH in
  length positions = length scaleThenLeaps
  /\ inPosition (nth 9 positions defaultPos) = true
  /\ anchored LH (anchorPitch (nth 9 positions defaultPos))
              (pitch (nth 9 scaleThenLeaps dummyNote)).
Proof.
  assert (9 < length scaleThenLeaps)%nat as H by (cbn; lia).
  exact (X5_notes_within_anchor_span scaleThenLeaps LH 9 H).
Defined.

(** ** Scale runs *)

Lemma sorted_snoc {A} (R : A -> A -> Prop) (l : list A) (x : A) :
  StronglySorted R l -> Forall (fun a => R a x) l -> StronglySorted R (l ++ [x]).
Proof.
  induction 1 as [|a l Hs IH Ha]; intro Hx; cbn.
  - repeat constructor.
  - inversion Hx as [|? ? Hax Hlx]; subst. constructor; [apply IH; exact Hlx|].
    apply Forall_app. split; [exact Ha|]. repeat constructor. exact Hax.
Qed.

Section ScaleRuns.

Variable notes : list Note.

Let d (j : nat) : Z := pitch (nth j notes dummyNote) - pitch (nth (j - 1) notes dummyNote).

Lemma run_is_scaleRun (k : nat) (st : DetectState) :
  (k <= length notes)%nat -> scaleScanInv notes k st -> 4 <= dStepCount st ->
  scaleRun notes (mkScaleSeg (dSegStart st) (k - 1) (0 <? dDirection st)).
Proof.
  unfold scaleScanInv. cbv zeta. fold d.
  intros Hk (H0 & Hs & Hlt & _ & Hdir & Hrun & _) H4.
  unfold scaleRun. cbn [sStart sEnd sAscending]. split; [lia|].
  intros j Hj. destruct (Hrun j ltac:(lia)) as [Habs Hsgn].
  unfold stepAt. fold (d j).
  destruct (Hdir ltac:(lia)) as [E|E]; rewrite E in Hsgn |- *;
    [change (0 <? 1) with true | change (0 <? -1) with false]; cbv iota;
    unfold d; lia.
Qed.

Lemma detectStep_inv (k : nat) (st : DetectState) :
  (1 <= k < length notes)%nat ->
  scaleScanInv notes k st -> scaleScanInv notes (S k) (detectStep notes st k).
Proof.
  intros Hk Hinv.
  pose proof Hinv as Hinv'. unfold scaleScanInv in Hinv'. cbv zeta in Hinv'.
  fold d in Hinv'.
  destruct Hinv' as (H0 & Hs & Hlt & Hzero & Hdir & Hrun & Hsegs & Hends & Hsorted).
  unfold detectStep. fold (d k).
  set (isStep := (Z.abs (d k) =? 1) || (Z.abs (d k) =? 2)).
  assert (isStep = true <-> 1 <= Z.abs (d k) <= 2) as Hstep.
  { unfold isStep. rewrite orb_true_iff, !Z.eqb_eq. lia. }
  destruct (isStep && ((Z.sgn (d k) =? dDirection st) || (dDirection st =? 0))) eqn:E.
  - apply andb_true_iff in E. destruct E as [Es Ed]. apply Hstep in Es.
    apply orb_true_iff in Ed. rewrite !Z.eqb_eq in Ed.
    assert (Z.sgn (d k) = 1 \/ Z.sgn (d k) = -1) as Hsg by lia.
    unfold scaleScanInv. cbv zeta. fold d.
    cbn [dStepCount dSegStart dDirection dSegments].
    split; [lia|]. split; [lia|]. split; [lia|]. split; [lia|].
    assert ((if dDirection st =? 0 then Z.sgn (d k) else dDirection st) = Z.sgn (d k)
            \/ (dDirection st <> 0
                /\ (if dDirection st =? 0 then Z.sgn (d k) else dDirection st)
                   = dDirection st)) as Hnew.
    { destruct (dDirection st =? 0) eqn:E0; [left; reflexivity|].
      apply Z.eqb_neq in E0. right. auto. }
    split; [intros _; destruct Hnew as [->|[Hnz ->]]; [exact Hsg|]; apply Hdir; lia|].
    split; [|auto].
    intros j Hj. destruct (Nat.eq_dec j k) as [->|Hne].
    + split; [exact Es|]. destruct Hnew as [->|[Hnz ->]]; [reflexivity|].
      destruct Ed as [Ed|Ed]; [exact Ed|contradiction].
    + destruct (Hrun j ltac:(lia)) as [Ha Hb]. split; [exact Ha|].
      destruct (dDirection st =? 0) eqn:E0; [|exact Hb].
      apply Z.eqb_eq in E0.
      assert (dStepCount st = 0) as Hc0
        by (destruct (Z.eq_dec (dStepCount st) 0) as [|Hn]; [assumption|];
            destruct (Hdir ltac:(lia)); lia).
      lia.
  - unfold scaleScanInv. cbv zeta. fold d.
    cbn [dStepCount dSegStart dDirection dSegments].
    assert (isStep = true -> Z.sgn (d k) = 1 \/ Z.sgn (d k) = -1) as Hsg
      by (intro Ht; apply Hstep in Ht; lia).
    split; [destruct isStep; lia|]. split; [destruct isStep; lia|].
    split; [lia|]. split; [destruct isStep; [lia|reflexivity]|].
    split; [destruct isStep; [intros _; apply Hsg; reflexivity|lia]|].
    split; [intros j Hj; lia|].
    destruct (4 <=? dStepCount st) eqn:E4.
    + apply Z.leb_le in E4.
      pose proof (run_is_scaleRun k st ltac:(lia) Hinv E4) as Hnew.
      split; [apply Forall_app; split; [exact Hsegs|constructor; [exact Hnew|constructor]]|].
      split.
      * apply Forall_app. split.
        -- eapply Forall_impl; [|exact Hends]. cbn. intros s Hs'. lia.
        -- constructor; [cbn [sEnd]; lia|constructor].
      * apply sorted_snoc; [exact Hsorted|].
        eapply Forall_impl; [|exact Hends]. intros s Hs'. unfold before.
        cbn [sStart]. exact Hs'.
    + split; [exact Hsegs|]. split; [|exact Hsorted].
      eapply Forall_impl; [|exact Hends]. cbn. intros s Hs'. lia.
Qed.

Lemma detectScan_inv (k : nat) :
  (k < length notes)%nat ->
  scaleScanInv notes (S k) (fold_left (detectStep notes) (seq 1 k) (mkDetect 0 0 0 [])).
Proof.
  intro Hk. induction k as [|k IH].
  - unfold scaleScanInv. cbn. repeat split; try (intros; lia); constructor.
  - rewrite seq_S, fold_left_app. cbn [fold_left Nat.add].
    apply detectStep_inv; [lia|]. apply IH. lia.
Qed.

End ScaleRuns.

(** X6.  Every segment [detectScaleSegments] returns is a real scale
    run: it spans at least four notes inside the stream, and each move
    within it is a step of one or two semitones in the direction the
    segment is flagged with.  The segments are returned in order and
    do not touch: each ends before the next starts. *)
Theorem X6_scale_segments_are_runs (notes : list Note) :
  Forall (scaleRun notes) (detectScaleSegments notes)
  /\ StronglySorted before (detectScaleSegments notes).
Proof.
  unfold detectScaleSegments.
  destruct (length notes <? 5)%nat eqn:E5; [split; constructor|].
  apply Nat.ltb_ge in E5.
  pose proof (detectScan_inv notes (length notes - 1) ltac:(lia)) as Hinv.
  replace (S (length notes - 1)) with (length notes) in Hinv by lia.
  set (st := fold_left _ _ _) in *.
  pose proof Hinv as Hinv'. unfold scaleScanInv in Hinv'. cbv zeta in Hinv'.
  destruct Hinv' as (H0 & Hs & Hlt & Hzero & Hdir & Hrun & Hsegs & Hends & Hsorted).
  destruct (4 <=? dStepCount st) eqn:E4; [|split; assumption].
  apply Z.leb_le in E4.
  pose proof (run_is_scaleRun notes (length notes) st (Nat.le_refl _) Hinv E4) as Hnew.
  split; [apply Forall_app; split; [exact Hsegs|constructor; [exact Hnew|constructor]]|].
  apply sorted_snoc; [exact Hsorted|].
  eapply Forall_impl; [|exact Hends]. cbn. intros s Hs'. exact Hs'.
Qed.
(** ** Confidence of a classification *)

Lemma Qmin2_range (a b lo hi : Q) :
  (lo <= a <= hi)%Q -> (lo <= b)%Q -> (lo <= Qmin2 a b <= hi)%Q.
Proof.
  intros Ha Hb. unfold Qmin2. destruct (Qle_bool a b) eqn:E; [lra|].
  assert (~ (a <= b)%Q) as Hn by (intro H; apply Qle_bool_iff in H; congruence).
  lra.
Qed.

Lemma Qmax2_range (a b lo hi : Q) :
  (lo <= a <= hi)%Q -> (lo <= b <= hi)%Q -> (lo <= Qmax2 a b <= hi)%Q.
Proof.
  intros Ha Hb. unfold Qmax2. destruct (Qle_bool a b); lra.
Qed.

Lemma known_graded (t : PatternType) (c : Q) (fs : PatternFeatures) :
  t <> UNKNOWN -> (0.7 <= c <= 1)%Q -> graded (mkResult t c fs).
Proof. intros Ht Hc. right. split; assumption. Qed.

Lemma scaled_count (c lo : Z) :
  lo <= c -> (Z2Q lo * 0.05 <= Z2Q c * 0.05)%Q.
Proof.
  intro H. apply Z2Q_le in H. lra.
Qed.

Lemma detectOrnamented_graded (w : list Note) (f : ExtractedFeatures) (r : ClassificationResult) :
  detectOrnamented w f = Some r -> graded r.
Proof.
  unfold detectOrnamented.
  repeat match goal with |- context [if ?c then _ else _] => destruct c end;
    intro H; try discriminate; injection H as <-;
    apply known_graded; try discriminate; lra.
Qed.

Lemma detectAlberti_graded (w : list Note) (f : ExtractedFeatures) (r : ClassificationResult) :
  detectAlberti w f = Some r -> graded r.
Proof.
  unfold detectAlberti.
  destruct (negb (fStaff f =? 2) && (60 <=? nth 0 (pitches f) 0)); [discriminate|].
  destruct (length w <? 4)%nat; [discriminate|]. cbv zeta.
  set (mr := if 0 <? lenZ w / 4 then _ else _).
  destruct (Qge_bool mr 0.6) eqn:E; [|discriminate].
  intro H. injection H as <-. apply known_graded; [discriminate|].
  unfold Qge_bool in E. apply Qle_bool_iff in E.
  apply Qmin2_range; lra.
Qed.

Lemma ostinatoLoop_graded (ps : list Z) (lens : list nat) (r : ClassificationResult) :
  ostinatoLoop ps lens = Some r -> graded r.
Proof.
  induction lens as [|n lens IH]; [discriminate|]. cbn [ostinatoLoop].
  set (rc := ostinatoRepeats _ _ _ _).
  destruct (2 <=? rc) eqn:E; [|exact IH].
  apply Z.leb_le in E. intro H. injection H as <-.
  apply known_graded; [discriminate|].
  pose proof (scaled_count rc 2 E) as Hs. change (Z2Q 2) with 2%Q in Hs.
  apply Qmin2_range; lra.
Qed.

Lemma detectPolyphonic_graded (w : list Note) (f : ExtractedFeatures) (r : ClassificationResult) :
  detectPolyphonic w f = Some r -> graded r.
Proof.
  unfold detectPolyphonic.
  repeat match goal with |- context [if ?c then _ else _] => destruct c end;
    intro H; try discriminate; injection H as <-;
    apply known_graded; try discriminate; lra.
Qed.

Lemma detectRepeated_graded (w : list Note) (f : ExtractedFeatures) (r : ClassificationResult) :
  detectRepeated w f = Some r -> graded r.
Proof.
  unfold detectRepeated. cbv zeta.
  set (mx := maxRepeatLoop _ _ _).
  destruct (3 <=? mx) eqn:E.
  - apply Z.leb_le in E. intro H. injection H as <-.
    apply known_graded; [discriminate|].
    pose proof (scaled_count mx 3 E) as Hs. change (Z2Q 3) with 3%Q in Hs.
    apply Qmin2_range; lra.
  - repeat match goal with |- context [if ?c then _ else _] => destruct c end;
      intro H; try discriminate; injection H as <-;
      apply known_graded; try discriminate; lra.
Qed.

Lemma classifyFromLeap_graded (w : list Note) (f : ExtractedFeatures) :
  graded (classifyFromLeap w f).
Proof.
  unfold classifyFromLeap, classifyLeap, classifyMelodic.
  destruct (leapTest w f); [apply known_graded; [discriminate|lra]|].
  destruct (fHasSlur f || Qlt_bool 0.3 (durationVariance f));
    [apply known_graded; [discriminate|lra]|].
  left. split; reflexivity.
Qed.

Lemma classifyPattern_graded (w : list Note) (f : ExtractedFeatures) :
  graded (classifyPattern w f).
Proof.
  unfold classifyPattern, classifyBeforeLeap.
  destruct (detectOrnamented w f) eqn:E1; [eapply detectOrnamented_graded; eassumption|].
  destruct (detectAlberti w f) eqn:E2; [eapply detectAlberti_graded; eassumption|].
  destruct (detectOstinato w f) eqn:E3;
    [unfold detectOstinato in E3; eapply ostinatoLoop_graded; eassumption|].
  destruct (detectPolyphonic w f) eqn:E4; [eapply detectPolyphonic_graded; eassumption|].
  destruct (Qge_bool (avgSimultaneity f) 2 || (3 <=? maxSimultaneity f));
    [apply known_graded; [discriminate|cbn; lra]|].
  destruct (Qge_bool (stepwiseRatio f) 0.8).
  - destruct (determineDirection f);
      try (apply known_graded; [discriminate|cbn; lra]).
    destruct (Qge_bool (leapRatio f) 0.5 && belongsToChord (pitches f));
      [apply known_graded; [discriminate|cbn; lra]|].
    destruct (pitchEntropyBelowHalf f); [|apply classifyFromLeap_graded].
    destruct (detectRepeated w f) eqn:E5; [eapply detectRepeated_graded; eassumption|].
    apply classifyFromLeap_graded.
  - destruct (Qge_bool (leapRatio f) 0.5 && belongsToChord (pitches f));
      [apply known_graded; [discriminate|cbn; lra]|].
    destruct (pitchEntropyBelowHalf f); [|apply classifyFromLeap_graded].
    destruct (detectRepeated w f) eqn:E5; [eapply detectRepeated_graded; eassumption|].
    apply classifyFromLeap_graded.
Qed.

Lemma graded_range (r : ClassificationResult) :
  graded r -> (0.5 <= crConfidence r <= 1)%Q.
Proof. intros [[_ H]|[_ H]]; lra. Qed.

Lemma windowsFrom_confidence (fuel : nat) (notes : list Note) (i : nat) :
  Forall (fun s => (0.5 <= confidence s <= 1)%Q) (Walk.windowsFrom fuel notes i).
Proof.
  revert i. induction fuel as [|fuel IH]; intro i; cbn [Walk.windowsFrom]; [constructor|].
  destruct (i <? length notes)%nat; [|constructor].
  destruct (length (slice i _ notes) <? 2)%nat; [apply IH|].
  constructor; [|apply IH]. cbn [confidence].
  apply graded_range, classifyPattern_graded.
Qed.

Lemma walk_Forall (P : PatternSegment -> Prop) (rest : list PatternSegment)
  (current : PatternSegment) :
  (forall a b, P a -> P b -> P (mergeInto a b)) ->
  Forall P (current :: rest) -> Forall P (Walk.walk current rest).
Proof.
  intro Hm. revert current. induction rest as [|next rest IH]; intros current H.
  - exact H.
  - cbn [Walk.walk].
    inversion H as [|? ? Hc H']; subst. inversion H' as [|? ? Hn H'']; subst.
    destruct (shouldMerge current next).
    + apply IH. constructor; [apply Hm; assumption|exact H''].
    + constructor; [exact Hc|]. apply IH. exact H'.
Qed.

(** X7.  Every classification is graded: UNKNOWN comes with confidence
    0.5 and every other type with a confidence between 0.7 and 1; and
    every segment the recognizer returns for a hand, merged ones
    included, has a confidence between 0.5 and 1. *)
Theorem X7_confidence_range (notes : list Note) (h : Hand) :
  (forall w f, graded (classifyPattern w f))
  /\ Forall (fun s => (0.5 <= confidence s <= 1)%Q) (recognizeHandPatterns notes h).
Proof.
  split; [exact classifyPattern_graded|].
  unfold recognizeHandPatterns. destruct (length notes =? 0)%nat; [constructor|].
  unfold rawSegments, postProcess. rewrite windowLoop_app. cbn [app].
  pose proof (windowsFrom_confidence (length notes) notes 0) as H.
  destruct (Walk.windowsFrom (length notes) notes 0) as [|s0 rest]; [constructor|].
  rewrite postProcessLoop_walk. cbn [app].
  apply walk_Forall; [|exact H].
  intros a b Ha Hb. unfold mergeInto. cbn [confidence]. apply Qmax2_range; assumption.
Qed.

(** ** Ornaments come first *)

Lemma existsb_orb {A} (p q : A -> bool) (l : list A) :
  existsb (fun x => p x || q x) l = existsb p l || existsb q l.
Proof.
  induction l as [|a l IH]; [reflexivity|]. cbn. rewrite IH.
  destruct (p a), (q a), (existsb p l), (existsb q l); reflexivity.
Qed.

(** X8.  A window that holds a note with a trill, mordent, turn or
    grace flag is classified ORNAMENTED with confidence 1, whatever
    else it contains, and the ornament reported is the first kind
    present in the order trill, mordent, turn, grace. *)
Theorem X8_ornaments_first (w : list Note) :
  existsb (fun n => hasTrill n || hasMordent n || hasTurn n || isGrace n) w = true ->
  classifyPattern w (extractFeatures w)
  = mkResult ORNAMENTED 1 (withOrnament (firstOrnament w)).
Proof.
  intro H. unfold classifyPattern, classifyBeforeLeap, detectOrnamented.
  assert (hasOrnament (extractFeatures w) || hasGrace (extractFeatures w) = true) as ->.
  { unfold extractFeatures. cbn [hasOrnament hasGrace].
    rewrite <- existsb_orb. exact H. }
  reflexivity.
Qed.

Lemma X8_ornaments_first_witness :
  classifyPattern [withMeasure 1 (pitchOnly 60);
                   mkNote "g" 62 1 1 1 RH 1 1 false true false false false false]
    (extractFeatures [withMeasure 1 (pitchOnly 60);
                      mkNote "g" 62 1 1 1 RH 1 1 false true false false false false])
  = mkResult ORNAMENTED 1 (withOrnament grace).
Proof.
  exact (X8_ornaments_first
           [withMeasure 1 (pitchOnly 60);
            mkNote "g" 62 1 1 1 RH 1 1 false true false false false false] eq_refl).
Defined.

(** ** The merge walk *)

Lemma last_two {A} (a b : A) (r : list A) (d : A) : last (a :: b :: r) d = last (b :: r) d.
Proof. reflexivity. Qed.

Lemma settled_cons (a b : PatternSegment) (r : list PatternSegment) :
  patternType a <> patternType b /\ 3 <= endIndex a - startIndex a /\ settled (b :: r) ->
  settled (a :: b :: r).
Proof. intro H. exact H. Qed.

Lemma walk_settled (rest : list PatternSegment) (current : PatternSegment) :
  let R := Walk.walk current rest in
  settled R
  /\ (length R <= S (length rest))%nat
  /\ (exists a r, R = a :: r /\ startIndex a = startIndex current
                  /\ patternType a = patternType current)
  /\ endIndex (last R dummySegment) = endIndex (last (current :: rest) dummySegment).
Proof.
  revert current. induction rest as [|next rest IH]; intro current.
  - cbn. repeat split; auto. exists current, []. auto.
  - cbn [Walk.walk]. destruct (shouldMerge current next) eqn:E.
    + destruct (IH (mergeInto current next)) as (Hs & Hlen & (a & r & HR & Ha & Ht) & Hend).
      cbv zeta. split; [exact Hs|]. split; [cbn [length]; lia|].
      split; [exists a, r; auto|].
      rewrite Hend, last_two. destruct rest; reflexivity.
    + destruct (IH next) as (Hs & Hlen & (a & r & HR & Ha & Ht) & Hend).
      cbv zeta. unfold shouldMerge in E. apply orb_false_iff in E.
      destruct E as [Et El]. apply Z.ltb_ge in El.
      assert (patternType current <> patternType next) as Hne
        by (intro Heq; apply PatternType_eqb_eq in Heq; congruence).
      split; [rewrite HR in Hs |- *; apply settled_cons; rewrite Ht; auto|].
      split; [cbn [length]; lia|].
      split; [exists current, (Walk.walk next rest); auto|].
      rewrite HR in Hend |- *. rewrite last_two. exact Hend.
Qed.

(** X9.  Post-processing of a non-empty list of segments returns a
    non-empty list that is no longer, starts where the first segment
    starts (with its type) and ends where the last one ends; in the
    result consecutive segments differ in type, and every segment but
    the last spans at least four notes ([endIndex - startIndex >= 3]). *)
Theorem X9_postProcess_settles
  (s0 : PatternSegment) (rest : list PatternSegment) (notes : list Note) :
  let out := postProcess (s0 :: rest) notes in
  settled out
  /\ (1 <= length out <= length (s0 :: rest))%nat
  /\ startIndex (hd dummySegment out) = startIndex s0
  /\ patternType (hd dummySegment out) = patternType s0
  /\ endIndex (last out dummySegment) = endIndex (last (s0 :: rest) dummySegment).
Proof.
  cbv zeta. unfold postProcess. rewrite postProcessLoop_walk. cbn [app].
  destruct (walk_settled rest s0) as (Hs & Hlen & (a & r & HR & Ha & Ht) & Hend).
  rewrite HR in *. cbn [hd length] in *. repeat split; auto; lia.
Qed.

(** ** Intervals and simultaneity *)

Lemma sumZ_cons (x : Z) (l : list Z) : sumZ (x :: l) = x + sumZ l.
Proof.
  unfold sumZ. cbn [fold_left].
  assert (forall a b, fold_left Z.add l (a + b) = a + fold_left Z.add l b) as H.
  { induction l as [|y l IH]; intros a b; cbn [fold_left]; [reflexivity|].
    rewrite <- Z.add_assoc. apply IH. }
  rewrite <- (H x 0). f_equal. lia.
Qed.

(** X10.  [computeIntervals] returns the successive pitch differences,
    one fewer than the pitches, and they add up to the last pitch minus
    the first. *)
Theorem X10_intervals_telescope (ps : list Z) :
  length (computeIntervals ps) = (length ps - 1)%nat
  /\ (forall i, (S i < length ps)%nat ->
                nth i (computeIntervals ps) 0 = nth (S i) ps 0 - nth i ps 0)
  /\ sumZ (computeIntervals ps) = last ps 0 - hd 0 ps.
Proof.
  induction ps as [|a r IH]; [cbn; repeat split; intros; lia|].
  destruct r as [|b r']; [cbn; repeat split; intros; lia|].
  destruct IH as (Hlen & Hnth & Hsum).
  change (computeIntervals (a :: b :: r')) with ((b - a) :: computeIntervals (b :: r')).
  split; [cbn [length] in *; lia|]. split.
  - intros [|i] Hi; [reflexivity|]. cbn [nth]. apply Hnth. cbn [length] in *. lia.
  - rewrite sumZ_cons, Hsum, last_two. cbn [hd]. lia.
Qed.

Lemma bump_counts {K} (eqb : K -> K -> bool) (k : K) (m : list (K * Z)) :
  sumZ (map snd (bump eqb k m)) = sumZ (map snd m) + 1
  /\ (Forall (fun c => 1 <= c) (map snd m) ->
      Forall (fun c => 1 <= c) (map snd (bump eqb k m)))
  /\ (length (bump eqb k m) <= S (length m))%nat.
Proof.
  induction m as [|[k' c] m (IH1 & IH2 & IH3)].
  - cbn. split; [reflexivity|]. split; [|lia].
    intros _. constructor; [lia|constructor].
  - cbn [bump]. destruct (eqb k' k); cbn [map snd length].
    + rewrite !sumZ_cons. repeat split; [lia| |lia].
      intro H. inversion H; subst. constructor; [lia|assumption].
    + rewrite !sumZ_cons, IH1. repeat split; [lia| |lia].
      intro H. inversion H; subst. constructor; [assumption|auto].
Qed.

Lemma countMap_counts {K} (eqb : K -> K -> bool) (keys : list K) :
  sumZ (map snd (countMap eqb keys)) = lenZ keys
  /\ Forall (fun c => 1 <= c) (map snd (countMap eqb keys))
  /\ (length (countMap eqb keys) <= length keys)%nat.
Proof.
  unfold countMap, lenZ.
  induction keys as [|k keys IH] using rev_ind; [cbn; repeat split; auto|].
  rewrite fold_left_app. cbn [fold_left]. destruct IH as (H1 & H2 & H3).
  destruct (bump_counts eqb k (fold_left (fun m k0 => bump eqb k0 m) keys []))
    as (B1 & B2 & B3).
  rewrite B1, H1, length_app. cbn [length]. repeat split; [lia|auto|lia].
Qed.

(** X11.  [computeSimultaneity] counts every note of the window once:
    its entries, one per distinct rounded beat position, are all at
    least 1 and add up to the number of notes. *)
Theorem X11_simultaneity_counts_notes (w : list Note) :
  sumZ (computeSimultaneity w) = lenZ w
  /\ Forall (fun c => 1 <= c) (computeSimultaneity w)
  /\ (length (computeSimultaneity w) <= length w)%nat.
Proof.
  unfold computeSimultaneity.
  destruct (countMap_counts Qeq_bool (map beatKey w)) as (H1 & H2 & H3).
  unfold lenZ in *. rewrite length_map in *. auto.
Qed.
(** ** What the recognizer reads of a note *)

Lemma Forall2_filter {A} (R : A -> A -> Prop) (p : A -> bool) (l l' : list A) :
  (forall a b, R a b -> p a = p b) ->
  Forall2 R l l' -> Forall2 R (filter p l) (filter p l').
Proof.
  intros Hp H. induction H as [|a b l l' Hab _ IH]; [constructor|].
  cbn. rewrite (Hp a b Hab). destruct (p b); [constructor|]; assumption.
Qed.

Lemma filter_keeps_NoDup_map {A B} (l : list A) (p : A -> bool) (f : A -> B)
  (Hnd : NoDup (map f l)) : NoDup (map f (filter p l)).
Proof.
  revert Hnd. induction l as [|x xs IHxs]; intro Hnd; [exact Hnd|].
  cbn [map filter] in *. apply NoDup_cons_iff in Hnd. destruct Hnd as [Hx Hxs].
  destruct (p x); [|exact (IHxs Hxs)].
  cbn [map]. apply NoDup_cons; [|exact (IHxs Hxs)].
  contradict Hx. apply in_map_iff in Hx. destruct Hx as (y & Ey & Hy).
  apply filter_In in Hy. destruct Hy as [Hy _].
  apply in_map_iff. exists y. split; assumption.
Qed.

Lemma NoDup_map_slice {A B} (f : A -> B) (a b : nat) (l : list A) :
  NoDup (map f l) -> NoDup (map f (slice a b l)).
Proof.
  intro H. destruct (slice_split a b (map f l)) as (u & v & E).
  rewrite slice_map. rewrite E in H.
  apply NoDup_app_remove_l in H. apply NoDup_app_remove_r in H. exact H.
Qed.

Section SameHeard.

Variables w w' : list Note.
Hypothesis Hsame : Forall2 sameHeard w w'.

Lemma heard_content : Forall2 sameContent w w'.
Proof. eapply Forall2_impl; [|exact Hsame]. unfold sameHeard. tauto. Qed.

Lemma heard_beats : map beat w = map beat w'.
Proof. apply (Forall2_map_eq sameHeard); [|assumption]. unfold sameHeard. tauto. Qed.

Lemma heard_voices : map voice w = map voice w'.
Proof. apply (Forall2_map_eq sameHeard); [|assumption]. unfold sameHeard. tauto. Qed.

Lemma heard_simultaneity : computeSimultaneity w = computeSimultaneity w'.
Proof.
  unfold computeSimultaneity.
  replace (map beatKey w) with (map (fun b => (roundQ (b * 100) / 100)%Q) (map beat w))
    by (rewrite map_map; reflexivity).
  replace (map beatKey w') with (map (fun b => (roundQ (b * 100) / 100)%Q) (map beat w'))
    by (rewrite map_map; reflexivity).
  rewrite heard_beats. reflexivity.
Qed.

Lemma heard_extractFeatures : extractFeatures w = extractFeatures w'.
Proof.
  pose proof heard_content as Hc.
  unfold extractFeatures. rewrite heard_simultaneity.
  rewrite (same_pitches _ _ Hc), (same_durations _ _ Hc).
  rewrite (same_flag _ _ Hc hasSlur) by (unfold sameContent; tauto).
  rewrite (same_flag _ _ Hc isGrace) by (unfold sameContent; tauto).
  rewrite (same_flag _ _ Hc (fun n => hasTrill n || hasMordent n || hasTurn n))
    by (unfold sameContent; intros a b (_ & _ & _ & _ & _ & -> & -> & ->); reflexivity).
  assert (match w with n0 :: _ => if staff n0 =? 0 then 1 else staff n0 | [] => 1 end
          = match w' with n0 :: _ => if staff n0 =? 0 then 1 else staff n0 | [] => 1 end)
    as ->.
  { inversion Hc as [|a b ? ? (_ & _ & Hst & _) _]; [reflexivity|].
    rewrite Hst. reflexivity. }
  reflexivity.
Qed.

Lemma heard_voice_beats (v : Z) :
  map beat (filter (fun n => voice n =? v) w)
  = map beat (filter (fun n => voice n =? v) w').
Proof.
  apply (Forall2_map_eq sameHeard); [unfold sameHeard; tauto|].
  apply Forall2_filter; [|exact Hsame].
  intros a b (_ & Hv & _). rewrite Hv. reflexivity.
Qed.

Lemma heard_detectPolyphonic (f : ExtractedFeatures) :
  detectPolyphonic w f = detectPolyphonic w' f.
Proof.
  unfold detectPolyphonic. rewrite heard_voices.
  set (voices := distinct Z.eqb (map voice w')).
  assert (forall k,
            map beat (nth k (map (fun v => filter (fun n => voice n =? v) w) voices) [])
            = map beat (nth k (map (fun v => filter (fun n => voice n =? v) w') voices) []))
    as Hk.
  { intro k. rewrite <- !(map_nth (map beat)), !map_map.
    f_equal. apply map_ext. intro v. apply heard_voice_beats. }
  rewrite !Hk. reflexivity.
Qed.

Lemma heard_classifyPattern (f : ExtractedFeatures) :
  classifyPattern w f = classifyPattern w' f.
Proof.
  pose proof heard_content as Hc.
  unfold classifyPattern, classifyBeforeLeap, classifyFromLeap, leapTest.
  rewrite heard_detectPolyphonic.
  unfold detectOrnamented, detectAlberti, detectOstinato, lenZ.
  rewrite (same_pitches _ _ Hc), (same_length_content _ _ Hc).
  rewrite (same_flag _ _ Hc hasTrill) by (unfold sameContent; tauto).
  rewrite (same_flag _ _ Hc hasMordent) by (unfold sameContent; tauto).
  rewrite (same_flag _ _ Hc hasTurn) by (unfold sameContent; tauto).
  reflexivity.
Qed.

End SameHeard.

Lemma heard_windowsFrom (w w' : list Note) :
  Forall2 sameHeard w w' ->
  NoDup (map noteId w) -> NoDup (map noteId w') ->
  forall fuel i, Walk.windowsFrom fuel w i = Walk.windowsFrom fuel w' i.
Proof.
  intros Hsame Hid Hid' fuel.
  pose proof (heard_content _ _ Hsame) as Hc.
  pose proof (same_length_content _ _ Hc) as Hlen.
  induction fuel as [|fuel IH]; intro i; [reflexivity|].
  cbn [Walk.windowsFrom]. rewrite <- Hlen, <- (adaptWindowSize_same w w' i Hc).
  destruct (i <? length w)%nat eqn:Ei; [|reflexivity].
  apply Nat.ltb_lt in Ei.
  destruct (window_step w i Ei) as (Hl & He & _ & _ & _).
  assert (length (slice i (Nat.min (i + adaptWindowSize w i) (length w)) w')
          = (Nat.min (i + adaptWindowSize w i) (length w) - i)%nat) as Hl'
    by (rewrite slice_length; lia).
  set (e := Nat.min (i + adaptWindowSize w i) (length w)) in *.
  pose proof (Forall2_slice sameHeard i e _ _ Hsame) as Hs.
  rewrite Hl, Hl'.
  destruct (e - i <? 2)%nat eqn:E2; [apply IH|].
  apply Nat.ltb_ge in E2.
  rewrite IH. f_equal.
  rewrite !slice_nth by lia.
  rewrite !indexOf_nth by (assumption || lia).
  rewrite (heard_extractFeatures _ _ Hs), (heard_classifyPattern _ _ Hs).
  reflexivity.
Qed.

Lemma heard_recognizeHandPatterns (w w' : list Note) (h : Hand) :
  Forall2 sameHeard w w' ->
  NoDup (map noteId w) -> NoDup (map noteId w') ->
  recognizeHandPatterns w h = recognizeHandPatterns w' h.
Proof.
  intros Hsame Hid Hid'.
  unfold recognizeHandPatterns, rawSegments, postProcess.
  rewrite !windowLoop_app. cbn [app].
  rewrite <- (Forall2_length Hsame).
  rewrite (heard_windowsFrom w w') by assumption.
  reflexivity.
Qed.

(** X12.  The recognizer reads neither the measure number nor the
    chord flag of a note, and uses its identity only to find indices:
    two streams of distinct notes that agree on pitch, duration, staff,
    voice, beat, hand and the grace, slur and ornament flags get the
    same segments. *)
Theorem X12_recognizer_reads (notes notes' : list Note) :
  Forall2 sameHeard notes notes' ->
  NoDup (map noteId notes) -> NoDup (map noteId notes') ->
  recognizePatterns notes = recognizePatterns notes'.
Proof.
  intros Hsame Hid Hid'. unfold recognizePatterns.
  rewrite <- (Forall2_length Hsame).
  destruct (length notes =? 0)%nat; [reflexivity|].
  assert (forall hd, Forall2 sameHeard
                       (filter (fun n => Hand_eqb (hand n) hd) notes)
                       (filter (fun n => Hand_eqb (hand n) hd) notes')) as Hf.
  { intro hd. apply Forall2_filter; [|exact Hsame].
    intros a b (_ & _ & _ & Hh). rewrite Hh. reflexivity. }
  rewrite (heard_recognizeHandPatterns _ _ RH (Hf RH))
    by (apply filter_keeps_NoDup_map; assumption).
  rewrite (heard_recognizeHandPatterns _ _ LH (Hf LH))
    by (apply filter_keeps_NoDup_map; assumption).
  reflexivity.
Qed.

Lemma X12_recognizer_reads_witness :
  recognizePatterns scaleThenLeaps
  = recognizePatterns (map (withMeasure 40) scaleThenLeaps).
Proof.
  assert (Forall2 sameHeard scaleThenLeaps (map (withMeasure 40) scaleThenLeaps)) as H
    by (repeat constructor).
  assert (NoDup (map noteId scaleThenLeaps)) as Hid
    by (cbn; repeat (constructor; [cbn; intuition discriminate|]); constructor).
  exact (X12_recognizer_reads scaleThenLeaps (map (withMeasure 40) scaleThenLeaps)
           H Hid Hid).
Defined.

(** ** The windowing loop ends *)

Lemma windowsFrom_fuel (notes : list Note) (f1 f2 i : nat) :
  (length notes - i <= f1)%nat -> (length notes - i <= f2)%nat ->
  Walk.windowsFrom f1 notes i = Walk.windowsFrom f2 notes i.
Proof.
  revert f2 i. induction f1 as [|f1 IH]; intros f2 i H1 H2.
  - destruct f2 as [|f2]; [reflexivity|]. cbn [Walk.windowsFrom].
    destruct (i <? length notes)%nat eqn:E; [apply Nat.ltb_lt in E; lia|reflexivity].
  - cbn [Walk.windowsFrom].
    destruct (i <? length notes)%nat eqn:E.
    + apply Nat.ltb_lt in E. destruct f2 as [|f2]; [lia|].
      cbn [Walk.windowsFrom]. rewrite (proj2 (Nat.ltb_lt _ _) E).
      destruct (length (slice i _ notes) <? 2)%nat; [apply IH; lia|].
      f_equal. apply IH; lia.
    + destruct f2 as [|f2]; [reflexivity|]. cbn [Walk.windowsFrom]. rewrite E.
      reflexivity.
Qed.

Lemma ostinatoRepeats_fuel (ps : list Z) (patternLen f1 f2 i : nat) :
  (1 <= patternLen)%nat ->
  (length ps - i <= f1)%nat -> (length ps - i <= f2)%nat ->
  ostinatoRepeats f1 ps patternLen i = ostinatoRepeats f2 ps patternLen i.
Proof.
  intro Hp. revert f2 i. induction f1 as [|f1 IH]; intros f2 i H1 H2.
  - destruct f2 as [|f2]; [reflexivity|]. cbn [ostinatoRepeats].
    destruct (i + patternLen <=? length ps)%nat eqn:E;
      [apply Nat.leb_le in E; lia|reflexivity].
  - cbn [ostinatoRepeats].
    destruct (i + patternLen <=? length ps)%nat eqn:E.
    + apply Nat.leb_le in E. destruct f2 as [|f2]; [lia|].
      cbn [ostinatoRepeats]. rewrite (proj2 (Nat.leb_le _ _) E).
      destruct (arraysEqual _ _); [|reflexivity].
      f_equal. apply IH; lia.
    + destruct f2 as [|f2]; [reflexivity|]. cbn [ostinatoRepeats]. rewrite E.
      reflexivity.
Qed.

(** X13.  The two unbounded loops of the recognizer end.  The window
    cursor moves on by at least one note per iteration and a window
    holds at most 16 notes, so the windowing loop is over after as many
    iterations as there are notes; the repeat count of a candidate
    ostinato block of at least one pitch is complete after as many
    iterations as there are pitches.  More iterations change nothing. *)
Theorem X13_recognizer_loops_end (notes : list Note) (extra : nat) :
  windowLoop (length notes + extra) notes 0 [] = rawSegments notes
  /\ (forall i, (i < length notes)%nat -> (1 <= adaptWindowSize notes i <= 16)%nat)
  /\ (forall ps patternLen, (1 <= patternLen)%nat ->
        ostinatoRepeats (length ps + extra) ps patternLen patternLen
        = ostinatoRepeats (length ps) ps patternLen patternLen).
Proof.
  split; [|split].
  - unfold rawSegments. rewrite !windowLoop_app. f_equal.
    apply windowsFrom_fuel; lia.
  - intros i Hi.
    destruct (adaptWindowSize_cases notes i) as [[Hw Hsmall]|[Hbig Hw]].
    + rewrite Hw. lia.
    + destruct Hw as [-> | [-> | [-> | ->]]]; lia.
  - intros ps patternLen Hp. apply ostinatoRepeats_fuel; [exact Hp|lia|lia].
Qed.
(** ** The merged segment list *)

Lemma insertSegment_perm (s : PatternSegment) (l : list PatternSegment) :
  Permutation (s :: l) (insertSegment s l).
Proof.
  induction l as [|t l IH]; cbn [insertSegment]; [reflexivity|].
  destruct (startIndex s <? startIndex t); [reflexivity|].
  rewrite perm_swap. constructor. exact IH.
Qed.

Lemma insertSegment_sorted (s : PatternSegment) (l : list PatternSegment) :
  sortedByStart l -> sortedByStart (insertSegment s l).
Proof.
  unfold sortedByStart. induction 1 as [|t l Hs IH Ht]; cbn [insertSegment].
  - repeat constructor.
  - destruct (startIndex s <? startIndex t) eqn:E.
    + apply Z.ltb_lt in E. constructor; [constructor; assumption|].
      constructor; [lia|]. eapply Forall_impl; [|exact Ht]. cbn. intros; lia.
    + apply Z.ltb_ge in E. constructor; [exact IH|].
      rewrite <- (insertSegment_perm s l). constructor; assumption.
Qed.

Lemma insertSegment_startingAt (k : Z) (s : PatternSegment) (l : list PatternSegment) :
  sortedByStart l ->
  startingAt k (insertSegment s l) = startingAt k l ++ startingAt k [s].
Proof.
  unfold sortedByStart, startingAt.
  induction 1 as [|t l Hs IH Ht]; cbn [insertSegment]; [reflexivity|].
  destruct (startIndex s <? startIndex t) eqn:E.
  - apply Z.ltb_lt in E. cbn [filter].
    destruct (startIndex s =? k) eqn:Es; [|rewrite app_nil_r; reflexivity].
    apply Z.eqb_eq in Es.
    assert ((startIndex t =? k) = false) as -> by (apply Z.eqb_neq; lia).
    assert (filter (fun s0 => startIndex s0 =? k) l = []) as ->; [|reflexivity].
    apply filter_none. eapply Forall_impl; [|exact Ht]. cbn.
    intros a Ha. apply Z.eqb_neq. lia.
  - cbn [filter]. rewrite IH. destruct (startIndex t =? k); reflexivity.
Qed.

Lemma sortSegments_spec (l acc : list PatternSegment) :
  sortedByStart acc ->
  let out := fold_left (fun a s => insertSegment s a) l acc in
  Permutation (acc ++ l) out /\ sortedByStart out
  /\ forall k, startingAt k out = startingAt k acc ++ startingAt k l.
Proof.
  revert acc. induction l as [|s l IH]; intros acc Hacc; cbn [fold_left].
  - rewrite app_nil_r. repeat split; auto. intro k.
    unfold startingAt. cbn. rewrite app_nil_r. reflexivity.
  - destruct (IH (insertSegment s acc) (insertSegment_sorted s acc Hacc))
      as (Hp & Hs & Hk).
    cbv zeta. split; [|split; [exact Hs|]].
    + rewrite <- Hp. rewrite <- (insertSegment_perm s acc).
      rewrite <- Permutation_middle. reflexivity.
    + intro k. rewrite Hk, insertSegment_startingAt by exact Hacc.
      unfold startingAt. cbn [filter]. rewrite <- app_assoc.
      destruct (startIndex s =? k); reflexivity.
Qed.

(** X14.  [recognizePatterns] returns the segments of the right hand
    and of the left hand, none lost and none added, ordered by start
    index; segments that start at the same index keep their order,
    right hand first.  An empty stream gives no segment. *)
Theorem X14_segments_of_both_hands_sorted (notes : list Note) :
  let rh := recognizeHandPatterns (handStream notes RH) RH in
  let lh := recognizeHandPatterns (handStream notes LH) LH in
  let out := recognizePatterns notes in
  Permutation (rh ++ lh) out
  /\ sortedByStart out
  /\ (forall k, startingAt k out = startingAt k rh ++ startingAt k lh)
  /\ recognizePatterns [] = [].
Proof.
  cbv zeta. unfold recognizePatterns, handStream.
  destruct (length notes =? 0)%nat eqn:E0.
  - apply Nat.eqb_eq in E0. destruct notes; [|discriminate].
    cbn. repeat split; auto. constructor.
  - destruct (sortSegments_spec
                (recognizeHandPatterns (filter (fun n => Hand_eqb (hand n) RH) notes) RH
                 ++ recognizeHandPatterns (filter (fun n => Hand_eqb (hand n) LH) notes) LH)
                [] (SSorted_nil _)) as (Hp & Hs & Hk).
    cbn [app] in Hp. unfold sortSegments.
    split; [exact Hp|]. split; [exact Hs|]. split; [|reflexivity].
    intro k. rewrite Hk. unfold startingAt. cbn [filter app].
    apply filter_app.
Qed.

(** ** Finger tables *)

(** X15.  The natural span of two fingers does not depend on their
    order, is zero exactly when the two fingers are the same, is at
    most 8 semitones, and does not shrink when the pair of fingers is
    widened. *)
Theorem X15_natural_span (f g f' g' : Finger) :
  In f fingers -> In g fingers -> In f' fingers -> In g' fingers ->
  getNaturalSpan f g = getNaturalSpan g f
  /\ (getNaturalSpan f g = 0 <-> f = g)
  /\ 0 <= getNaturalSpan f g <= 8
  /\ (f' <= f -> f <= g -> g <= g' -> getNaturalSpan f g <= getNaturalSpan f' g').
Proof.
  intros Hf Hg Hf' Hg'. simpl in Hf, Hg, Hf', Hg'.
  destruct Hf as [<-|[<-|[<-|[<-|[<-|[]]]]]];
    destruct Hg as [<-|[<-|[<-|[<-|[<-|[]]]]]];
    (split; [reflexivity|]); (split; [vm_compute; split; intro; congruence|]);
    (split; [vm_compute; split; congruence|]);
    destruct Hf' as [<-|[<-|[<-|[<-|[<-|[]]]]]];
    destruct Hg' as [<-|[<-|[<-|[<-|[<-|[]]]]]];
    vm_compute; intros; congruence.
Qed.

Lemma X15_natural_span_witness :
  getNaturalSpan 2 4 = getNaturalSpan 4 2
  /\ (getNaturalSpan 2 4 = 0 <-> 2 = 4)
  /\ 0 <= getNaturalSpan 2 4 <= 8
  /\ (1 <= 2 -> 2 <= 4 -> 4 <= 5 -> getNaturalSpan 2 4 <= getNaturalSpan 1 5).
Proof.
  assert (forall x, 1 <= x <= 5 -> In x fingers) as H by (intro x; apply In_fingers).
  exact (X15_natural_span 2 4 1 5 (H 2 ltac:(lia)) (H 4 ltac:(lia))
           (H 1 ltac:(lia)) (H 5 ltac:(lia))).
Defined.

(** X16.  The expected finger of the five-finger position is always
    one of 1..5; in the right hand it does not decrease as the note
    moves up from the anchor, the left hand mirrors the right, and a
    note on the anchor gets the thumb. *)
Theorem X16_expected_finger (offset offset' : Z) (h : Hand) :
  1 <= getExpectedFinger offset h <= 5
  /\ (offset <= offset' -> getExpectedFinger offset RH <= getExpectedFinger offset' RH)
  /\ getExpectedFinger offset LH = getExpectedFinger (- offset) RH
  /\ getExpectedFinger 0 h = 1.
Proof.
  split; [apply getExpectedFinger_range|]. split; [|split].
  - intro Hle. unfold getExpectedFinger.
    repeat match goal with
           | |- context [if ?c then _ else _] => destruct c eqn:?
           end; try lia;
      repeat match goal with
             | H : (_ <=? _) = true |- _ => apply Z.leb_le in H
             | H : (_ <=? _) = false |- _ => apply Z.leb_gt in H
             end; lia.
  - unfold getExpectedFinger.
    repeat match goal with
           | |- context [if ?c then _ else _] => destruct c eqn:?
           end; try reflexivity;
      repeat match goal with
             | H : (_ <=? _) = true |- _ => apply Z.leb_le in H
             | H : (_ <=? _) = false |- _ => apply Z.leb_gt in H
             | H : (_ >=? _) = true |- _ => apply Z.geb_le in H
             | H : (_ >=? _) = false |- _ => rewrite Z.geb_leb in H; apply Z.leb_gt in H
             end; lia.
  - destruct h; reflexivity.
Qed.
(** ** The renderer *)

Import FingeringRenderer.

Lemma resolveStep_apart (prev curr : FingeringPlacement) :
  15 <= Z.abs (pX curr - pX prev) -> resolveStep prev curr = curr.
Proof.
  intro H. unfold resolveStep.
  destruct (Z.abs (pX curr - pX prev) <? 15) eqn:E; [apply Z.ltb_lt in E; lia|].
  reflexivity.
Qed.

Lemma resolveFrom_collected
  (colorMode : bool) (notes : list ScoreNote) (index : nat) (prev : FingeringPlacement) :
  pX prev + 15 <= Z.of_nat index * 30 + 50 ->
  resolveFrom prev (collectPlacements colorMode index notes)
  = collectPlacements colorMode index notes.
Proof.
  revert index prev. induction notes as [|note rest IH]; intros index prev Hx;
    cbn [collectPlacements]; [reflexivity|].
  destruct (FingeringRenderer.hasFingering note && negb (nIsRest note)).
  - cbn [resolveFrom]. rewrite resolveStep_apart.
    + f_equal. apply IH. cbn [calculateSinglePlacement pX]. unfold calculateXPosition. lia.
    + cbn [calculateSinglePlacement pX]. unfold calculateXPosition. lia.
  - apply IH. lia.
Qed.

Lemma collectPlacements_spec (colorMode : bool) (notes : list ScoreNote) (index : nat) :
  collectPlacements colorMode index notes
  = map (fun i => calculateSinglePlacement colorMode
                    (nth (i - index) notes dummyScoreNote) i)
        (filter (fun i => shown (nth (i - index) notes dummyScoreNote))
                (seq index (length notes))).
Proof.
  revert index. induction notes as [|note rest IH]; intro index; [reflexivity|].
  cbn [collectPlacements length seq filter]. rewrite Nat.sub_diag.
  change (nth 0 (note :: rest) dummyScoreNote) with note.
  assert (forall (f : nat -> FingeringPlacement) (g : nat -> bool),
            (forall i, (S index <= i)%nat ->
                       f i = calculateSinglePlacement colorMode
                               (nth (i - S index) rest dummyScoreNote) i
                       /\ g i = shown (nth (i - S index) rest dummyScoreNote)) ->
            map f (filter g (seq (S index) (length rest)))
            = collectPlacements colorMode (S index) rest) as Hshift.
  { intros f g Hfg. rewrite IH.
    rewrite (filter_ext_in g (fun i => shown (nth (i - S index) rest dummyScoreNote)))
      by (intros i Hi; apply in_seq in Hi; apply Hfg; lia).
    apply map_ext_in. intros i Hi. apply filter_In in Hi. destruct Hi as [Hi _].
    apply in_seq in Hi. apply Hfg. lia. }
  assert (forall i, (S index <= i)%nat ->
            nth (i - index) (note :: rest) dummyScoreNote
            = nth (i - S index) rest dummyScoreNote) as Hnth.
  { intros i Hi. replace (i - index)%nat with (S (i - S index)) by lia. reflexivity. }
  unfold shown at 1.
  destruct (FingeringRenderer.hasFingering note && negb (nIsRest note));
    cbn [map]; rewrite ?Nat.sub_diag;
    change (nth 0 (note :: rest) dummyScoreNote) with note; [f_equal|];
    symmetry; apply Hshift; intros i Hi; cbv beta; rewrite (Hnth i Hi);
    split; reflexivity.
Qed.

Lemma resolveCollisions_collected
  (colorMode : bool) (notes : list ScoreNote) (index : nat) :
  resolveCollisions (collectPlacements colorMode index notes)
  = collectPlacements colorMode index notes.
Proof.
  revert index. induction notes as [|note rest IH]; intro index;
    cbn [collectPlacements]; [reflexivity|].
  destruct (FingeringRenderer.hasFingering note && negb (nIsRest note)); [|apply IH].
  cbn [resolveCollisions]. f_equal. apply resolveFrom_collected.
  cbn [calculateSinglePlacement pX]. unfold calculateXPosition. lia.
Qed.

(** X17.  [calculatePlacements] returns one placement for each note
    that has a finger and is no rest, in input order, at
    [x = 30 * index + 50]; since two of them are at least 30 apart
    horizontally, the collision pass never moves any of them. *)
Theorem X17_placements_never_collide (colorMode : bool) (notes : list ScoreNote) :
  calculatePlacements colorMode notes = collectPlacements colorMode 0 notes
  /\ calculatePlacements colorMode notes
     = map (fun i => calculateSinglePlacement colorMode (nth i notes dummyScoreNote) i)
           (filter (fun i => shown (nth i notes dummyScoreNote)) (seq 0 (length notes)))
  /\ Forall (fun p => pX p = Z.of_nat (pNoteIndex p) * 30 + 50)
            (calculatePlacements colorMode notes).
Proof.
  assert (calculatePlacements colorMode notes = collectPlacements colorMode 0 notes) as E
    by apply resolveCollisions_collected.
  assert (collectPlacements colorMode 0 notes
          = map (fun i => calculateSinglePlacement colorMode (nth i notes dummyScoreNote) i)
                (filter (fun i => shown (nth i notes dummyScoreNote))
                        (seq 0 (length notes)))) as E'.
  { rewrite collectPlacements_spec.
    rewrite (filter_ext (fun i => shown (nth (i - 0) notes dummyScoreNote))
                        (fun i => shown (nth i notes dummyScoreNote)))
      by (intro i; rewrite Nat.sub_0_r; reflexivity).
    apply map_ext. intro i. rewrite Nat.sub_0_r. reflexivity. }
  split; [exact E|]. split; [rewrite E; exact E'|].
  rewrite E, E'. apply Forall_forall. intros p Hp. apply in_map_iff in Hp.
  destruct Hp as (i & <- & _). reflexivity.
Qed.

(** ** The collision pass on arbitrary placements *)

Lemma resolveStep_spec (prev curr : FingeringPlacement) :
  let r := resolveStep prev curr in
  sameButY curr r
  /\ (~ colliding prev curr -> r = curr)
  /\ match pPlacement curr with
     | above => pY curr - 12 <= pY r <= pY curr
     | below => pY curr <= pY r <= pY curr + 12
     end
  /\ (colliding prev curr ->
      match pPlacement curr with
      | above => pY curr <= pY prev
      | below => pY prev <= pY curr
      end ->
      Z.abs (pY r - pY prev) = 12).
Proof.
  cbv zeta. unfold resolveStep, sameButY, colliding.
  destruct ((Z.abs (pX curr - pX prev) <? 15) && (Z.abs (pY curr - pY prev) <? 12)) eqn:E.
  - apply andb_true_iff in E. destruct E as [Ex Ey].
    apply Z.ltb_lt in Ex. apply Z.ltb_lt in Ey.
    destruct (pPlacement curr) eqn:Ep; cbn [pNoteIndex pFinger pX pY pPlacement pHand pStyle];
      (split; [rewrite ?Ep; repeat split; reflexivity|]);
      (split; [intro Hn; exfalso; apply Hn; split; assumption|]);
      (split; [lia|]); intros _ Hside; lia.
  - apply andb_false_iff in E.
    assert (~ (Z.abs (pX curr - pX prev) < 15 /\ Z.abs (pY curr - pY prev) < 12)) as Hn.
    { intros [Hx Hy]. destruct E as [E|E]; apply Z.ltb_ge in E; lia. }
    split; [repeat split; reflexivity|]. split; [reflexivity|].
    split; [destruct (pPlacement curr); lia|]. intro Hc. contradiction.
Qed.

(** X18.  The collision pass keeps the number and the order of the
    placements and changes nothing but heights: the first placement
    stays, a placement that does not collide with the one before it (as
    the pass has left it) stays, a colliding one moves by at most 12,
    upwards when placed above and downwards when placed below, and ends
    exactly 12 from the one before it when it was on its own side of it. *)
Theorem X18_collision_pass (placements : list FingeringPlacement) :
  let out := resolveCollisions placements in
  Forall2 sameButY placements out
  /\ hd_error out = hd_error placements
  /\ forall i prev curr r,
       nth_error out i = Some prev -> nth_error placements (S i) = Some curr ->
       nth_error out (S i) = Some r ->
       r = resolveStep prev curr
       /\ (~ colliding prev curr -> r = curr)
       /\ match pPlacement curr with
          | above => pY curr - 12 <= pY r <= pY curr
          | below => pY curr <= pY r <= pY curr + 12
          end
       /\ (colliding prev curr ->
           match pPlacement curr with
           | above => pY curr <= pY prev
           | below => pY prev <= pY curr
           end ->
           Z.abs (pY r - pY prev) = 12).
Proof.
  cbv zeta. unfold resolveCollisions.
  destruct placements as [|p0 rest].
  { split; [constructor|]. split; [reflexivity|]. intros [|i]; discriminate. }
  assert (forall prev l,
            Forall2 sameButY l (resolveFrom prev l)
            /\ forall i pv curr r,
                 nth_error (prev :: resolveFrom prev l) i = Some pv ->
                 nth_error l i = Some curr ->
                 nth_error (resolveFrom prev l) i = Some r ->
                 r = resolveStep pv curr) as Hgen.
  { intros prev l. revert prev. induction l as [|c l IH]; intro prev.
    - split; [constructor|]. intros [|i]; discriminate.
    - cbn [resolveFrom]. destruct (IH (resolveStep prev c)) as [IH1 IH2]. split.
      + constructor; [apply resolveStep_spec|exact IH1].
      + intros [|i] pv curr r Hpv Hc Hr.
        * cbn in Hpv, Hc, Hr. congruence.
        * cbn [nth_error] in Hpv, Hc, Hr. apply (IH2 i pv curr r); assumption. }
  destruct (Hgen p0 rest) as [H1 H2].
  split; [constructor; [repeat split; reflexivity|exact H1]|]. split; [reflexivity|].
  intros i prev curr r Hprev Hcurr Hr. cbn [nth_error] in Hcurr, Hr.
  pose proof (H2 i prev curr r Hprev Hcurr Hr) as ->.
  split; [reflexivity|]. destruct (resolveStep_spec prev curr) as (_ & Hn & Hy & Hc).
  split; [exact Hn|]. split; [exact Hy|exact Hc].
Qed.

(** ** Pitch classes of parsed notes *)

Lemma stepMap_cases (step : string) (s : Z) :
  MusicXMLParser.stepMap step = Some s ->
  (step = "C"%string /\ s = 0) \/ (step = "D"%string /\ s = 2) \/ (step = "E"%string /\ s = 4)
  \/ (step = "F"%string /\ s = 5) \/ (step = "G"%string /\ s = 7) \/ (step = "A"%string /\ s = 9)
  \/ (step = "B"%string /\ s = 11).
Proof.
  unfold MusicXMLParser.stepMap.
  repeat match goal with
         | |- context [String.eqb step ?k] =>
             let E := fresh "E" in
             destruct (String.eqb step k) eqn:E;
             [apply String.eqb_eq in E; intros [= <-]; tauto|clear E]
         end.
  discriminate.
Qed.

(** X19.  [stepToMidi] puts middle C at 60 and the next octave 12
    higher, and agrees with the planner's key colours: a natural note
    is never a black key, and from octave -1 on the sharps of C, D, F,
    G and A are black keys while those of E and B are white. *)
Theorem X19_parsed_pitch_classes (step : string) (octave alter p : Z) :
  MusicXMLParser.stepToMidi step octave alter = Some p ->
  MusicXMLParser.stepToMidi "C" 4 0 = Some 60
  /\ MusicXMLParser.stepToMidi step (octave + 1) alter = Some (p + 12)
  /\ (alter = 0 -> FingeringPlanner.isBlackKey p = false)
  /\ (alter = 1 -> -1 <= octave ->
      FingeringPlanner.isBlackKey p
      = negb (String.eqb step "E" || String.eqb step "B")).
Proof.
  unfold MusicXMLParser.stepToMidi. intro H. split; [reflexivity|].
  destruct (MusicXMLParser.stepMap step) as [s|] eqn:Es; [|discriminate].
  injection H as <-. split; [f_equal; lia|].
  unfold FingeringPlanner.isBlackKey. cbn [existsb].
  apply stepMap_cases in Es.
  destruct Es as [[-> ->]|[[-> ->]|[[-> ->]|[[-> ->]|[[-> ->]|[[-> ->]|[-> ->]]]]]]];
    (split; intros; subst;
     repeat match goal with
            | |- context [Z.rem ?a 12 =? ?b] =>
                let E := fresh "E" in
                destruct (Z.rem a 12 =? b) eqn:E;
                [apply Z.eqb_eq in E | apply Z.eqb_neq in E]
            end;
     vm_compute; try reflexivity; exfalso;
     Z.quot_rem_to_equations; lia).
Qed.

Lemma X19_parsed_pitch_classes_witness :
  MusicXMLParser.stepToMidi "C" 4 0 = Some 60
  /\ MusicXMLParser.stepToMidi "F" (4 + 1) 1 = Some (66 + 12)
  /\ (1 = 0 -> FingeringPlanner.isBlackKey 66 = false)
  /\ (1 = 1 -> -1 <= 4 ->
      FingeringPlanner.isBlackKey 66 = negb (String.eqb "F" "E" || String.eqb "F" "B")).
Proof.
  exact (X19_parsed_pitch_classes "F" 4 1 66 eq_refl).
Defined.
(** ** The fingering pipeline of the store *)

Lemma fingerOr3_range (l : list FingeringPlanner.Finger) (idx : nat) :
  Forall (fun x => In x fingers) l -> 1 <= fingerOr3 l idx <= 5.
Proof.
  intro H. unfold fingerOr3. destruct (nth_error l idx) as [f|] eqn:E; [|lia].
  apply nth_error_In in E. rewrite Forall_forall in H. apply H, In_fingers in E.
  destruct (f =? 0); lia.
Qed.

(** The merged fingering has one finger 1..5 per note. *)
Lemma planFingering_entries
  (level : Difficulty) (notes : list Note) (patterns : list PatternSegment) (i : nat) :
  (i < length notes)%nat ->
  exists f, nth_error (FingeringPlanner.fingering (planFingering level notes patterns)) i
            = Some f
            /\ 1 <= f <= 5.
Proof.
  intro Hi. unfold planFingering.
  destruct (length notes =? 0)%nat eqn:E0; [apply Nat.eqb_eq in E0; lia|].
  set (rs := planHandFingering level (filter isRH notes) patterns RH).
  set (ls := planHandFingering level (filter isLH notes) patterns LH).
  destruct (merge_spec rs ls notes) as [ex ->]. cbn [FingeringPlanner.fingering mFingering].
  exists (pickFinger rs ls notes i). split.
  - rewrite nth_error_map, nth_error_seq by exact Hi.
    destruct (i <? length notes)%nat eqn:E; [reflexivity|apply Nat.ltb_ge in E; lia].
  - unfold pickFinger.
    destruct (isRH (nth i notes dummyNote)); apply fingerOr3_range;
      apply planHandFingering_fingers.
Qed.

Lemma applyFingering_nth (fing : list Z) (notes : list ScoreNote) (k i : nat) :
  nth_error (AppStore.applyFingering k fing notes) i
  = option_map (fun n => mkScoreNote (core n) (nth_error fing (k + i)) (nIsRest n)
                                     (nStem n) (nHasAccent n))
               (nth_error notes i).
Proof.
  revert k i. induction notes as [|n l IH]; intros k [|i]; cbn; try reflexivity.
  - rewrite Nat.add_0_r. reflexivity.
  - rewrite IH. replace (S k + i)%nat with (k + S i)%nat by lia. reflexivity.
Qed.

Lemma applyFingering_core (fing : list Z) (notes : list ScoreNote) (k : nat) :
  map core (AppStore.applyFingering k fing notes) = map core notes.
Proof.
  revert k. induction notes as [|n l IH]; intro k; cbn; [reflexivity|].
  rewrite IH. reflexivity.
Qed.

Lemma collectPlacements_all (colorMode : bool) (notes : list ScoreNote) (k i : nat) :
  Forall (fun n => shown n = true) notes ->
  nth_error (collectPlacements colorMode k notes) i
  = option_map (fun n => calculateSinglePlacement colorMode n (k + i)) (nth_error notes i).
Proof.
  intro H. revert k i. induction H as [|n l Hn _ IH]; intros k i.
  - destruct i; reflexivity.
  - cbn [collectPlacements]. unfold shown in Hn. rewrite Hn.
    destruct i as [|i]; cbn [nth_error option_map].
    + rewrite Nat.add_0_r. reflexivity.
    + rewrite IH. replace (S k + i)%nat with (k + S i)%nat by lia. reflexivity.
Qed.

(** X20.  [generateFingering] on a score without rests stores the
    recognized segments and the planner's solution, writes the planned
    finger, one of 1..5, on every note, and computes exactly one
    placement per note, in order, carrying that finger. *)
Theorem X20_pipeline_one_placement_per_note
  (st : AppStore.AppState) (notes : list ScoreNote) :
  AppStore.parsedScore st = Some notes ->
  Forall (fun n => nIsRest n = false) notes ->
  let st' := AppStore.generateFingering st in
  let segments := recognizePatterns (map core notes) in
  let sol := planFingering (AppStore.difficultyLevel st) (map core notes) segments in
  AppStore.patterns st' = segments
  /\ AppStore.fingeringSolution st' = Some sol
  /\ exists notes',
       AppStore.parsedScore st' = Some notes'
       /\ map core notes' = map core notes
       /\ length (AppStore.placements st') = length notes
       /\ forall i, (i < length notes)%nat ->
            exists f n p,
              1 <= f <= 5
              /\ nth_error (FingeringPlanner.fingering sol) i = Some f
              /\ nth_error notes' i = Some n /\ nFingering n = Some f
              /\ nth_error (AppStore.placements st') i = Some p
              /\ pNoteIndex p = i /\ pFinger p = Some f.
Proof.
  intros Hscore Hrest st' segments sol. subst st'.
  unfold AppStore.generateFingering. rewrite Hscore. fold segments. fold sol.
  cbn [AppStore.patterns AppStore.fingeringSolution AppStore.parsedScore
       AppStore.placements].
  split; [reflexivity|]. split; [reflexivity|].
  set (notes' := AppStore.applyFingering 0 (FingeringPlanner.fingering sol) notes).
  assert (forall i, (i < length notes)%nat ->
            exists f n, 1 <= f <= 5
                        /\ nth_error (FingeringPlanner.fingering sol) i = Some f
                        /\ nth_error notes' i = Some n /\ nFingering n = Some f
                        /\ nIsRest n = false) as Hnotes.
  { intros i Hi.
    destruct (planFingering_entries (AppStore.difficultyLevel st) (map core notes)
                segments i) as (f & Hf & Hr); [rewrite length_map; exact Hi|].
    fold sol in Hf.
    destruct (nth_error notes i) as [n|] eqn:En; [|apply nth_error_None in En; lia].
    exists f, (mkScoreNote (core n) (Some f) (nIsRest n) (nStem n) (nHasAccent n)).
    split; [exact Hr|]. split; [exact Hf|].
    unfold notes'. rewrite applyFingering_nth, En. cbn [option_map Nat.add].
    rewrite (Hf : @nth_error Z (FingeringPlanner.fingering sol) i = Some f).
    split; [reflexivity|]. split; [reflexivity|]. cbn [nIsRest].
    rewrite Forall_forall in Hrest. apply Hrest. eapply nth_error_In. exact En. }
  assert (length notes' = length notes) as Hlen
    by (rewrite <- (length_map core notes'), <- (length_map core notes);
        unfold notes'; rewrite applyFingering_core; reflexivity).
  assert (Forall (fun n => shown n = true) notes') as Hshown.
  { apply Forall_forall. intros n Hn. apply In_nth_error in Hn. destruct Hn as [i Hi].
    assert (i < length notes)%nat as Hlt
      by (rewrite <- Hlen; apply nth_error_Some; congruence).
    destruct (Hnotes i Hlt) as (f & n0 & Hr & _ & Hn0 & Hf & Hrest0).
    rewrite Hi in Hn0. injection Hn0 as <-.
    unfold shown, FingeringRenderer.hasFingering. rewrite Hf, Hrest0.
    destruct (f =? 0) eqn:E0; [apply Z.eqb_eq in E0; lia|reflexivity]. }
  assert (calculatePlacements (AppStore.colorMode st) notes'
          = collectPlacements (AppStore.colorMode st) 0 notes') as Ecalc
    by apply resolveCollisions_collected.
  exists notes'. split; [reflexivity|]. split; [apply applyFingering_core|].
  split.
  - rewrite Ecalc, collectPlacements_spec, length_map.
    rewrite forallb_filter_id; [rewrite length_seq; exact Hlen|].
    apply forallb_forall. intros i Hi. apply in_seq in Hi. rewrite Nat.sub_0_r.
    rewrite Forall_forall in Hshown. apply Hshown, nth_In. lia.
  - intros i Hi. destruct (Hnotes i Hi) as (f & n & Hr & Hf & Hn & Hnf & _).
    exists f, n, (calculateSinglePlacement (AppStore.colorMode st) n i).
    split; [exact Hr|]. split; [exact Hf|]. split; [exact Hn|].
    split; [exact Hnf|]. split; [|split; [reflexivity|exact Hnf]].
    rewrite Ecalc, (collectPlacements_all _ _ 0 i Hshown), Hn. reflexivity.
Qed.

Lemma X20_pipeline_one_placement_per_note_witness :
  let st := AppStore.mkApp (Some (map unfingered cMajorScale)) [] None [] false
                           intermediate in
  let st' := AppStore.generateFingering st in
  let segments := recognizePatterns (map core (map unfingered cMajorScale)) in
  let sol := planFingering (AppStore.difficultyLevel st)
               (map core (map unfingered cMajorScale)) segments in
  AppStore.patterns st' = segments
  /\ AppStore.fingeringSolution st' = Some sol
  /\ exists notes',
       AppStore.parsedScore st' = Some notes'
       /\ map core notes' = map core (map unfingered cMajorScale)
       /\ length (AppStore.placements st') = length (map unfingered cMajorScale)
       /\ forall i, (i < length (map unfingered cMajorScale))%nat ->
            exists f n p,
              1 <= f <= 5
              /\ nth_error (FingeringPlanner.fingering sol) i = Some f
              /\ nth_error notes' i = Some n /\ nFingering n = Some f
              /\ nth_error (AppStore.placements st') i = Some p
              /\ pNoteIndex p = i /\ pFinger p = Some f.
Proof.
  assert (Forall (fun n => nIsRest n = false) (map unfingered cMajorScale)) as H
    by (repeat constructor).
  exact (X20_pipeline_one_placement_per_note
           (AppStore.mkApp (Some (map unfingered cMajorScale)) [] None [] false
                           intermediate)
           (map unfingered cMajorScale) eq_refl H).
Defined.

(** ** Colour mode *)

Lemma collectPlacements_uncoloured (c c' : bool) (notes : list ScoreNote) (k : nat) :
  map uncoloured (collectPlacements c k notes)
  = map uncoloured (collectPlacements c' k notes).
Proof.
  revert k. induction notes as [|n l IH]; intro k; cbn [collectPlacements]; [reflexivity|].
  destruct (FingeringRenderer.hasFingering n && negb (nIsRest n)); [|apply IH].
  cbn [map]. rewrite IH. reflexivity.
Qed.

Lemma collectPlacements_black (notes : list ScoreNote) (k : nat) :
  Forall (fun p => color (pStyle p) = Some "#000000"%string)
         (collectPlacements false k notes).
Proof.
  revert k. induction notes as [|n l IH]; intro k; cbn [collectPlacements]; [constructor|].
  destruct (FingeringRenderer.hasFingering n && negb (nIsRest n)); [|apply IH].
  constructor; [reflexivity|apply IH].
Qed.

(** X21.  Toggling the colour mode changes nothing of the placements
    but their colour, and toggling twice restores the state, provided
    the placements of the state are those of its score, as
    [generateFingering] leaves them; with the colour mode off every
    placement is black. *)
Theorem X21_colour_mode_round_trip (st : AppStore.AppState) :
  rendered st ->
  rendered (AppStore.toggleColorMode st)
  /\ AppStore.toggleColorMode (AppStore.toggleColorMode st) = st
  /\ map uncoloured (AppStore.placements (AppStore.toggleColorMode st))
     = map uncoloured (AppStore.placements st)
  /\ (forall notes, Forall (fun p => color (pStyle p) = Some "#000000"%string)
                           (calculatePlacements false notes))
  /\ rendered (AppStore.generateFingering st).
Proof.
  intro Hr. unfold rendered in *. destruct st as [score pats sol pls c lvl].
  cbn [AppStore.parsedScore AppStore.placements AppStore.colorMode] in Hr.
  unfold AppStore.toggleColorMode, AppStore.generateFingering.
  cbn [AppStore.parsedScore AppStore.placements AppStore.colorMode AppStore.patterns
       AppStore.fingeringSolution AppStore.difficultyLevel].
  split; [|split; [|split; [|split]]].
  - intros notes ->. reflexivity.
  - rewrite negb_involutive. destruct score as [notes|]; [|reflexivity].
    rewrite <- (Hr notes eq_refl). reflexivity.
  - destruct score as [notes|]; [|reflexivity].
    rewrite (Hr notes eq_refl). unfold calculatePlacements.
    rewrite !resolveCollisions_collected. apply collectPlacements_uncoloured.
  - intro notes. unfold calculatePlacements. rewrite resolveCollisions_collected.
    apply collectPlacements_black.
  - destruct score as [notes|]; cbn [AppStore.parsedScore AppStore.placements
                                     AppStore.colorMode].
    + intros notes' [= <-]. reflexivity.
    + exact Hr.
Qed.

Lemma X21_colour_mode_round_trip_witness :
  let notes := map (withFinger 2) cMajorScale in
  let st := AppStore.mkApp (Some notes) [] None (calculatePlacements true notes) true
                           beginner in
  AppStore.toggleColorMode (AppStore.toggleColorMode st) = st.
Proof.
  assert (rendered (AppStore.mkApp (Some (map (withFinger 2) cMajorScale)) [] None
                      (calculatePlacements true (map (withFinger 2) cMajorScale))
                      true beginner)) as H.
  { intros notes E. cbn [AppStore.parsedScore] in E. injection E as <-. reflexivity. }
  exact (proj1 (proj2 (X21_colour_mode_round_trip _ H))).
Defined.

(** ** The pattern summary *)

Lemma bump_lookup (k t : PatternType) (m : list (PatternType * Z)) :
  match find (fun e => PatternType_eqb (fst e) t) (bump PatternType_eqb k m) with
  | Some e => snd e | None => 0
  end
  = match find (fun e => PatternType_eqb (fst e) t) m with
    | Some e => snd e | None => 0
    end + (if PatternType_eqb k t then 1 else 0).
Proof.
  induction m as [|[k' c] m IH]; cbn [bump find fst snd].
  - destruct (PatternType_eqb k t); reflexivity.
  - destruct (PatternType_eqb k' k) eqn:Ek; cbn [find fst snd].
    + apply PatternType_eqb_eq in Ek. subst k'.
      destruct (PatternType_eqb k t); [reflexivity|rewrite Z.add_0_r; reflexivity].
    + destruct (PatternType_eqb k' t) eqn:Et; [|exact IH].
      apply PatternType_eqb_eq in Et. subst k'.
      assert (PatternType_eqb k t = false) as ->.
      { destruct (PatternType_eqb k t) eqn:E; [|reflexivity].
        apply PatternType_eqb_eq in E. subst k.
        assert (PatternType_eqb t t = true) as Ht by (apply PatternType_eqb_eq; reflexivity).
        congruence. }
      rewrite Z.add_0_r. reflexivity.
Qed.

Lemma countMap_lookup (t : PatternType) (keys : list PatternType) :
  match find (fun e => PatternType_eqb (fst e) t) (countMap PatternType_eqb keys) with
  | Some e => snd e | None => 0
  end
  = lenZ (filter (fun k => PatternType_eqb k t) keys).
Proof.
  unfold countMap, lenZ.
  induction keys as [|k keys IH] using rev_ind; [reflexivity|].
  rewrite fold_left_app. cbn [fold_left]. rewrite bump_lookup, IH.
  rewrite filter_app, length_app. cbn [filter].
  destruct (PatternType_eqb k t); cbn [length]; lia.
Qed.

(** X22.  [patternSummary] counts the segments by type: reading a type
    gives the number of segments of that type, and nothing when there
    is none; the counts add up to the number of segments. *)
Theorem X22_pattern_summary (st : AppStore.AppState) (t : PatternType) :
  AppStore.summaryGet t (AppStore.patternSummary st)
  = (if segmentsOfType t (AppStore.patterns st) =? 0 then None
     else Some (segmentsOfType t (AppStore.patterns st)))
  /\ sumZ (map snd (AppStore.patternSummary st)) = lenZ (AppStore.patterns st).
Proof.
  unfold AppStore.summaryGet, AppStore.patternSummary, segmentsOfType. split.
  - pose proof (countMap_lookup t (map patternType (AppStore.patterns st))) as H.
    assert (lenZ (filter (fun k => PatternType_eqb k t)
                         (map patternType (AppStore.patterns st)))
            = lenZ (filter (fun s => PatternType_eqb (patternType s) t)
                           (AppStore.patterns st))) as E.
    { unfold lenZ. f_equal. generalize (AppStore.patterns st). intro l.
      induction l as [|s l IH]; [reflexivity|]. cbn [map filter].
      destruct (PatternType_eqb (patternType s) t); cbn [length]; rewrite IH; reflexivity. }
    rewrite E in H. clear E.
    destruct (countMap_counts PatternType_eqb (map patternType (AppStore.patterns st)))
      as (_ & Hpos & _).
    destruct (find _ (countMap _ _)) as [e|] eqn:Ef; cbn [option_map].
    + apply find_some in Ef. destruct Ef as [Hin _].
      rewrite Forall_forall in Hpos. specialize (Hpos (snd e) (in_map snd _ _ Hin)).
      rewrite <- H. destruct (snd e =? 0) eqn:E0; [apply Z.eqb_eq in E0; lia|reflexivity].
    + rewrite <- H. reflexivity.
  - destruct (countMap_counts PatternType_eqb (map patternType (AppStore.patterns st)))
      as (Hsum & _). rewrite Hsum. unfold lenZ. rewrite length_map. reflexivity.
Qed.
(** ** What the solution records *)

Lemma backtrackLoop_entries
  (dp : list Layer) (notes : list Note) (h : Hand) (k : nat) (f : FingeringPlanner.Finger)
  (fing : list FingeringPlanner.Finger) (expl : list string) (pth : list FingeringState) :
  exists pre,
    length pre = k
    /\ backtrackLoop dp notes h k f (fing, expl, pth)
       = (pre ++ fing,
          map (fun i => joinReasons (cellReasons dp i (nth i pre 0))) (seq 0 k) ++ expl,
          map (fun i => mkFState i (nth i pre 0) h (pitch (nth i notes dummyNote))
                                 (cellCost dp i (nth i pre 0))
                                 (cellReasons dp i (nth i pre 0)))
              (seq 0 k) ++ pth).
Proof.
  revert f fing expl pth. induction k as [|k IH]; intros f fing expl pth.
  - exists []. split; reflexivity.
  - cbn [backtrackLoop].
    match goal with |- context [backtrackLoop dp notes h k ?nx (?a, ?b, ?c)] =>
      destruct (IH nx a b c) as (pre & Hlen & ->)
    end.
    exists (pre ++ [f]). split; [rewrite length_app; cbn; lia|].
    assert (nth k (pre ++ [f]) 0 = f) as Hk
      by (rewrite app_nth2, Hlen, Nat.sub_diag by lia; reflexivity).
    assert (forall A (F : nat -> FingeringPlanner.Finger -> A),
              map (fun i => F i (nth i (pre ++ [f]) 0)) (seq 0 k)
              = map (fun i => F i (nth i pre 0)) (seq 0 k)) as Hm.
    { intros A F. apply map_ext_in. intros i Hi. apply in_seq in Hi.
      rewrite app_nth1 by lia. reflexivity. }
    rewrite seq_S, !map_app. cbn [Nat.add map].
    rewrite (Hm _ (fun i x => joinReasons (cellReasons dp i x))).
    rewrite (Hm _ (fun i x => mkFState i x h (pitch (nth i notes dummyNote))
                                       (cellCost dp i x) (cellReasons dp i x))).
    rewrite Hk, <- !app_assoc. unfold cellReasons, cellCost.
    destruct (layerGet f (nth k dp [])); reflexivity.
Qed.

Section Recorded.

Variable level : Difficulty.
Variables (notes : list Note) (patterns : list PatternSegment) (h : Hand).

Let layer := DP.layerAt level notes patterns h.
Let T := DP.stepCost level notes patterns h.
Let sol := dpOptimization level notes patterns h.

Lemma initial_cell_reasons (f : FingeringPlanner.Finger) (st : DPState) :
  layerGet f (layer 0%nat) = Some st ->
  stReasons st = Path.stepReasons level notes patterns h [f] 0.
Proof.
  intro Hget. apply layerGet_In in Hget. unfold layer in Hget.
  cbn [DP.layerAt] in Hget. unfold initialLayer in Hget.
  apply in_map_iff in Hget. destruct Hget as (x & Hx & _).
  injection Hx as -> <-. reflexivity.
Qed.

(** The cell behind note [i] of the returned fingers. *)
Lemma chain_cell (i : nat) :
  notes <> [] -> (i < length notes)%nat ->
  exists st, layerGet (nth i (FingeringPlanner.fingering sol) 0) (layer i) = Some st
             /\ stCost st = Path.costUpTo level notes patterns h
                              (FingeringPlanner.fingering sol) i
             /\ stReasons st = Path.stepReasons level notes patterns h
                                 (FingeringPlanner.fingering sol) i.
Proof.
  intros Hne Hi.
  assert (Forall (fun f => In f fingers) (FingeringPlanner.fingering sol)) as Hfs.
  { destruct (dpOptimization_spec level notes patterns h)
      as (? & ? & ? & fing & _ & _ & Hfing & _ & Hin & _).
    unfold sol. rewrite Hfing. exact Hin. }
  destruct (chain_cost level notes patterns h i Hne Hfs Hi) as [(st & Hst & Hcost) _].
  exists st. split; [exact Hst|]. split; [exact Hcost|].
  destruct i as [|i].
  - rewrite (initial_cell_reasons _ _ Hst). reflexivity.
  - destruct (dpOptimization_chain level notes patterns h Hne)
      as (e & _ & _ & _ & _ & _ & Hchain).
    destruct (layerAt_cell level notes patterns h i _ st Hst)
      as (l1 & g & l2 & c & _ & _ & Est & _ & _).
    assert (nth i (FingeringPlanner.fingering sol) 0 = g) as Hg
      by (apply (Hchain i st i g Hi Hst); rewrite Est; reflexivity).
    rewrite Est. cbn [stReasons Path.stepReasons]. rewrite Hg. reflexivity.
Qed.

End Recorded.

(** X23.  The explanation [dpOptimization] returns for a note is the
    list of the rules that fired on the choice it made there: the rules
    of the initial cost for the first note, and for every other note
    those of the step from the finger of the note before.  The path
    has one state per note, with the note's index, finger and pitch and
    the cost accumulated up to it. *)
Theorem X23_explanations_of_chosen_steps
  (level : Difficulty) (notes : list Note) (patterns : list PatternSegment) (h : Hand) :
  notes <> [] ->
  let sol := dpOptimization level notes patterns h in
  let fs := FingeringPlanner.fingering sol in
  explanations sol
  = map (fun i => joinReasons (Path.stepReasons level notes patterns h fs i))
        (seq 0 (length notes))
  /\ path sol = map (Path.stateAt level notes patterns h fs) (seq 0 (length notes)).
Proof.
  intros Hne sol fs.
  assert (forall i, (i < length notes)%nat ->
            cellCost (dpTable level notes patterns h) i (nth i fs 0)
            = Path.costUpTo level notes patterns h fs i
            /\ cellReasons (dpTable level notes patterns h) i (nth i fs 0)
               = Path.stepReasons level notes patterns h fs i) as Hcell.
  { intros i Hi. destruct (chain_cell level notes patterns h i Hne Hi)
      as (st & Hst & Hc & Hr).
    unfold cellCost, cellReasons. rewrite dpTable_nth by lia.
    fold sol in Hst. fold fs in Hst. rewrite Hst. split; assumption. }
  assert (exists pre,
            length pre = length notes
            /\ fs = pre
            /\ explanations sol
               = map (fun i => joinReasons
                                 (cellReasons (dpTable level notes patterns h) i
                                    (nth i pre 0))) (seq 0 (length notes))
            /\ path sol
               = map (fun i => mkFState i (nth i pre 0) h (pitch (nth i notes dummyNote))
                                 (cellCost (dpTable level notes patterns h) i (nth i pre 0))
                                 (cellReasons (dpTable level notes patterns h) i
                                    (nth i pre 0)))
                     (seq 0 (length notes))) as (pre & Hlen & Hfs & He & Hp).
  { unfold fs, sol, dpOptimization, backtrack.
    destruct (bestFinal _) as [c f].
    destruct (backtrackLoop_entries (dpTable level notes patterns h) notes h
                (length notes) f [] [] []) as (pre & Hlen & ->).
    exists pre. cbn [FingeringPlanner.fingering explanations path].
    rewrite !app_nil_r. auto. }
  subst pre. rewrite He, Hp. split; apply map_ext_in; intros i Hi; apply in_seq in Hi;
    destruct (Hcell i ltac:(lia)) as [Hc Hr].
  - rewrite Hr. reflexivity.
  - unfold Path.stateAt. rewrite Hc, Hr. reflexivity.
Qed.

Lemma X23_explanations_of_chosen_steps_witness :
  let sol := dpOptimization intermediate cMajorScale [cMajorSegment] RH in
  let fs := FingeringPlanner.fingering sol in
  explanations sol
  = map (fun i => joinReasons
                    (Path.stepReasons intermediate cMajorScale [cMajorSegment] RH fs i))
        (seq 0 (length cMajorScale))
  /\ path sol
     = map (Path.stateAt intermediate cMajorScale [cMajorSegment] RH fs)
           (seq 0 (length cMajorScale)).
Proof.
  assert (cMajorScale <> []) as H by discriminate.
  exact (X23_explanations_of_chosen_steps intermediate cMajorScale [cMajorSegment] RH H).
Defined.

(** ** A single note *)

Lemma single_positions (p : Z) (h : Hand) :
  analyzeHandPositions [pitchOnly p] h = [mkPos p true].
Proof.
  unfold analyzeHandPositions. cbn [length seq fold_left].
  unfold positionStep. cbn [nth pitch pitchOnly plainNote pMinPitch pMaxPitch].
  rewrite Z.max_id, Z.min_id, Z.sub_diag. cbn [Z.ltb Z.compare].
  cbn [pSegmentStart pPositions pMinPitch pMaxPitch Nat.sub repeat app].
  destruct h; reflexivity.
Qed.

Lemma single_note_thumb (level : Difficulty) (p : Z) (h : Hand) :
  FingeringPlanner.fingering (dpOptimization level [pitchOnly p] [] h) = [1].
Proof.
  unfold dpOptimization, dpTable, forwardPass.
  cbn [length Nat.sub seq fold_left]. rewrite single_positions.
  unfold initialLayer. cbn [map fingers nth]. unfold computeInitialCost.
  cbn [pitch pitchOnly plainNote anchorPitch]. rewrite Z.sub_diag.
  destruct (isBlackKey p); destruct level, h; vm_compute; reflexivity.
Qed.

(** X24.  A hand that plays a single note plays it with the thumb,
    whatever the note, the hand, the difficulty and the segments. *)
Theorem X24_single_note_gets_thumb
  (level : Difficulty) (n : Note) (patterns : list PatternSegment) (h : Hand) :
  FingeringPlanner.fingering (planHandFingering level [n] patterns h) = [1]
  /\ FingeringPlanner.fingering (planFingering level [n] patterns) = [1].
Proof.
  assert (forall hd, FingeringPlanner.fingering (planHandFingering level [n] patterns hd)
                     = [1]) as Hone.
  { intro hd. unfold planHandFingering. cbn [length Nat.eqb Nat.ltb Nat.leb].
    rewrite (dpOptimization_same level [n] [pitchOnly (pitch n)] patterns [] hd);
      [apply single_note_thumb|reflexivity|].
    intros i Hi. cbn in Hi. lia. }
  split; [apply Hone|].
  unfold planFingering. cbn [length Nat.eqb filter fold_left].
  unfold mergeStep, isRH, isLH.
  destruct (hand n); cbn [Hand_eqb mFingering FingeringPlanner.fingering rhIdx lhIdx app];
    rewrite Hone; reflexivity.
Qed.

(** ** Pattern contexts the cost model tells apart *)

Lemma computeTransitionCost_class
  (level : Difficulty) (p : Note) (g : FingeringPlanner.Finger) (c : Note)
  (f : FingeringPlanner.Finger) (ctx ctx' : PatternType) (h : Hand)
  (pos : HandPosition) (cfg : Config) (sc : bool) :
  contextClass ctx = contextClass ctx' ->
  computeTransitionCost level p g c f ctx h pos cfg sc
  = computeTransitionCost level p g c f ctx' h pos cfg sc.
Proof.
  unfold contextClass. intros [= H1 H2]. unfold computeTransitionCost.
  assert (forall r, rule3 p g c f ctx h cfg sc r = rule3 p g c f ctx' h cfg sc r) as E3
    by (intro r; unfold rule3; rewrite H1; reflexivity).
  assert (forall r, rule6 p g c f ctx h cfg sc r = rule6 p g c f ctx' h cfg sc r) as E6
    by (intro r; unfold rule6; rewrite H1; reflexivity).
  assert (forall r, rule9 p g c f ctx h r = rule9 p g c f ctx' h r) as E9
    by (intro r; unfold rule9; rewrite H2; reflexivity).
  rewrite E3, E6, E9. reflexivity.
Qed.

(** X25.  Of the eleven pattern types the planner tells apart only
    SCALE and ARPEGGIO: two segment lists that give every note after
    the first a context of the same class (SCALE, ARPEGGIO or neither
    of them) get the same solution from the dynamic program, fingers,
    cost, path and explanations alike. *)
Theorem X25_only_scale_and_arpeggio_matter
  (level : Difficulty) (notes : list Note) (patterns patterns' : list PatternSegment)
  (h : Hand) :
  (forall i, (1 <= i < length notes)%nat ->
             contextClass (getPatternContext notes i patterns)
             = contextClass (getPatternContext notes i patterns')) ->
  dpOptimization level notes patterns h = dpOptimization level notes patterns' h.
Proof.
  intro Hctx. unfold dpOptimization.
  rewrite (dpTable_agree level notes notes patterns patterns' h); [reflexivity| | |].
  - reflexivity.
  - intros i f g Hi. unfold DP.stepCost, transitionAt.
    apply computeTransitionCost_class, Hctx, Hi.
  - reflexivity.
Qed.

Lemma X25_only_scale_and_arpeggio_matter_witness :
  dpOptimization beginner scaleThenLeaps [mkSegment 0 11 LEAP 0.8 noFeatures] RH
  = dpOptimization beginner scaleThenLeaps [mkSegment 0 11 CHORDAL 0.9 noFeatures] RH.
Proof.
  assert (forall i, (1 <= i < length scaleThenLeaps)%nat ->
            contextClass (getPatternContext scaleThenLeaps i
                            [mkSegment 0 11 LEAP 0.8 noFeatures])
            = contextClass (getPatternContext scaleThenLeaps i
                              [mkSegment 0 11 CHORDAL 0.9 noFeatures])) as H.
  { intros i Hi. rewrite !getPatternContext_single; [reflexivity| |];
      cbn [startIndex endIndex]; cbn in Hi; lia. }
  exact (X25_only_scale_and_arpeggio_matter beginner scaleThenLeaps _ _ RH H).
Defined.
(** ** Chords *)


(** ** Ranges of the features *)

Lemma ratio_range (c t : Z) :
  0 <= c <= t -> 0 < t -> (0 <= Z2Q c / Z2Q t <= 1)%Q.
Proof.
  intros Hc Ht. destruct t as [|t|t]; try lia.
  unfold Z2Q, inject_Z, Qdiv, Qinv, Qmult, Qle. cbn. nia.
Qed.

Lemma ratio_sum (a d t : Z) :
  0 <= a -> 0 <= d -> a + d <= t -> 0 < t -> (Z2Q a / Z2Q t + Z2Q d / Z2Q t <= 1)%Q.
Proof.
  intros Ha Hd Hs Ht. destruct t as [|t|t]; try lia.
  unfold Z2Q, inject_Z, Qdiv, Qinv, Qmult, Qplus, Qle. cbn. nia.
Qed.

Lemma ratio_ge_one (n m : Z) : 1 <= m <= n -> (1 <= Z2Q n / Z2Q m)%Q.
Proof.
  intros H. destruct m as [|m|m]; try lia.
  unfold Z2Q, inject_Z, Qdiv, Qinv, Qmult, Qle. cbn. nia.
Qed.

Lemma countIf_range {A} (f : A -> bool) (l : list A) : 0 <= countIf f l <= lenZ l.
Proof.
  unfold countIf, lenZ. pose proof (filter_length_le f l). lia.
Qed.

Lemma countIf_disjoint {A} (f g : A -> bool) (l : list A) :
  (forall x, f x = true -> g x = false) -> countIf f l + countIf g l <= lenZ l.
Proof.
  intro H. unfold countIf, lenZ.
  induction l as [|x l IH]; cbn [filter length]; [lia|].
  destruct (f x) eqn:Ef; [rewrite (H x Ef)|destruct (g x)]; cbn [length]; lia.
Qed.

Lemma maxList_ge_min (l : list Z) : minList l <= maxList l.
Proof.
  destruct l as [|x r]; [reflexivity|]. unfold minList, maxList.
  assert (forall a b, b <= a -> fold_left Z.min r b <= fold_left Z.max r a) as H.
  { induction r as [|y r IH]; intros a b Hab; cbn [fold_left]; [exact Hab|].
    apply IH. lia. }
  apply H. lia.
Qed.

Lemma maxList_ge_head (x : Z) (r : list Z) : x <= maxList (x :: r).
Proof.
  unfold maxList. revert x. induction r as [|y r IH]; intro x; cbn [fold_left]; [lia|].
  specialize (IH (Z.max x y)). lia.
Qed.

Lemma maxList_ge_all (l : list Z) : Forall (fun c => c <= maxList l) l.
Proof.
  destruct l as [|x r]; [constructor|]. unfold maxList.
  assert (forall a, a <= fold_left Z.max r a
                    /\ Forall (fun c => c <= fold_left Z.max r a) r) as H.
  { induction r as [|y r IH]; intro a; cbn [fold_left]; [split; [lia|constructor]|].
    destruct (IH (Z.max a y)) as [H1 H2]. split; [lia|].
    constructor; [lia|exact H2]. }
  destruct (H x) as [H1 H2]. constructor; assumption.
Qed.

Lemma countDirectionChanges_nonneg (I : list Z) : 0 <= countDirectionChanges I.
Proof.
  induction I as [|a r IH]; [reflexivity|].
  destruct r as [|b r']; [reflexivity|].
  change (countDirectionChanges (a :: b :: r'))
    with ((if negb (Z.sgn b =? Z.sgn a) && negb (b =? 0) && negb (a =? 0)
           then 1 else 0) + countDirectionChanges (b :: r')).
  destruct (negb (Z.sgn b =? Z.sgn a) && negb (b =? 0) && negb (a =? 0)); lia.
Qed.

Lemma simultaneity_means (w : list Note) :
  w <> [] ->
  let sim := computeSimultaneity w in
  (1 <= Z2Q (sumZ sim) / (if lenZ sim =? 0 then 1 else Z2Q (lenZ sim)))%Q
  /\ 1 <= (if 0 <? lenZ sim then maxList sim else 1).
Proof.
  intros Hne sim. unfold sim, computeSimultaneity.
  destruct (countMap_counts Qeq_bool (map beatKey w)) as (H1 & H2 & H3).
  set (l := map snd (countMap Qeq_bool (map beatKey w))) in *.
  assert (length l <= length w)%nat as Hl
    by (unfold l; rewrite length_map in *; exact H3).
  assert (1 <= lenZ w) as Hw by (destruct w; [congruence|unfold lenZ; cbn; lia]).
  unfold lenZ in H1. rewrite length_map in H1. fold (lenZ w) in H1.
  destruct l as [|c r] eqn:El; [cbn in H1; lia|].
  assert (1 <= lenZ (c :: r) <= lenZ w) as Hm by (unfold lenZ in *; cbn [length] in *; lia).
  replace (lenZ (c :: r) =? 0) with false by (symmetry; apply Z.eqb_neq; lia).
  replace (0 <? lenZ (c :: r)) with true by (symmetry; apply Z.ltb_lt; lia).
  split.
  - rewrite H1. apply ratio_ge_one. exact Hm.
  - pose proof (maxList_ge_head c r). inversion H2; subst. lia.
Qed.

(** X27.  The features extracted from a window stay in their ranges:
    the ascending, descending, stepwise and leap ratios lie between 0
    and 1, ascending plus descending and stepwise plus leap do not
    exceed 1, the largest interval and the number of direction changes
    are not negative, and in a window that is not empty the pitch
    range is not negative and the mean and the largest simultaneity
    are at least 1. *)
Theorem X27_feature_ranges (w : list Note) :
  let f := extractFeatures w in
  (0 <= ascendingRatio f <= 1)%Q /\ (0 <= descendingRatio f <= 1)%Q
  /\ (ascendingRatio f + descendingRatio f <= 1)%Q
  /\ (0 <= stepwiseRatio f <= 1)%Q /\ (0 <= leapRatio f <= 1)%Q
  /\ (stepwiseRatio f + leapRatio f <= 1)%Q
  /\ 0 <= maxInterval f /\ 0 <= directionChanges f
  /\ (w <> [] ->
      0 <= pitchRange f /\ (1 <= avgSimultaneity f)%Q /\ 1 <= maxSimultaneity f).
Proof.
  cbv zeta. unfold extractFeatures.
  cbn [ascendingRatio descendingRatio stepwiseRatio leapRatio pitchRange maxInterval
       directionChanges avgSimultaneity maxSimultaneity].
  set (I := computeIntervals (map pitch w)).
  set (A := map Z.abs I).
  assert (lenZ A = lenZ I) as HA by (unfold A, lenZ; rewrite length_map; reflexivity).
  assert (0 <= lenZ I) as HI by (unfold lenZ; lia).
  set (t := if lenZ I =? 0 then 1 else lenZ I).
  assert (0 < t /\ lenZ I <= t) as [Ht1 Ht2]
    by (unfold t; destruct (lenZ I =? 0) eqn:E; [apply Z.eqb_eq in E|apply Z.eqb_neq in E]; lia).
  pose proof (countIf_range (fun i => 0 <? i) I) as Hasc.
  pose proof (countIf_range (fun i => i <? 0) I) as Hdesc.
  pose proof (countIf_disjoint (fun i => 0 <? i) (fun i => i <? 0) I) as Had.
  pose proof (countIf_range (fun i => i <=? 2) A) as Hstep.
  pose proof (countIf_range (fun i => 4 <? i) A) as Hleap.
  pose proof (countIf_disjoint (fun i => i <=? 2) (fun i => 4 <? i) A) as Hsl.
  split; [apply ratio_range; lia|]. split; [apply ratio_range; lia|].
  split.
  { apply ratio_sum; try lia. apply Z.le_trans with (lenZ I); [|lia]. apply Had.
    intros x Hx. apply Z.ltb_lt in Hx. apply Z.ltb_ge. lia. }
  assert (forall x, (x <=? 2) = true -> (4 <? x) = false) as Hex
    by (intros x Hx; apply Z.leb_le in Hx; apply Z.ltb_ge; lia).
  specialize (Hsl Hex).
  destruct (0 <? lenZ A) eqn:En.
  - apply Z.ltb_lt in En.
    split; [apply ratio_range; lia|]. split; [apply ratio_range; lia|].
    split; [apply ratio_sum; lia|].
    split.
    { destruct A as [|a r] eqn:EA; [cbn in En; lia|].
      pose proof (maxList_ge_head a r).
      assert (0 <= a) by (destruct I as [|i I']; [discriminate|];
                          unfold A in EA; cbn in EA; injection EA as <- _; lia).
      lia. }
    split; [apply countDirectionChanges_nonneg|].
    intro Hne. split; [pose proof (maxList_ge_min (map pitch w)); lia|].
    apply (simultaneity_means w Hne).
  - split; [lra|]. split; [lra|]. split; [lra|].
    split; [lia|]. split; [apply countDirectionChanges_nonneg|].
    intro Hne. split; [pose proof (maxList_ge_min (map pitch w)); lia|].
    apply (simultaneity_means w Hne).
Qed.

(** ** Alberti figures *)

Lemma albertiMatches_shaped (n : nat) (ps : list Z) :
  (length ps <= n)%nat -> albertiShaped ps -> albertiMatches ps = lenZ ps / 4.
Proof.
  revert ps. induction n as [n IH] using (well_founded_induction lt_wf).
  intros ps Hlen Hs.
  destruct ps as [|p0 [|p1 [|p2 [|p3 r]]]]; try reflexivity.
  destruct Hs as (H1 & H2 & Hr).
  change (albertiMatches (p0 :: p1 :: p2 :: p3 :: r))
    with ((if (p0 <? p2) && (p2 <? p1) && (Z.abs (p1 - p3) <=? 1) then 1 else 0)
          + albertiMatches r).
  replace (p0 <? p2) with true by (symmetry; apply Z.ltb_lt; lia).
  replace (p2 <? p1) with true by (symmetry; apply Z.ltb_lt; lia).
  replace (Z.abs (p1 - p3) <=? 1) with true by (symmetry; apply Z.leb_le; lia).
  cbn [andb]. cbn [length] in Hlen.
  rewrite (IH (length r)) with (ps := r); [|lia|lia|exact Hr].
  replace (lenZ (p0 :: p1 :: p2 :: p3 :: r)) with (lenZ r + 1 * 4)
    by (unfold lenZ; cbn [length]; lia).
  rewrite Z.div_add by lia. lia.
Qed.

Lemma unornamented_flags (w : list Note) :
  Forall unornamented w ->
  existsb (fun n => hasTrill n || hasMordent n || hasTurn n) w = false
  /\ existsb isGrace w = false.
Proof.
  induction 1 as [|n w Hn _ IH]; [split; reflexivity|].
  destruct Hn as (H1 & H2 & H3 & H4). destruct IH as [IH1 IH2].
  cbn [existsb]. rewrite H1, H2, H3, H4, IH1, IH2. split; reflexivity.
Qed.

(** X28.  A window of at least four notes without ornaments or grace
    notes, lying on staff 2 or starting below middle C, whose complete
    groups of four notes all have the shape low, high, middle, high,
    is classified ALBERTI with confidence 0.95 and the number of
    groups as repeat count. *)
Theorem X28_alberti_recognized (w : list Note) :
  (4 <= length w)%nat ->
  Forall unornamented w ->
  albertiShaped (map pitch w) ->
  (forall n0, head w = Some n0 -> staff n0 = 2 \/ pitch n0 < 60) ->
  let r := classifyPattern w (extractFeatures w) in
  crType r = ALBERTI /\ (crConfidence r == 0.95)%Q
  /\ repeatCount (crFeatures r) = Some (lenZ w / 4).
Proof.
  intros Hlen Hplain Hshape Hlow r.
  destruct (unornamented_flags w Hplain) as [Ho Hg].
  assert (1 <= lenZ w / 4) as Hk.
  { apply Z.div_le_lower_bound; unfold lenZ; lia. }
  assert (detectOrnamented w (extractFeatures w) = None) as HO.
  { unfold detectOrnamented.
    change (hasOrnament (extractFeatures w))
      with (existsb (fun n => hasTrill n || hasMordent n || hasTurn n) w).
    change (hasGrace (extractFeatures w)) with (existsb isGrace w).
    rewrite Ho, Hg. cbn [orb].
    destruct (Qlt_bool (avgDuration (extractFeatures w)) 0.125
              && (maxInterval (extractFeatures w) <=? 2)); [|reflexivity].
    change (intervals (extractFeatures w)) with (computeIntervals (map pitch w)).
    destruct w as [|n0 [|n1 [|n2 [|n3 w']]]]; cbn [length] in Hlen; try lia.
    destruct Hshape as (H1 & _).
    unfold isAlternatingPattern. cbn [map computeIntervals length Nat.ltb Nat.leb].
    cbn [isAlternatingLoop].
    replace (pitch n1 - pitch n0 =? - (pitch n2 - pitch n1)) with false
      by (symmetry; apply Z.eqb_neq; lia).
    rewrite orb_true_r. reflexivity. }
  assert (exists c, detectAlberti w (extractFeatures w)
                    = Some (mkResult ALBERTI c (withRepeatCount (lenZ w / 4)))
                    /\ (c == 0.95)%Q) as (c & HA & Hc).
  { unfold detectAlberti.
    change (pitches (extractFeatures w)) with (map pitch w).
    assert (negb (fStaff (extractFeatures w) =? 2) && (60 <=? nth 0 (map pitch w) 0)
            = false) as ->.
    { destruct w as [|n0 w']; [cbn in Hlen; lia|].
      change (fStaff (extractFeatures (n0 :: w')))
        with (if staff n0 =? 0 then 1 else staff n0).
      cbn [map nth].
      destruct (Hlow n0 eq_refl) as [H2|H60].
      - rewrite H2. reflexivity.
      - replace (60 <=? pitch n0) with false by (symmetry; apply Z.leb_gt; lia).
        apply andb_false_r. }
    replace (length w <? 4)%nat with false by (symmetry; apply Nat.ltb_ge; lia).
    rewrite (albertiMatches_shaped (length (map pitch w)) (map pitch w) (le_n _) Hshape).
    replace (lenZ (map pitch w)) with (lenZ w) by (unfold lenZ; rewrite length_map; reflexivity).
    cbv zeta.
    replace (0 <? lenZ w / 4) with true by (symmetry; apply Z.ltb_lt; lia).
    set (k := lenZ w / 4) in *.
    assert (Z2Q k / Z2Q k == 1)%Q as Hone.
    { apply Qmult_inv_r. unfold Z2Q, inject_Z, Qeq. cbn. lia. }
    assert (Qge_bool (Z2Q k / Z2Q k) 0.6 = true) as ->.
    { unfold Qge_bool. apply Qle_bool_iff. rewrite Hone. lra. }
    eexists. split; [reflexivity|].
    unfold Qmin2. destruct (Qle_bool 0.95 (0.6 + Z2Q k / Z2Q k * 0.35));
      [reflexivity|rewrite Hone; lra]. }
  unfold r, classifyPattern, classifyBeforeLeap. rewrite HO, HA.
  cbn [crType crConfidence crFeatures withRepeatCount repeatCount].
  split; [reflexivity|]. split; [exact Hc|reflexivity].
Qed.

Lemma X28_alberti_recognized_witness :
  let r := classifyPattern albertiExample (extractFeatures albertiExample) in
  crType r = ALBERTI /\ (crConfidence r == 0.95)%Q
  /\ repeatCount (crFeatures r) = Some 1.
Proof.
  apply (X28_alberti_recognized albertiExample).
  - cbn. lia.
  - repeat (constructor; [repeat split; reflexivity|]). constructor.
  - cbn. lia.
  - intros n0 H. injection H as <-. left. reflexivity.
Defined.

(** ** The two hands mirror each other *)

(** X29.  The direction rules treat the left hand as the mirror image
    of the right: the natural-progression test, the arpeggio test and
    the scale cost of the left hand in one direction are those of the
    right hand in the other direction. *)
Theorem X29_hands_mirror (prev cur : Finger) (asc : bool) (cfg : Config) :
  isNaturalProgression prev cur asc LH = isNaturalProgression prev cur (negb asc) RH
  /\ isGoodArpeggioFingering prev cur asc LH
     = isGoodArpeggioFingering prev cur (negb asc) RH
  /\ computeScaleCost prev cur asc LH cfg = computeScaleCost prev cur (negb asc) RH cfg.
Proof.
  unfold isNaturalProgression, isGoodArpeggioFingering, computeScaleCost.
  destruct asc; cbn [negb andb orb Hand_eqb];
    (split; [|split]); try reflexivity;
    destruct (cur - prev <? 0), (0 <? cur - prev); reflexivity.
Qed.
(** ** The order of doubles *)

Lemma SFltb_lex (a b : SpecFloat.spec_float) :
  a <> SpecFloat.S754_nan -> b <> SpecFloat.S754_nan ->
  (SpecFloat.SFltb a b = true <-> lexLt (sfKey a) (sfKey b)).
Proof.
  intros Ha Hb. unfold SpecFloat.SFltb, SpecFloat.SFcompare.
  destruct a as [sa|sa| |sa ma ea]; [| |congruence|];
    (destruct b as [sb|sb| |sb mb eb]; [| |congruence|]);
    try destruct sa; try destruct sb; cbn [sfKey lexLt];
    try (split; [discriminate|lia]); try (split; [lia|reflexivity]);
    try (split; [reflexivity|lia]).
  - change (Pos.compare_cont Eq ma mb) with (Pos.compare ma mb).
    destruct (Z.compare_spec ea eb) as [->|Hlt|Hgt];
      [destruct (Pos.compare_spec ma mb) as [->|Hm|Hm]|..]; cbn [CompOpp];
      split; intro H; try discriminate; try reflexivity; lia.
  - change (Pos.compare_cont Eq ma mb) with (Pos.compare ma mb).
    destruct (Z.compare_spec ea eb) as [->|Hlt|Hgt];
      [destruct (Pos.compare_spec ma mb) as [->|Hm|Hm]|..];
      split; intro H; try discriminate; try reflexivity; lia.
Qed.

Lemma SFltb_number (a b : SpecFloat.spec_float) :
  SpecFloat.SFltb a b = true -> a <> SpecFloat.S754_nan /\ b <> SpecFloat.S754_nan.
Proof.
  unfold SpecFloat.SFltb, SpecFloat.SFcompare.
  destruct a, b; try discriminate; split; discriminate.
Qed.

Lemma number_spec (x : PrimFloat.float) :
  number x <-> FloatOps.Prim2SF x <> SpecFloat.S754_nan.
Proof.
  unfold number, PrimFloat.is_nan. rewrite FloatAxioms.eqb_spec.
  unfold SpecFloat.SFeqb, SpecFloat.SFcompare.
  destruct (FloatOps.Prim2SF x) as [s|s| |s m e].
  - split; [discriminate|reflexivity].
  - destruct s; (split; [discriminate|reflexivity]).
  - split; [discriminate|congruence].
  - change (Pos.compare_cont Eq m m) with (Pos.compare m m).
    rewrite Z.compare_refl, Pos.compare_refl.
    destruct s; (split; [discriminate|reflexivity]).
Qed.

Lemma ltb_lex (x y : PrimFloat.float) :
  number x -> number y ->
  (PrimFloat.ltb x y = true
   <-> lexLt (sfKey (FloatOps.Prim2SF x)) (sfKey (FloatOps.Prim2SF y))).
Proof.
  intros Hx Hy. rewrite FloatAxioms.ltb_spec.
  apply SFltb_lex; apply number_spec; assumption.
Qed.

Lemma ltb_number (x y : PrimFloat.float) :
  PrimFloat.ltb x y = true -> number x /\ number y.
Proof.
  rewrite FloatAxioms.ltb_spec. intro H. apply SFltb_number in H.
  split; apply number_spec; tauto.
Qed.

Lemma lexLt_trans (p q r : Z * Z * Z) : lexLt p q -> lexLt q r -> lexLt p r.
Proof.
  destruct p as [[a b] c], q as [[a' b'] c'], r as [[a'' b''] c'']. cbn. lia.
Qed.

Lemma lexLt_cases (p q r : Z * Z * Z) : lexLt p r -> lexLt p q \/ lexLt q r.
Proof.
  destruct p as [[a b] c], q as [[a' b'] c'], r as [[a'' b''] c'']. cbn. lia.
Qed.

Lemma lexLt_irrefl (p : Z * Z * Z) : ~ lexLt p p.
Proof.
  destruct p as [[a b] c]. cbn. lia.
Qed.

Lemma ltb_trans (x y z : PrimFloat.float) :
  PrimFloat.ltb x y = true -> PrimFloat.ltb y z = true -> PrimFloat.ltb x z = true.
Proof.
  intros Hxy Hyz.
  destruct (ltb_number x y Hxy) as [Hx Hy]. destruct (ltb_number y z Hyz) as [_ Hz].
  apply ltb_lex in Hxy; [|assumption..]. apply ltb_lex in Hyz; [|assumption..].
  apply ltb_lex; [assumption..|]. eapply lexLt_trans; eassumption.
Qed.

(** Between two doubles in strict order, every number is above the
    lower or below the upper one. *)
Lemma ltb_between (x y z : PrimFloat.float) :
  number y -> PrimFloat.ltb x z = true ->
  PrimFloat.ltb x y = true \/ PrimFloat.ltb y z = true.
Proof.
  intros Hy Hxz. destruct (ltb_number x z Hxz) as [Hx Hz].
  apply ltb_lex in Hxz; [|assumption..].
  destruct (lexLt_cases _ (sfKey (FloatOps.Prim2SF y)) _ Hxz) as [H|H];
    [left|right]; apply ltb_lex; assumption.
Qed.

Lemma ltb_irrefl (x : PrimFloat.float) : PrimFloat.ltb x x = false.
Proof.
  destruct (PrimFloat.ltb x x) eqn:E; [|reflexivity].
  destruct (ltb_number x x E) as [Hx _].
  apply ltb_lex in E; [|assumption..]. destruct (lexLt_irrefl _ E).
Qed.

Lemma SFleb_lex (a b : SpecFloat.spec_float) :
  a <> SpecFloat.S754_nan -> b <> SpecFloat.S754_nan ->
  (SpecFloat.SFleb a b = true <-> ~ lexLt (sfKey b) (sfKey a)).
Proof.
  intros Ha Hb. unfold SpecFloat.SFleb, SpecFloat.SFcompare.
  destruct a as [sa|sa| |sa ma ea]; [| |congruence|];
    (destruct b as [sb|sb| |sb mb eb]; [| |congruence|]);
    try destruct sa; try destruct sb; cbn [sfKey lexLt];
    try (split; [discriminate|lia]); try (split; [lia|reflexivity]);
    try (split; [reflexivity|lia]).
  - change (Pos.compare_cont Eq ma mb) with (Pos.compare ma mb).
    destruct (Z.compare_spec ea eb) as [->|Hlt|Hgt];
      [destruct (Pos.compare_spec ma mb) as [->|Hm|Hm]|..]; cbn [CompOpp];
      split; intro H; try discriminate; try reflexivity; lia.
  - change (Pos.compare_cont Eq ma mb) with (Pos.compare ma mb).
    destruct (Z.compare_spec ea eb) as [->|Hlt|Hgt];
      [destruct (Pos.compare_spec ma mb) as [->|Hm|Hm]|..];
      split; intro H; try discriminate; try reflexivity; lia.
Qed.

(** A double that is strictly above [c], or is no number, is not below
    or equal to [c]. *)
Lemma leb_above (c d : PrimFloat.float) :
  (number d -> PrimFloat.ltb c d = true) -> PrimFloat.leb d c = false.
Proof.
  intro H. rewrite FloatAxioms.leb_spec.
  destruct (PrimFloat.is_nan d) eqn:E.
  - assert (FloatOps.Prim2SF d = SpecFloat.S754_nan) as ->.
    { destruct (FloatOps.Prim2SF d) eqn:Ed; try reflexivity;
        assert (number d) as Hd by (apply number_spec; rewrite Ed; discriminate);
        unfold number in Hd; congruence. }
    reflexivity.
  - specialize (H E). destruct (ltb_number c d H) as [Hc Hd].
    apply ltb_lex in H; [|assumption..].
    destruct (SpecFloat.SFleb (FloatOps.Prim2SF d) (FloatOps.Prim2SF c)) eqn:El;
      [|reflexivity].
    apply SFleb_lex in El; [|apply number_spec; assumption..]. contradiction.
Qed.

(** ** The first-argmin scan on doubles *)

Section FirstArgmin64.

Variables (A B : Type).
Variable value : A -> option PrimFloat.float.
Variable pack : A -> PrimFloat.float -> B.
Variable minOf : B -> PrimFloat.float.
Hypothesis minOf_pack : forall x c, minOf (pack x c) = c.

Lemma argmin_scan64 (l : list A) (init : B) :
  minOf init = PrimFloat.infinity ->
  scanned64 A B value pack l init (fold_left (argStep64 A B value pack minOf) l init).
Proof.
  intro Hinit. induction l as [|x l IH] using rev_ind.
  - left. split; [reflexivity|]. intros x c [].
  - rewrite fold_left_app. cbn [fold_left].
    set (b := fold_left _ l init) in *.
    unfold argStep64 at 1. destruct (value x) as [c'|] eqn:Ex.
    + destruct IH as [[Hb Hnone]|(l1 & x0 & l2 & c & Hl & Hx0 & Hb & Hinf & Hlt & Hle)].
      * rewrite Hb, Hinit.
        destruct (PrimFloat.ltb c' PrimFloat.infinity) eqn:E.
        -- right. exists l, x, [], c'.
           split; [reflexivity|]. split; [exact Ex|]. split; [reflexivity|].
           split; [exact E|]. split.
           ++ intros y d Hy Hv Hd.
              destruct (ltb_between c' d PrimFloat.infinity Hd E) as [H|H]; [exact H|].
              rewrite (Hnone y d Hy Hv) in H. discriminate.
           ++ intros y d Hy Hv. apply in_app_or in Hy. destruct Hy as [Hy|[Hy|[]]].
              ** destruct (PrimFloat.ltb d c') eqn:Ed; [|reflexivity].
                 rewrite <- (Hnone y d Hy Hv). symmetry.
                 exact (ltb_trans d c' _ Ed E).
              ** subst y. rewrite Ex in Hv. injection Hv as <-. apply ltb_irrefl.
        -- left. split; [reflexivity|].
           intros y d Hy Hv. apply in_app_or in Hy. destruct Hy as [Hy|[Hy|[]]].
           ++ exact (Hnone y d Hy Hv).
           ++ subst y. rewrite Ex in Hv. injection Hv as <-. exact E.
      * rewrite Hb, minOf_pack.
        destruct (PrimFloat.ltb c' c) eqn:E.
        -- right. exists l, x, [], c'.
           split; [reflexivity|]. split; [exact Ex|]. split; [reflexivity|].
           split; [exact (ltb_trans c' c _ E Hinf)|]. split.
           ++ intros y d Hy Hv Hd.
              destruct (ltb_between c' d c Hd E) as [H|H]; [exact H|].
              rewrite (Hle y d Hy Hv) in H. discriminate.
           ++ intros y d Hy Hv. apply in_app_or in Hy. destruct Hy as [Hy|[Hy|[]]].
              ** destruct (PrimFloat.ltb d c') eqn:Ed; [|reflexivity].
                 rewrite <- (Hle y d Hy Hv). symmetry.
                 exact (ltb_trans d c' c Ed E).
              ** subst y. rewrite Ex in Hv. injection Hv as <-. apply ltb_irrefl.
        -- right. exists l1, x0, (l2 ++ [x]), c.
           split; [rewrite Hl, <- app_assoc; reflexivity|]. split; [exact Hx0|].
           split; [reflexivity|]. split; [exact Hinf|]. split; [exact Hlt|].
           intros y d Hy Hv. apply in_app_or in Hy. destruct Hy as [Hy|[Hy|[]]].
           ++ exact (Hle y d Hy Hv).
           ++ subst y. rewrite Ex in Hv. injection Hv as <-. exact E.
    + destruct IH as [[Hb Hnone]|(l1 & x0 & l2 & c & Hl & Hx0 & Hb & Hinf & Hlt & Hle)].
      * left. split; [exact Hb|].
        intros y d Hy Hv. apply in_app_or in Hy. destruct Hy as [Hy|[Hy|[]]].
        -- exact (Hnone y d Hy Hv).
        -- subst y. rewrite Ex in Hv. discriminate.
      * right. exists l1, x0, (l2 ++ [x]), c.
        split; [rewrite Hl, <- app_assoc; reflexivity|]. split; [exact Hx0|].
        split; [exact Hb|]. split; [exact Hinf|]. split; [exact Hlt|].
        intros y d Hy Hv. apply in_app_or in Hy. destruct Hy as [Hy|[Hy|[]]].
        -- exact (Hle y d Hy Hv).
        -- subst y. rewrite Ex in Hv. discriminate.
Qed.

End FirstArgmin64.

(** ** The table of the double-precision planner *)

Import FingeringPlanner.
Import FingeringPlanner64.

Lemma layerGet64_In (l : Layer) (f : Finger) (st : DPState) :
  layerGet f l = Some st -> In (f, st) l.
Proof.
  unfold layerGet. destruct (find (fun e => fst e =? f) l) as [[k s]|] eqn:E; [|discriminate].
  cbn. intros [= <-]. apply find_some in E. destruct E as [Hin Hk].
  cbn in Hk. apply Z.eqb_eq in Hk. subst k. exact Hin.
Qed.

(** In a layer whose keys increase, a cell is found under its key. *)
Lemma layerGet64_sorted (l : Layer) (k : Finger) (a : DPState) :
  StronglySorted Z.lt (map fst l) -> In (k, a) l -> layerGet k l = Some a.
Proof.
  unfold layerGet. induction l as [|[k' v] l IH]; intros Hs Hin; [destruct Hin|].
  cbn [map fst] in Hs. inversion Hs as [|? ? Hs' Hall]; subst.
  cbn [find fst]. destruct (k' =? k) eqn:E.
  - apply Z.eqb_eq in E. subst k'. destruct Hin as [[= <-]|Hin]; [reflexivity|].
    rewrite Forall_forall in Hall.
    assert (k < k) by (apply Hall; change k with (fst (k, a)); apply in_map; exact Hin).
    lia.
  - destruct Hin as [[= -> _]|Hin]; [rewrite Z.eqb_refl in E; discriminate|].
    apply IH; assumption.
Qed.

Lemma sorted_kept (p : Z -> bool) (l : list Z) :
  StronglySorted Z.lt l -> StronglySorted Z.lt (filter p l).
Proof.
  intro Hs. induction Hs as [|a l Hs IH Ha]; cbn [filter]; [constructor|].
  destruct (p a); [|exact IH].
  constructor; [exact IH|].
  rewrite Forall_forall in Ha |- *. intros y Hy. apply filter_In in Hy. apply Ha, Hy.
Qed.

Section Table64.

Variable level : Difficulty.
Variables (notes : list Note) (patterns : list PatternSegment) (h : Hand).

Let hp := analyzeHandPositions notes h.
Let ss := detectScaleSegments notes.
Let config := getDifficultyConfig level.
Let layer := DP64.layerAt level notes patterns h.
Let T := DP64.stepCost level notes patterns h.
Let cand := candidate level notes patterns h.
Let cell := DP64.cellOf level notes patterns h.

Lemma forwardPass64_layers (k : nat) :
  fold_left (forwardStep level notes patterns h hp ss config) (seq 1 k) [layer 0%nat]
  = map layer (seq 0 (S k)).
Proof.
  induction k as [|k IH]; [reflexivity|].
  rewrite seq_S, fold_left_app, IH. cbn [fold_left].
  unfold forwardStep at 1.
  rewrite (seq_S (S k) 0), map_app. cbn [map]. f_equal. f_equal.
  change (1 + k)%nat with (S k). cbn [Nat.add].
  replace (S k - 1)%nat with k by lia.
  assert (nth k (map layer (seq 0 (S k))) [] = layer k) as ->.
  { rewrite nth_indep with (d' := layer 0%nat) by (rewrite length_map, length_seq; lia).
    rewrite map_nth, seq_nth by lia. reflexivity. }
  reflexivity.
Qed.

Lemma dpTable64_nth (i : nat) :
  (i <= length notes - 1)%nat ->
  nth i (dpTable level notes patterns h) [] = layer i.
Proof.
  intro Hi. unfold dpTable, forwardPass. fold hp ss config.
  change (initialLayer level notes h hp config) with (layer 0%nat).
  rewrite forwardPass64_layers.
  rewrite nth_indep with (d' := layer 0%nat) by (rewrite length_map, length_seq; lia).
  rewrite map_nth, seq_nth by lia. reflexivity.
Qed.

(** The predecessor scan is a first-argmin scan over the candidates. *)
Lemma bestFor64_argStep (i : nat) (prevLayer : Layer) (f : Finger) :
  bestFor level notes patterns h hp ss config i prevLayer f
  = fold_left
      (argStep64 Finger Best (cand prevLayer i f)
         (fun g c => mkBest c (Some ((i - 1)%nat, g)) (reasons (T i f g)))
         minCost)
      fingers (mkBest PrimFloat.infinity None []).
Proof.
  unfold bestFor. apply fold_left_ext_in. intros acc g _.
  unfold scanStep, argStep64, cand, candidate, T, DP64.stepCost.
  fold hp ss config.
  destruct (layerGet g prevLayer) as [ps|]; [|reflexivity].
  destruct (PrimFloat.ltb (ofZ 500) _); reflexivity.
Qed.

(** A layer after the first holds, in the order of the fingers, the
    cells whose least candidate total is below [Infinity]. *)
Lemma buildLayer64_cells (i : nat) (prevLayer : Layer) :
  buildLayer level notes patterns h hp ss config i prevLayer
  = flat_map (fun f => if PrimFloat.ltb (stCost (cell prevLayer i f)) PrimFloat.infinity
                       then [(f, cell prevLayer i f)] else [])
             fingers.
Proof.
  unfold buildLayer.
  assert (forall fs acc,
            fold_left (layerStep level notes patterns h hp ss config i prevLayer) fs acc
            = acc ++ flat_map
                       (fun f => if PrimFloat.ltb (stCost (cell prevLayer i f))
                                                  PrimFloat.infinity
                                 then [(f, cell prevLayer i f)] else [])
                       fs) as H.
  { induction fs as [|f fs IH]; intro acc; cbn [fold_left flat_map];
      [rewrite app_nil_r; reflexivity|].
    rewrite IH. unfold layerStep, cell, DP64.cellOf. fold hp ss config.
    cbn [stCost].
    destruct (PrimFloat.ltb _ PrimFloat.infinity);
      [rewrite <- app_assoc|]; reflexivity. }
  apply (H fingers []).
Qed.

Lemma buildLayer64_sorted (i : nat) (prevLayer : Layer) :
  StronglySorted Z.lt
    (map fst (buildLayer level notes patterns h hp ss config i prevLayer)).
Proof.
  rewrite buildLayer64_cells.
  assert (forall fs,
            map fst (flat_map
                       (fun f => if PrimFloat.ltb (stCost (cell prevLayer i f))
                                                  PrimFloat.infinity
                                 then [(f, cell prevLayer i f)] else [])
                       fs)
            = filter (fun f => PrimFloat.ltb (stCost (cell prevLayer i f))
                                             PrimFloat.infinity) fs) as H.
  { induction fs as [|f fs IH]; [reflexivity|]. cbn [flat_map filter].
    rewrite map_app, IH. destruct (PrimFloat.ltb _ PrimFloat.infinity); reflexivity. }
  rewrite H. apply sorted_kept, fingers_sorted.
Qed.

(** A cell of a layer after the first: its key is a finger, it is the
    cell the forward pass computes, and its cost is below [Infinity]. *)
Lemma buildLayer64_cell (i : nat) (prevLayer : Layer) (f : Finger) (st : DPState) :
  In (f, st) (buildLayer level notes patterns h hp ss config i prevLayer) ->
  In f fingers /\ st = cell prevLayer i f
  /\ PrimFloat.ltb (stCost st) PrimFloat.infinity = true.
Proof.
  rewrite buildLayer64_cells. intro Hin.
  apply in_flat_map in Hin. destruct Hin as (t & Ht & Hin).
  destruct (PrimFloat.ltb (stCost (cell prevLayer i t)) PrimFloat.infinity) eqn:E;
    [|destruct Hin].
  destruct Hin as [[= <- <-]|[]]. auto.
Qed.

(** The cell of a state [(i, f)], [i >= 1]: its parent is the first
    argmin among the candidates. *)
Lemma layer64_cell (i : nat) (f : Finger) (st : DPState) :
  layerGet f (layer (S i)) = Some st ->
  exists l1 g l2,
    fingers = l1 ++ g :: l2 /\ cand (layer i) (S i) f g = Some (stCost st)
    /\ stParent st = Some (i, g)
    /\ (forall y d, In y l1 -> cand (layer i) (S i) f y = Some d -> number d ->
                    PrimFloat.ltb (stCost st) d = true)
    /\ (forall y d, In y fingers -> cand (layer i) (S i) f y = Some d ->
                    PrimFloat.ltb d (stCost st) = false).
Proof.
  intro Hget. apply layerGet64_In in Hget.
  unfold layer in Hget. cbn [DP64.layerAt] in Hget. fold layer hp ss config in Hget.
  apply buildLayer64_cell in Hget. destruct Hget as (Hf & Hst & Hinf).
  unfold cell, DP64.cellOf in Hst. fold hp ss config in Hst.
  rewrite bestFor64_argStep in Hst.
  match type of Hst with context [fold_left ?step fingers ?init] =>
    destruct (argmin_scan64 Finger Best (cand (layer i) (S i) f)
                (fun g c => mkBest c (Some ((S i - 1)%nat, g)) (reasons (T (S i) f g)))
                minCost (fun _ _ => eq_refl) fingers init eq_refl)
      as [[Hb _]|(l1 & g & l2 & c & H1 & H2 & H3 & _ & H5 & H6)]
  end.
  - rewrite Hb in Hst. subst st. cbn [stCost minCost] in Hinf.
    rewrite ltb_irrefl in Hinf. discriminate.
  - rewrite H3 in Hst. subst st. cbn [stCost stParent minCost bestParent].
    replace (S i - 1)%nat with i by lia.
    exists l1, g, l2. repeat split; assumption.
Qed.

End Table64.

Lemma bestFinal64_argStep (l : Layer) :
  bestFinal l
  = fold_left
      (argStep64 (Finger * DPState) (FingeringPlanner64.float * Finger)
         (fun e => Some (stCost (snd e))) (fun e c => (c, fst e)) fst)
      l (PrimFloat.infinity, 3).
Proof.
  reflexivity.
Qed.

Lemma backtrackLoop64_last
  (dp : list Layer) (notes : list Note) (h : Hand) (k : nat) (f : Finger)
  (fing : list Finger) (expl : list string) (pth : list FingeringState) :
  exists pre,
    fst (fst (backtrackLoop dp notes h k f (fing, expl, pth))) = pre ++ fing
    /\ (forall a, last pre a = match k with O => a | S _ => f end).
Proof.
  revert f fing expl pth. induction k as [|k IH]; intros f fing expl pth.
  - exists []. split; reflexivity.
  - cbn [backtrackLoop].
    match goal with |- context [backtrackLoop dp notes h k ?nx (?a, ?b, ?c)] =>
      destruct (IH nx a b c) as (pre & Hpre & Hlast)
    end.
    exists (pre ++ [f]). rewrite Hpre, <- app_assoc. split; [reflexivity|].
    intro a. apply last_last.
Qed.

(** The finger returned for the last note and the total returned are
    those the final scan keeps. *)
Lemma backtrack64_final (dp : list Layer) (notes : list Note) (h : Hand) :
  notes <> [] ->
  let sol := backtrack dp notes h in
  totalCost sol = fst (bestFinal (nth (length notes - 1) dp []))
  /\ last (fingering sol) 0 = snd (bestFinal (nth (length notes - 1) dp [])).
Proof.
  intros Hne sol. unfold sol, backtrack.
  destruct (bestFinal (nth (length notes - 1) dp [])) as [m fl].
  destruct (backtrackLoop64_last dp notes h (length notes) fl [] [] [])
    as (pre & Hpre & Hlast).
  destruct (backtrackLoop dp notes h (length notes) fl ([], [], []))
    as [[fing expl] pth].
  cbn [fst snd totalCost fingering] in *. split; [reflexivity|].
  rewrite Hpre, app_nil_r, Hlast.
  destruct notes; [congruence|reflexivity].
Qed.

(** C8.  Ties are broken by scan order, with the program's own
    double-precision totals.  The cell of a state [(i, f)], [i >= 1],
    points to a predecessor [g] whose candidate total (previous cost
    plus a step cost that is not pruned) is the cell's cost; no
    candidate total is strictly below it, and no candidate of a
    smaller finger number is below or equal to it: [g] is the first
    argmin of the scan 1,2,3,4,5 (a total that is NaN compares false
    with everything and is never kept).  The finger
    returned for the last note is the first argmin of the last layer:
    no cell there is strictly cheaper, every cell of a smaller finger
    is strictly more expensive, and the total returned is its cost.
    The planner being a function, equal inputs give equal outputs. *)
Theorem C8_first_argmin_tie_break
  (level : Difficulty) (notes : list Note) (patterns : list PatternSegment)
  (h : Hand) (i : nat) (f : Finger) (st : DPState) :
  (1 <= i < length notes)%nat ->
  layerGet f (nth i (dpTable level notes patterns h) []) = Some st ->
  let dp := dpTable level notes patterns h in
  let sol := dpOptimization level notes patterns h in
  let cand := candidate level notes patterns h (nth (i - 1) dp []) i f in
  let lastLayer := nth (length notes - 1) dp [] in
  let fl := last (fingering sol) 0 in
  (exists g, stParent st = Some ((i - 1)%nat, g) /\ In g fingers
             /\ cand g = Some (stCost st)
             /\ forall g' c', In g' fingers -> cand g' = Some c' ->
                  PrimFloat.ltb c' (stCost st) = false
                  /\ (g' < g -> PrimFloat.leb c' (stCost st) = false))
  /\ (forall f' st', layerGet f' lastLayer = Some st' ->
        exists stl, layerGet fl lastLayer = Some stl
                    /\ totalCost sol = stCost stl
                    /\ PrimFloat.ltb (stCost st') (stCost stl) = false
                    /\ (f' < fl -> PrimFloat.ltb (stCost stl) (stCost st') = true)).
Proof.
  intros Hi Hget dp sol cand lastLayer fl. split.
  - unfold dp in *. rewrite dpTable64_nth in Hget by lia.
    subst cand. rewrite dpTable64_nth by lia.
    destruct i as [|i]; [lia|]. replace (S i - 1)%nat with i by lia.
    apply layer64_cell in Hget.
    destruct Hget as (l1 & g & l2 & H1 & H2 & H3 & H4 & H5).
    exists g. split; [exact H3|]. split; [rewrite H1; apply in_elt|].
    split; [exact H2|]. intros g' c' Hg' Hc'. split; [exact (H5 g' c' Hg' Hc')|].
    intro Hlt. apply leb_above. intro Hnum.
    apply (H4 g' c'); [|exact Hc'|exact Hnum].
    assert (StronglySorted Z.lt (l1 ++ g :: l2)) as Hs
      by (rewrite <- H1; apply fingers_sorted).
    assert (In g' (l1 ++ g :: l2)) as Hin by (rewrite <- H1; exact Hg').
    exact (sorted_before l1 l2 g g' Hs Hin Hlt).
  - intros f' st' Hget'.
    assert (notes <> []) as Hne by (intros ->; cbn in Hi; lia).
    destruct (backtrack64_final dp notes h Hne) as [Htotal Hlast].
    fold sol in Htotal, Hlast. fold lastLayer in Htotal, Hlast. fold fl in Hlast.
    assert (exists k, lastLayer
                      = buildLayer level notes patterns h (analyzeHandPositions notes h)
                          (detectScaleSegments notes) (getDifficultyConfig level) (S k)
                          (DP64.layerAt level notes patterns h k)) as [k Hk].
    { exists (length notes - 2)%nat. unfold lastLayer, dp.
      rewrite dpTable64_nth by lia.
      replace (length notes - 1)%nat with (S (length notes - 2)) by lia. reflexivity. }
    assert (StronglySorted Z.lt (map fst lastLayer)) as Hs
      by (rewrite Hk; apply buildLayer64_sorted).
    assert (forall x s, In (x, s) lastLayer ->
                        PrimFloat.ltb (stCost s) PrimFloat.infinity = true) as Hfin.
    { intros x s Hin. rewrite Hk in Hin. apply buildLayer64_cell in Hin. tauto. }
    pose proof (layerGet64_In lastLayer f' st' Hget') as Hin'.
    rewrite bestFinal64_argStep in Htotal, Hlast.
    match type of Htotal with context [fold_left ?step lastLayer ?init] =>
      destruct (argmin_scan64 (Finger * DPState) (FingeringPlanner64.float * Finger)
                  (fun e => Some (stCost (snd e))) (fun e c => (c, fst e)) fst
                  (fun _ _ => eq_refl) lastLayer init eq_refl)
        as [[_ Hnone]|(l1 & e & l2 & c & Hl & He & Hb & _ & Hlt & Hle)]
    end.
    + specialize (Hnone (f', st') (stCost st') Hin' eq_refl).
      rewrite (Hfin f' st' Hin') in Hnone. discriminate.
    + rewrite Hb in Htotal, Hlast. cbn [fst snd] in Htotal, Hlast.
      injection He as <-. destruct e as [fe ste]. cbn [fst snd] in *. subst fe.
      assert (In (fl, ste) lastLayer) as Hine by (rewrite Hl; apply in_elt).
      exists ste. split; [apply layerGet64_sorted; assumption|].
      split; [exact Htotal|].
      split; [exact (Hle (f', st') (stCost st') Hin' eq_refl)|].
      intro Hlow.
      assert (map fst lastLayer = map fst l1 ++ fl :: map fst l2) as Hkeys
        by (rewrite Hl, map_app; reflexivity).
      assert (In f' (map fst l1)) as Hf1.
      { assert (StronglySorted Z.lt (map fst l1 ++ fl :: map fst l2)) as Hs'
          by (rewrite <- Hkeys; exact Hs).
        assert (In f' (map fst l1 ++ fl :: map fst l2)) as Hf'
          by (rewrite <- Hkeys; change f' with (fst (f', st')); apply in_map; exact Hin').
        exact (sorted_before (map fst l1) (map fst l2) fl f' Hs' Hf' Hlow). }
      apply in_map_iff in Hf1. destruct Hf1 as ([x s] & Hx & Hxs). cbn in Hx. subst x.
      assert (In (f', s) lastLayer) as Hins by (rewrite Hl; apply in_or_app; auto).
      assert (s = st') as ->.
      { pose proof (layerGet64_sorted lastLayer f' s Hs Hins) as E.
        rewrite Hget' in E. congruence. }
      apply (Hlt (f', st') (stCost st') Hxs eq_refl).
      exact (proj1 (ltb_number _ _ (Hfin f' st' Hin'))).
Qed.

Lemma C8_first_argmin_tie_break_witness :
  (1 <= 5 < length roundedTie)%nat
  /\ fingering (dpOptimization advanced roundedTie [] RH) = [1; 2; 3; 1; 2; 3]
  /\ exists st2 st3,
       layerGet 2 (nth 5 (dpTable advanced roundedTie [] RH) []) = Some st2
       /\ layerGet 3 (nth 5 (dpTable advanced roundedTie [] RH) []) = Some st3
       /\ PrimFloat.ltb (stCost st2) (stCost st3) = false
       /\ exists g, stParent st2 = Some (4%nat, g) /\ In g fingers.
Proof.
  assert (1 <= 5 < length roundedTie)%nat as H1 by (cbn; lia).
  split; [exact H1|]. split; [vm_compute; reflexivity|].
  destruct (layerGet 2 (nth 5 (dpTable advanced roundedTie [] RH) [])) as [st2|] eqn:E2;
    [|vm_compute in E2; discriminate].
  destruct (C8_first_argmin_tie_break advanced roundedTie [] RH 5%nat 2 st2 H1 E2)
    as [(g & Hp & Hg & _) Hfinal].
  destruct (Hfinal 2 st2 E2) as (stl & Hl & _ & Hle & _).
  assert (last (fingering (dpOptimization advanced roundedTie [] RH)) 0 = 3) as Hfl
    by (vm_compute; reflexivity).
  rewrite Hfl in Hl.
  exists st2, stl. split; [reflexivity|]. split; [exact Hl|]. split; [exact Hle|].
  exists g. split; assumption.
Defined.
